(* ===== verification/_CoqProject ===== *)
-Q . S2P
Prelude.v
Bytes.v
OrdMap.v
Stream.v
Feeder.v
UrlEncode.v
QueryString.v
Method.v
Header.v
Resource.v
Status.v
Date.v
Mime.v
Chunked.v
Http1Io.v
Frame.v
HpackTables.v
Huffman.v
Hpack.v
Sha1.v
Handshake.v
WsConnection.v
Route.v
RouteFacts.v
Group.v
Server.v
VPath.v
Router.v
StaticContent.v
FileExtensions.v
WebsocketEndpoint.v
Connection.v
ConnectionFacts.v
ReverseProxy.v
Multipart.v
ConnectionH2.v
ConnectionH2Facts.v
ConnectionH2Delivery.v
ConnectionH2Flow.v
ConnectionH2Request.v
ConnectionH2Runs.v
ConnectionH2Failure.v
MpmcQueue.v
MpmcQueueFacts.v
ThreadPool.v
ThreadPoolFacts.v
Plugin.v
Listener.v
ListenerFacts.v
FileStream.v
IoContext.v
IoContextFacts.v
Reactor.v
Coroutine.v
CoroutineFacts.v
CoroutineSafety.v
SyncWait.v
BlockingCall.v
Tls.v
TlsServer.v
Address.v
Socket.v
SocketFacts.v
AsyncSocket.v
IocpReactor.v
EpollReactor.v
FileMapping.v
Splice.v
SocketOps.v
Win32Socket.v
TransmitFile.v
IoPool.v
FileInfo.v
NhttpdEcho.v
Nhttpd.v
NhttpdWire.v
BenchCounter.v
