(* ===== verification/Prelude.v ===== *)
(** * A verification of libnhttp

    libnhttp is a C++20 HTTP server library: coroutines over an event loop, an
    HTTP/1.1 and an HTTP/2 driver, WebSockets, a router with middlewares, and
    extensions that serve files, mount sub-trees and proxy to other servers.
    This library models it, component by component, as executable definitions
    translated from the sources, and proves what makes each component correct.

    ** How a connection flows through the program

    [listener] (src/server/listener.cpp) binds the workers' sockets, admits a
    connection, reads its first four bytes and replays them into one of two
    drivers: [connection] (HTTP/1.1) or [connection_h2] (HTTP/2).  A driver
    builds a [request] and calls the listener's dispatch: the first extension of
    the registry, in order of priority, that wants the request handles it, else
    the handler.  The router, the static-content extensions, the mounts, the
    reverse proxy and the WebSocket endpoint are extensions.  Everything that
    waits does so in the event loop ([io_context]); work that blocks goes to the
    thread pool, whose queue is lock-free.

    ** The files

    Foundations: [Prelude] (bytes, machine integers, tactics, hint databases);
    [Bytes] (searching, numbers, hexadecimal); [OrdMap] (std::map); [Stream]
    (io/stream.hpp as the classes [Stream], [StreamReads], [StreamWrites],
    [StreamDuplex], [StreamSeeks]; memory_stream, range_stream, the socket loops
    and a wire that cuts its bytes anywhere); [Feeder] (the read-ahead buffer
    shared by the parsers).

    Protocol (src/protocol): [UrlEncode], [QueryString], [Method], [Header],
    [Resource] (request line), [Status], [Date], [Mime], [Chunked], [Multipart].

    HTTP/1.1 (src/server): [Http1Io] (http1_io.cpp), [Connection] and
    [ConnectionFacts] (connection.cpp).

    HTTP/2 (src/http2, src/server): [Frame], [HpackTables], [Huffman], [Hpack];
    [ConnectionH2] models connection_h2.cpp: a coroutine is the point where it is
    suspended with its locals ([task]), [step] runs one to its next suspension,
    [reach] closes it over every schedule.  [ConnectionH2Facts] holds the
    invariants of the writer lock and of the windows, [ConnectionH2Delivery] that
    responses are delivered, [ConnectionH2Flow] who waits for a window and what
    becomes of a stream's credit, [ConnectionH2Request] that requests are
    reassembled, [ConnectionH2Runs] concrete runs; [ConnectionH2Failure] adds
    exceptions at every suspension point and the destruction of the connection.

    WebSockets (src/ws): [Sha1], [Handshake], [WsConnection].

    Router (src/router): [Route] and [RouteFacts] (the trie as an arena of
    nodes), [Group] (group proxies and middleware stacks), [Router].

    Server and extensions (src/server, src/server/extensions): [Server] (request,
    response, registry), [VPath] (vpath, vhost), [StaticContent] and
    [FileExtensions] (static_content, overlay, single_file),
    [WebsocketEndpoint], [ReverseProxy], [Plugin] (src/plugin), [Listener] and
    [ListenerFacts].

    Runtime (src/async, src/io): [MpmcQueue] and [MpmcQueueFacts] (the queue, one
    step per access to shared memory, and the abstract queue [fifo] it promises),
    [ThreadPool] and [ThreadPoolFacts] (built on that promise, a mutex and a
    condition variable), [IoContext] and [IoContextFacts] (registrations and
    interest, events, timers, posting across threads), [IoPool] (the pool of
    event loops), [FileStream] (stdio and the memory-mapped window); [Coroutine],
    [CoroutineFacts] and [CoroutineSafety] (task.hpp: frames on a heap, a stack of
    the executing ones, symmetric transfer), [SyncWait] (sync_wait.hpp),
    [BlockingCall] ([thread_pool::run]: the pool and the loop side by side).

    Platform (src/platform, src/async/socket.cpp): [Reactor] (the interface of
    reactor.hpp with its contract, and [io_context] over it), [IocpReactor]
    (Windows) and [EpollReactor] (POSIX) with the instances for both; [Address],
    [Socket] and [SocketFacts] (handles, retry loops), [SocketOps] (options, names,
    [listener::listen] down to the sockets), [Win32Socket] (the Winsock handle),
    [AsyncSocket], [TransmitFile] (the Windows file transfer), [FileMapping],
    [FileInfo].

    TLS (src/tls): [Tls] (tls_stream over memory BIOs) and [TlsServer] (contexts,
    the HTTPS connection).  [Splice] is the pair of pumps of an upgraded proxied
    connection (reverse_proxy.cpp).

    A whole program (src/examples/nhttpd/main.cpp): [NhttpdEcho] is its WebSocket
    echo, [Nhttpd] its handlers, routes, registry, plugin and [main], [NhttpdWire]
    the program behind the listener, from bytes to bytes.  [BenchCounter] is the
    counter benchmark (src/benchmark/docker/nhttp): jobs of the pool that share a
    file and a mutex.

    ** Conventions

    A [std::string] or byte vector is a [list byte]; an integer is a [Z] whose
    wrap-around is written out with [uwrap] where the code can reach it, and
    signed overflow is [None].  A throwing or failing operation returns an
    [option] or a sum.  Shared objects (route nodes, group proxies, HTTP/2
    streams, registrations) live in heaps and are named by index or key, so that
    aliasing is what the code has.  HTTP/2 streams are held by [shared_ptr]s and
    their heap only grows.  Reading an object that is gone is [None] or
    [Undefined].  In the sequential models [co_await] is sequential composition,
    which [sync_wait_returns] justifies; in [ConnectionH2], [IoContext], [IoPool],
    [ThreadPool], [BlockingCall], [MpmcQueue], [Listener], [SyncWait] and [Splice] it,
    or the access to shared memory, is a scheduling point.

    Loops that wait for the peer take fuel and return [None] when it runs out.
    The theorems say how much is enough, in terms of the bytes to come and the
    answer's size: for [run] twice the length of the input plus the cost of each
    answer, for HPACK the length of the block (every field takes a byte), for the
    peek five reads, for a TLS call one more than the ciphertext to come.  [mpmc_refines_fifo] covers runs of up to 2^62 accesses, so
    that no 64-bit position wraps.

    ** What is proved

    - Programs: [nhttpd_serves_wire] composes the listener, the HTTP/1.1 loop and
      everything below: the bytes of a connection of API requests are answered with
      the bytes the program's table of routes names, and the counter its handlers
      share goes on from request to request; [nhttpd_api_answers] adds the overlay
      and the endpoint, one request at a time; [echo_relays] is a WebSocket session;
      as a lemma [every_request_counts] (the counter file under the mutex).
    - Drivers: [listener_serves_pipelined], [tls_serves_pipelined] (a handler
      that throws ends the connection without an answer; a TLS session may fail at
      any call);
      [h2_request_assembled], [h2_response_delivered],
      [h2_frames_never_interleave], [h2_no_lost_wakeup] (a coroutine that waits
      faces a closed window) and [h2_stream_window_respected] (credit received is
      data sent and window left) under every schedule;
      [h2_failed_write_is_final] with exceptions anywhere.
    - Bodies: [chunked_body_exact], [multipart_client_reads]; as a lemma
      [transmit_body_exact].
    - Codecs: [hpack_roundtrip], [hpack_decode_table_invariant],
      [hpack_decode_terminates], [ws_receive_reassembles]; and, as lemmas, round
      trips of dates, frames, media types, query strings, base64 and endpoints.
    - Routing: [route_match_sound] and [route_match_complete] relate the
      backtracking search to a declarative matching relation;
      as lemmas [router_serves_registered] and [mounts_balanced].
    - Files: [overlay_serves_below_base] (no request escapes its directory),
      [file_stream_equals_memory], [ranges_served_exactly].
    - Extensions: [proxy_relays_response], [splice_relays_exactly],
      [plugin_hooks_bracketed].
    - Coroutines: [coroutine_frames_safe] (no frame is used after it is freed and
      none is left), [sync_wait_returns] (awaiting is calling),
      [blocking_calls_return].
    - Event loop: [io_interest_exact], [io_no_lost_post], [io_pool_stops];
      [context_refines_table]: the loop over any reactor that keeps its contract
      runs in step with the loop over a table of registrations.
    - Sockets: [socket_handles_close_once], [win32_handles_refine_posix] (so the
      same on Windows), [async_sockets_owned], [listen_binds_one_port],
      [listener_admission_bounded]; as a lemma [async_retry_exact].
    - Threads: [mpmc_refines_fifo], [pool_runs_every_job], [pool_no_lost_wakeup].

    Examples beside the theorems are runs in which the code does not do what its
    comments say or what it means to; each is named where it stands.

    ** Interfaces and parameters

    Streams are used through the classes of [Stream]; the drivers are proved
    against them and [wire_StreamDuplex], [memory_StreamReads],
    [range_StreamReads], [bw_StreamReads], [chunked_StreamReads], [part_StreamReads]
    (a part of a multipart body) and [body_StreamReads] discharge them.
    A TLS session over any stream is one more instance ([secure_StreamDuplex]), so
    that the HTTP/1.1 driver's theorem applies to it; OpenSSL is [SslEngine] with
    the contract [SslSession], which [toy_SslSession] meets.  The event loop uses a
    [Reactor] with the contract [ReactorSpec], discharged by [epoll_ReactorSpec]
    and [iocp_ReactorSpec].  [Platform] is what differs between POSIX and Windows
    sockets.  The thread pool is proved against [fifo], which [mpmc_refines_fifo]
    discharges.  Request handlers, extensions, route targets, the clock, the
    file system, [mmap], the outcomes of socket calls and an upstream connection
    are parameters.  What a program's handlers share beyond the request (the objects
    their closures refer to) is a type [X] of [Connection.run], carried from request
    to request; [enter] and [leave] of [Listener] put it beside the body and back.

    ** Not modelled

    The code of OpenSSL and of the operating systems; exceptions other than a
    handler's inside the HTTP/1.1 driver; weak memory beyond sequential
    consistency in [MpmcQueue] and [ThreadPool]; texts of error messages and what
    the programs print; the benchmarks; version strings.
    The header and idle timeouts of params.hpp are not read anywhere in the
    sources. *)

From Stdlib Require Export ZArith Lia Strings.String Strings.Byte.
From stdpp Require Export base list gmap sorting.

#[local] Open Scope Z_scope.

(** ** Bytes

    A C++ [char]/[std::uint8_t] is a [Byte.byte]; [std::string],
    [std::string_view] and [std::vector<std::uint8_t>] are [list byte].
    [b2z] reads a byte as an unsigned integer and [z2b] is the
    [static_cast<std::uint8_t>] of an integer (reduction modulo 256). *)

Abbreviation bytes := (list byte).

Definition b2z (b : byte) : Z := Z.of_N (Byte.to_N b).

Definition z2b (z : Z) : byte :=
  match Byte.of_N (Z.to_N (z mod 256)) with Some b => b | None => x00 end.

(** String literals of the source. *)
Definition str (s : String.string) : bytes := String.list_byte_of_string s.
#[global] Arguments str : simpl never.

Definition CR : byte := x0d.
Definition LF : byte := x0a.
Definition SP : byte := x20.
Definition HTAB : byte := x09.
Definition DQUOTE : byte := x22.
Definition CRLF : bytes := [CR; LF].

#[global] Instance byte_eq_decision : EqDecision byte := Byte.byte_eq_dec.

#[global] Instance byte_countable : Countable byte.
Proof.
  refine (inj_countable Byte.to_N Byte.of_N _).
  apply Byte.of_to_N.
Defined.

(** ** Machine integers

    A [w]-bit unsigned integer is a [Z] in [0, 2^w); arithmetic on it wraps
    with [uwrap w].  Signed 64-bit arithmetic that leaves its range is
    undefined behaviour in C++: the operations that can reach it return an
    [option], [None] standing for the undefined result. *)

Definition uwrap (w z : Z) : Z := z mod 2 ^ w.

Definition in_u (w z : Z) : Prop := 0 <= z < 2 ^ w.

Definition i64_max : Z := 9223372036854775807.

Definition i64_checked (z : Z) : option Z :=
  if (-9223372036854775808 <=? z) && (z <=? i64_max) then Some z else None.

(** [std::numeric_limits<std::size_t>::max()] + 1. *)
Definition size_t_modulus : Z := 18446744073709551616.

Lemma size_t_modulus_pow : size_t_modulus = 2 ^ 64.
Proof. reflexivity. Qed.

(** ** Tactics *)

(** Turn boolean comparisons of the context into propositions. *)
Ltac bool_to_prop :=
  repeat match goal with
  | H : (_ && _)%bool = true |- _ => apply andb_prop in H; destruct H
  | H : (_ || _)%bool = false |- _ => apply orb_false_elim in H; destruct H
  | H : negb _ = true |- _ => apply negb_true_iff in H
  | H : negb _ = false |- _ => apply negb_false_iff in H
  | H : (_ <=? _) = true |- _ => apply Z.leb_le in H
  | H : (_ <=? _) = false |- _ => apply Z.leb_gt in H
  | H : (_ <? _) = true |- _ => apply Z.ltb_lt in H
  | H : (_ <? _) = false |- _ => apply Z.ltb_ge in H
  | H : (_ =? _) = true |- _ => apply Z.eqb_eq in H
  | H : (_ =? _) = false |- _ => apply Z.eqb_neq in H
  | H : (_ <=? _)%nat = true |- _ => apply Nat.leb_le in H
  | H : (_ <=? _)%nat = false |- _ => apply Nat.leb_gt in H
  | H : (_ <? _)%nat = true |- _ => apply Nat.ltb_lt in H
  | H : (_ <? _)%nat = false |- _ => apply Nat.ltb_ge in H
  | H : (_ =? _)%nat = true |- _ => apply Nat.eqb_eq in H
  | H : (_ =? _)%nat = false |- _ => apply Nat.eqb_neq in H
  | H : bool_decide _ = true |- _ => apply bool_decide_eq_true in H
  | H : bool_decide _ = false |- _ => apply bool_decide_eq_false in H
  end.

(** Case analysis on the innermost boolean test of the goal. *)
Ltac case_if :=
  match goal with
  | |- context [if ?b then _ else _] =>
      lazymatch b with
      | context [if _ then _ else _] => fail
      | context [match _ with _ => _ end] => fail
      | _ => destruct b eqn:?
      end
  end; bool_to_prop.

(** Length goals over [app], [take], [drop], [map]. *)
Create Rewrite HintDb nhttp_len.
#[export] Hint Rewrite @length_app @length_take @length_drop @length_fmap
  @length_replicate @length_reverse @length_nil @length_cons : nhttp_len.

Ltac solve_len := autorewrite with nhttp_len in *; cbn [length] in *; lia.

(** Absence of a byte from a concatenation. *)
Ltac solve_notin :=
  repeat match goal with
  | |- _ ∉ _ ++ _ => apply not_elem_of_app; split
  | |- _ ∉ _ :: _ => apply not_elem_of_cons; split
  | |- _ ∉ [] => apply not_elem_of_nil
  end; try done.

(** The development's search database. *)
Create HintDb nhttp.

(** ** Byte lemmas *)

Lemma b2z_range b : 0 <= b2z b < 256.
Proof. destruct b; cbv; split; congruence. Qed.

Lemma z2b_b2z b : z2b (b2z b) = b.
Proof. destruct b; reflexivity. Qed.

Lemma b2z_z2b z : b2z (z2b z) = z mod 256.
Proof.
  unfold b2z, z2b.
  pose proof (Z.mod_pos_bound z 256 ltac:(lia)).
  destruct (Byte.of_N (Z.to_N (z mod 256))) as [b|] eqn:E.
  - apply Byte.to_of_N in E. rewrite E. lia.
  - apply Byte.of_N_None_iff in E. lia.
Qed.

Lemma b2z_z2b_small z : 0 <= z < 256 -> b2z (z2b z) = z.
Proof. intros. rewrite b2z_z2b. by apply Z.mod_small. Qed.

Lemma b2z_inj a b : b2z a = b2z b -> a = b.
Proof. intros H. rewrite <-(z2b_b2z a), <-(z2b_b2z b). by f_equal. Qed.

Lemma z2b_mod z : z2b (z mod 256) = z2b z.
Proof. apply b2z_inj. rewrite !b2z_z2b. apply Z.mod_mod. lia. Qed.

#[export] Hint Resolve b2z_range : nhttp.

(** Every byte, so that a property of all bytes is decided by evaluation. *)
Definition all_bytes : bytes := map z2b (seqZ 0 256).

Lemma elem_of_all_bytes b : b ∈ all_bytes.
Proof.
  unfold all_bytes. apply list_elem_of_fmap. exists (b2z b).
  split; [by rewrite z2b_b2z|].
  apply elem_of_seqZ. pose proof (b2z_range b). lia.
Qed.

Lemma forall_bytes (f : byte -> bool) :
  forallb f all_bytes = true -> forall b, f b = true.
Proof.
  intros H b. rewrite forallb_forall in H. apply H.
  apply list_elem_of_In, elem_of_all_bytes.
Qed.

(** Decide a closed boolean property of all bytes. *)
Ltac by_all_bytes f :=
  apply (forall_bytes f); vm_compute; reflexivity.

(** ** Integer lemmas *)

Lemma uwrap_small w z : 0 <= z < 2 ^ w -> uwrap w z = z.
Proof. apply Z.mod_small. Qed.

Lemma uwrap_range w z : 0 <= w -> 0 <= uwrap w z < 2 ^ w.
Proof. intros. apply Z.mod_pos_bound. by apply Z.pow_pos_nonneg. Qed.

Lemma uwrap_uwrap w z : uwrap w (uwrap w z) = uwrap w z.
Proof. unfold uwrap. apply Zmod_mod. Qed.

Lemma i64_checked_Some z r : i64_checked z = Some r <-> r = z /\ -9223372036854775808 <= z <= i64_max.
Proof.
  unfold i64_checked. split.
  - case_if; intros; simplify_eq; lia.
  - intros [-> [H1 H2]]. apply Z.leb_le in H1, H2. by rewrite H1, H2.
Qed.

Lemma i64_checked_in z : -9223372036854775808 <= z <= i64_max -> i64_checked z = Some z.
Proof. intros. by apply i64_checked_Some. Qed.

(** A disjoint [lor] is an addition. *)
Lemma lor_shiftl_add a b n :
  0 <= n -> 0 <= b < 2 ^ n -> Z.lor (Z.shiftl a n) b = a * 2 ^ n + b.
Proof.
  intros Hn Hb. rewrite <-Z.shiftl_mul_pow2 by done.
  rewrite Z.add_nocarry_lxor.
  - symmetry. apply Z.lxor_lor.
    apply Z.bits_inj'. intros i Hi. rewrite Z.land_spec, Z.bits_0.
    destruct (Z.lt_ge_cases i n).
    + rewrite Z.shiftl_spec_low by lia. done.
    + rewrite andb_comm.
      assert (Z.testbit b i = false) as ->; [|done].
      destruct (Z.eq_dec b 0) as [->|]; [apply Z.bits_0|].
      apply Z.bits_above_log2; [lia|].
      enough (Z.log2 b < n) by lia. apply Z.log2_lt_pow2; lia.
  - apply Z.bits_inj'. intros i Hi. rewrite Z.land_spec, Z.bits_0.
    destruct (Z.lt_ge_cases i n).
    + rewrite Z.shiftl_spec_low by lia. done.
    + rewrite andb_comm.
      assert (Z.testbit b i = false) as ->; [|done].
      destruct (Z.eq_dec b 0) as [->|]; [apply Z.bits_0|].
      apply Z.bits_above_log2; [lia|].
      enough (Z.log2 b < n) by lia. apply Z.log2_lt_pow2; lia.
Qed.

Lemma land_ones_mod a n : 0 <= n -> Z.land a (Z.ones n) = a mod 2 ^ n.
Proof. apply Z.land_ones. Qed.

Lemma land_ff a : Z.land a 255 = a mod 256.
Proof. apply (Z.land_ones a 8). lia. Qed.

(** ** Generic list lemmas *)

Lemma take_drop_app {A} (n : nat) (l : list A) : take n l ++ drop n l = l.
Proof. apply take_drop. Qed.

Lemma drop_app_exact {A} (l k : list A) : drop (length l) (l ++ k) = k.
Proof. by rewrite drop_app_length. Qed.

Lemma take_app_exact {A} (l k : list A) : take (length l) (l ++ k) = l.
Proof. by rewrite take_app_length. Qed.

(** What follows the first separator of a string. *)
Lemma drop_sep {A} (p : list A) c r : drop (S (length p)) (p ++ c :: r) = r.
Proof. induction p as [|x p IH]; [done|exact IH]. Qed.
