(* ===== verification/Bytes.v ===== *)
(** * Bytes: the [std::string] / [std::string_view] operations the sources use

    Searching ([find], [memchr], [find_last_of]), comparison (equality,
    [operator<], the C-locale [tolower], [strncasecmp]), trimming, and the
    positional number formats ([std::to_string], [%llx]).  Everything is
    executable; the lemmas are the specifications the components use. *)

From S2P Require Import Prelude.

#[local] Open Scope Z_scope.

(** ** Searching *)

(** [s.find(c)] and [memchr(s, c, n)]: the index of the first occurrence. *)
Fixpoint find_byte (c : byte) (s : bytes) : option nat :=
  match s with
  | [] => None
  | x :: r => if Byte.eqb x c then Some 0%nat else S <$> find_byte c r
  end.

(** [s.find(c, pos)]. *)
Definition find_byte_from (c : byte) (pos : nat) (s : bytes) : option nat :=
  (fun i => pos + i)%nat <$> find_byte c (drop pos s).

(** [s.find_last_of(c)]. *)
Fixpoint find_last (c : byte) (s : bytes) : option nat :=
  match s with
  | [] => None
  | x :: r =>
      match find_last c r with
      | Some i => Some (S i)
      | None => if Byte.eqb x c then Some 0%nat else None
      end
  end.

Fixpoint is_prefix (p s : bytes) : bool :=
  match p, s with
  | [], _ => true
  | x :: p', y :: s' => Byte.eqb x y && is_prefix p' s'
  | _ :: _, [] => false
  end.

(** [s.find(pat)] for a string pattern. *)
Fixpoint find_sub (pat s : bytes) : option nat :=
  if is_prefix pat s then Some 0%nat
  else match s with [] => None | _ :: r => S <$> find_sub pat r end.

(** ** Comparison *)

Definition bytes_eqb (a b : bytes) : bool := bool_decide (a = b).

(** [std::string::operator<]: lexicographic on unsigned bytes. *)
Fixpoint bytes_ltb (a b : bytes) : bool :=
  match a, b with
  | _, [] => false
  | [], _ :: _ => true
  | x :: a', y :: b' =>
      if b2z x <? b2z y then true
      else if b2z y <? b2z x then false
      else bytes_ltb a' b'
  end.

(** C-locale [std::tolower]. *)
Definition to_lower_byte (c : byte) : byte :=
  if (65 <=? b2z c) && (b2z c <=? 90) then z2b (b2z c + 32) else c.

Definition to_lower (s : bytes) : bytes := map to_lower_byte s.

(** [strncasecmp(a, b, n) == 0]: bytes after a NUL are not compared. *)
Fixpoint strncasecmp_eq (a b : bytes) (n : nat) : bool :=
  match n, a, b with
  | O, _, _ => true
  | S n', x :: a', y :: b' =>
      if Byte.eqb (to_lower_byte x) (to_lower_byte y)
      then if Byte.eqb x x00 then true else strncasecmp_eq a' b' n'
      else false
  | S _, [], [] => true
  | S _, _, _ => false
  end.

(** ** Trimming *)

(** [while (!s.empty() && p(s.front())) s.remove_prefix(1)]. *)
Fixpoint trim_front (p : byte -> bool) (s : bytes) : bytes :=
  match s with
  | [] => []
  | x :: r => if p x then trim_front p r else s
  end.

(** [while (!s.empty() && p(s.back())) s.remove_suffix(1)]. *)
Definition trim_back (p : byte -> bool) (s : bytes) : bytes :=
  rev (trim_front p (rev s)).

Definition is_blank (c : byte) : bool := Byte.eqb c SP || Byte.eqb c HTAB.

(** ** Digits *)

Definition is_digit (c : byte) : bool := (48 <=? b2z c) && (b2z c <=? 57).

Definition digit_value (c : byte) : Z := b2z c - 48.

(** The digit characters of [printf]'s lower-case hexadecimal. *)
Definition hex_digit (v : Z) : byte := z2b (if v <? 10 then 48 + v else 87 + v).

Definition dec_digit (v : Z) : byte := z2b (48 + v).

(** Digits of [v], least significant first; [fuel] bounds their number. *)
Fixpoint digits_rev (base : Z) (fuel : nat) (v : Z) : list Z :=
  match fuel with
  | O => []
  | S f => if v =? 0 then [] else v mod base :: digits_rev base f (v / base)
  end.

Definition digits_fuel (v : Z) : nat := S (Z.to_nat (Z.log2 v)).

(** Most significant digit first, ["0"] for zero. *)
Definition digits (base v : Z) : list Z :=
  if v =? 0 then [0] else rev (digits_rev base (digits_fuel v) v).

Definition eval_digits (base : Z) (acc : Z) (ds : list Z) : Z :=
  fold_left (fun a d => a * base + d) ds acc.

(** [std::to_string] of a (signed) integer. *)
Definition to_string (v : Z) : bytes :=
  if v <? 0 then x2d :: map dec_digit (digits 10 (- v))
  else map dec_digit (digits 10 v).

(** [%llx]: the argument converted to [unsigned long long]. *)
Definition to_hex (v : Z) : bytes := map hex_digit (digits 16 (uwrap 64 v)).

(** ** Lemmas on searching *)

Lemma byte_eqb_refl c : Byte.eqb c c = true.
Proof. by apply Byte.byte_dec_lb. Qed.

Lemma byte_eqb_true a b : Byte.eqb a b = true <-> a = b.
Proof.
  split; [apply Byte.byte_dec_bl|intros ->; apply byte_eqb_refl].
Qed.

Lemma byte_eqb_false a b : Byte.eqb a b = false <-> a <> b.
Proof. rewrite <-byte_eqb_true. by destruct (Byte.eqb a b). Qed.

(** Case analysis on a byte comparison of the goal. *)
Ltac case_byte :=
  match goal with
  | |- context [Byte.eqb ?a ?b] =>
      let E := fresh "E" in
      destruct (Byte.eqb a b) eqn:E;
      [apply byte_eqb_true in E | apply byte_eqb_false in E]
  end.

Lemma bytes_eqb_true a b : bytes_eqb a b = true <-> a = b.
Proof. apply bool_decide_eq_true. Qed.

Lemma bytes_eqb_false a b : bytes_eqb a b = false <-> a <> b.
Proof. apply bool_decide_eq_false. Qed.

Lemma bytes_eqb_refl a : bytes_eqb a a = true.
Proof. by apply bytes_eqb_true. Qed.

Lemma find_byte_None c s : find_byte c s = None <-> c ∉ s.
Proof.
  induction s as [|x r IH]; simpl; [set_solver|].
  case_byte; [set_solver|].
  rewrite fmap_None, IH. set_solver.
Qed.

(** The decomposition every [find]-then-[substr] of the sources relies on. *)
Lemma find_byte_Some c s i :
  find_byte c s = Some i <->
  exists p r, s = p ++ c :: r /\ length p = i /\ c ∉ p.
Proof.
  revert i. induction s as [|x s' IH]; intros i; simpl.
  - split; [done|]. intros (p & r & H & _). by destruct p.
  - case_byte.
    + subst. split.
      * intros [= <-]. exists [], s'. split; [done|]. split; [done|]. apply not_elem_of_nil.
      * intros (p & r & H & Hl & Hn). destruct p; [by simplify_eq/=|]. set_solver.
    + rewrite fmap_Some. split.
      * intros (j & Hj & ->). apply IH in Hj as (p & r & -> & Hl & Hn).
        exists (x :: p), r. simpl. rewrite Hl. split; [done|]. split; [done|]. set_solver.
      * intros (p & r & H & Hl & Hn). destruct p as [|y p]; simplify_eq/=.
        exists (length p). split; [|done]. apply IH. exists p, r. set_solver.
Qed.

Lemma find_byte_app c p r : c ∉ p -> find_byte c (p ++ c :: r) = Some (length p).
Proof. intros. apply find_byte_Some. by exists p, r. Qed.

(** A hit is stable when more bytes arrive. *)
Lemma find_byte_extend c s t i : find_byte c s = Some i -> find_byte c (s ++ t) = Some i.
Proof.
  intros (p & r & -> & <- & Hn)%find_byte_Some.
  rewrite <-app_assoc. by apply find_byte_app.
Qed.

Lemma find_byte_lt c s i : find_byte c s = Some i -> (i < length s)%nat.
Proof. intros (p & r & -> & <- & _)%find_byte_Some. rewrite length_app. simpl. lia. Qed.

(** The first occurrence in [s ++ t] lies beyond an [s] that has none. *)
Lemma find_byte_beyond c s t i : find_byte c (s ++ t) = Some i -> c ∉ s -> (length s <= i)%nat.
Proof.
  revert i. induction s as [|x s IH]; intros i; cbn; [lia|]. intros Hi Hn.
  apply not_elem_of_cons in Hn as [Hx Hn]. rewrite (proj2 (byte_eqb_false x c)) in Hi by congruence.
  destruct (find_byte c (s ++ t)) as [j|]; [|done]. injection Hi as <-. specialize (IH j eq_refl Hn). lia.
Qed.

Lemma find_byte_take c s i : find_byte c s = Some i -> c ∉ take i s.
Proof.
  intros (p & r & -> & <- & Hn)%find_byte_Some. by rewrite take_app_length.
Qed.

Lemma find_byte_split c s i :
  find_byte c s = Some i -> s = take i s ++ c :: drop (S i) s.
Proof.
  intros (p & r & -> & <- & _)%find_byte_Some.
  rewrite take_app_length. f_equal.
  replace (S (length p)) with (length p + 1)%nat by lia.
  by rewrite <-drop_drop, drop_app_length.
Qed.

Lemma find_last_None c s : find_last c s = None <-> c ∉ s.
Proof.
  induction s as [|x r IH]; simpl; [set_solver|].
  destruct (find_last c r); [split; [done|]|].
  - intros Hn. exfalso. destruct IH as [_ IH]. discriminate IH. set_solver.
  - case_byte; [set_solver|]. destruct IH as [IH _]. specialize (IH eq_refl). set_solver.
Qed.

Lemma find_last_app c p r : c ∉ r -> find_last c (p ++ c :: r) = Some (length p).
Proof.
  intros Hr. induction p as [|x p IH]; simpl.
  - by rewrite (proj2 (find_last_None c r) Hr), byte_eqb_refl.
  - by rewrite IH.
Qed.

Lemma is_prefix_spec p s : is_prefix p s = true <-> exists r, s = p ++ r.
Proof.
  revert s. induction p as [|x p IH]; intros s; simpl.
  - split; [eauto|done].
  - destruct s as [|y s]; [by split; [|intros [? ?]]|].
    rewrite andb_true_iff, byte_eqb_true, IH. split.
    + intros [-> [r ->]]. by exists r.
    + intros [r [= -> ->]]. eauto.
Qed.

Lemma find_sub_Some pat s i :
  find_sub pat s = Some i -> exists p r, s = p ++ pat ++ r /\ length p = i.
Proof.
  revert i. induction s as [|x s IH]; intros i; cbn [find_sub].
  - destruct (is_prefix pat []) eqn:E; [|done]. intros [= <-].
    apply is_prefix_spec in E as [r E]. by exists [], r.
  - destruct (is_prefix pat (x :: s)) eqn:E.
    + intros [= <-]. apply is_prefix_spec in E as [r E]. by exists [], r.
    + rewrite fmap_Some. intros (j & Hj & ->).
      destruct (IH j Hj) as (p & r & -> & Hl). exists (x :: p), r.
      simpl. by rewrite Hl.
Qed.

(** The first occurrence: no earlier position matches. *)
Lemma find_sub_least pat s i j :
  find_sub pat s = Some i -> (j < i)%nat -> is_prefix pat (drop j s) = false.
Proof.
  revert i j. induction s as [|x s IH]; intros i j; cbn [find_sub].
  - destruct (is_prefix pat []); [|done]. intros [= <-]. lia.
  - destruct (is_prefix pat (x :: s)) eqn:E; [intros [= <-]; lia|].
    rewrite fmap_Some. intros (k & Hk & ->) Hj.
    destruct j as [|j]; [done|]. simpl. apply (IH k j Hk). lia.
Qed.

Lemma find_sub_None pat s :
  find_sub pat s = None -> forall j, (j <= length s)%nat -> is_prefix pat (drop j s) = false.
Proof.
  induction s as [|x s IH]; cbn [find_sub]; intros H j Hj.
  - destruct (is_prefix pat []) eqn:E; [done|]. by rewrite drop_nil.
  - destruct (is_prefix pat (x :: s)) eqn:E; [done|].
    destruct j as [|j]; [done|]. simpl. apply IH; [|simpl in Hj; lia].
    by apply fmap_None in H.
Qed.

(** ** Lemmas on comparison *)

Lemma bytes_ltb_irrefl a : bytes_ltb a a = false.
Proof. induction a as [|x a IH]; simpl; [done|]. by rewrite Z.ltb_irrefl, IH. Qed.

Lemma bytes_ltb_trans a b c :
  bytes_ltb a b = true -> bytes_ltb b c = true -> bytes_ltb a c = true.
Proof.
  revert b c. induction a as [|x a IH]; intros [|y b] [|z c]; simpl; try done.
  repeat case_if; intros; try done; try lia. eauto.
Qed.

Lemma bytes_ltb_total a b : bytes_ltb a b = false -> bytes_ltb b a = false -> a = b.
Proof.
  revert b. induction a as [|x a IH]; intros [|y b]; simpl; try done.
  repeat case_if; intros; try done; try lia.
  f_equal; [|by apply IH]. apply b2z_inj. lia.
Qed.

Lemma bytes_ltb_asym a b : bytes_ltb a b = true -> bytes_ltb b a = false.
Proof.
  intros H. destruct (bytes_ltb b a) eqn:E; [|done].
  pose proof (bytes_ltb_trans _ _ _ H E). by rewrite bytes_ltb_irrefl in *.
Qed.

Lemma bytes_ltb_neq a b : bytes_ltb a b = true -> a <> b.
Proof. intros H ->. by rewrite bytes_ltb_irrefl in H. Qed.

Lemma to_lower_idem c : to_lower_byte (to_lower_byte c) = to_lower_byte c.
Proof. destruct c; reflexivity. Qed.

(** [strncasecmp] over whole strings of equal size compares the lower-cased
    parts before the first NUL. *)
Definition casefold_key (s : bytes) : bytes :=
  to_lower (match find_byte x00 s with Some i => take i s | None => s end).

Lemma casefold_key_cons x s :
  casefold_key (x :: s) =
  if Byte.eqb x x00 then [] else to_lower_byte x :: casefold_key s.
Proof.
  unfold casefold_key. simpl. destruct (Byte.eqb x x00) eqn:E; [done|].
  by destruct (find_byte x00 s).
Qed.

Lemma to_lower_byte_nul c : Byte.eqb (to_lower_byte c) x00 = Byte.eqb c x00.
Proof. destruct c; reflexivity. Qed.

Lemma strncasecmp_eq_key a b :
  length a = length b ->
  strncasecmp_eq a b (length a) = true <-> casefold_key a = casefold_key b.
Proof.
  revert b. induction a as [|x a IH]; intros [|y b]; try done.
  intros [= Hl]. rewrite !casefold_key_cons. cbn [strncasecmp_eq length].
  assert (to_lower_byte x = to_lower_byte y -> Byte.eqb x x00 = Byte.eqb y x00) as Hn.
  { intros H. rewrite <-(to_lower_byte_nul x), <-(to_lower_byte_nul y). by rewrite H. }
  destruct (Byte.eqb (to_lower_byte x) (to_lower_byte y)) eqn:E.
  - apply byte_eqb_true in E. rewrite <-(Hn E). destruct (Byte.eqb x x00); [done|].
    rewrite E, (IH b Hl). split; [by intros ->|by intros [=]].
  - apply byte_eqb_false in E. split; [done|]. intros H. exfalso.
    destruct (Byte.eqb x x00) eqn:Ex, (Byte.eqb y x00) eqn:Ey; simplify_eq.
    apply byte_eqb_true in Ex, Ey. by subst.
Qed.

(** ** Lemmas on trimming *)

Lemma trim_front_id p s : (forall x, head s = Some x -> p x = false) -> trim_front p s = s.
Proof. destruct s as [|x s]; simpl; [done|]. intros H. by rewrite (H x eq_refl). Qed.

Lemma trim_front_app_all p a b :
  forallb p a = true -> trim_front p (a ++ b) = trim_front p b.
Proof. induction a as [|x a IH]; simpl; [done|]. intros [-> H]%andb_prop. by apply IH. Qed.

Lemma trim_front_head p s x : head (trim_front p s) = Some x -> p x = false.
Proof.
  induction s as [|y s IH]; simpl; [done|]. destruct (p y) eqn:E; [done|].
  simpl. by intros [= <-].
Qed.

Lemma last_rev_head {A} (s : list A) : last s = head (rev s).
Proof.
  induction s as [|x s IH] using rev_ind; [done|].
  by rewrite last_snoc, rev_unit.
Qed.

Lemma trim_back_id p s : (forall x, last s = Some x -> p x = false) -> trim_back p s = s.
Proof.
  intros H. unfold trim_back. rewrite trim_front_id, rev_involutive; [done|].
  intros x Hx. apply H. by rewrite last_rev_head.
Qed.

Lemma trim_back_app_all p a b :
  forallb p b = true -> trim_back p (a ++ b) = trim_back p a.
Proof.
  intros H. unfold trim_back. rewrite rev_app_distr, trim_front_app_all; [done|].
  rewrite forallb_forall in *. intros x Hx. apply H. by apply in_rev.
Qed.

(** ** Lemmas on digits *)

Lemma eval_digits_app base acc ds es :
  eval_digits base acc (ds ++ es) = eval_digits base (eval_digits base acc ds) es.
Proof. apply fold_left_app. Qed.

Lemma digits_rev_eval base fuel v :
  2 <= base -> 0 <= v -> (Z.log2 v < Z.of_nat fuel) \/ v = 0 ->
  eval_digits base 0 (rev (digits_rev base fuel v)) = v.
Proof.
  intros Hb. revert v. induction fuel as [|f IH]; intros v Hv Hf; simpl.
  - pose proof (Z.log2_nonneg v). cbn. lia.
  - destruct (Z.eqb_spec v 0) as [->|Hz]; [done|].
    cbn [rev]. rewrite eval_digits_app, IH.
    + cbn. pose proof (Z.div_mod v base). lia.
    + by apply Z.div_pos; lia.
    + destruct (Z.eq_dec (v / base) 0); [by right|left].
      assert (v / base <= v / 2) by (apply Z.div_le_compat_l; lia).
      assert (0 < v / base) by (pose proof (Z.div_pos v base); lia).
      assert (Z.log2 (v / base) <= Z.log2 (v / 2)) by (apply Z.log2_le_mono; lia).
      assert (Z.log2 (v / 2) = Z.log2 v - 1).
      { rewrite <-Z.div2_div. rewrite Z.div2_spec, Z.log2_shiftr by lia.
        assert (1 <= Z.log2 v); [|lia].
        apply Z.log2_le_pow2; [lia|]. simpl.
        assert (0 < v / 2) by lia.
        pose proof (Z.mul_div_le v 2). lia. }
      lia.
Qed.

(** Printing then evaluating is the identity: every positional format of the
    sources round-trips through this lemma. *)
Lemma digits_eval base v : 2 <= base -> 0 <= v -> eval_digits base 0 (digits base v) = v.
Proof.
  intros. unfold digits. destruct (Z.eqb_spec v 0) as [->|]; [done|].
  apply digits_rev_eval; [done|done|]. left. unfold digits_fuel.
  pose proof (Z.log2_nonneg v). lia.
Qed.

Lemma digits_rev_range base fuel v :
  1 <= base -> Forall (fun d => 0 <= d < base) (digits_rev base fuel v).
Proof.
  intros. revert v. induction fuel as [|f IH]; intros v; simpl; [constructor|].
  destruct (v =? 0); constructor; [apply Z.mod_pos_bound; lia|apply IH].
Qed.

Lemma digits_range base v : 1 <= base -> Forall (fun d => 0 <= d < base) (digits base v).
Proof.
  intros. unfold digits. destruct (v =? 0); [repeat constructor; lia|].
  apply Forall_rev. by apply digits_rev_range.
Qed.

Lemma digits_nonempty base v : 1 <= base -> 0 <= v -> digits base v <> [].
Proof.
  intros. unfold digits, digits_fuel. destruct (Z.eqb_spec v 0); [done|].
  cbn [digits_rev]. destruct (Z.eqb_spec v 0); [done|]. cbn [rev].
  intros [_ ?]%app_eq_nil. done.
Qed.

Lemma digits_rev_length base fuel v w :
  2 <= base -> 0 <= v < base ^ Z.of_nat w -> (length (digits_rev base fuel v) <= w)%nat.
Proof.
  intros Hb. revert v w. induction fuel as [|f IH]; intros v w Hv; simpl; [lia|].
  destruct (Z.eqb_spec v 0); [simpl; lia|].
  destruct w as [|w]; [simpl in Hv; lia|].
  simpl. enough (length (digits_rev base f (v / base)) <= w)%nat by lia.
  apply IH. split; [apply Z.div_pos; lia|]. apply Z.div_lt_upper_bound; [lia|].
  rewrite <-Z.pow_succ_r by lia. replace (Z.succ (Z.of_nat w)) with (Z.of_nat (S w)) by lia. lia.
Qed.

Lemma digits_length base v w :
  2 <= base -> (0 < w)%nat -> 0 <= v < base ^ Z.of_nat w -> (length (digits base v) <= w)%nat.
Proof.
  intros. unfold digits. destruct (v =? 0); [simpl; lia|].
  rewrite length_rev. by apply digits_rev_length.
Qed.

Lemma dec_digit_spec d :
  0 <= d < 10 -> is_digit (dec_digit d) = true /\ digit_value (dec_digit d) = d.
Proof.
  intros. unfold is_digit, digit_value, dec_digit.
  rewrite b2z_z2b_small by lia. split; [|lia].
  apply andb_true_iff. split; apply Z.leb_le; lia.
Qed.

(** The text of a non-negative number is made of digits and reads back. *)
Lemma to_string_digits v :
  0 <= v ->
  exists ds, to_string v = map dec_digit ds /\ ds <> [] /\
    Forall (fun d => 0 <= d < 10) ds /\ eval_digits 10 0 ds = v.
Proof.
  intros. exists (digits 10 v). unfold to_string.
  destruct (Z.ltb_spec v 0); [lia|]. split; [done|].
  split; [by apply digits_nonempty|]. split; [by apply digits_range|].
  by apply digits_eval.
Qed.

Lemma to_string_all_digits v : 0 <= v -> Forall (fun c => is_digit c = true) (to_string v).
Proof.
  intros (ds & -> & _ & Hr & _)%to_string_digits.
  apply Forall_map. eapply Forall_impl; [exact Hr|].
  intros d Hd. by apply dec_digit_spec.
Qed.

Lemma to_string_nonempty v : 0 <= v -> to_string v <> [].
Proof. intros (ds & -> & Hn & _)%to_string_digits. by destruct ds. Qed.

(** ** Tokens

    [split_on c s] is the sequence of segments visited by a loop
    [pos = s.find(c, pos) + 1] over [s] ([split_on_find] is that loop's
    equation); a loop guarded by [pos < s.size()] does not visit a final empty
    segment: [tokens c s]. *)

Fixpoint split_on (c : byte) (s : bytes) : list bytes :=
  match s with
  | [] => [[]]
  | x :: r =>
      if Byte.eqb x c then [] :: split_on c r
      else match split_on c r with
           | [] => [[x]]
           | t :: ts => (x :: t) :: ts
           end
  end.

Definition tokens (c : byte) (s : bytes) : list bytes :=
  let ts := split_on c s in
  match last ts with Some [] => removelast ts | _ => ts end.

(** Joining with a separator. *)
Fixpoint join_with (c : byte) (ts : list bytes) : bytes :=
  match ts with
  | [] => []
  | [t] => t
  | t :: r => t ++ c :: join_with c r
  end.

Lemma split_on_nonempty c s : split_on c s <> [].
Proof. destruct s as [|x r]; simpl; [done|]. case_byte; [done|]. by destruct (split_on c r). Qed.

Lemma split_on_none c s : c ∉ s -> split_on c s = [s].
Proof.
  induction s as [|x r IH]; simpl; [done|]. intros Hn.
  rewrite (proj2 (byte_eqb_false x c)) by set_solver.
  by rewrite IH by set_solver.
Qed.

Lemma split_on_cons c p r : c ∉ p -> split_on c (p ++ c :: r) = p :: split_on c r.
Proof.
  induction p as [|x p IH]; simpl; intros Hn; [by rewrite byte_eqb_refl|].
  rewrite (proj2 (byte_eqb_false x c)) by set_solver.
  by rewrite IH by set_solver.
Qed.

Lemma split_on_find c s :
  split_on c s =
  match find_byte c s with
  | None => [s]
  | Some i => take i s :: split_on c (drop (S i) s)
  end.
Proof.
  destruct (find_byte c s) as [i|] eqn:E.
  - pose proof (find_byte_split _ _ _ E) as Hs. rewrite Hs at 1.
    apply split_on_cons. by eapply find_byte_take.
  - apply split_on_none. by apply find_byte_None.
Qed.

Lemma split_on_no_sep c s : Forall (fun t => c ∉ t) (split_on c s).
Proof.
  induction s as [|x r IH]; simpl; [constructor; [set_solver|constructor]|].
  case_byte; [constructor; [set_solver|done]|].
  destruct (split_on c r) as [|t ts]; [repeat constructor; set_solver|].
  inversion IH; subst. constructor; [set_solver|done].
Qed.

Lemma join_split c s : join_with c (split_on c s) = s.
Proof.
  induction s as [|x r IH]; simpl; [done|].
  pose proof (split_on_nonempty c r) as Hn.
  destruct (split_on c r) as [|t ts] eqn:E; [done|].
  case_byte.
  - subst x. change (c :: join_with c (t :: ts) = c :: r). by rewrite IH.
  - destruct ts as [|t' ts]; simpl in *; congruence.
Qed.

Lemma split_join c ts :
  Forall (fun t => c ∉ t) ts -> ts <> [] -> split_on c (join_with c ts) = ts.
Proof.
  induction 1 as [|t ts Ht Hts IH]; [done|]. intros _.
  destruct ts as [|t' ts]; [by apply split_on_none|].
  change (split_on c (t ++ c :: join_with c (t' :: ts)) = t :: t' :: ts).
  rewrite split_on_cons by done. by rewrite IH.
Qed.

Lemma tokens_join c ts :
  Forall (fun t => c ∉ t) ts -> Forall (fun t => t <> []) ts -> tokens c (join_with c ts) = ts.
Proof.
  intros Hc Hn. destruct ts as [|t ts']; [done|].
  unfold tokens. rewrite split_join by done.
  destruct (last (t :: ts')) as [[|x l]|] eqn:E; try done.
  apply last_Some_elem_of in E. rewrite Forall_forall in Hn. by destruct (Hn [] E).
Qed.

(** ** Lines

    The line idiom shared by every text parser of the sources:
    [memchr(data, '\n', max)], the bytes before it less one trailing CR, and
    the number of bytes consumed. *)

Definition strip_cr (l : bytes) : bytes :=
  match last l with
  | Some c => if Byte.eqb c CR then take (length l - 1) l else l
  | None => l
  end.

Definition cut_line (data : bytes) : option (bytes * nat) :=
  i ← find_byte LF data; Some (strip_cr (take i data), S i).

(** The three-way result of the incremental parsers ([> 0], [= 0], [< 0]). *)
Inductive parse_result (A : Type) :=
| NeedMore
| Malformed
| Parsed (out : A) (consumed : nat).
Arguments NeedMore {A}.
Arguments Malformed {A}.
Arguments Parsed {A} out consumed.

Lemma strip_cr_snoc l : strip_cr (l ++ [CR]) = l.
Proof.
  unfold strip_cr. rewrite last_snoc, byte_eqb_refl, length_app. simpl.
  by rewrite Nat.add_sub, take_app_length.
Qed.

Lemma strip_cr_id l : last l <> Some CR -> strip_cr l = l.
Proof.
  unfold strip_cr. destruct (last l) as [c|]; [|done]. intros H.
  rewrite (proj2 (byte_eqb_false c CR)); [done|]. congruence.
Qed.

Lemma cut_line_crlf l r :
  LF ∉ l -> cut_line (l ++ CRLF ++ r) = Some (l, (length l + 2)%nat).
Proof.
  intros Hl. unfold cut_line.
  assert (l ++ CRLF ++ r = (l ++ [CR]) ++ LF :: r) as -> by (by rewrite <-app_assoc).
  rewrite find_byte_app.
  2:{ apply not_elem_of_app. split; [done|]. set_unfold. intros [?|?]; [discriminate|done]. }
  cbn. rewrite take_app_length, strip_cr_snoc, length_app. do 2 f_equal. simpl. lia.
Qed.

Lemma cut_line_lf l r :
  LF ∉ l -> last l <> Some CR -> cut_line (l ++ LF :: r) = Some (l, S (length l)).
Proof.
  intros Hl Hc. unfold cut_line. rewrite find_byte_app by done. cbn.
  by rewrite take_app_length, strip_cr_id.
Qed.

Lemma cut_line_extend d t l n : cut_line d = Some (l, n) -> cut_line (d ++ t) = Some (l, n).
Proof.
  unfold cut_line. destruct (find_byte LF d) as [i|] eqn:E; [|done]. cbn. intros [= <- <-].
  rewrite (find_byte_extend _ _ _ _ E). cbn.
  rewrite take_app_le; [done|]. apply find_byte_lt in E. lia.
Qed.

Lemma cut_line_None d : cut_line d = None <-> LF ∉ d.
Proof.
  unfold cut_line. rewrite <-find_byte_None. by destruct (find_byte LF d).
Qed.

Lemma cut_line_consumed d l n : cut_line d = Some (l, n) -> (0 < n <= length d)%nat.
Proof.
  unfold cut_line. destruct (find_byte LF d) as [i|] eqn:E; [|done]. cbn. intros [= <- <-].
  apply find_byte_lt in E. lia.
Qed.

Lemma cut_line_no_lf d l n : cut_line d = Some (l, n) -> LF ∉ l.
Proof.
  unfold cut_line. destruct (find_byte LF d) as [i|] eqn:E; [|done]. cbn. intros [= <- <-].
  apply find_byte_take in E. unfold strip_cr.
  destruct (last (take i d)); [|done]. case_byte; [|done].
  intros Hin. apply E. rewrite <-(take_drop (length (take i d) - 1) (take i d)).
  apply elem_of_app. by left.
Qed.

(** ** Decimal 64-bit numbers

    The loop [value = value * 10 + (c - '0')] on an [std::int64_t], with the
    early return on a non-digit.  [NumOverflow] marks signed overflow, which
    is undefined behaviour in C++. *)

Inductive num_result := NumBad | NumOverflow | Num (v : Z).

Fixpoint parse_i64 (value : Z) (s : bytes) : num_result :=
  match s with
  | [] => Num value
  | c :: r =>
      if is_digit c then
        match i64_checked (value * 10 + digit_value c) with
        | Some v => parse_i64 v r
        | None => NumOverflow
        end
      else NumBad
  end.

Lemma eval_digits_ge acc ds : 0 <= acc -> Forall (fun d => 0 <= d < 10) ds -> acc <= eval_digits 10 acc ds.
Proof.
  intros Ha H. revert acc Ha. induction H as [|d ds Hd _ IH]; intros acc Ha; [done|].
  cbn. etrans; [|apply IH]; lia.
Qed.

Lemma parse_i64_digits acc ds :
  0 <= acc -> Forall (fun d => 0 <= d < 10) ds -> eval_digits 10 acc ds <= i64_max ->
  parse_i64 acc (map dec_digit ds) = Num (eval_digits 10 acc ds).
Proof.
  intros Ha H. revert acc Ha. induction H as [|d ds Hd Hds IH]; intros acc Ha Hm; [done|].
  cbn [map parse_i64]. destruct (dec_digit_spec d Hd) as [-> ->].
  cbn [eval_digits fold_left] in Hm. fold (eval_digits 10 (acc * 10 + d) ds) in Hm.
  pose proof (eval_digits_ge (acc * 10 + d) ds ltac:(lia) Hds).
  rewrite i64_checked_in by lia. by rewrite IH by lia.
Qed.

(** Every non-negative [int64] survives printing and parsing. *)
Lemma parse_i64_to_string v : 0 <= v <= i64_max -> parse_i64 0 (to_string v) = Num v.
Proof.
  intros Hv. destruct (to_string_digits v ltac:(lia)) as (ds & -> & _ & Hr & He).
  rewrite parse_i64_digits; rewrite ?He; done || lia.
Qed.

Lemma parse_i64_range acc s v :
  0 <= acc <= i64_max -> parse_i64 acc s = Num v -> 0 <= v <= i64_max.
Proof.
  revert acc. induction s as [|c r IH]; intros acc Ha; cbn [parse_i64]; [by intros [= <-]|].
  destruct (is_digit c) eqn:Ed; [|done].
  destruct (i64_checked _) as [x|] eqn:Ex; [|done].
  apply i64_checked_Some in Ex as [-> Hx].
  assert (0 <= digit_value c) by (unfold is_digit, digit_value in *; bool_to_prop; lia).
  apply IH. lia.
Qed.

(** ** Big-endian byte strings *)

(** The low [k] bytes of [v], most significant first. *)
Fixpoint be_bytes (k : nat) (v : Z) : bytes :=
  match k with
  | O => []
  | S k' => z2b (Z.land (Z.shiftr v (8 * Z.of_nat k')) 255) :: be_bytes k' v
  end.

(** [value = (value << 8) | byte] over the bytes, in 64 bits. *)
Fixpoint be_value (value : Z) (bs : bytes) : Z :=
  match bs with
  | [] => value
  | b :: r => be_value (uwrap 64 (Z.lor (Z.shiftl value 8) (b2z b))) r
  end.

Lemma be_bytes_length k v : length (be_bytes k v) = k.
Proof. induction k as [|k IH]; cbn; [done|]. by rewrite IH. Qed.

Lemma be_value_bytes k v acc :
  0 <= acc -> 0 <= v -> acc * 256 ^ Z.of_nat k + v mod 256 ^ Z.of_nat k < 2 ^ 64 ->
  be_value acc (be_bytes k v) = acc * 256 ^ Z.of_nat k + v mod 256 ^ Z.of_nat k.
Proof.
  revert acc. induction k as [|k IH]; intros acc Ha Hv Hlt.
  - cbn. rewrite Z.mod_1_r. lia.
  - cbn [be_bytes be_value]. rewrite lor_shiftl_add by (try lia; apply b2z_range).
    rewrite land_ff, b2z_z2b, Z.mod_mod, Z.shiftr_div_pow2 by lia.
    rewrite Z.pow_mul_r by lia. change (2 ^ 8) with 256.
    replace (Z.of_nat (S k)) with (Z.of_nat k + 1) in * by lia.
    rewrite Z.pow_add_r, Z.pow_1_r in * by lia.
    pose proof (Z.pow_pos_nonneg 256 (Z.of_nat k) ltac:(lia) ltac:(lia)) as Hp.
    rewrite Z.rem_mul_r in * by lia.
    pose proof (Z.mod_pos_bound v (256 ^ Z.of_nat k) Hp) as Hm.
    pose proof (Z.mod_pos_bound (v / 256 ^ Z.of_nat k) 256 ltac:(lia)) as Hm2.
    rewrite uwrap_small by nia. rewrite IH by nia. nia.
Qed.

(** A seven-bit value with and without the top bit of its byte. *)
Lemma cont_byte v :
  0 <= v < 128 ->
  Z.land (b2z (z2b (Z.lor v 128))) 127 = v /\ Z.land (b2z (z2b (Z.lor v 128))) 128 <> 0 /\
  Z.land (b2z (z2b v)) 127 = v /\ Z.land (b2z (z2b v)) 128 = 0.
Proof.
  intros Hv.
  assert (forallb (fun v => (Z.land (b2z (z2b (Z.lor v 128))) 127 =? v)
     && negb (Z.land (b2z (z2b (Z.lor v 128))) 128 =? 0)
     && (Z.land (b2z (z2b v)) 127 =? v) && (Z.land (b2z (z2b v)) 128 =? 0)) (seqZ 0 128) = true)
    as H by (vm_compute; reflexivity).
  rewrite forallb_forall in H. specialize (H v ltac:(apply list_elem_of_In, elem_of_seqZ; lia)).
  bool_to_prop. done.
Qed.
