(* ===== verification/OrdMap.v ===== *)
(** * OrdMap: [std::map<std::string, V, std::less<>>]

    An ordered map is its sequence of entries in iteration order, strictly
    increasing in [std::string::operator<].  [om_assign] is [m[k] = v],
    [om_emplace] is [m.emplace(k, v)] (no effect on a present key) and
    [om_find] is [m.find(k)]. *)

From S2P Require Import Prelude Bytes.

#[local] Open Scope Z_scope.

Section OrdMap.
Context {V : Type}.

Abbreviation omap := (list (bytes * V)).

Fixpoint om_find (k : bytes) (m : omap) : option V :=
  match m with
  | [] => None
  | (k', v) :: r => if bytes_eqb k k' then Some v else om_find k r
  end.

Fixpoint om_insert (over : bool) (k : bytes) (v : V) (m : omap) : omap :=
  match m with
  | [] => [(k, v)]
  | (k', v') :: r =>
      if bytes_ltb k k' then (k, v) :: m
      else if bytes_ltb k' k then (k', v') :: om_insert over k v r
      else if over then (k', v) :: r else m
  end.

Definition om_assign := om_insert true.
Definition om_emplace := om_insert false.

(** Inserting a sequence of entries, in order. *)
Definition om_insert_all (over : bool) (m l : omap) : omap :=
  fold_left (fun m '(k, v) => om_insert over k v m) l m.

Definition om_assign_all := om_insert_all true.
Definition om_emplace_all := om_insert_all false.

Definition om_wf (m : omap) : Prop :=
  StronglySorted (fun a b => bytes_ltb a.1 b.1 = true) m.

Lemma om_wf_nil : om_wf [].
Proof. constructor. Qed.

Lemma om_insert_In over k v m e :
  e ∈ om_insert over k v m -> e.1 = k \/ e ∈ m.
Proof.
  induction m as [|[k' v'] r IH]; simpl; [set_solver|].
  repeat case_if; rewrite !elem_of_cons.
  - intros [->|?]; [by left|by right].
  - intros [->|H]; [by right; left|]. destruct (IH H); [by left|by right; right].
  - intros [->|?]; [left; simpl; symmetry; by apply bytes_ltb_total|by right; right].
  - intros; by right.
Qed.

Lemma om_insert_wf over k v m : om_wf m -> om_wf (om_insert over k v m).
Proof.
  unfold om_wf. induction m as [|[k' v'] r IH]; simpl; intros Hm.
  - repeat constructor.
  - apply StronglySorted_inv in Hm as [Hr Hf].
    repeat case_if.
    + constructor; [by constructor|]. constructor; [done|].
      eapply Forall_impl; [exact Hf|]. simpl. intros. by eapply bytes_ltb_trans.
    + constructor; [by apply IH|]. rewrite Forall_forall in *. intros e He.
      apply om_insert_In in He as [->|He]; [done|]. by apply Hf.
    + by constructor.
    + by constructor.
Qed.

Lemma om_insert_all_wf over l m : om_wf m -> om_wf (om_insert_all over m l).
Proof.
  revert m. induction l as [|[k v] l IH]; intros m Hm; simpl; [done|].
  apply IH. by apply om_insert_wf.
Qed.

(** Keys beyond the head of a sorted map are absent. *)
Lemma om_find_below k m :
  Forall (fun e => bytes_ltb k e.1 = true) m -> om_find k m = None.
Proof.
  induction 1 as [|[k' v] r H _ IH]; simpl; [done|].
  rewrite (proj2 (bytes_eqb_false k k')); [done|]. by apply bytes_ltb_neq.
Qed.

Lemma om_find_insert over k k' v m :
  om_wf m ->
  om_find k' (om_insert over k v m) =
  if bytes_eqb k' k
  then match om_find k m with Some w => Some (if over then v else w) | None => Some v end
  else om_find k' m.
Proof.
  unfold om_wf. induction m as [|[k0 v0] r IH]; simpl; intros Hm.
  - by repeat case_if.
  - apply StronglySorted_inv in Hm as [Hr Hf]. simpl in Hf.
    destruct (bytes_ltb k k0) eqn:E1.
    + simpl. rewrite (proj2 (bytes_eqb_false k k0)) by (by apply bytes_ltb_neq).
      rewrite (om_find_below k r).
      { by destruct (bytes_eqb k' k). }
      eapply Forall_impl; [exact Hf|]. simpl. intros. by eapply bytes_ltb_trans.
    + destruct (bytes_ltb k0 k) eqn:E2.
      * simpl. rewrite (proj2 (bytes_eqb_false k k0)).
        2:{ intros ->. by rewrite bytes_ltb_irrefl in E2. }
        rewrite IH by done.
        destruct (bytes_eqb k' k0) eqn:E3; [|done].
        apply bytes_eqb_true in E3 as ->.
        rewrite (proj2 (bytes_eqb_false k0 k)); [done|]. by apply bytes_ltb_neq.
      * assert (k = k0) as -> by (by apply bytes_ltb_total).
        rewrite bytes_eqb_refl. destruct over; simpl.
        -- by destruct (bytes_eqb k' k0).
        -- destruct (bytes_eqb k' k0) eqn:E; [|done].
           by apply bytes_eqb_true in E as ->.
Qed.

(** Appending beyond the last key: rebuilding a sorted map entry by entry
    gives the map back. *)
Lemma om_insert_snoc over k v m :
  Forall (fun e => bytes_ltb e.1 k = true) m -> om_insert over k v m = m ++ [(k, v)].
Proof.
  induction 1 as [|[k' v'] r H _ IH]; simpl in *; [done|].
  rewrite (bytes_ltb_asym _ _ H), H. by rewrite IH.
Qed.

Lemma om_insert_all_sorted_app over m l :
  om_wf (m ++ l) -> om_insert_all over m l = m ++ l.
Proof.
  revert m. induction l as [|[k v] l IH]; intros m Hm; cbn; [by rewrite app_nil_r|].
  rewrite om_insert_snoc.
  - fold (om_insert_all over (m ++ [(k, v)]) l).
    rewrite IH; [by rewrite <-app_assoc|]. by rewrite <-app_assoc.
  - unfold om_wf in Hm. rewrite Forall_forall. intros e He.
    apply (StronglySorted_app_1_elem_of _ _ _ e (k, v) Hm); set_solver.
Qed.

Lemma om_insert_all_sorted over l : om_wf l -> om_insert_all over [] l = l.
Proof. apply (om_insert_all_sorted_app over []). Qed.
End OrdMap.

Arguments om_wf {V} m.
#[export] Hint Resolve om_wf_nil om_insert_wf om_insert_all_wf : nhttp.
