(* ===== verification/Stream.v ===== *)
(** * Stream: [io::stream], its implementations and the generic loops over it

    [Stream] is the abstract class [io::stream] (include/nhttp/io/stream.hpp)
    as a class of operations on an explicit state.  [StreamReads] and
    [StreamWrites] state what a client may rely on ("the number of bytes
    actually read; 0 means end of stream"): they carry the ghost sequence of
    the bytes still to be read, resp. already written.  Components are proved
    against these classes and the implementations below discharge them:

    - [wire]: a connected socket.  The peer's bytes arrive in arbitrary
      segments and each write is accepted for an arbitrary non-zero prefix, so
      a theorem over all wires quantifies over every segmentation;
    - [read_some]/[write_some]: the retry loops of src/async/socket.cpp over a
      script of system-call outcomes, which refine the wire;
    - [memory_stream], [range_stream]: src/io/{memory,range}_stream.cpp.

    Loops that wait for the peer take a [fuel] argument and return [None] when
    it runs out; their theorems give a sufficient fuel. *)

From S2P Require Import Prelude Bytes.

#[local] Open Scope Z_scope.

Inductive seek_origin := seek_begin | seek_current | seek_end.

Class Stream (S : Type) := {
  st_get_length : S -> Z;
  st_can_seek : S -> bool;
  st_seek : Z -> seek_origin -> S -> Z * S;
  st_read : nat -> S -> bytes * S;
  st_write : bytes -> S -> nat * S;
}.

(** The reading contract.  [st_ok] is the implementation's own invariant.
    Nothing is promised of a read of zero bytes (no caller makes one). *)
Class StreamReads (S : Type) `{Stream S} := {
  st_data : S -> bytes;
  st_ok : S -> Prop;
  st_read_spec : forall n s out s',
    (0 < n)%nat -> st_ok s -> st_read n s = (out, s') ->
    st_ok s' /\ st_data s = out ++ st_data s' /\ (length out <= n)%nat /\
    (st_data s <> [] -> out <> []);
}.

(** The writing contract: some non-empty prefix is accepted. *)
Class StreamWrites (S : Type) `{Stream S} := {
  st_written : S -> bytes;
  st_write_spec : forall bs s k s',
    st_write bs s = (k, s') ->
    (k <= length bs)%nat /\ (bs <> [] -> (0 < k)%nat) /\
    st_written s' = st_written s ++ take k bs;
}.

(** A connected endpoint: its two directions do not interfere. *)
Class StreamDuplex (S : Type) `{StreamReads S} `{!StreamWrites S} := {
  st_read_written : forall n s out s', st_read n s = (out, s') -> st_written s' = st_written s;
  st_write_data : forall bs s k s',
    st_ok s -> st_write bs s = (k, s') -> st_ok s' /\ st_data s' = st_data s;
}.

(** Seeking to an absolute offset inside the content. *)
Class StreamSeeks (S : Type) `{StreamReads S} := {
  st_content : S -> bytes;
  st_length_spec : forall s, st_ok s -> st_get_length s = Z.of_nat (length (st_content s));
  st_seek_spec : forall s off,
    st_ok s -> 0 <= off <= Z.of_nat (length (st_content s)) ->
    exists s', st_seek off seek_begin s = (off, s') /\ st_ok s' /\
      st_data s' = drop (Z.to_nat off) (st_content s);
}.

(** The scratch-buffer size [char chunk[4096]] of every read loop. *)
Definition chunk_size : nat := Z.to_nat 4096.

Lemma chunk_size_eq : chunk_size = Z.to_nat 4096.
Proof. done. Qed.

Lemma chunk_size_pos : (0 < chunk_size)%nat.
Proof. unfold chunk_size. lia. Qed.

#[export] Hint Resolve chunk_size_pos : nhttp.
#[global] Opaque chunk_size.

(** ** Generic loops *)
Section Loops.
Context {S : Type} `{Stream S}.

(** [io::stream::read_all]. *)
Fixpoint read_all (fuel : nat) (s : S) (out : bytes) : option (bytes * S) :=
  match fuel with
  | O => None
  | Datatypes.S f =>
      let '(buf, s') := st_read chunk_size s in
      match buf with
      | [] => Some (out, s')
      | _ => read_all f s' (out ++ buf)
      end
  end.

(** [http1_io::write_all] and [ws_connection::write_all]:
    [while (written < n) written += wire.write(p + written, n - written)]. *)
Fixpoint write_all (fuel : nat) (s : S) (rest : bytes) : option S :=
  match rest with
  | [] => Some s
  | _ =>
      match fuel with
      | O => None
      | Datatypes.S f => let '(k, s') := st_write rest s in write_all f s' (drop k rest)
      end
  end.
End Loops.

(** ** The wire *)

Record wire := mk_wire {
  w_in : list bytes;   (** the peer's bytes, one element per arriving segment *)
  w_out : bytes;       (** everything written so far *)
  w_quota : list nat;  (** how much the kernel accepts per write; all, when empty *)
}.

Fixpoint seg_read (n : nat) (segs : list bytes) : bytes * list bytes :=
  match segs with
  | [] => ([], [])
  | [] :: r => seg_read n r
  | s :: r => (take n s, match drop n s with [] => r | d => d :: r end)
  end.

Definition wire_read (n : nat) (w : wire) : bytes * wire :=
  let '(out, segs) := seg_read n (w_in w) in (out, mk_wire segs (w_out w) (w_quota w)).

Definition wire_write (bs : bytes) (w : wire) : nat * wire :=
  let '(q, qs) := match w_quota w with [] => (length bs, []) | q :: qs => (Nat.max 1 q, qs) end in
  let k := Nat.min q (length bs) in
  (k, mk_wire (w_in w) (w_out w ++ take k bs) qs).

#[global] Instance wire_Stream : Stream wire := {
  st_get_length := fun _ => -1;
  st_can_seek := fun _ => false;
  st_seek := fun _ _ w => (-1, w);
  st_read := wire_read;
  st_write := wire_write;
}.

(** ** The socket's system-call loop *)

(** What one non-blocking system call reports. *)
Inductive io_event :=
| IoBytes (bs : bytes)   (** a successful read of available bytes *)
| IoAccept (k : nat)     (** a successful write of [k] bytes *)
| IoWouldBlock | IoInterrupted | IoError.

(** [async_socket::read_some]: retry on would-block (after suspending) and on
    interruption, throw ([None]) on any other error. *)
Fixpoint read_some (n : nat) (script : list io_event) : option (bytes * list io_event) :=
  match script with
  | [] => Some ([], [])
  | IoBytes bs :: r =>
      Some (take n bs, match drop n bs with [] => r | d => IoBytes d :: r end)
  | IoWouldBlock :: r | IoInterrupted :: r => read_some n r
  | IoAccept _ :: r => read_some n r
  | IoError :: _ => None
  end.

(** [async_socket::write_some]. *)
Fixpoint write_some (bs : bytes) (script : list io_event) : option (nat * list io_event) :=
  match script with
  | [] => Some (length bs, [])
  | IoAccept k :: r => Some (Nat.min (Nat.max 1 k) (length bs), r)
  | IoWouldBlock :: r | IoInterrupted :: r => write_some bs r
  | IoBytes _ :: r => write_some bs r
  | IoError :: _ => None
  end.

(** ** memory_stream *)

Record memory_stream := mk_memory_stream { ms_data : bytes; ms_position : nat }.

Definition memory_stream_new (initial : bytes) : memory_stream := mk_memory_stream initial 0.

Definition ms_seek (offset : Z) (o : seek_origin) (m : memory_stream) : Z * memory_stream :=
  let target := match o with
                | seek_begin => offset
                | seek_current => Z.of_nat (ms_position m) + offset
                | seek_end => Z.of_nat (length (ms_data m)) + offset
                end in
  if (target <? 0) || (Z.of_nat (length (ms_data m)) <? target) then (-1, m)
  else (target, mk_memory_stream (ms_data m) (Z.to_nat target)).

Definition ms_read (n : nat) (m : memory_stream) : bytes * memory_stream :=
  let remaining := (length (ms_data m) - ms_position m)%nat in
  let to_copy := Nat.min n remaining in
  (take to_copy (drop (ms_position m) (ms_data m)),
   mk_memory_stream (ms_data m) (ms_position m + to_copy)).

(** [data_.resize(position_ + n)] (zero-filled) when needed, then [memcpy]. *)
Definition ms_write (bs : bytes) (m : memory_stream) : nat * memory_stream :=
  let p := ms_position m in
  let grown := ms_data m ++ replicate (p + length bs - length (ms_data m)) x00 in
  (length bs,
   mk_memory_stream (take p grown ++ bs ++ drop (p + length bs) grown) (p + length bs)).

#[global] Instance memory_Stream : Stream memory_stream := {
  st_get_length := fun m => Z.of_nat (length (ms_data m));
  st_can_seek := fun _ => true;
  st_seek := ms_seek;
  st_read := ms_read;
  st_write := ms_write;
}.

(** ** range_stream *)
Section RangeStream.
Context {S : Type} `{Stream S}.

Record range_stream := mk_range_stream {
  rs_inner : S;
  rs_bounded : bool;
  rs_begin : Z;
  rs_end : Z;
  rs_position : Z;
  rs_positioned : bool;
}.

Definition range_stream_new (inner : S) (begin_ end_ : Z) : range_stream :=
  if (begin_ <? 0) || (end_ <? 0) then mk_range_stream inner false 0 0 0 false
  else
    let length_ := st_get_length inner in
    let b := if 0 <=? length_ then Z.min begin_ length_ else begin_ in
    let e := if 0 <=? length_ then Z.min (Z.max end_ b) length_ else Z.max end_ b in
    mk_range_stream inner true b e 0 false.

Definition rs_get_length (r : range_stream) : Z :=
  if rs_bounded r then rs_end r - rs_begin r else st_get_length (rs_inner r).

Definition rs_with_inner (r : range_stream) (i : S) (pos : Z) : range_stream :=
  mk_range_stream i (rs_bounded r) (rs_begin r) (rs_end r) pos true.

Definition ensure_positioned (r : range_stream) : range_stream :=
  if rs_positioned r then r
  else
    let i := if rs_bounded r then snd (st_seek (rs_begin r) seek_begin (rs_inner r))
             else rs_inner r in
    rs_with_inner r i (rs_position r).

Definition rs_seek (offset : Z) (o : seek_origin) (r : range_stream) : Z * range_stream :=
  let target := match o with
                | seek_begin => offset
                | seek_current => rs_position r + offset
                | seek_end => rs_get_length r + offset
                end in
  if target <? 0 then (-1, r)
  else
    let inner_target := if rs_bounded r then rs_begin r + target else target in
    let '(result, i) := st_seek inner_target seek_begin (rs_inner r) in
    if result <? 0
    then (-1, mk_range_stream i (rs_bounded r) (rs_begin r) (rs_end r) (rs_position r) (rs_positioned r))
    else
      let pos := if rs_bounded r then result - rs_begin r else result in
      (pos, rs_with_inner r i pos).

(** The byte count a read or write of [n] may move; [None]: at the end. *)
Definition rs_clamp (n : nat) (r : range_stream) : option nat :=
  if rs_bounded r then
    let remaining := rs_end r - rs_begin r - rs_position r in
    if remaining <=? 0 then None
    else Some (if remaining <? Z.of_nat n then Z.to_nat remaining else n)
  else Some n.

Definition rs_read (n : nat) (r0 : range_stream) : bytes * range_stream :=
  let r := ensure_positioned r0 in
  match rs_clamp n r with
  | None => ([], r)
  | Some n' =>
      let '(out, i) := st_read n' (rs_inner r) in
      (out, rs_with_inner r i (rs_position r + Z.of_nat (length out)))
  end.

Definition rs_write (bs : bytes) (r0 : range_stream) : nat * range_stream :=
  let r := ensure_positioned r0 in
  match rs_clamp (length bs) r with
  | None => (0%nat, r)
  | Some n' =>
      let '(k, i) := st_write (take n' bs) (rs_inner r) in
      (k, rs_with_inner r i (rs_position r + Z.of_nat k))
  end.

#[global] Instance range_Stream : Stream range_stream := {
  st_get_length := rs_get_length;
  st_can_seek := fun r => st_can_seek (rs_inner r);
  st_seek := rs_seek;
  st_read := rs_read;
  st_write := rs_write;
}.

End RangeStream.
Arguments range_stream S : clear implicits.

(** What is left of the window, over what is left of the positioned inner. *)
Definition rs_data {S} `{StreamReads S} (r : range_stream S) : bytes :=
  let d := st_data (rs_inner (ensure_positioned r)) in
  if rs_bounded r then take (Z.to_nat (rs_end r - rs_begin r - rs_position r)) d else d.

Definition rs_ok {S} `{StreamReads S} (r : range_stream S) : Prop :=
  st_ok (rs_inner (ensure_positioned r)).

(** ** Properties of the loops *)
Section LoopFacts.
Context {S : Type} `{StreamReads S}.

Lemma read_empty_iff n s out s' :
  st_ok s -> (0 < n)%nat -> st_read n s = (out, s') -> out = [] <-> st_data s = [].
Proof.
  intros Hok Hn Hr. destruct (st_read_spec _ _ _ _ Hn Hok Hr) as (_ & Hd & _ & Hp).
  split.
  - intros ->. destruct (st_data s) eqn:E; [done|]. by destruct Hp.
  - intros E. rewrite E in Hd. symmetry in Hd. by apply app_eq_nil in Hd as [-> _].
Qed.

(** [read_all] appends exactly the remaining bytes, given one iteration per
    byte plus one for the end of stream. *)
Lemma read_all_spec fuel s acc :
  st_ok s -> (length (st_data s) < fuel)%nat ->
  exists s', read_all fuel s acc = Some (acc ++ st_data s, s') /\ st_ok s' /\ st_data s' = [].
Proof.
  revert s acc. induction fuel as [|f IH]; intros s acc Hok Hf; [lia|]. simpl.
  destruct (st_read chunk_size s) as [buf s'] eqn:Hr.
  pose proof (read_empty_iff _ _ _ _ Hok chunk_size_pos Hr) as He.
  destruct (st_read_spec _ _ _ _ chunk_size_pos Hok Hr) as (Hok' & Hd & _ & _).
  destruct buf as [|b buf].
  - exists s'. destruct He as [He _]. rewrite He, app_nil_r by done.
    rewrite Hd in He. auto.
  - destruct (IH s' (acc ++ b :: buf) Hok') as (s'' & Hr' & Hok'' & Hd'').
    { rewrite Hd in Hf. rewrite length_app in Hf. simpl in Hf. lia. }
    exists s''. rewrite Hr', Hd, <-app_assoc. auto.
Qed.
End LoopFacts.

(** [write_all] delivers every byte in order, whatever partial writes the
    sink makes. *)
Lemma write_all_spec {S} `{StreamWrites S} fuel (s : S) bs :
  (length bs <= fuel)%nat ->
  exists s', write_all fuel s bs = Some s' /\ st_written s' = st_written s ++ bs.
Proof.
  revert s bs. induction fuel as [|f IH]; intros s bs Hf.
  - destruct bs; [|simpl in Hf; lia]. exists s. simpl. by rewrite app_nil_r.
  - destruct bs as [|b bs]; [exists s; simpl; by rewrite app_nil_r|].
    cbn [write_all]. destruct (st_write (b :: bs) s) as [k s'] eqn:Hw.
    destruct (st_write_spec _ _ _ _ Hw) as (Hk & Hp & Hwr).
    specialize (Hp ltac:(done)).
    destruct (IH s' (drop k (b :: bs))) as (s'' & -> & Hwr').
    { rewrite length_drop. simpl in *. lia. }
    exists s''. split; [done|]. by rewrite Hwr', Hwr, <-app_assoc, take_drop.
Qed.

(** ** The wire discharges both contracts *)

Lemma seg_read_spec n segs out segs' :
  seg_read n segs = (out, segs') ->
  concat segs = out ++ concat segs' /\ (length out <= n)%nat /\
  ((0 < n)%nat -> concat segs <> [] -> out <> []).
Proof.
  induction segs as [|s r IH]; simpl; [intros [= <- <-]; simpl; naive_solver lia|].
  destruct s as [|b s].
  { intros Hr. apply IH in Hr. done. }
  intros [= <- <-]. split; [|split].
  - rewrite <-(take_drop n (b :: s)) at 1. rewrite <-app_assoc. f_equal.
    by destruct (drop n (b :: s)).
  - rewrite length_take. lia.
  - intros Hn _. by destruct n; [lia|].
Qed.

#[global, refine] Instance wire_StreamReads : StreamReads wire := {
  st_data := fun w => concat (w_in w);
  st_ok := fun _ => True;
}.
Proof.
  intros n w out w' Hn _. cbn. unfold wire_read.
  destruct (seg_read n (w_in w)) as [o segs] eqn:E. intros [= <- <-].
  apply seg_read_spec in E as (? & ? & ?). cbn. auto.
Defined.

#[global, refine] Instance wire_StreamWrites : StreamWrites wire := {
  st_written := w_out;
}.
Proof.
  intros bs w k w'. cbn. unfold wire_write.
  destruct (w_quota w) as [|q qs]; intros [= <- <-]; cbn; split_and!; try done; try lia;
    destruct bs; simpl; try done; lia.
Defined.

(** Reading leaves the written bytes alone and conversely. *)
Lemma wire_read_out n w : w_out (snd (wire_read n w)) = w_out w.
Proof. unfold wire_read. by destruct (seg_read n (w_in w)). Qed.

Lemma wire_write_in bs w : w_in (snd (wire_write bs w)) = w_in w.
Proof. unfold wire_write. by destruct (w_quota w). Qed.

#[global, refine] Instance wire_StreamDuplex : StreamDuplex wire := {}.
Proof.
  - intros n w out w' E. cbn. rewrite <-(wire_read_out n w). cbn in E. by rewrite E.
  - intros bs w k w' _ E. split; [done|]. cbn in *. rewrite <-(wire_write_in bs w). by rewrite E.
Defined.

(** [write_all] leaves the incoming direction alone. *)
Lemma write_all_data {S} `{StreamDuplex S} fuel (s : S) bs s' :
  st_ok s -> write_all fuel s bs = Some s' -> st_ok s' /\ st_data s' = st_data s.
Proof.
  revert s bs. induction fuel as [|f IH]; intros s bs Hok; destruct bs as [|b bs]; cbn [write_all];
    try (by intros [= <-]).
  destruct (st_write (b :: bs) s) as [k s1] eqn:E. intros Hw.
  destruct (st_write_data _ _ _ _ Hok E) as [Hok1 Hd]. rewrite <-Hd. by apply (IH s1 _ Hok1 Hw).
Qed.

(** *** The socket loop refines the wire *)

(** A script without errors whose reads are non-empty, and its segments. *)
Definition clean_event (e : io_event) : Prop :=
  match e with IoBytes bs => bs <> [] | IoError => False | _ => True end.

Fixpoint script_segments (script : list io_event) : list bytes :=
  match script with
  | [] => []
  | IoBytes bs :: r => bs :: script_segments r
  | _ :: r => script_segments r
  end.

(** Spurious wake-ups and interrupted calls are invisible: on a clean script
    [read_some] returns, with the bytes the wire would deliver. *)
Lemma read_some_refines n script :
  Forall clean_event script ->
  exists out script', read_some n script = Some (out, script') /\ Forall clean_event script' /\
    seg_read n (script_segments script) = (out, script_segments script').
Proof.
  induction 1 as [|e r He Hr IH]; simpl; [by exists [], []|].
  destruct e as [bs| | | |]; simpl in *; try done.
  destruct bs as [|b bs]; [done|].
  destruct (drop n (b :: bs)) as [|d ds] eqn:E.
  - exists (take n (b :: bs)), r. auto.
  - exists (take n (b :: bs)), (IoBytes (d :: ds) :: r). cbn [script_segments].
    split; [done|]. split; [|done]. by constructor.
Qed.

(** An error reached before any data is thrown. *)
Lemma read_some_error n pre r :
  Forall (fun e => e = IoWouldBlock \/ e = IoInterrupted) pre ->
  read_some n (pre ++ IoError :: r) = None.
Proof. induction 1 as [|e pre [-> | ->] _ IH]; simpl; done. Qed.

(** ** memory_stream *)

Definition ms_wf (m : memory_stream) : Prop := (ms_position m <= length (ms_data m))%nat.

#[global, refine] Instance memory_StreamReads : StreamReads memory_stream := {
  st_data := fun m => drop (ms_position m) (ms_data m);
  st_ok := ms_wf;
}.
Proof.
  unfold ms_wf. intros n m out m' Hn Hok. cbn. unfold ms_read. intros [= <- <-]. cbn.
  split; [lia|]. split; [|split].
  - rewrite <-drop_drop. by rewrite take_drop.
  - rewrite length_take. lia.
  - intros Hd Ht. apply Hd. apply nil_length_inv. apply (f_equal length) in Ht.
    rewrite length_take, length_drop in *. cbn in Ht. lia.
Defined.

#[global, refine] Instance memory_StreamSeeks : StreamSeeks memory_stream := {
  st_content := ms_data;
}.
Proof.
  - done.
  - intros m off Hok Hoff. exists (mk_memory_stream (ms_data m) (Z.to_nat off)). cbn.
    unfold ms_seek, ms_wf. cbn.
    destruct (Z.ltb_spec off 0); [lia|].
    destruct (Z.ltb_spec (Z.of_nat (length (ms_data m))) off); [lia|]. simpl.
    split; [done|]. split; [lia|done].
Defined.

(** Bytes outside the written window keep their value; the window holds the
    written bytes; the size only grows. *)
Lemma ms_write_spec bs m k m' :
  ms_wf m -> ms_write bs m = (k, m') ->
  k = length bs /\ ms_wf m' /\ ms_position m' = (ms_position m + length bs)%nat /\
  ms_data m' = take (ms_position m) (ms_data m) ++ bs ++ drop (ms_position m + length bs) (ms_data m).
Proof.
  unfold ms_wf. intros Hok [= <- <-]. cbn. split; [done|].
  assert (forall a b : nat, (a <= length (ms_data m))%nat ->
    take a (ms_data m ++ replicate b x00) = take a (ms_data m)) as Ht.
  { intros a b Ha. by apply take_app_le. }
  assert (drop (ms_position m + length bs)
    (ms_data m ++ replicate (ms_position m + length bs - length (ms_data m)) x00)
    = drop (ms_position m + length bs) (ms_data m)) as Hd.
  { rewrite drop_app. replace (_ - _)%nat with
      (ms_position m + length bs - length (ms_data m))%nat by lia.
    rewrite drop_ge with (l := replicate _ _); [by rewrite app_nil_r|].
    rewrite length_replicate. lia. }
  rewrite Ht, Hd by done. split; [|done].
  rewrite !length_app, length_take, length_drop. lia.
Qed.

(** ** range_stream *)
Section RangeFacts.
Context {S : Type} `{StreamReads S}.

Lemma ensure_positioned_idem (r : range_stream S) :
  ensure_positioned (ensure_positioned r) = ensure_positioned r.
Proof. unfold ensure_positioned. destruct (rs_positioned r) eqn:E; [by rewrite E|done]. Qed.

Lemma ensure_positioned_fields (r : range_stream S) :
  rs_bounded (ensure_positioned r) = rs_bounded r /\ rs_begin (ensure_positioned r) = rs_begin r /\
  rs_end (ensure_positioned r) = rs_end r /\ rs_position (ensure_positioned r) = rs_position r.
Proof. unfold ensure_positioned. by destruct (rs_positioned r). Qed.

Lemma ensure_positioned_with_inner (r : range_stream S) i p :
  ensure_positioned (rs_with_inner r i p) = rs_with_inner r i p.
Proof. done. Qed.

(** One read: the bytes come from the inner stream, which advances by exactly
    that much and never past the window. *)
Lemma rs_read_inner n (r : range_stream S) out r' :
  (0 < n)%nat -> rs_ok r -> rs_read n r = (out, r') ->
  rs_ok r' /\ st_data (rs_inner (ensure_positioned r)) = out ++ st_data (rs_inner (ensure_positioned r')) /\
  rs_data r = out ++ rs_data r' /\ (length out <= n)%nat /\
  (rs_data r <> [] -> out <> []).
Proof.
  unfold rs_ok, rs_read, rs_data, rs_clamp. intros Hn Hok.
  destruct (ensure_positioned_fields r) as (Eb & Ebg & Ee & Ep).
  rewrite Eb, Ebg, Ee, Ep. set (rem := rs_end r - rs_begin r - rs_position r).
  destruct (rs_bounded r) eqn:Hb.
  - destruct (Z.leb_spec rem 0) as [Hrem|Hrem].
    { intros [= <- <-]. rewrite ensure_positioned_idem, Eb, Ebg, Ee, Ep. fold rem.
      replace (Z.to_nat rem) with 0%nat by lia. rewrite !take_0. split_and!; simpl; try done; lia. }
    destruct (st_read _ _) as [o i] eqn:Hr. intros [= <- <-].
    assert (0 < (if (rem <? Z.of_nat n)%Z then Z.to_nat rem else n))%nat as Hn'
      by (destruct (Z.ltb_spec rem (Z.of_nat n)); lia).
    destruct (st_read_spec _ _ _ _ Hn' Hok Hr) as (Hok' & Hd & Hle & Hp).
    rewrite ensure_positioned_with_inner. cbn. rewrite ?Eb, ?Ebg, ?Ee, ?Ep.
    assert (length o <= Z.to_nat rem)%nat as Hlo.
    { destruct (Z.ltb_spec rem (Z.of_nat n)); lia. }
    split; [done|]. split; [done|]. split; [|split].
    + rewrite Hd, take_app_ge by done. do 2 f_equal. subst rem. lia.
    + destruct (Z.ltb_spec rem (Z.of_nat n)); lia.
    + intros Hne. apply Hp. intros E. rewrite E, take_nil in Hne. done.
  - destruct (st_read _ _) as [o i] eqn:Hr. intros [= <- <-].
    destruct (st_read_spec _ _ _ _ Hn Hok Hr) as (Hok' & Hd & Hle & Hp).
    rewrite ensure_positioned_with_inner. cbn. rewrite ?Eb. auto.
Qed.

#[global, refine] Instance range_StreamReads : StreamReads (range_stream S) := {
  st_data := rs_data;
  st_ok := rs_ok;
}.
Proof.
  intros n r out r' Hn Hok Hr.
  destruct (rs_read_inner n r out r' Hn Hok Hr) as (? & ? & ? & ? & ?). auto.
Defined.

(** Once drained, a window over a stream has consumed exactly its bytes: what
    follows in the inner stream is untouched.  [len] is the window's length. *)
Lemma rs_drained (r : range_stream S) fuel acc out r' :
  rs_ok r -> read_all fuel r acc = Some (out, r') ->
  exists d, out = acc ++ d /\
    st_data (rs_inner (ensure_positioned r)) = d ++ st_data (rs_inner (ensure_positioned r')) /\
    rs_ok r' /\ rs_data r' = [].
Proof.
  revert r acc. induction fuel as [|f IH]; intros r acc Hok; [done|]. simpl.
  destruct (rs_read chunk_size r) as [buf r1] eqn:Hr.
  pose proof (read_empty_iff chunk_size r _ _ Hok chunk_size_pos Hr) as He.
  destruct (rs_read_inner _ _ _ _ chunk_size_pos Hok Hr) as (Hok1 & Hi & Hd & _).
  destruct buf as [|b buf].
  - intros [= <- <-]. exists []. rewrite app_nil_r. split; [done|]. split; [done|].
    split; [done|]. destruct He as [He _]. specialize (He eq_refl). cbn in He.
    by rewrite Hd in He.
  - intros Hra. destruct (IH _ _ Hok1 Hra) as (d & -> & Hi' & Hok' & Hd').
    exists ((b :: buf) ++ d). rewrite <-!app_assoc. split; [done|].
    rewrite Hi, Hi'. auto.
Qed.

(** After any read the window is positioned. *)
Lemma read_all_positioned fuel (r : range_stream S) acc out r' :
  read_all fuel r acc = Some (out, r') -> rs_positioned r' = true.
Proof.
  assert (forall (q : range_stream S), rs_positioned (ensure_positioned q) = true) as He.
  { intros q. unfold ensure_positioned. by destruct (rs_positioned q) eqn:E. }
  revert r acc. induction fuel as [|f IH]; intros r acc; [done|]. cbn [read_all st_read range_Stream].
  destruct (rs_read chunk_size r) as [buf r1] eqn:Hr.
  assert (rs_positioned r1 = true).
  { unfold rs_read in Hr. destruct (rs_clamp _ _); [|by simplify_eq].
    destruct (st_read _ _). by simplify_eq. }
  destruct buf; [by intros [= <- <-]|apply IH].
Qed.
End RangeFacts.

(** A fresh window [begin, end) over a seekable stream holds exactly those
    bytes of its content, clamped to its length. *)
Lemma range_new_seekable {S} `{StreamSeeks S} (s : S) b e :
  st_ok s -> 0 <= b -> 0 <= e ->
  st_ok (range_stream_new s b e) /\
  st_data (range_stream_new s b e) = take (Z.to_nat e - Z.to_nat b) (drop (Z.to_nat b) (st_content s)).
Proof.
  intros Hok Hb He.
  set (len := Z.of_nat (length (st_content s))).
  assert (st_get_length s = len) as Hl by (by apply st_length_spec).
  destruct (st_seek_spec s (Z.min b len)) as (s' & Hs & Hok' & Hd); [done|lia|].
  unfold range_stream_new.
  destruct (Z.ltb_spec b 0); [lia|]. destruct (Z.ltb_spec e 0); [lia|]. cbn [orb].
  rewrite Hl. destruct (Z.leb_spec 0 len); [|lia].
  cbn. unfold rs_ok, rs_data, ensure_positioned. cbn. rewrite Hs. cbn.
  split; [done|]. rewrite Hd.
  destruct (Z.le_gt_cases b len).
  - rewrite (Z.min_l b len) by done. rewrite !take_drop_commute.
    assert (Z.to_nat b + Z.to_nat (Z.min (Z.max e b) len - b - 0) =
            Nat.min (Z.to_nat b + (Z.to_nat e - Z.to_nat b)) (length (st_content s)))%nat as -> by lia.
    rewrite <-take_take, (firstn_all (st_content s)). done.
  - rewrite !drop_ge, !take_nil by lia. done.
Qed.

(** Over a stream that cannot seek, a window from 0 holds the next [n] bytes. *)
Lemma range_new_unseekable {S} `{StreamReads S} (s : S) n :
  st_ok s -> st_get_length s = -1 -> st_seek 0 seek_begin s = (-1, s) -> 0 <= n ->
  st_ok (range_stream_new s 0 n) /\
  st_data (range_stream_new s 0 n) = take (Z.to_nat n) (st_data s) /\
  rs_inner (ensure_positioned (range_stream_new s 0 n)) = s.
Proof.
  intros Hok Hl Hs Hn. unfold range_stream_new.
  destruct (Z.ltb_spec n 0); [lia|]. cbn [orb Z.ltb]. rewrite Hl. cbn -[Z.max].
  cbn. unfold rs_ok, rs_data, ensure_positioned. cbn -[Z.max]. rewrite Hs. cbn -[Z.max].
  split; [done|]. split; [|done]. do 2 f_equal. lia.
Qed.
