(* ===== verification/Feeder.v ===== *)
(** * Feeder: the buffered source shared by the incremental readers

    [chunked_decoder_stream] and [multipart_reader] both keep a source stream,
    a byte buffer and an end-of-source flag, with the same [fill_more] and
    line-reading loops (src/protocol/http_chunked.cpp, http_multipart.cpp).
    [fd_raw] is the ghost sequence of bytes not consumed yet: buffering never
    changes it, so a reader's behaviour is a function of it and not of how the
    bytes arrive. *)

From S2P Require Import Prelude Bytes Stream.

#[local] Open Scope Z_scope.

Section Feeder.
Context {S : Type} `{Stream S}.

Record feeder := mk_feeder {
  fd_source : S;
  fd_buffer : bytes;
  fd_eof : bool;
}.

Definition fd_with_buffer (d : feeder) (b : bytes) : feeder :=
  mk_feeder (fd_source d) b (fd_eof d).

Definition fill_more (d : feeder) : bool * feeder :=
  if fd_eof d then (false, d)
  else
    let '(chunk, src) := st_read chunk_size (fd_source d) in
    match chunk with
    | [] => (false, mk_feeder src (fd_buffer d) true)
    | _ => (true, mk_feeder src (fd_buffer d ++ chunk) false)
    end.

(** [chunked_decoder_stream::read_line] / [multipart_reader::read_header_line];
    the outer option is the fuel. *)
Fixpoint read_line (fuel : nat) (d : feeder) : option (option bytes * feeder) :=
  match fuel with
  | O => None
  | Datatypes.S f =>
      match cut_line (fd_buffer d) with
      | Some (line, k) => Some (Some line, fd_with_buffer d (drop k (fd_buffer d)))
      | None => if fd_eof d then Some (None, d) else read_line f (fill_more d).2
      end
  end.

(** [while (buffer_.size() < k && !eof) fill_more()]. *)
Fixpoint fill_until (fuel : nat) (k : nat) (d : feeder) : option feeder :=
  if (length (fd_buffer d) <? k)%nat && negb (fd_eof d) then
    match fuel with
    | O => None
    | Datatypes.S f => fill_until f k (fill_more d).2
    end
  else Some d.
End Feeder.
Arguments feeder S : clear implicits.

Section FeederFacts.
Context {S : Type} `{StreamReads S}.

Definition fd_raw (d : feeder S) : bytes := fd_buffer d ++ st_data (fd_source d).

Definition fd_ok (d : feeder S) : Prop :=
  st_ok (fd_source d) /\ (fd_eof d = true -> st_data (fd_source d) = []).

(** Iterations [fill_more] can still make without reaching the end. *)
Definition fd_steps (d : feeder S) : nat :=
  length (st_data (fd_source d)) + (if fd_eof d then 0 else 1).

Lemma fd_with_buffer_ok d b : fd_ok d -> fd_ok (fd_with_buffer d b).
Proof. done. Qed.

Lemma fd_raw_with_buffer d b : fd_raw (fd_with_buffer d b) = b ++ st_data (fd_source d).
Proof. done. Qed.

Lemma fd_steps_with_buffer d b : fd_steps (fd_with_buffer d b) = fd_steps d.
Proof. done. Qed.

Lemma fd_steps_raw d : (fd_steps d <= length (fd_raw d) + 1)%nat.
Proof. unfold fd_steps, fd_raw. rewrite length_app. destruct (fd_eof d); lia. Qed.

Lemma fill_more_spec d :
  fd_ok d -> fd_eof d = false ->
  fd_ok (fill_more d).2 /\ fd_raw (fill_more d).2 = fd_raw d /\
  (fd_steps (fill_more d).2 < fd_steps d)%nat /\
  (exists more, fd_buffer (fill_more d).2 = fd_buffer d ++ more).
Proof.
  intros [Hok He] Eof. unfold fill_more, fd_steps, fd_raw. rewrite Eof.
  destruct (st_read chunk_size (fd_source d)) as [c src] eqn:Hr.
  pose proof (read_empty_iff _ _ _ _ Hok chunk_size_pos Hr) as Hemp.
  destruct (st_read_spec _ _ _ _ chunk_size_pos Hok Hr) as (Hok' & Hd & _ & _).
  destruct c as [|x c]; cbn.
  - destruct Hemp as [Hemp _]. specialize (Hemp eq_refl). rewrite Hemp in Hd. cbn in Hd.
    split; [split; [done|by intros _]|]. rewrite Hemp, <-Hd. cbn.
    split; [done|]. split; [lia|]. exists []. by rewrite app_nil_r.
  - split; [by split|]. rewrite Hd, <-app_assoc. split; [done|].
    split; [rewrite length_app; cbn; lia|eauto].
Qed.

(** A line is read as soon as the unconsumed bytes hold one, whatever the
    segmentation; otherwise the end of the source is reported. *)
Lemma read_line_spec fuel d :
  fd_ok d -> (fd_steps d < fuel)%nat ->
  exists d', fd_ok d' /\
    match cut_line (fd_raw d) with
    | Some (line, k) =>
        read_line fuel d = Some (Some line, d') /\ fd_raw d' = drop k (fd_raw d)
    | None => read_line fuel d = Some (None, d') /\ fd_raw d' = fd_raw d /\ fd_eof d' = true
    end.
Proof.
  revert d. induction fuel as [|f IH]; intros d Hok Hf; [lia|].
  cbn [read_line]. destruct (cut_line (fd_buffer d)) as [[line k]|] eqn:E.
  - exists (fd_with_buffer d (drop k (fd_buffer d))). split; [done|].
    unfold fd_raw at 1. rewrite (cut_line_extend _ _ _ _ E). split; [done|].
    rewrite fd_raw_with_buffer. unfold fd_raw. rewrite drop_app_le; [done|].
    apply cut_line_consumed in E. lia.
  - destruct (fd_eof d) eqn:Eof.
    + exists d. split; [done|]. destruct Hok as [_ He].
      assert (cut_line (fd_raw d) = None) as ->.
      { unfold fd_raw. by rewrite He, app_nil_r. }
      done.
    + destruct (fill_more_spec d Hok Eof) as (Hok' & Hraw & Hst & _).
      rewrite <-Hraw. apply IH; [done|lia].
Qed.

(** After [fill_until k] the first [k] unconsumed bytes are buffered, or the
    buffer is all that is left. *)
Lemma fill_until_spec fuel k d :
  fd_ok d -> (fd_steps d <= fuel)%nat ->
  exists d', fill_until fuel k d = Some d' /\ fd_ok d' /\ fd_raw d' = fd_raw d /\
    ((k <= length (fd_buffer d'))%nat \/ fd_raw d' = fd_buffer d' /\ fd_eof d' = true).
Proof.
  revert d. induction fuel as [|f IH]; intros d Hok Hf; cbn [fill_until].
  all: destruct (Nat.ltb_spec (length (fd_buffer d)) k) as [Hk|Hk]; cbn [andb];
    [|exists d; by auto].
  all: destruct (fd_eof d) eqn:Eof; cbn [negb].
  - exists d. destruct Hok as [? He]. split; [done|]. split; [done|]. split; [done|]. right. unfold fd_raw.
    by rewrite He, app_nil_r.
  - unfold fd_steps in Hf. rewrite Eof in Hf. lia.
  - exists d. destruct Hok as [? He]. split; [done|]. split; [done|]. split; [done|]. right. unfold fd_raw.
    by rewrite He, app_nil_r.
  - destruct (fill_more_spec d Hok Eof) as (Hok' & Hraw & Hst & _).
    rewrite <-Hraw. apply IH; [done|lia].
Qed.
End FeederFacts.
