(* ===== verification/UrlEncode.v ===== *)
(** * UrlEncode: src/protocol/urlencode.cpp

    [application/x-www-form-urlencoded] encoding and decoding of byte
    strings. *)

From S2P Require Import Prelude Bytes.

#[local] Open Scope Z_scope.

Definition hex_value (c : byte) : Z :=
  if (48 <=? b2z c) && (b2z c <=? 57) then b2z c - 48
  else if (97 <=? b2z c) && (b2z c <=? 102) then b2z c - 97 + 10
  else if (65 <=? b2z c) && (b2z c <=? 70) then b2z c - 65 + 10
  else -1.

Definition is_unreserved (c : byte) : bool :=
  if ((65 <=? b2z c) && (b2z c <=? 90)) || ((97 <=? b2z c) && (b2z c <=? 122))
     || ((48 <=? b2z c) && (b2z c <=? 57))
  then true
  else Byte.eqb c "-" || Byte.eqb c "_" || Byte.eqb c "." || Byte.eqb c "~".

Definition to_hex_digit (v : Z) : byte :=
  z2b (if v <? 10 then 48 + v else 65 + (v - 10)).

(** The loop of [url_decode]; an escape needs two further bytes
    ([i + 2 < input.size()]), otherwise the ['%'] is copied. *)
Fixpoint url_decode (input : bytes) : bytes :=
  match input with
  | [] => []
  | c :: r =>
      if Byte.eqb c "+" then SP :: url_decode r
      else if Byte.eqb c "%" then
        match r with
        | h :: l :: r' =>
            let hi := hex_value h in
            let lo := hex_value l in
            if (0 <=? hi) && (0 <=? lo)
            then z2b (Z.lor (Z.shiftl hi 4) lo) :: url_decode r'
            else c :: url_decode r
        | _ => c :: url_decode r
        end
      else c :: url_decode r
  end.

Definition url_encode_byte (c : byte) : bytes :=
  if is_unreserved c then [c]
  else if Byte.eqb c SP then ["+"%byte]
  else ["%"%byte; to_hex_digit (Z.land (Z.shiftr (b2z c) 4) 15);
        to_hex_digit (Z.land (b2z c) 15)].

Fixpoint url_encode (input : bytes) : bytes :=
  match input with
  | [] => []
  | c :: r => url_encode_byte c ++ url_encode r
  end.

(** ** Lemmas *)

(** Characters an encoded string is made of. *)
Definition is_encoded_char (c : byte) : bool :=
  is_unreserved c || Byte.eqb c "+" || Byte.eqb c "%".

Lemma url_encode_app a b : url_encode (a ++ b) = url_encode a ++ url_encode b.
Proof. induction a as [|x a IH]; simpl; [done|]. by rewrite IH, app_assoc. Qed.

Lemma url_encode_byte_chars c : forallb is_encoded_char (url_encode_byte c) = true.
Proof. by_all_bytes (fun c => forallb is_encoded_char (url_encode_byte c)). Qed.

Lemma url_encode_chars s : forallb is_encoded_char (url_encode s) = true.
Proof.
  induction s as [|c s IH]; simpl; [done|].
  rewrite forallb_app, IH, url_encode_byte_chars. done.
Qed.

(** A delimiter of the query grammar cannot occur in an encoded string. *)
Lemma url_encode_not_in c s : is_encoded_char c = false -> c ∉ url_encode s.
Proof.
  intros Hc Hin. pose proof (url_encode_chars s) as H.
  rewrite forallb_forall in H. specialize (H c (proj1 (list_elem_of_In _ _) Hin)). congruence.
Qed.

(** Decoding one encoded byte, in front of anything. *)
Lemma url_decode_encode_byte c r : url_decode (url_encode_byte c ++ r) = c :: url_decode r.
Proof. destruct c; reflexivity. Qed.

(** Decoding inverts encoding, on every byte string. *)
Lemma url_decode_encode s : url_decode (url_encode s) = s.
Proof.
  induction s as [|c s IH]; simpl; [done|].
  by rewrite url_decode_encode_byte, IH.
Qed.

(** Decoding never lengthens its input. *)
Lemma url_decode_length s : (length (url_decode s) <= length s)%nat.
Proof.
  enough (forall n s, (length s <= n)%nat -> (length (url_decode s) <= length s)%nat) as H
    by (by apply (H (length s))).
  clear s. induction n as [|n IH]; intros [|c r] Hn; simpl in *; try lia.
  destruct (Byte.eqb c "+"); [simpl; specialize (IH r); lia|].
  destruct (Byte.eqb c "%"); [|simpl; specialize (IH r); lia].
  destruct r as [|h [|l r']]; [simpl; lia|specialize (IH [h]); simpl in *; lia|].
  destruct ((0 <=? hex_value h) && (0 <=? hex_value l)).
  - specialize (IH r'). simpl in *. lia.
  - specialize (IH (h :: l :: r')). cbn [length] in *. lia.
Qed.
