(* ===== verification/QueryString.v ===== *)
(** * QueryString: src/protocol/http_query_string.cpp

    The [key=value&key2=value2] part of a URL, parsed into an ordered map. *)

From S2P Require Import Prelude Bytes OrdMap UrlEncode.

#[local] Open Scope Z_scope.

Abbreviation http_query_string := (list (bytes * bytes)).

(** One [&]-separated pair: [key], or [key=value] split at the first [=]. *)
Definition qs_pair (pair : bytes) : bytes * bytes :=
  match find_byte "=" pair with
  | None => (url_decode pair, [])
  | Some eq => (url_decode (take eq pair), url_decode (drop (S eq) pair))
  end.

Definition qs_step (out : http_query_string) (pair : bytes) : http_query_string :=
  match pair with
  | [] => out
  | _ => let '(key, value) := qs_pair pair in om_assign key value out
  end.

Definition qs_parse (raw : bytes) : http_query_string :=
  fold_left qs_step (tokens "&" raw) [].

Definition qs_get (key : bytes) (q : http_query_string) : option bytes := om_find key q.

Definition qs_isset (key : bytes) (q : http_query_string) : bool :=
  match qs_get key q with Some _ => true | None => false end.

(** ** Lemmas *)

Lemma qs_fold_wf ts m : om_wf m -> om_wf (fold_left qs_step ts m).
Proof.
  revert m. induction ts as [|t ts IH]; intros m Hm; simpl; [done|].
  apply IH. unfold qs_step. destruct t; [done|].
  destruct (qs_pair _). by apply om_insert_wf.
Qed.

(** The parsed map is always a well-formed ordered map. *)
Lemma qs_parse_wf raw : om_wf (qs_parse raw).
Proof. apply qs_fold_wf, om_wf_nil. Qed.

(** The serialized form of one entry, and of a whole query. *)
Definition qs_entry (kv : bytes * bytes) : bytes :=
  url_encode kv.1 ++ "="%byte :: url_encode kv.2.

Definition qs_print (q : http_query_string) : bytes := join_with "&" (map qs_entry q).

Lemma qs_pair_entry kv : qs_pair (qs_entry kv) = kv.
Proof.
  destruct kv as [k v]. unfold qs_pair, qs_entry. cbn [fst snd].
  rewrite find_byte_app by (apply url_encode_not_in; vm_compute; reflexivity).
  rewrite take_app_length.
  by rewrite drop_sep, !url_decode_encode.
Qed.

Lemma qs_step_entry q kv : qs_step q (qs_entry kv) = om_assign kv.1 kv.2 q.
Proof.
  unfold qs_step. rewrite qs_pair_entry. destruct (qs_entry kv) eqn:E; [|by destruct kv].
  unfold qs_entry in E. by apply app_eq_nil in E as [_ ?].
Qed.

Lemma qs_entry_no_amp kv : "&"%byte ∉ qs_entry kv.
Proof.
  unfold qs_entry. apply not_elem_of_app. split; [apply url_encode_not_in; vm_compute; reflexivity|].
  apply not_elem_of_cons. split; [done|apply url_encode_not_in; vm_compute; reflexivity].
Qed.

Lemma qs_fold_entries l m :
  fold_left qs_step (map qs_entry l) m = om_assign_all m l.
Proof.
  revert m. induction l as [|[k v] l IH]; intros m; simpl; [done|].
  rewrite qs_step_entry, IH. done.
Qed.

(** Parsing a serialized list of entries assigns them in order. *)
Lemma qs_parse_print_list l : qs_parse (qs_print l) = om_assign_all [] l.
Proof.
  unfold qs_parse, qs_print. rewrite tokens_join.
  - apply qs_fold_entries.
  - apply Forall_map, Forall_true. intros. apply qs_entry_no_amp.
  - apply Forall_map, Forall_true. intros kv E. unfold qs_entry in E.
    by apply app_eq_nil in E as [_ ?].
Qed.

(** Parsing the percent-encoded serialization of a query map gives the map back. *)
Lemma qs_parse_print q : om_wf q -> qs_parse (qs_print q) = q.
Proof. intros. rewrite qs_parse_print_list. by apply om_insert_all_sorted. Qed.

(** A repeated key keeps its last value. *)
Lemma qs_last_value_wins k v1 v2 :
  qs_get k (qs_parse (qs_print [(k, v1); (k, v2)])) = Some v2.
Proof.
  rewrite qs_parse_print_list. unfold om_assign_all, om_insert_all, qs_get. cbn [fold_left].
  rewrite om_find_insert by auto with nhttp.
  by rewrite bytes_eqb_refl; destruct (om_find k _).
Qed.

Lemma qs_parse_print_witness :
  let q := [(str "a", str "1 & 2"); (str "b", str "x=y")] in qs_parse (qs_print q) = q.
Proof.
  intros q. apply qs_parse_print. unfold om_wf. cbn. repeat constructor.
Defined.
