(* ===== verification/Method.v ===== *)
(** * Method: src/protocol/http_method.cpp and http_method.hpp

    Method names with their semantic flags and identity, looked up in the
    table of the nine known methods. *)

From S2P Require Import Prelude Bytes.

#[local] Open Scope Z_scope.

(** [http_method_flags], a bit set. *)
Definition mf_none : Z := 0.
Definition mf_request_content : Z := Z.shiftl 1 0.
Definition mf_response_content : Z := Z.shiftl 1 1.
Definition mf_alter_state : Z := Z.shiftl 1 2.
Definition mf_idempotent : Z := Z.shiftl 1 3.
Definition mf_cacheable : Z := Z.shiftl 1 4.
Definition mf_conditional_cacheable : Z := Z.shiftl 1 5.

Inductive http_method_id :=
| id_custom | id_get | id_head | id_post | id_put | id_del | id_patch
| id_options | id_trace | id_connect.

#[global] Instance http_method_id_eq_dec : EqDecision http_method_id.
Proof. solve_decision. Defined.

Record known_entry := mk_known { ke_name : bytes; ke_flags : Z; ke_id : http_method_id }.

#[local] Infix "|||" := Z.lor (at level 50, left associativity).

Definition known_methods : list known_entry :=
  [ mk_known (str "GET") (mf_response_content ||| mf_idempotent ||| mf_cacheable) id_get;
    mk_known (str "HEAD") (mf_idempotent ||| mf_cacheable) id_head;
    mk_known (str "POST") (mf_request_content ||| mf_response_content ||| mf_alter_state
                            ||| mf_conditional_cacheable) id_post;
    mk_known (str "PUT") (mf_request_content ||| mf_alter_state ||| mf_idempotent) id_put;
    mk_known (str "DELETE") (mf_alter_state ||| mf_idempotent) id_del;
    mk_known (str "PATCH") (mf_request_content ||| mf_alter_state) id_patch;
    mk_known (str "OPTIONS") mf_idempotent id_options;
    mk_known (str "TRACE") mf_idempotent id_trace;
    mk_known (str "CONNECT") mf_alter_state id_connect ].

Fixpoint find_known_in (l : list known_entry) (name : bytes) : option known_entry :=
  match l with
  | [] => None
  | e :: r => if bytes_eqb (ke_name e) name then Some e else find_known_in r name
  end.

Definition find_known : bytes -> option known_entry := find_known_in known_methods.

Record http_method := mk_method { hm_name : bytes; hm_flags : Z; hm_id : http_method_id }.

(** The constructor [http_method(std::string name)]. *)
Definition http_method_of (name : bytes) : http_method :=
  match find_known name with
  | Some e => mk_method name (ke_flags e) (ke_id e)
  | None => mk_method name mf_none id_custom
  end.

Definition hm_is (flag : Z) (m : http_method) : bool := negb (Z.land (hm_flags m) flag =? mf_none).

(** [operator==] compares names only. *)
Definition hm_eqb (a b : http_method) : bool := bytes_eqb (hm_name a) (hm_name b).

Definition GET : http_method := http_method_of (str "GET").
Definition HEAD : http_method := http_method_of (str "HEAD").
Definition POST : http_method := http_method_of (str "POST").
Definition PUT : http_method := http_method_of (str "PUT").
Definition DELETE : http_method := http_method_of (str "DELETE").
Definition PATCH : http_method := http_method_of (str "PATCH").
Definition OPTIONS : http_method := http_method_of (str "OPTIONS").
Definition TRACE : http_method := http_method_of (str "TRACE").
Definition CONNECT : http_method := http_method_of (str "CONNECT").

(** A method value built by the constructor. *)
Definition hm_wf (m : http_method) : Prop := m = http_method_of (hm_name m).

(** ** Lemmas *)

Lemma hm_name_of name : hm_name (http_method_of name) = name.
Proof. unfold http_method_of. by destruct (find_known name). Qed.

Lemma http_method_of_wf name : hm_wf (http_method_of name).
Proof. unfold hm_wf. by rewrite hm_name_of. Qed.

#[export] Hint Resolve http_method_of_wf : nhttp.

Lemma find_known_in_Some l name e : find_known_in l name = Some e -> e ∈ l /\ ke_name e = name.
Proof.
  induction l as [|a l IH]; simpl; [done|].
  destruct (bytes_eqb (ke_name a) name) eqn:E.
  - intros [= <-]. apply bytes_eqb_true in E. split; [by left|done].
  - intros H. destruct (IH H). split; [by right|done].
Qed.

(** The table assigns distinct names distinct identities. *)
Lemma known_id_inj e1 e2 :
  e1 ∈ known_methods -> e2 ∈ known_methods -> ke_id e1 = ke_id e2 -> e1 = e2.
Proof.
  intros H1 H2. unfold known_methods in *.
  repeat (apply elem_of_cons in H1 as [->|H1]; [|]); try (by apply not_elem_of_nil in H1);
  repeat (apply elem_of_cons in H2 as [->|H2]; [|]); try (by apply not_elem_of_nil in H2); done.
Qed.

Lemma known_id_not_custom e : e ∈ known_methods -> ke_id e <> id_custom.
Proof.
  intros H. unfold known_methods in *.
  repeat (apply elem_of_cons in H as [->|H]; [done|]). by apply not_elem_of_nil in H.
Qed.

(** The small-integer identity decides method equality: two constructed
    methods are equal exactly when their ids agree and, for custom methods,
    their names too.  This is the comparison route.cpp uses in place of the
    name comparison. *)
Lemma hm_id_decides a b :
  hm_wf a -> hm_wf b ->
  hm_eqb a b = true <-> hm_id a = hm_id b /\ (hm_id a = id_custom -> hm_name a = hm_name b).
Proof.
  unfold hm_eqb. rewrite bytes_eqb_true. intros Ha Hb. split.
  - intros E. assert (a = b) as -> by (by rewrite Ha, Hb, E). done.
  - intros [Hid Hc]. rewrite Ha, Hb in Hid. rewrite Ha in Hc. unfold http_method_of in *.
    destruct (find_known (hm_name a)) as [ea|] eqn:Ea, (find_known (hm_name b)) as [eb|] eqn:Eb;
      cbn [hm_id hm_name] in *.
    + apply find_known_in_Some in Ea as [Ia <-], Eb as [Ib <-].
      by rewrite (known_id_inj ea eb).
    + apply find_known_in_Some in Ea as [Ia _]. by destruct (known_id_not_custom ea).
    + apply find_known_in_Some in Eb as [Ib _]. by destruct (known_id_not_custom eb).
    + by apply Hc.
Qed.
