(* ===== verification/Header.v ===== *)
(** * Header: src/protocol/http_header.cpp and http_header.hpp

    One header line, and the ordered header collection with its
    case-insensitive lookups.  Case-insensitive equality of names is an
    equivalence coarser than [=]; the lookups are proper for it. *)

From S2P Require Import Prelude Bytes.
From Stdlib Require Import Setoid Morphisms.

#[local] Open Scope Z_scope.

Definition header_name_equals (a b : bytes) : bool :=
  if negb (length a =? length b)%nat then false
  else strncasecmp_eq a b (length a).

(** Case-insensitive substring search. *)
Definition header_value_contains_token (value token : bytes) : bool :=
  match find_sub (to_lower token) (to_lower value) with Some _ => true | None => false end.

Definition CONTENT_LENGTH := str "Content-Length".
Definition CONTENT_TYPE := str "Content-Type".
Definition CONTENT_RANGE := str "Content-Range".
Definition CONTENT_DISPOSITION := str "Content-Disposition".
Definition TRANSFER_ENCODING := str "Transfer-Encoding".
Definition HOST := str "Host".
Definition CONNECTION := str "Connection".
Definition UPGRADE := str "Upgrade".
Definition SEC_WEBSOCKET_KEY := str "Sec-WebSocket-Key".
Definition SEC_WEBSOCKET_ACCEPT := str "Sec-WebSocket-Accept".
Definition ETAG := str "ETag".
Definition IF_MATCH := str "If-Match".
Definition IF_NONE_MATCH := str "If-None-Match".
Definition IF_MODIFIED_SINCE := str "If-Modified-Since".
Definition IF_RANGE := str "If-Range".
Definition LAST_MODIFIED := str "Last-Modified".
Definition RANGE := str "Range".
Definition ACCEPT_RANGES := str "Accept-Ranges".
Definition CACHE_CONTROL := str "Cache-Control".
Definition AUTHORIZATION := str "Authorization".
Definition SERVER := str "Server".
Definition DATE := str "Date".

Record http_header := mk_header { h_name : bytes; h_value : bytes }.

#[global] Instance http_header_eq_dec : EqDecision http_header.
Proof. solve_decision. Defined.

Definition header_try_parse (data : bytes) : parse_result http_header :=
  match cut_line data with
  | None => NeedMore
  | Some (line, consumed) =>
      match find_byte ":" line with
      | None => Malformed
      | Some O => Malformed
      | Some name_len =>
          Parsed (mk_header (take name_len line)
                    (trim_back is_blank (trim_front is_blank (drop (S name_len) line))))
                 consumed
      end
  end.

Abbreviation http_headers := (list http_header).

Fixpoint headers_set (name value : bytes) (hs : http_headers) : http_headers :=
  match hs with
  | [] => [mk_header name value]
  | h :: r =>
      if header_name_equals (h_name h) name then mk_header (h_name h) value :: r
      else h :: headers_set name value r
  end.

Definition headers_add (name value : bytes) (hs : http_headers) : http_headers :=
  hs ++ [mk_header name value].

Definition headers_unset (name : bytes) (hs : http_headers) : http_headers :=
  List.filter (fun h => negb (header_name_equals (h_name h) name)) hs.

Fixpoint headers_get (name : bytes) (hs : http_headers) : option bytes :=
  match hs with
  | [] => None
  | h :: r => if header_name_equals (h_name h) name then Some (h_value h) else headers_get name r
  end.

Definition headers_isset (name : bytes) (hs : http_headers) : bool :=
  existsb (fun h => header_name_equals (h_name h) name) hs.

Definition headers_get_all (name : bytes) (hs : http_headers) : list bytes :=
  map h_value (List.filter (fun h => header_name_equals (h_name h) name) hs).

(** One line of [http_headers::write_to]. *)
Definition header_line (h : http_header) : bytes := h_name h ++ str ": " ++ h_value h ++ CRLF.

Fixpoint headers_write (hs : http_headers) : bytes :=
  match hs with [] => [] | h :: r => header_line h ++ headers_write r end.

(** ** Names up to case *)

Definition name_eq (a b : bytes) : Prop := header_name_equals a b = true.

Lemma header_name_equals_key a b :
  header_name_equals a b = true <-> length a = length b /\ casefold_key a = casefold_key b.
Proof.
  unfold header_name_equals. destruct (Nat.eqb_spec (length a) (length b)) as [E|E]; simpl.
  - rewrite strncasecmp_eq_key by done. tauto.
  - split; [done|]. tauto.
Qed.

#[global] Instance name_eq_Equivalence : Equivalence name_eq.
Proof.
  unfold name_eq. split.
  - intros a. by apply header_name_equals_key.
  - intros a b H%header_name_equals_key. apply header_name_equals_key. naive_solver.
  - intros a b c H1%header_name_equals_key H2%header_name_equals_key.
    apply header_name_equals_key. intuition congruence.
Qed.

#[global] Instance header_name_equals_Proper :
  Proper (name_eq ==> name_eq ==> eq) header_name_equals.
Proof.
  intros a a' Ha b b' Hb. apply eq_true_iff_eq. fold (name_eq a b) (name_eq a' b').
  by rewrite Ha, Hb.
Qed.

Lemma name_eq_refl a : header_name_equals a a = true.
Proof. change (name_eq a a). reflexivity. Qed.

#[global] Instance headers_get_Proper : Proper (name_eq ==> eq ==> eq) headers_get.
Proof.
  intros a a' Ha hs ? <-. induction hs as [|h r IH]; simpl; [done|].
  by rewrite Ha, IH.
Qed.

#[global] Instance headers_get_all_Proper : Proper (name_eq ==> eq ==> eq) headers_get_all.
Proof.
  intros a a' Ha hs ? <-. unfold headers_get_all. f_equal.
  induction hs as [|h r IH]; simpl; [done|]. by rewrite Ha, IH.
Qed.

(** ** Collection laws *)

Lemma headers_isset_get name hs :
  headers_isset name hs = true <-> is_Some (headers_get name hs).
Proof.
  induction hs as [|h r IH]; simpl; [split; [done|by intros [? ?]]|].
  destruct (header_name_equals (h_name h) name); simpl; [|done]. split; [eauto|done].
Qed.

(** [get] is the first of [get_all]. *)
Lemma headers_get_head name hs : headers_get name hs = head (headers_get_all name hs).
Proof.
  unfold headers_get_all. induction hs as [|h r IH]; simpl; [done|].
  by destruct (header_name_equals (h_name h) name).
Qed.

Lemma headers_get_after_set n m v hs :
  headers_get m (headers_set n v hs) =
  if header_name_equals n m then Some v else headers_get m hs.
Proof.
  induction hs as [|h r IH]; cbn [headers_set headers_get].
  - cbn. by destruct (header_name_equals n m).
  - destruct (header_name_equals (h_name h) n) eqn:E; cbn [headers_get h_name h_value].
    + fold (name_eq (h_name h) n) in E. rewrite E.
      by destruct (header_name_equals n m).
    + rewrite IH. destruct (header_name_equals n m) eqn:E2; [|done].
      fold (name_eq n m) in E2. rewrite <-E2, E. done.
Qed.

(** [set] leaves every header of another name in place. *)
Lemma headers_set_other n v hs :
  List.filter (fun h => negb (header_name_equals (h_name h) n)) (headers_set n v hs) =
  List.filter (fun h => negb (header_name_equals (h_name h) n)) hs.
Proof.
  induction hs as [|h r IH]; simpl; [by rewrite name_eq_refl|].
  destruct (header_name_equals (h_name h) n) eqn:E; simpl; rewrite E; simpl; [done|].
  by rewrite IH.
Qed.

Lemma headers_get_unset n m hs :
  headers_get m (headers_unset n hs) =
  if header_name_equals n m then None else headers_get m hs.
Proof.
  unfold headers_unset. induction hs as [|h r IH]; simpl.
  - by destruct (header_name_equals n m).
  - destruct (header_name_equals (h_name h) n) eqn:E; simpl.
    + rewrite IH. fold (name_eq (h_name h) n) in E. rewrite E.
      by destruct (header_name_equals n m).
    + rewrite IH. destruct (header_name_equals n m) eqn:E2; [|done].
      fold (name_eq n m) in E2. rewrite <-E2, E. done.
Qed.

Lemma headers_get_add n m v hs :
  headers_get m (headers_add n v hs) =
  match headers_get m hs with
  | Some x => Some x
  | None => if header_name_equals n m then Some v else None
  end.
Proof. unfold headers_add. induction hs as [|h r IH]; cbn; [done|]. by case_if. Qed.

(** How set, unset and add change what a lookup of any name returns. *)
Lemma headers_lookup_laws n m v hs :
  headers_get m (headers_set n v hs) = (if header_name_equals n m then Some v else headers_get m hs) /\
  headers_get m (headers_unset n hs) = (if header_name_equals n m then None else headers_get m hs) /\
  headers_get_all m (headers_add n v hs) =
    headers_get_all m hs ++ (if header_name_equals n m then [v] else []).
Proof.
  split_and!; [apply headers_get_after_set|apply headers_get_unset|].
  unfold headers_add, headers_get_all. rewrite List.filter_app, map_app. f_equal. cbn. by case_if.
Qed.

(** ** Parsing *)

(** Needing more data means exactly that no line end arrived. *)
Lemma header_need_more data : header_try_parse data = NeedMore <-> LF ∉ data.
Proof.
  rewrite <-cut_line_None. unfold header_try_parse.
  destruct (cut_line data) as [[l n]|]; [|done].
  split; [|done]. by destruct (find_byte ":" l) as [[|?]|].
Qed.

(** Once a verdict is reached, bytes arriving later cannot change it. *)
Lemma header_try_parse_extend data more :
  header_try_parse data <> NeedMore ->
  header_try_parse (data ++ more) = header_try_parse data.
Proof.
  unfold header_try_parse. destruct (cut_line data) as [[l n]|] eqn:E; [|done].
  intros _. by rewrite (cut_line_extend _ _ _ _ E).
Qed.

Lemma header_try_parse_consumed data h n :
  header_try_parse data = Parsed h n -> (0 < n <= length data)%nat.
Proof.
  unfold header_try_parse. destruct (cut_line data) as [[l k]|] eqn:E; [|done].
  destruct (find_byte ":" l) as [[|i]|]; [done| |done].
  intros [= _ <-]. by eapply cut_line_consumed.
Qed.

(** A header the wire format can carry: a non-empty name free of [:] and LF,
    a value free of LF that does not start or end with a blank. *)
Definition header_wf (h : http_header) : Prop :=
  h_name h <> [] /\ (":"%byte ∉ h_name h) /\ (LF ∉ h_name h) /\ (LF ∉ h_value h) /\
  (forall c, head (h_value h) = Some c -> is_blank c = false) /\
  (forall c, last (h_value h) = Some c -> is_blank c = false).

#[global] Instance header_wf_dec h : Decision (header_wf h).
Proof.
  unfold header_wf.
  assert (forall o : option byte, Decision (forall c, o = Some c -> is_blank c = false)) as D.
  { intros [c|].
    - destruct (is_blank c) eqn:E; [right|left].
      + intros H. specialize (H c eq_refl). congruence.
      + by intros ? [= <-].
    - left. done. }
  repeat apply and_dec; try apply _; apply D.
Defined.

Lemma header_line_split h rest :
  header_line h ++ rest = (h_name h ++ ":"%byte :: SP :: h_value h) ++ CRLF ++ rest.
Proof. unfold header_line. rewrite <-!app_assoc. done. Qed.

Lemma header_line_no_lf h : header_wf h -> LF ∉ h_name h ++ ":"%byte :: SP :: h_value h.
Proof.
  intros (_ & _ & Hn & Hv & _ & _). apply not_elem_of_app. split; [done|].
  rewrite !not_elem_of_cons. done.
Qed.

(** Parsing a written header line gives the header back. *)
Lemma header_parse_line h rest :
  header_wf h ->
  header_try_parse (header_line h ++ rest) = Parsed h (length (header_line h)).
Proof.
  intros Hwf. pose proof (header_line_no_lf h Hwf) as Hlf.
  destruct Hwf as (Hne & Hc & _ & _ & Hh & Hl).
  unfold header_try_parse. rewrite header_line_split, cut_line_crlf by done.
  rewrite find_byte_app by done.
  destruct (h_name h) as [|x nm] eqn:En; [done|]. rewrite <-En.
  cbn [length] in *. rewrite <-En in *.
  replace (length (h_name h)) with (S (length nm)) by (by rewrite En). cbn -[take drop].
  replace (S (length nm)) with (length (h_name h)) by (by rewrite En).
  rewrite take_app_length, drop_sep.
  replace (SP :: h_value h) with ([SP] ++ h_value h) by done.
  rewrite trim_front_app_all, trim_front_id, trim_back_id by done.
  f_equal; [by destruct h|]. unfold header_line, CRLF.
  change (str ": ") with [":"%byte; SP]. solve_len.
Qed.
