(* ===== verification/Resource.v ===== *)
(** * Resource: src/protocol/http_resource.cpp

    The request line: method, target (path and query), protocol version. *)

From S2P Require Import Prelude Bytes OrdMap UrlEncode QueryString Method.

#[local] Open Scope Z_scope.

Record http_resource := mk_resource {
  hr_method : http_method;
  hr_path : bytes;
  hr_raw_path : bytes;
  hr_query : http_query_string;
  hr_major : Z;
  hr_minor : Z;
}.

(** The default-constructed resource. *)
Definition http_resource_default : http_resource :=
  mk_resource (http_method_of []) [] [] [] 1 1.

(** ["HTTP/x.y"]: exactly eight bytes, two single digits. *)
Definition parse_version (v : bytes) : option (Z * Z) :=
  match v with
  | [h; t1; t2; p; sl; major_ch; dot; minor_ch] =>
      if bytes_eqb [h; t1; t2; p; sl] (str "HTTP/") && Byte.eqb dot "."
         && is_digit major_ch && is_digit minor_ch
      then Some (b2z major_ch - 48, b2z minor_ch - 48)
      else None
  | _ => None
  end.

(** The target split at the first ['?']. *)
Definition split_target (target : bytes) : bytes * http_query_string :=
  match find_byte "?" target with
  | None => (target, qs_parse [])
  | Some qpos => (take qpos target, qs_parse (drop (S qpos) target))
  end.

Definition resource_try_parse (data : bytes) : parse_result http_resource :=
  match cut_line data with
  | None => NeedMore
  | Some (line, consumed) =>
      match find_byte SP line with
      | None => Malformed
      | Some sp1 =>
          match find_byte_from SP (S sp1) line with
          | None => Malformed
          | Some sp2 =>
              let method_part := take sp1 line in
              let target_part := take (sp2 - sp1 - 1) (drop (S sp1) line) in
              let version_part := drop (S sp2) line in
              match parse_version version_part with
              | None => Malformed
              | Some (major, minor) =>
                  let '(raw_path, query) := split_target target_part in
                  Parsed (mk_resource (http_method_of method_part) (url_decode raw_path)
                            raw_path query major minor) consumed
              end
          end
      end
  end.

(** ** Lemmas *)

Lemma resource_need_more data : resource_try_parse data = NeedMore <-> LF ∉ data.
Proof.
  rewrite <-cut_line_None. unfold resource_try_parse.
  destruct (cut_line data) as [[l n]|]; [|done]. split; [|done].
  repeat (case_match; try done).
Qed.

Lemma resource_try_parse_extend data more :
  resource_try_parse data <> NeedMore ->
  resource_try_parse (data ++ more) = resource_try_parse data.
Proof.
  unfold resource_try_parse. destruct (cut_line data) as [[l n]|] eqn:E; [|done].
  intros _. by rewrite (cut_line_extend _ _ _ _ E).
Qed.

Lemma resource_try_parse_consumed data r n :
  resource_try_parse data = Parsed r n -> (0 < n <= length data)%nat.
Proof.
  unfold resource_try_parse. destruct (cut_line data) as [[l k]|] eqn:E; [|done].
  repeat case_match; try done. intros [= _ <-]. by eapply cut_line_consumed.
Qed.

(** The text of a request line. *)
Definition request_line (method target : bytes) (major minor : Z) : bytes :=
  method ++ [SP] ++ target ++ [SP] ++ str "HTTP/" ++ [dec_digit major] ++ ["."%byte]
  ++ [dec_digit minor].

Lemma parse_version_text major minor :
  0 <= major < 10 -> 0 <= minor < 10 ->
  parse_version (str "HTTP/" ++ [dec_digit major] ++ ["."%byte] ++ [dec_digit minor])
  = Some (major, minor).
Proof.
  intros Hj Hm. change (str "HTTP/") with ["H"%byte; "T"%byte; "T"%byte; "P"%byte; "/"%byte].
  cbn [app parse_version]. destruct (dec_digit_spec major Hj) as [-> E1].
  destruct (dec_digit_spec minor Hm) as [-> E2].
  change (bytes_eqb _ _ && Byte.eqb "." "." && true && true) with true. cbn iota.
  unfold digit_value in *. by rewrite E1, E2.
Qed.

Lemma version_text_no_lf major minor :
  0 <= major < 10 -> 0 <= minor < 10 ->
  LF ∉ str "HTTP/" ++ [dec_digit major] ++ ["."%byte] ++ [dec_digit minor].
Proof.
  intros Hj Hm.
  assert (forall d, 0 <= d < 10 -> dec_digit d <> LF) as Hd.
  { intros d Hd E. apply (f_equal b2z) in E. unfold dec_digit in E.
    rewrite b2z_z2b_small in E by lia. cbn in E. lia. }
  specialize (Hd major Hj) as H1. specialize (Hd minor Hm) as H2.
  change (str "HTTP/") with ["H"%byte; "T"%byte; "T"%byte; "P"%byte; "/"%byte]. cbn [app].
  solve_notin; congruence.
Qed.

Lemma request_line_no_lf method target major minor :
  LF ∉ method -> LF ∉ target -> 0 <= major < 10 -> 0 <= minor < 10 ->
  LF ∉ request_line method target major minor.
Proof.
  intros Hml Htl Hj Hm. pose proof (version_text_no_lf major minor Hj Hm).
  unfold request_line. apply not_elem_of_app; split; [done|].
  apply not_elem_of_app; split; [solve_notin|]. apply not_elem_of_app; split; [done|].
  apply not_elem_of_app; split; [solve_notin|]. done.
Qed.

(** A request line is parsed into its parts, the path being decoded and the
    query split off, and exactly the line is consumed. *)
Lemma request_line_parses method target major minor rest :
  SP ∉ method -> LF ∉ method -> SP ∉ target -> LF ∉ target ->
  0 <= major < 10 -> 0 <= minor < 10 ->
  resource_try_parse (request_line method target major minor ++ CRLF ++ rest) =
  Parsed (mk_resource (http_method_of method) (url_decode (split_target target).1)
            (split_target target).1 (split_target target).2 major minor)
         (length (request_line method target major minor) + 2).
Proof.
  intros Hms Hml Hts Htl Hj Hm. unfold resource_try_parse.
  rewrite cut_line_crlf by by apply request_line_no_lf.
  unfold request_line at 1. cbn [app]. rewrite find_byte_app by done.
  assert (find_byte_from SP (S (length method)) (request_line method target major minor)
          = Some (length method + 1 + length target)%nat) as E2.
  { unfold find_byte_from, request_line. cbn [app]. rewrite drop_sep, find_byte_app by done.
    cbn. f_equal. lia. }
  fold (request_line method target major minor). unfold request_line in E2 |- *.
  cbn [app] in E2 |- *. rewrite E2, take_app_length, drop_sep.
  replace (length method + 1 + length target - length method - 1)%nat with (length target) by lia.
  rewrite take_app_length.
  replace (S (length method + 1 + length target))
    with (length (method ++ SP :: target) + 1)%nat by (rewrite length_app; cbn; lia).
  replace (method ++ SP :: target ++ SP :: str "HTTP/" ++ dec_digit major :: "."%byte :: [dec_digit minor])
    with ((method ++ SP :: target) ++ SP :: str "HTTP/" ++ dec_digit major :: "."%byte :: [dec_digit minor])
    by (by rewrite <-app_assoc).
  rewrite Nat.add_1_r, drop_sep.
  pose proof (parse_version_text major minor Hj Hm) as Hv. cbn [app] in Hv. rewrite Hv.
  by destruct (split_target target).
Qed.
