(* ===== verification/Status.v ===== *)
(** * Status: src/protocol/http_status.cpp

    Status codes, reason phrases, and the status line in both directions (the
    server writes it, the reverse proxy's client role parses it). *)

From S2P Require Import Prelude Bytes.

#[local] Open Scope Z_scope.

Definition reason_phrase (code : Z) : bytes :=
  match code with
  | 100 => str "Continue"
  | 101 => str "Switching Protocols"
  | 200 => str "OK"
  | 201 => str "Created"
  | 202 => str "Accepted"
  | 204 => str "No Content"
  | 206 => str "Partial Content"
  | 301 => str "Moved Permanently"
  | 302 => str "Found"
  | 303 => str "See Other"
  | 304 => str "Not Modified"
  | 307 => str "Temporary Redirect"
  | 308 => str "Permanent Redirect"
  | 400 => str "Bad Request"
  | 401 => str "Unauthorized"
  | 403 => str "Forbidden"
  | 404 => str "Not Found"
  | 405 => str "Method Not Allowed"
  | 406 => str "Not Acceptable"
  | 408 => str "Request Timeout"
  | 409 => str "Conflict"
  | 410 => str "Gone"
  | 411 => str "Length Required"
  | 412 => str "Precondition Failed"
  | 413 => str "Payload Too Large"
  | 414 => str "URI Too Long"
  | 415 => str "Unsupported Media Type"
  | 416 => str "Range Not Satisfiable"
  | 417 => str "Expectation Failed"
  | 426 => str "Upgrade Required"
  | 429 => str "Too Many Requests"
  | 431 => str "Request Header Fields Too Large"
  | 500 => str "Internal Server Error"
  | 501 => str "Not Implemented"
  | 502 => str "Bad Gateway"
  | 503 => str "Service Unavailable"
  | 504 => str "Gateway Timeout"
  | 505 => str "HTTP Version Not Supported"
  | _ => str "Unknown"
  end.

(** [http_status::write_status_line], appended to [out] by the callers. *)
Definition write_status_line (code http_minor : Z) : bytes :=
  str "HTTP/1." ++ to_string http_minor ++ [SP] ++ to_string code ++ [SP]
  ++ reason_phrase code ++ CRLF.

(** The digit loop over the three-byte code. *)
Fixpoint parse_code (acc : Z) (ds : bytes) : option Z :=
  match ds with
  | [] => Some acc
  | c :: r => if is_digit c then parse_code (acc * 10 + (b2z c - 48)) r else None
  end.

Record status_line := mk_status_line { sl_code : Z; sl_major : Z; sl_minor : Z }.

Definition status_try_parse (data : bytes) : parse_result status_line :=
  match cut_line data with
  | None => NeedMore
  | Some (line, consumed) =>
      if (length line <? 12)%nat
         || negb (bytes_eqb (take 5 line) (str "HTTP/"))
         || negb (bool_decide (line !! 6%nat = Some "."%byte))
         || negb (bool_decide (line !! 8%nat = Some SP))
      then Malformed
      else
        match line !! 5%nat, line !! 7%nat with
        | Some major_ch, Some minor_ch =>
            if negb (is_digit major_ch) || negb (is_digit minor_ch) then Malformed
            else
              let code_part := match find_byte_from SP 9 line with
                               | None => drop 9 line
                               | Some sp2 => take (sp2 - 9) (drop 9 line)
                               end in
              if negb (length code_part =? 3)%nat then Malformed
              else match parse_code 0 code_part with
                   | None => Malformed
                   | Some code =>
                       Parsed (mk_status_line code (b2z major_ch - 48) (b2z minor_ch - 48)) consumed
                   end
        | _, _ => Malformed
        end
  end.

(** ** Lemmas *)

Lemma reason_phrase_no_lf code : LF ∉ reason_phrase code.
Proof.
  unfold reason_phrase.
  repeat case_match; refine (bool_decide_unpack _ _); vm_compute; exact I.
Qed.

Lemma status_need_more data : status_try_parse data = NeedMore <-> LF ∉ data.
Proof.
  rewrite <-cut_line_None. unfold status_try_parse.
  destruct (cut_line data) as [[l n]|]; [|done]. split; [|done].
  repeat case_match; done.
Qed.

Lemma status_try_parse_extend data more :
  status_try_parse data <> NeedMore -> status_try_parse (data ++ more) = status_try_parse data.
Proof.
  unfold status_try_parse. destruct (cut_line data) as [[l n]|] eqn:E; [|done].
  intros _. by rewrite (cut_line_extend _ _ _ _ E).
Qed.

Lemma status_consumed data s n : status_try_parse data = Parsed s n -> (0 < n <= length data)%nat.
Proof.
  unfold status_try_parse. destruct (cut_line data) as [[l k]|] eqn:E; [|done].
  repeat case_match; try done; intros [= _ <-]; by eapply cut_line_consumed.
Qed.

(** A three-digit number prints as its three digits. *)
Lemma to_string_three code :
  100 <= code <= 999 ->
  to_string code = [dec_digit (code / 100); dec_digit (code / 10 mod 10); dec_digit (code mod 10)].
Proof.
  intros H.
  assert (forallb (fun c => bytes_eqb (to_string c)
     [dec_digit (c / 100); dec_digit (c / 10 mod 10); dec_digit (c mod 10)]) (seqZ 100 900) = true)
    as HA by (vm_compute; reflexivity).
  rewrite forallb_forall in HA. apply bytes_eqb_true, HA.
  apply list_elem_of_In, elem_of_seqZ. lia.
Qed.

Lemma to_string_one d : 0 <= d < 10 -> to_string d = [dec_digit d].
Proof.
  intros H.
  assert (forallb (fun c => bytes_eqb (to_string c) [dec_digit c]) (seqZ 0 10) = true)
    as HA by (vm_compute; reflexivity).
  rewrite forallb_forall in HA. apply bytes_eqb_true, HA.
  apply list_elem_of_In, elem_of_seqZ. lia.
Qed.

Lemma dec_digit_not d c : 0 <= d < 10 -> is_digit c = false -> dec_digit d <> c.
Proof. intros Hd Hc <-. destruct (dec_digit_spec d Hd). congruence. Qed.

Lemma parse_code_three a b c :
  0 <= a < 10 -> 0 <= b < 10 -> 0 <= c < 10 ->
  parse_code 0 [dec_digit a; dec_digit b; dec_digit c] = Some (a * 100 + b * 10 + c).
Proof.
  intros Ha Hb Hc. cbn [parse_code].
  destruct (dec_digit_spec a Ha) as [-> Ea], (dec_digit_spec b Hb) as [-> Eb],
    (dec_digit_spec c Hc) as [-> Ec].
  unfold digit_value in *. rewrite Ea, Eb, Ec. f_equal. lia.
Qed.

(** The whole status line, without its line end. *)
Lemma write_status_line_text code minor :
  100 <= code <= 999 -> 0 <= minor < 10 ->
  write_status_line code minor =
  (str "HTTP/1." ++ [dec_digit minor; SP] ++
   [dec_digit (code / 100); dec_digit (code / 10 mod 10); dec_digit (code mod 10)]
   ++ SP :: reason_phrase code) ++ CRLF.
Proof.
  intros. unfold write_status_line. rewrite to_string_one, to_string_three by done.
  by rewrite <-!app_assoc.
Qed.

(** A written status line parses back, and exactly it is consumed. *)
Lemma status_line_parses code minor rest :
  100 <= code <= 999 -> 0 <= minor < 10 ->
  status_try_parse (write_status_line code minor ++ rest) =
  Parsed (mk_status_line code 1 minor) (length (write_status_line code minor)).
Proof.
  intros Hc Hm. rewrite write_status_line_text by done.
  assert (0 <= code / 100 < 10) by (split; [apply Z.div_pos|apply Z.div_lt_upper_bound]; lia).
  assert (0 <= code / 10 mod 10 < 10) by (apply Z.mod_pos_bound; lia).
  assert (0 <= code mod 10 < 10) by (apply Z.mod_pos_bound; lia).
  assert (code / 100 * 100 + code / 10 mod 10 * 10 + code mod 10 = code) as Ecode.
  { pose proof (Z.div_mod code 10 ltac:(lia)). pose proof (Z.div_mod (code / 10) 10 ltac:(lia)).
    rewrite Z.div_div in * by lia. change (10 * 10) with 100 in *. lia. }
  set (d1 := code / 100) in *. set (d2 := code / 10 mod 10) in *. set (d3 := code mod 10) in *.
  set (rp := reason_phrase code).
  set (line := str "HTTP/1." ++ [dec_digit minor; SP] ++ [dec_digit d1; dec_digit d2; dec_digit d3] ++ SP :: rp).
  assert (line = ["H"; "T"; "T"; "P"; "/"; "1"; "."; dec_digit minor; SP;
                  dec_digit d1; dec_digit d2; dec_digit d3; SP]%byte ++ rp) as Eline by done.
  unfold status_try_parse. rewrite <-app_assoc, cut_line_crlf.
  2:{ rewrite Eline. apply not_elem_of_app. split; [|apply reason_phrase_no_lf].
      solve_notin; apply not_eq_sym, dec_digit_not; done. }
  rewrite Eline. cbn [app].
  assert (find_byte_from SP 9 (["H"; "T"; "T"; "P"; "/"; "1"; "."; dec_digit minor; SP;
                  dec_digit d1; dec_digit d2; dec_digit d3; SP]%byte ++ rp) = Some 12%nat) as E9.
  { unfold find_byte_from.
    change (drop 9 _) with ([dec_digit d1; dec_digit d2; dec_digit d3] ++ SP :: rp).
    rewrite find_byte_app; [done|].
    solve_notin; apply not_eq_sym, dec_digit_not; done. }
  cbn [app] in E9. rewrite E9. cbn [length Nat.ltb Nat.leb].
  change (bytes_eqb (take 5 _) (str "HTTP/")) with true.
  cbn [negb orb lookup list_lookup]. rewrite !bool_decide_true by done. cbn [negb orb].
  destruct (dec_digit_spec minor Hm) as [Hd Ed]. rewrite Hd.
  change (is_digit "1") with true. cbn [negb orb].
  change (take (12 - 9) (drop 9 _)) with [dec_digit d1; dec_digit d2; dec_digit d3].
  cbn [length Nat.eqb negb]. rewrite parse_code_three, Ecode by done.
  unfold digit_value in Ed. rewrite Ed. f_equal. cbn. rewrite length_app. cbn. lia.
Qed.
