(* ===== verification/Date.v ===== *)
(** * Date: src/protocol/http_date.cpp

    RFC 1123 dates.  [portable_gmtime] and [portable_timegm] call the C
    library; [gmtime] and [timegm] below are its proleptic-Gregorian calendar
    ([timegm] accepts out-of-range fields and normalises them, as the C
    function does). *)

From S2P Require Import Prelude Bytes.

#[local] Open Scope Z_scope.

(** [struct tm], the fields the sources use. *)
Record tm := mk_tm {
  tm_sec : Z; tm_min : Z; tm_hour : Z; tm_mday : Z; tm_mon : Z; tm_year : Z; tm_wday : Z;
}.

Definition is_leap (y : Z) : bool :=
  ((y mod 4 =? 0) && negb (y mod 100 =? 0)) || (y mod 400 =? 0).

(** Days of the years before January 1st of year [y], from year 1. *)
Definition days_before_year (y : Z) : Z :=
  365 * (y - 1) + (y - 1) / 4 - (y - 1) / 100 + (y - 1) / 400.

(** Days of a year before its [mon]-th month (0-based). *)
Definition days_before_month (leap : bool) (mon : Z) : Z :=
  nth (Z.to_nat mon) [0; 31; 59; 90; 120; 151; 181; 212; 243; 273; 304; 334] 0
  + (if leap && (2 <=? mon) then 1 else 0).

(** January 1st 1970, in days from January 1st of year 1. *)
Definition epoch_days : Z := 719162.

Definition timegm (t : tm) : Z :=
  let y := tm_year t + 1900 + tm_mon t / 12 in
  let mon := tm_mon t mod 12 in
  let days := days_before_year y + days_before_month (is_leap y) mon + (tm_mday t - 1) - epoch_days in
  ((days * 24 + tm_hour t) * 60 + tm_min t) * 60 + tm_sec t.

(** The year a day number falls in: an estimate, corrected by at most one. *)
Definition year_of_days (d : Z) : Z :=
  let y0 := (400 * d) / 146097 + 1 in
  if d <? days_before_year y0 then y0 - 1
  else if days_before_year (y0 + 1) <=? d then y0 + 1
  else y0.

(** The last month starting on or before day [yday] of the year. *)
Fixpoint month_of_yday (leap : bool) (yday : Z) (mon : nat) : Z :=
  match mon with
  | O => 0
  | S m => if days_before_month leap (Z.of_nat mon) <=? yday then Z.of_nat mon
           else month_of_yday leap yday m
  end.

Definition gmtime (time : Z) : tm :=
  let days := time / 86400 + epoch_days in
  let secs := time mod 86400 in
  let y := year_of_days days in
  let yday := days - days_before_year y in
  let mon := month_of_yday (is_leap y) yday 11 in
  mk_tm (secs mod 60) (secs / 60 mod 60) (secs / 3600)
        (yday - days_before_month (is_leap y) mon + 1) mon (y - 1900)
        ((days + 1) mod 7).

Definition weekday_names : list bytes :=
  [str "Sun"; str "Mon"; str "Tue"; str "Wed"; str "Thu"; str "Fri"; str "Sat"].

Definition month_names : list bytes :=
  [str "Jan"; str "Feb"; str "Mar"; str "Apr"; str "May"; str "Jun";
   str "Jul"; str "Aug"; str "Sep"; str "Oct"; str "Nov"; str "Dec"].

Fixpoint month_index_in (l : list bytes) (i : Z) (name : bytes) : Z :=
  match l with
  | [] => -1
  | m :: r => if bytes_eqb name m then i else month_index_in r (i + 1) name
  end.

Definition month_index (name : bytes) : Z := month_index_in month_names 0 name.

(** [%0<w>d]. *)
Definition pad_dec (w : nat) (v : Z) : bytes :=
  let ds := to_string (Z.abs v) in
  let sign := if v <? 0 then ["-"%byte] else [] in
  sign ++ replicate (w - length sign - length ds) "0"%byte ++ ds.

Definition format_http_date (time : Z) : bytes :=
  let t := gmtime time in
  nth (Z.to_nat (tm_wday t)) weekday_names [] ++ str ", " ++ pad_dec 2 (tm_mday t) ++ [SP]
  ++ nth (Z.to_nat (tm_mon t)) month_names [] ++ [SP] ++ pad_dec 4 (tm_year t + 1900) ++ [SP]
  ++ pad_dec 2 (tm_hour t) ++ [":"%byte] ++ pad_dec 2 (tm_min t) ++ [":"%byte]
  ++ pad_dec 2 (tm_sec t) ++ str " GMT".

(** The [to_int] lambda: [-1] on any non-digit. *)
Fixpoint to_int (value : Z) (digits : bytes) : Z :=
  match digits with
  | [] => value
  | c :: r => if is_digit c then to_int (value * 10 + (b2z c - 48)) r else -1
  end.

Definition substr (pos len : nat) (s : bytes) : bytes := take len (drop pos s).

Definition parse_http_date (text : bytes) : Z :=
  if (length text <? 29)%nat then -1
  else
    let month := month_index (substr 8 3 text) in
    if month <? 0 then -1
    else
      let t := mk_tm (to_int 0 (substr 23 2 text)) (to_int 0 (substr 20 2 text))
                     (to_int 0 (substr 17 2 text)) (to_int 0 (substr 5 2 text))
                     month (to_int 0 (substr 12 4 text) - 1900) 0 in
      if (tm_mday t <? 0) || (tm_hour t <? 0) || (tm_min t <? 0) || (tm_sec t <? 0) then -1
      else timegm t.

(** ** The calendar *)

Lemma year_of_days_spec d :
  days_before_year (year_of_days d) <= d < days_before_year (year_of_days d + 1).
Proof.
  unfold year_of_days. set (y0 := (400 * d) / 146097 + 1).
  assert (146097 * (y0 - 1) <= 400 * d < 146097 * y0) as Hy0.
  { subst y0. pose proof (Z.div_mod (400 * d) 146097). pose proof (Z.mod_pos_bound (400 * d) 146097). lia. }
  clearbody y0. unfold days_before_year.
  destruct (Z.ltb_spec d (365 * (y0 - 1) + (y0 - 1) / 4 - (y0 - 1) / 100 + (y0 - 1) / 400)).
  - replace (y0 - 1 + 1) with y0 by lia. split; [|lia].
    Z.div_mod_to_equations; lia.
  - destruct (Z.leb_spec (365 * (y0 + 1 - 1) + (y0 + 1 - 1) / 4 - (y0 + 1 - 1) / 100 + (y0 + 1 - 1) / 400) d).
    + split; [lia|]. Z.div_mod_to_equations; lia.
    + lia.
Qed.

Lemma year_length y :
  days_before_year (y + 1) - days_before_year y = if is_leap y then 366 else 365.
Proof.
  unfold days_before_year, is_leap. replace (y + 1 - 1) with y by lia.
  destruct (Z.eqb_spec (y mod 4) 0), (Z.eqb_spec (y mod 100) 0), (Z.eqb_spec (y mod 400) 0);
    cbn [negb andb orb]; Z.div_mod_to_equations; lia.
Qed.

Lemma month_of_yday_range leap yday n :
  (n <= 11)%nat -> 0 <= month_of_yday leap yday n <= 11.
Proof.
  induction n as [|n IH]; intros; cbn [month_of_yday]; [lia|].
  destruct (days_before_month _ _ <=? yday); [lia|]. apply IH. lia.
Qed.

(** The day of the month is within its month. *)
Lemma month_of_yday_mday leap yday :
  0 <= yday < (if leap : bool then 366 else 365) ->
  1 <= yday - days_before_month leap (month_of_yday leap yday 11) + 1 <= 31.
Proof.
  intros Hy. destruct leap; cbn [month_of_yday];
  repeat match goal with
  | |- context [if days_before_month ?l ?m <=? yday then _ else _] =>
      let v := eval vm_compute in (days_before_month l m) in
      change (days_before_month l m) with v; destruct (Z.leb_spec v yday)
  end;
  match goal with |- context [days_before_month ?l ?m] =>
    let v := eval vm_compute in (days_before_month l m) in
    change (days_before_month l m) with v end; lia.
Qed.

(** [timegm] inverts [gmtime] on every time stamp. *)
Lemma timegm_gmtime t : timegm (gmtime t) = t.
Proof.
  unfold timegm, gmtime. cbn [tm_year tm_mon tm_mday tm_hour tm_min tm_sec].
  set (days := t / 86400 + epoch_days). set (secs := t mod 86400).
  set (y := year_of_days days). set (yd := days - days_before_year y).
  set (mon := month_of_yday (is_leap y) yd 11).
  assert (0 <= mon <= 11) by (by apply month_of_yday_range).
  rewrite (Z.div_small mon 12), (Z.mod_small mon 12) by lia.
  replace (y - 1900 + 1900 + 0) with y by lia.
  assert (secs / 3600 * 3600 + secs / 60 mod 60 * 60 + secs mod 60 = secs) as Hs.
  { assert (0 <= secs) by (apply Z.mod_pos_bound; lia).
    pose proof (Z.div_mod secs 60 ltac:(lia)). pose proof (Z.div_mod (secs / 60) 60 ltac:(lia)).
    rewrite Z.div_div in * by lia. change (60 * 60) with 3600 in *. lia. }
  pose proof (Z.div_mod t 86400 ltac:(lia)) as Ht. fold secs in Ht. subst yd days. lia.
Qed.

Lemma gmtime_ranges t :
  0 <= tm_wday (gmtime t) < 7 /\ 1 <= tm_mday (gmtime t) <= 31 /\ 0 <= tm_mon (gmtime t) <= 11 /\
  0 <= tm_hour (gmtime t) < 24 /\ 0 <= tm_min (gmtime t) < 60 /\ 0 <= tm_sec (gmtime t) < 60.
Proof.
  unfold gmtime. cbn [tm_wday tm_mday tm_mon tm_hour tm_min tm_sec].
  pose proof (Z.mod_pos_bound t 86400 ltac:(lia)).
  set (days := t / 86400 + epoch_days). set (y := year_of_days days).
  pose proof (year_of_days_spec days) as Hy. fold y in Hy.
  pose proof (year_length y) as Hl.
  repeat split; try (apply Z.mod_pos_bound; lia); try (apply month_of_yday_range; lia).
  - apply month_of_yday_mday. destruct (is_leap y); lia.
  - apply month_of_yday_mday. destruct (is_leap y); lia.
  - apply Z.div_pos; lia.
  - apply Z.div_lt_upper_bound; lia.
Qed.

(** ** The text form *)

Lemma to_int_digits ds acc :
  Forall (fun d => 0 <= d < 10) ds -> to_int acc (map dec_digit ds) = eval_digits 10 acc ds.
Proof.
  intros H. revert acc. induction H as [|d ds Hd _ IH]; intros acc; [done|].
  cbn [map to_int]. destruct (dec_digit_spec d Hd) as [-> E].
  unfold digit_value in E. rewrite E, IH. done.
Qed.

Lemma to_int_zeros n s acc : acc = 0 -> to_int acc (replicate n "0"%byte ++ s) = to_int 0 s.
Proof.
  intros ->. induction n as [|n IH]; [done|]. exact IH.
Qed.

(** A zero-padded field has its width and reads back. *)
Lemma pad_dec_spec w v :
  (0 < w)%nat -> 0 <= v < 10 ^ Z.of_nat w ->
  length (pad_dec w v) = w /\ to_int 0 (pad_dec w v) = v.
Proof.
  intros Hw Hv. unfold pad_dec. rewrite Z.abs_eq by lia.
  destruct (Z.ltb_spec v 0); [lia|]. cbn [length app].
  unfold to_string. destruct (Z.ltb_spec v 0); [lia|].
  pose proof (digits_length 10 v w ltac:(lia) Hw Hv). split.
  - rewrite length_app, length_replicate, length_map. lia.
  - rewrite to_int_zeros, to_int_digits, digits_eval by (done || lia || (apply digits_range; lia)). done.
Qed.

Lemma weekday_length n : 0 <= n < 7 -> length (nth (Z.to_nat n) weekday_names []) = 3%nat.
Proof.
  intros. assert (forallb (fun n => (length (nth (Z.to_nat n) weekday_names []) =? 3)%nat) (seqZ 0 7) = true)
    as HA by (vm_compute; reflexivity).
  rewrite forallb_forall in HA. apply Nat.eqb_eq, HA, list_elem_of_In, elem_of_seqZ. lia.
Qed.

Lemma month_name_spec n :
  0 <= n <= 11 ->
  length (nth (Z.to_nat n) month_names []) = 3%nat /\
  month_index (nth (Z.to_nat n) month_names []) = n.
Proof.
  intros. assert (forallb (fun n => (length (nth (Z.to_nat n) month_names []) =? 3)%nat
       && (month_index (nth (Z.to_nat n) month_names []) =? n)) (seqZ 0 12) = true)
    as HA by (vm_compute; reflexivity).
  rewrite forallb_forall in HA.
  specialize (HA n ltac:(apply list_elem_of_In, elem_of_seqZ; lia)). bool_to_prop. done.
Qed.

(** Extracting one field, by its offset, from a text made of fields. *)
Lemma substr_concat (fs : list bytes) i f pos len :
  fs !! i = Some f -> pos = length (concat (take i fs)) -> len = length f ->
  substr pos len (concat fs) = f.
Proof.
  intros Hi -> ->. rewrite <-(take_drop_middle fs i f Hi) at 2.
  rewrite concat_app. cbn [concat]. unfold substr.
  by rewrite drop_app_length, take_app_length.
Qed.

(** The fields of a formatted date, with the widths the parser expects. *)
Definition date_fields (W D M Y H MI SE : bytes) : list bytes :=
  [W; str ", "; D; [SP]; M; [SP]; Y; [SP]; H; [":"%byte]; MI; [":"%byte]; SE; str " GMT"].

Lemma parse_date_fields W D M Y H MI SE :
  length W = 3%nat -> length D = 2%nat -> length M = 3%nat -> length Y = 4%nat ->
  length H = 2%nat -> length MI = 2%nat -> length SE = 2%nat ->
  0 <= month_index M -> 0 <= to_int 0 D -> 0 <= to_int 0 H -> 0 <= to_int 0 MI ->
  0 <= to_int 0 SE ->
  parse_http_date (concat (date_fields W D M Y H MI SE)) =
  timegm (mk_tm (to_int 0 SE) (to_int 0 MI) (to_int 0 H) (to_int 0 D) (month_index M)
            (to_int 0 Y - 1900) 0).
Proof.
  intros LW LD LM LY LH LMI LSE ? ? ? ? ?. set (fs := date_fields W D M Y H MI SE).
  assert (length (concat fs) = 29%nat) as Lt.
  { unfold fs, date_fields. cbn [concat]. rewrite !length_app, LW, LD, LM, LY, LH, LMI, LSE. done. }
  assert (forall i f pos, fs !! i = Some f -> pos = length (concat (take i fs)) ->
    substr pos (length f) (concat fs) = f) as F by (intros; by eapply substr_concat).
  unfold parse_http_date. rewrite Lt. cbn [Nat.ltb Nat.leb].
  assert (forall i, length (concat (take i fs)) = sum_list (map length (take i fs))) as Hsum.
  { intros i. generalize (take i fs). clear. induction l as [|x l IH]; [done|].
    cbn [concat]. rewrite length_app, IH. done. }
  pose proof (F 2%nat D 5%nat eq_refl ltac:(rewrite Hsum; cbn; by rewrite LW)) as E1.
  pose proof (F 4%nat M 8%nat eq_refl ltac:(rewrite Hsum; cbn; by rewrite LW, LD)) as E2.
  pose proof (F 6%nat Y 12%nat eq_refl ltac:(rewrite Hsum; cbn; by rewrite LW, LD, LM)) as E3.
  pose proof (F 8%nat H 17%nat eq_refl ltac:(rewrite Hsum; cbn; by rewrite LW, LD, LM, LY)) as E4.
  pose proof (F 10%nat MI 20%nat eq_refl ltac:(rewrite Hsum; cbn; by rewrite LW, LD, LM, LY, LH)) as E5.
  pose proof (F 12%nat SE 23%nat eq_refl
    ltac:(rewrite Hsum; cbn; by rewrite LW, LD, LM, LY, LH, LMI)) as E6.
  rewrite LD in E1. rewrite LM in E2. rewrite LY in E3. rewrite LH in E4. rewrite LMI in E5.
  rewrite LSE in E6. rewrite E1, E2, E3, E4, E5, E6. cbn [tm_mday tm_hour tm_min tm_sec].
  repeat match goal with |- context [?x <? 0] => destruct (Z.ltb_spec x 0); [lia|] end. done.
Qed.

Lemma format_http_date_fields t :
  format_http_date t =
  let g := gmtime t in
  concat (date_fields (nth (Z.to_nat (tm_wday g)) weekday_names []) (pad_dec 2 (tm_mday g))
    (nth (Z.to_nat (tm_mon g)) month_names []) (pad_dec 4 (tm_year g + 1900))
    (pad_dec 2 (tm_hour g)) (pad_dec 2 (tm_min g)) (pad_dec 2 (tm_sec g))).
Proof. unfold format_http_date, date_fields. cbn [concat]. by rewrite app_nil_r. Qed.

(** parse_http_date inverts format_http_date for every time whose year has at most four digits,
    through gmtime and timegm. *)
Lemma parse_format_http_date t :
  0 <= tm_year (gmtime t) + 1900 < 10000 ->
  parse_http_date (format_http_date t) = t.
Proof.
  intros Hy. destruct (gmtime_ranges t) as (Hw & Hd & Hm & Hh & Hmi & Hs).
  rewrite format_http_date_fields. cbv zeta. set (g := gmtime t) in *.
  destruct (month_name_spec (tm_mon g) Hm) as [Lm Im].
  destruct (pad_dec_spec 2 (tm_mday g)) as [Ld Id]; [lia|lia|].
  destruct (pad_dec_spec 4 (tm_year g + 1900)) as [Ly Iy]; [lia|lia|].
  destruct (pad_dec_spec 2 (tm_hour g)) as [Lh Ih]; [lia|lia|].
  destruct (pad_dec_spec 2 (tm_min g)) as [Lmi Imi]; [lia|lia|].
  destruct (pad_dec_spec 2 (tm_sec g)) as [Ls Is]; [lia|lia|].
  rewrite parse_date_fields; rewrite ?Im, ?Id, ?Iy, ?Ih, ?Imi, ?Is; try done; try lia.
  - rewrite <-(timegm_gmtime t). fold g. clearbody g. unfold timegm.
    cbn [tm_year tm_mon tm_mday tm_hour tm_min tm_sec].
    replace (tm_year g + 1900 - 1900) with (tm_year g) by lia. done.
  - by apply weekday_length.
Qed.

Lemma parse_format_http_date_witness : parse_http_date (format_http_date 784111777) = 784111777.
Proof. apply parse_format_http_date. vm_compute. split; [intros ?; discriminate|reflexivity]. Defined.
