(* ===== verification/Mime.v ===== *)
(** * Mime: src/protocol/http_mime_type.cpp and http_mime_type.hpp

    [type/subtype; key=value] header values, the parameter grammar shared with
    Content-Disposition, and the extension table. *)

From S2P Require Import Prelude Bytes OrdMap.

#[local] Open Scope Z_scope.

Definition TEXT_HTML := str "text/html".
Definition TEXT_PLAIN := str "text/plain".
Definition TEXT_CSS := str "text/css".
Definition TEXT_CSV := str "text/csv".
Definition APPLICATION_JSON := str "application/json".
Definition APPLICATION_JAVASCRIPT := str "application/javascript".
Definition APPLICATION_OCTET_STREAM := str "application/octet-stream".
Definition APPLICATION_XML := str "application/xml".
Definition APPLICATION_PDF := str "application/pdf".
Definition IMAGE_PNG := str "image/png".
Definition IMAGE_JPEG := str "image/jpeg".
Definition IMAGE_GIF := str "image/gif".
Definition IMAGE_SVG := str "image/svg+xml".
Definition IMAGE_ICON := str "image/x-icon".

Definition trim (s : bytes) : bytes := trim_back is_blank (trim_front is_blank s).

(** [val.front() == val.back() == quote], with at least two characters. *)
Definition unquote (val : bytes) : bytes :=
  if (2 <=? length val)%nat && bool_decide (head val = Some DQUOTE)
     && bool_decide (last val = Some DQUOTE)
  then take (length val - 2) (drop 1 val)
  else val.

(** One [;]-separated segment. *)
Definition param_step (out : list (bytes * bytes)) (raw : bytes) : list (bytes * bytes) :=
  let segment := trim raw in
  match segment with
  | [] => out
  | _ =>
      match find_byte "=" segment with
      | None => out
      | Some eq =>
          let key := trim (take eq segment) in
          let val := unquote (trim (drop (S eq) segment)) in
          match key with [] => out | _ => om_emplace key val out end
      end
  end.

Definition parse_header_parameters (value : bytes) : list (bytes * bytes) :=
  fold_left param_step (tokens ";" value) [].

Record mime_type := mk_mime {
  mt_type : bytes;
  mt_subtype : bytes;
  mt_parameters : list (bytes * bytes);
}.

Definition mime_parameter (name : bytes) (m : mime_type) : option bytes :=
  om_find name (mt_parameters m).

Definition mime_parse (value : bytes) : mime_type :=
  let '(head_part, params_part) :=
    match find_byte ";" value with
    | None => (value, [])
    | Some semi => (take semi value, drop (S semi) value)
    end in
  let essence_part := trim head_part in
  let '(ty, sub) :=
    match find_byte "/" essence_part with
    | None => (essence_part, [])
    | Some slash => (take slash essence_part, drop (S slash) essence_part)
    end in
  mk_mime ty sub (parse_header_parameters params_part).

Definition mime_essence (m : mime_type) : bytes := mt_type m ++ "/"%byte :: mt_subtype m.

Definition mime_to_string (m : mime_type) : bytes :=
  fold_left (fun out '(key, val) => out ++ str "; " ++ key ++ str "=" ++ val)
    (mt_parameters m) (mime_essence m).

Definition mime_table : list (bytes * bytes) :=
  [ (str "html", TEXT_HTML); (str "htm", TEXT_HTML); (str "txt", TEXT_PLAIN);
    (str "css", TEXT_CSS); (str "csv", TEXT_CSV); (str "json", APPLICATION_JSON);
    (str "js", APPLICATION_JAVASCRIPT); (str "mjs", APPLICATION_JAVASCRIPT);
    (str "xml", APPLICATION_XML); (str "pdf", APPLICATION_PDF); (str "png", IMAGE_PNG);
    (str "jpg", IMAGE_JPEG); (str "jpeg", IMAGE_JPEG); (str "gif", IMAGE_GIF);
    (str "svg", IMAGE_SVG); (str "ico", IMAGE_ICON); (str "bin", APPLICATION_OCTET_STREAM);
    (str "wasm", str "application/wasm"); (str "woff", str "font/woff");
    (str "woff2", str "font/woff2"); (str "mp4", str "video/mp4");
    (str "mp3", str "audio/mpeg"); (str "wav", str "audio/wav");
    (str "zip", str "application/zip") ].

Fixpoint table_lookup (ext : bytes) (t : list (bytes * bytes)) : bytes :=
  match t with
  | [] => APPLICATION_OCTET_STREAM
  | (e, m) :: r => if bytes_eqb e ext then m else table_lookup ext r
  end.

Definition mime_type_from_extension (path : bytes) : bytes :=
  let filename := match find_last "/" path with None => path | Some i => drop (S i) path end in
  match find_last "." filename with
  | None => APPLICATION_OCTET_STREAM
  | Some dot => table_lookup (to_lower (drop (S dot) filename)) mime_table
  end.

(** ** Lemmas *)

(** A token neither surrounded by blanks nor containing [;]. *)
Definition solid (s : bytes) : Prop :=
  (";"%byte ∉ s) /\
  (forall c, head s = Some c -> is_blank c = false) /\
  (forall c, last s = Some c -> is_blank c = false).

Lemma trim_solid s : solid s -> trim s = s.
Proof. intros (_ & Hh & Hl). unfold trim. by rewrite trim_front_id, trim_back_id. Qed.

Lemma trim_blank_cons s : trim (SP :: s) = trim s.
Proof. done. Qed.

(** A parameter [to_string] can carry: solid, non-empty key without [=], solid
    value that is not itself quoted. *)
Definition param_wf (kv : bytes * bytes) : Prop :=
  solid kv.1 /\ kv.1 <> [] /\ ("="%byte ∉ kv.1) /\ solid kv.2 /\ head kv.2 <> Some DQUOTE.

Definition param_text (kv : bytes * bytes) : bytes := kv.1 ++ "="%byte :: kv.2.

Lemma last_app_cons {A} (p : list A) x q : last (p ++ x :: q) = last (x :: q).
Proof.
  induction p as [|y p IH]; [done|]. cbn [app].
  destruct (p ++ x :: q) eqn:E; [by destruct p|]. rewrite <-E in *. rewrite <-IH.
  rewrite E. done.
Qed.

Lemma param_text_solid kv : param_wf kv -> solid (param_text kv).
Proof.
  destruct kv as [k v]. intros ((Hs & Hh & _) & Hn & _ & (Hs2 & _ & Hl2) & _).
  unfold solid, param_text. cbn [fst snd] in *. split_and!.
  - apply not_elem_of_app. split; [done|]. by apply not_elem_of_cons.
  - destruct k; [done|]. exact Hh.
  - intros c. rewrite last_app_cons. destruct v as [|x v]; [by intros [= <-]|apply Hl2].
Qed.

Lemma param_step_text out kv :
  param_wf kv -> param_step out (SP :: param_text kv) = om_emplace kv.1 kv.2 out.
Proof.
  intros Hwf. unfold param_step.
  rewrite trim_blank_cons, trim_solid by by apply param_text_solid.
  destruct kv as [k v]. destruct Hwf as (Hk & Hn & He & Hv & Hq). unfold param_text. cbn [fst snd] in *.
  rewrite find_byte_app, take_app_length, drop_sep, !trim_solid by done.
  destruct k as [|x k]; [done|]. cbn [app]. f_equal.
  unfold unquote. rewrite (bool_decide_false _ Hq). by rewrite andb_false_r.
Qed.

Lemma param_fold_text l out :
  Forall param_wf l ->
  fold_left param_step (map (fun kv => SP :: param_text kv) l) out = om_emplace_all out l.
Proof.
  intros H. revert out. induction H as [|kv l Hk _ IH]; intros out; [done|].
  cbn [map fold_left]. rewrite param_step_text, IH by done. by destruct kv.
Qed.

Lemma parse_parameters_text l :
  om_wf l -> Forall param_wf l ->
  parse_header_parameters (join_with ";" (map (fun kv => SP :: param_text kv) l)) = l.
Proof.
  intros Hwf Hp. unfold parse_header_parameters. rewrite tokens_join.
  - rewrite param_fold_text by done. by apply om_insert_all_sorted.
  - apply Forall_map. eapply Forall_impl; [exact Hp|]. intros kv H. cbn.
    apply not_elem_of_cons. split; [done|]. by apply param_text_solid.
  - by apply Forall_map, Forall_true.
Qed.

(** What [to_string] appends for the parameters. *)
Lemma mime_to_string_text m :
  mime_to_string m =
  mime_essence m ++
  match mt_parameters m with
  | [] => []
  | l => ";"%byte :: join_with ";" (map (fun kv => SP :: param_text kv) l)
  end.
Proof.
  unfold mime_to_string. generalize (mime_essence m).
  induction (mt_parameters m) as [|[k v] l IH]; intros e; cbn [fold_left map]; [by rewrite app_nil_r|].
  rewrite IH. rewrite <-!app_assoc. f_equal.
  change (str "; ") with [";"%byte; SP]. change (str "=") with ["="%byte]. cbn [app]. f_equal.
  unfold param_text. destruct l as [|kv l]; cbn [join_with map fst snd].
  - by rewrite app_nil_r.
  - cbn [app]. f_equal. by rewrite <-!app_assoc.
Qed.

Definition mime_wf (m : mime_type) : Prop :=
  solid (mime_essence m) /\ ("/"%byte ∉ mt_type m) /\
  om_wf (mt_parameters m) /\ Forall param_wf (mt_parameters m).

(** Parsing the text of a well-formed media type gives back its type, subtype and parameters. *)
Lemma mime_parse_to_string m : mime_wf m -> mime_parse (mime_to_string m) = m.
Proof.
  intros (He & Ht & Hw & Hp). rewrite mime_to_string_text. unfold mime_parse.
  assert (forall rest, match find_byte "/" (mime_essence m) with
    | None => (mime_essence m, []) | Some i => (take i (mime_essence m), drop (S i) (mime_essence m)) end
    = rest -> rest = (mt_type m, mt_subtype m)) as Hsl.
  { intros ? <-. unfold mime_essence.
    by rewrite find_byte_app, take_app_length, drop_sep by done. }
  destruct (mt_parameters m) as [|p l] eqn:Em.
  - rewrite app_nil_r. rewrite (proj2 (find_byte_None _ _)) by apply He.
    rewrite trim_solid, (Hsl _ eq_refl) by done. destruct m; cbn in *. by subst.
  - rewrite find_byte_app by apply He. rewrite take_app_length, drop_sep.
    rewrite trim_solid, (Hsl _ eq_refl), parse_parameters_text by done.
    destruct m; cbn in *. by subst.
Qed.

(** The first occurrence of a repeated parameter wins ([emplace]). *)
Lemma param_first_wins out kv :
  om_wf out -> param_wf kv -> is_Some (om_find kv.1 out) ->
  om_find kv.1 (param_step out (SP :: param_text kv)) = om_find kv.1 out.
Proof.
  intros Hw Hp [v Hv]. rewrite param_step_text by done. unfold om_emplace. rewrite om_find_insert by done.
  by rewrite bytes_eqb_refl, Hv.
Qed.

(** Only the last path component's last extension matters, in any case. *)
Lemma mime_from_extension_path dir base ext :
  "/"%byte ∉ base ++ "."%byte :: ext -> "."%byte ∉ ext ->
  mime_type_from_extension (dir ++ "/"%byte :: base ++ "."%byte :: ext) =
  table_lookup (to_lower ext) mime_table.
Proof.
  intros Hs Hd. unfold mime_type_from_extension.
  rewrite find_last_app by done. rewrite drop_sep.
  by rewrite find_last_app, drop_sep by done.
Qed.

Lemma mime_parse_to_string_witness :
  let m := mk_mime (str "text") (str "html") [(str "charset", str "utf-8")] in
  mime_parse (mime_to_string m) = m.
Proof.
  assert (forall s, ";"%byte ∉ s -> (default false (is_blank <$> head s)) = false ->
    (default false (is_blank <$> last s)) = false -> solid s) as Hs.
  { intros s H1 H2 H3. split_and!; [done| |]; intros c E; rewrite E in *; done. }
  assert (forall s, bool_decide (";"%byte ∈ s) = false ->
    default false (is_blank <$> head s) || default false (is_blank <$> last s) = false -> solid s) as Hs'.
  { intros s H1 [? ?]%orb_false_iff. apply Hs; [by apply bool_decide_eq_false in H1|done..]. }
  intros m. apply mime_parse_to_string. split_and!.
  - by apply Hs'.
  - by apply (bool_decide_eq_false _).
  - repeat constructor.
  - apply Forall_singleton. split_and!; [by apply Hs'|done|by apply (bool_decide_eq_false _)|by apply Hs'|done].
Defined.
