(* ===== verification/Chunked.v ===== *)
(** * Chunked: src/protocol/http_chunked.cpp

    The HTTP/1.1 chunked transfer coding: the encoder's chunk header, and the
    incremental decoder as a [Stream] over another [Stream].  [dechunk] is the
    specification, a function of the raw bytes alone; the decoder refines it
    for every source, hence for every segmentation of the wire. *)

From S2P Require Import Prelude Bytes Stream Feeder.

#[local] Open Scope Z_scope.

(** ** Encoding *)

Definition format_chunk_header (len : nat) : bytes :=
  map hex_digit (digits 16 (Z.of_nat len)) ++ CRLF.

Definition chunk_data_terminator : bytes := CRLF.
Definition chunked_body_terminator : bytes := str "0" ++ CRLF ++ CRLF.

(** One data chunk as [http1_io::write_message_body] frames it. *)
Definition encode_chunk (data : bytes) : bytes :=
  format_chunk_header (length data) ++ data ++ chunk_data_terminator.

Definition encode_chunks (chunks : list bytes) : bytes := concat (map encode_chunk chunks).

(** ** The chunk-size line *)

Definition chunk_digit (c : byte) : option Z :=
  if (48 <=? b2z c) && (b2z c <=? 57) then Some (b2z c - 48)
  else if (97 <=? b2z c) && (b2z c <=? 102) then Some (b2z c - 97 + 10)
  else if (65 <=? b2z c) && (b2z c <=? 70) then Some (b2z c - 65 + 10)
  else None.

(** The digit loop: [size] accumulates in [std::size_t], modulo [2^64]. *)
Fixpoint chunk_size_loop (size : Z) (any_digit : bool) (line : bytes) : Z * bool :=
  match line with
  | [] => (size, any_digit)
  | c :: r =>
      match chunk_digit c with
      | None => (size, any_digit)
      | Some v => chunk_size_loop (uwrap 64 (size * 16 + v)) true r
      end
  end.

Definition parse_chunk_size (line : bytes) : option Z :=
  let '(size, any) := chunk_size_loop 0 false line in if any then Some size else None.

(** ** The decoder *)
Section Decoder.
Context {S : Type} `{Stream S}.

Record chunked_decoder := mk_chunked {
  ck_feed : feeder S;
  ck_finished : bool;
  ck_remaining : Z;
  ck_need_new : bool;
}.

Definition chunked_new (source : S) : chunked_decoder :=
  mk_chunked (mk_feeder source [] false) false 0 true.

Definition ck_finish (s : chunked_decoder) (d : feeder S) : chunked_decoder :=
  mk_chunked d true (ck_remaining s) (ck_need_new s).

(** The trailer loop: lines are discarded up to an empty one or the end. *)
Fixpoint skip_trailers (fuel : nat) (d : feeder S) : option (feeder S) :=
  match fuel with
  | O => None
  | Datatypes.S f =>
      match read_line f d with
      | None => None
      | Some (None, d') => Some d'
      | Some (Some [], d') => Some d'
      | Some (Some _, d') => skip_trailers f d'
      end
  end.

Definition begin_next_chunk (fuel : nat) (s : chunked_decoder) : option (bool * chunked_decoder) :=
  match read_line fuel (ck_feed s) with
  | None => None
  | Some (None, d) => Some (false, ck_finish s d)
  | Some (Some line, d) =>
      match parse_chunk_size line with
      | None => Some (false, ck_finish s d)
      | Some size =>
          if size =? 0 then d' ← skip_trailers fuel d; Some (false, ck_finish s d')
          else Some (true, mk_chunked d (ck_finished s) size false)
      end
  end.

(** [std::min({ n, remaining_in_chunk_, buffer_.size() })]. *)
Definition to_copy (n : nat) (remaining : Z) (buffer : bytes) : nat :=
  Z.to_nat (Z.min (Z.of_nat n) (Z.min remaining (Z.of_nat (length buffer)))).

(** The part of [read] after the chunk header: [None] is the fuel, an inner
    [None] the [continue]. *)
Definition read_chunk_data (fuel n : nat) (s : chunked_decoder)
  : option (option bytes * chunked_decoder) :=
  d ← fill_until fuel 1 (ck_feed s);
  match fd_buffer d with
  | [] => Some (Some [], ck_finish s d)
  | buf =>
      let k := to_copy n (ck_remaining s) buf in
      if (k =? 0)%nat then Some (None, mk_chunked d (ck_finished s) (ck_remaining s) true)
      else
        let d1 := fd_with_buffer d (drop k buf) in
        let remaining := ck_remaining s - Z.of_nat k in
        if remaining =? 0 then
          d2 ← fill_until fuel 2 d1;
          let d3 := if (2 <=? length (fd_buffer d2))%nat
                    then fd_with_buffer d2 (drop 2 (fd_buffer d2)) else d2 in
          Some (Some (take k buf), mk_chunked d3 (ck_finished s) remaining true)
        else Some (Some (take k buf), mk_chunked d1 (ck_finished s) remaining (ck_need_new s))
  end.

Fixpoint ck_read (fuel n : nat) (s : chunked_decoder) : option (bytes * chunked_decoder) :=
  match fuel with
  | O => None
  | Datatypes.S f =>
      if ck_finished s then Some ([], s)
      else
        let data s' :=
          match read_chunk_data f n s' with
          | None => None
          | Some (Some out, s'') => Some (out, s'')
          | Some (None, s'') => ck_read f n s''
          end in
        if ck_need_new s then
          match begin_next_chunk f s with
          | None => None
          | Some (false, s') => Some ([], s')
          | Some (true, s') => data s'
          end
        else data s
  end.
End Decoder.
Arguments chunked_decoder S : clear implicits.

(** ** Specification *)

(** What is left after the trailer section. *)
Fixpoint after_trailers (fuel : nat) (raw : bytes) : bytes :=
  match fuel with
  | O => raw
  | S f =>
      match cut_line raw with
      | None => raw
      | Some ([], k) => drop k raw
      | Some (_, k) => after_trailers f (drop k raw)
      end
  end.

Definition skip2 (raw : bytes) : bytes := if (2 <=? length raw)%nat then drop 2 raw else raw.

(** The body coded by [raw], and the bytes that follow it. *)
Fixpoint dechunk_fuel (fuel : nat) (raw : bytes) : bytes * bytes :=
  match fuel with
  | O => ([], raw)
  | S f =>
      match cut_line raw with
      | None => ([], raw)
      | Some (line, k) =>
          match parse_chunk_size line with
          | None => ([], drop k raw)
          | Some size =>
              if size =? 0 then ([], after_trailers (S (length raw)) (drop k raw))
              else
                let data := drop k raw in
                let '(body, rest) := dechunk_fuel f (skip2 (drop (Z.to_nat size) data)) in
                (take (Z.to_nat size) data ++ body, rest)
          end
      end
  end.

Definition dechunk (raw : bytes) : bytes * bytes := dechunk_fuel (S (length raw)) raw.

(** The same, from the middle of a chunk. *)
Definition in_chunk (remaining : Z) (raw : bytes) : bytes * bytes :=
  let '(body, rest) := dechunk (skip2 (drop (Z.to_nat remaining) raw)) in
  (take (Z.to_nat remaining) raw ++ body, rest).

(** *** Sizes *)

Lemma chunk_digit_range c v : chunk_digit c = Some v -> 0 <= v < 16.
Proof. unfold chunk_digit. repeat case_if; intros; simplify_eq; lia. Qed.

Lemma chunk_size_loop_range size any line :
  0 <= size < 2 ^ 64 -> 0 <= (chunk_size_loop size any line).1 < 2 ^ 64.
Proof.
  revert size any. induction line as [|c r IH]; intros size any Hs; cbn [chunk_size_loop]; [done|].
  destruct (chunk_digit c); [|done]. apply IH, uwrap_range. lia.
Qed.

Lemma parse_chunk_size_range line size : parse_chunk_size line = Some size -> 0 <= size < 2 ^ 64.
Proof.
  unfold parse_chunk_size. pose proof (chunk_size_loop_range 0 false line ltac:(lia)).
  destruct (chunk_size_loop 0 false line) as [sz [|]]; [|done]. by intros [= <-].
Qed.

(** *** The specification does not depend on its fuel *)


Lemma skip2_length raw : (length (skip2 raw) <= length raw)%nat.
Proof. unfold skip2. case_if; [rewrite length_drop|]; lia. Qed.

Lemma after_trailers_fuel f f' raw :
  (length raw < f)%nat -> (length raw < f')%nat -> after_trailers f raw = after_trailers f' raw.
Proof.
  revert f' raw. induction f as [|f IH]; intros [|f'] raw Hf Hf'; try lia. cbn.
  destruct (cut_line raw) as [[[|x line] k]|] eqn:E; try done.
  apply cut_line_consumed in E. apply IH; rewrite length_drop; lia.
Qed.

Lemma after_trailers_length f raw : (length (after_trailers f raw) <= length raw)%nat.
Proof.
  revert raw. induction f as [|f IH]; intros raw; [done|]. cbn.
  destruct (cut_line raw) as [[[|x l] j]|]; [rewrite length_drop; lia| |done].
  rewrite IH, length_drop. lia.
Qed.

Lemma dechunk_fuel_enough f f' raw :
  (length raw < f)%nat -> (length raw < f')%nat -> dechunk_fuel f raw = dechunk_fuel f' raw.
Proof.
  revert f' raw. induction f as [|f IH]; intros [|f'] raw Hf Hf'; try lia. cbn [dechunk_fuel].
  destruct (cut_line raw) as [[line k]|] eqn:E; [|done].
  destruct (parse_chunk_size line) as [size|]; [|done]. case_if; [done|].
  apply cut_line_consumed in E.
  set (d := skip2 _). assert (length d < length raw)%nat.
  { pose proof (skip2_length (drop (Z.to_nat size) (drop k raw))). subst d.
    rewrite !length_drop in *. lia. }
  by rewrite (IH f' d) by lia.
Qed.

(** The equation of [dechunk]. *)
Lemma dechunk_eq raw :
  dechunk raw =
  match cut_line raw with
  | None => ([], raw)
  | Some (line, k) =>
      match parse_chunk_size line with
      | None => ([], drop k raw)
      | Some size =>
          if size =? 0 then ([], after_trailers (S (length (drop k raw))) (drop k raw))
          else in_chunk size (drop k raw)
      end
  end.
Proof.
  unfold dechunk at 1. cbn [dechunk_fuel].
  destruct (cut_line raw) as [[line k]|] eqn:E; [|done].
  destruct (parse_chunk_size line) as [size|]; [|done].
  apply cut_line_consumed in E. case_if.
  - f_equal. apply after_trailers_fuel; rewrite ?length_drop; lia.
  - unfold in_chunk, dechunk. set (d := skip2 _).
    assert (length d < length raw)%nat.
    { pose proof (skip2_length (drop (Z.to_nat size) (drop k raw))). subst d.
      rewrite !length_drop in *. lia. }
    by rewrite (dechunk_fuel_enough (length raw) (S (length d))) by lia.
Qed.

(** The body is not longer than its coded form. *)
Lemma dechunk_length raw : (length (dechunk raw).1 <= length raw)%nat.
Proof.
  unfold dechunk. generalize (S (length raw)). intros fuel. revert raw.
  induction fuel as [|f IH]; intros raw; cbn [dechunk_fuel fst length]; [lia|].
  destruct (cut_line raw) as [[line k]|]; [|cbn; lia].
  destruct (parse_chunk_size line) as [size|]; [|cbn; lia]. case_if; [cbn; lia|].
  specialize (IH (skip2 (drop (Z.to_nat size) (drop k raw)))).
  pose proof (skip2_length (drop (Z.to_nat size) (drop k raw))).
  destruct (dechunk_fuel f _) as [b r]. cbn in *. rewrite length_app, length_take.
  rewrite !length_drop in *. lia.
Qed.

Lemma dechunk_nil : dechunk [] = ([], []).
Proof. done. Qed.

(** Consuming [k] bytes of the current chunk. *)
Lemma in_chunk_take k remaining raw :
  (k <= Z.to_nat remaining)%nat -> (k <= length raw)%nat ->
  in_chunk remaining raw =
  (take k raw ++ (in_chunk (remaining - Z.of_nat k) (drop k raw)).1,
   (in_chunk (remaining - Z.of_nat k) (drop k raw)).2).
Proof.
  intros Hk Hr. unfold in_chunk.
  replace (Z.to_nat (remaining - Z.of_nat k)) with (Z.to_nat remaining - k)%nat by lia.
  rewrite drop_drop. replace (k + (Z.to_nat remaining - k))%nat with (Z.to_nat remaining) by lia.
  destruct (dechunk _) as [b r]. cbn. rewrite app_assoc. f_equal. f_equal.
  rewrite take_drop_commute. replace (k + (Z.to_nat remaining - k))%nat with (Z.to_nat remaining) by lia.
  rewrite <-(take_drop k (take (Z.to_nat remaining) raw)) at 1.
  by rewrite take_take, Nat.min_l by lia.
Qed.

Lemma in_chunk_0 raw : in_chunk 0 raw = dechunk (skip2 raw).
Proof. unfold in_chunk. change (drop (Z.to_nat 0) raw) with raw. by destruct (dechunk (skip2 raw)). Qed.

Lemma in_chunk_nil remaining : in_chunk remaining [] = ([], []).
Proof. unfold in_chunk. by rewrite drop_nil, take_nil. Qed.

(** ** The decoder refines the specification *)
Section Refinement.
Context {S : Type} `{StreamReads S}.

Definition ck_raw (s : chunked_decoder S) : bytes := fd_raw (ck_feed s).

(** The body still to be delivered, and what follows it. *)
Definition ck_spec (s : chunked_decoder S) : bytes * bytes :=
  if ck_finished s then ([], ck_raw s)
  else if ck_need_new s then dechunk (ck_raw s)
  else in_chunk (ck_remaining s) (ck_raw s).

Definition ck_ok (s : chunked_decoder S) : Prop :=
  fd_ok (ck_feed s) /\ (ck_need_new s = false -> 0 < ck_remaining s).

Lemma skip_trailers_spec fuel (d : feeder S) :
  fd_ok d -> (length (fd_raw d) + 3 <= fuel)%nat ->
  exists d', skip_trailers fuel d = Some d' /\ fd_ok d' /\
    fd_raw d' = after_trailers (Datatypes.S (length (fd_raw d))) (fd_raw d).
Proof.
  revert d. induction fuel as [|f IH]; intros d Hok Hf; [lia|]. cbn [skip_trailers].
  pose proof (fd_steps_raw d).
  destruct (read_line_spec f d Hok ltac:(lia)) as (d' & Hok' & Hm). cbn [after_trailers].
  destruct (cut_line (fd_raw d)) as [[line k]|] eqn:E.
  - destruct Hm as [-> Hraw]. apply cut_line_consumed in E. destruct line as [|x line].
    + exists d'. by rewrite Hraw.
    + destruct (IH d' Hok') as (d'' & -> & Hok'' & Hraw'').
      { rewrite Hraw, length_drop. lia. }
      exists d''. split; [done|]. split; [done|]. rewrite Hraw'', Hraw.
      apply after_trailers_fuel; rewrite length_drop; lia.
  - destruct Hm as (-> & Hraw & _). by exists d'.
Qed.

(** Reading a chunk header either ends the body or enters a chunk. *)
Lemma begin_next_chunk_spec fuel (s : chunked_decoder S) :
  ck_ok s -> ck_finished s = false -> ck_need_new s = true ->
  (length (ck_raw s) + 3 <= fuel)%nat ->
  exists more s', begin_next_chunk fuel s = Some (more, s') /\ ck_ok s' /\ ck_spec s' = ck_spec s /\
    (length (ck_raw s') <= length (ck_raw s))%nat /\
    (if more then ck_finished s' = false /\ ck_need_new s' = false else ck_finished s' = true).
Proof.
  intros [Hok _] Hfin Hnew Hf. unfold begin_next_chunk, ck_spec. rewrite Hfin, Hnew, dechunk_eq.
  unfold ck_raw in *. pose proof (fd_steps_raw (ck_feed s)).
  destruct (read_line_spec fuel (ck_feed s) Hok ltac:(lia)) as (d & Hokd & Hm).
  assert (forall d' : feeder S, fd_ok d' -> ck_ok (ck_finish s d')) as Hfi.
  { intros d' Hd'. split; [done|]. cbn. congruence. }
  destruct (cut_line (fd_raw (ck_feed s))) as [[line k]|] eqn:E.
  - destruct Hm as [-> Hraw]. apply cut_line_consumed in E.
    destruct (parse_chunk_size line) as [size|] eqn:Ep; [destruct (Z.eqb_spec size 0)|].
    + destruct (skip_trailers_spec fuel d Hokd) as (d' & -> & Hokd' & Hraw').
      { rewrite Hraw, length_drop. lia. }
      exists false, (ck_finish s d'). cbn -[after_trailers]. rewrite Hraw', Hraw.
      split_and!; try done; [auto|]. etrans; [apply after_trailers_length|]. rewrite length_drop. lia.
    + exists true, (mk_chunked d (ck_finished s) size false). cbn. rewrite Hfin, Hraw.
      split; [done|]. split; [split; [done|]|].
      * intros _. cbn. pose proof (parse_chunk_size_range _ _ Ep). lia.
      * split; [done|]. split; [rewrite length_drop; lia|done].
    + exists false, (ck_finish s d). cbn. rewrite Hraw. split_and!; try done; [auto|].
      rewrite length_drop. lia.
  - destruct Hm as (-> & Hraw & _). exists false, (ck_finish s d). cbn. rewrite Hraw.
    split_and!; try done. auto.
Qed.

(** Dropping the chunk terminator from the buffer drops it from the raw bytes. *)
Lemma skip2_feeder (d : feeder S) :
  (2 <= length (fd_buffer d))%nat \/ fd_raw d = fd_buffer d /\ fd_eof d = true ->
  fd_raw (if (2 <=? length (fd_buffer d))%nat then fd_with_buffer d (drop 2 (fd_buffer d)) else d)
  = skip2 (fd_raw d).
Proof.
  intros Hc. unfold skip2. destruct (Nat.leb_spec 2 (length (fd_buffer d))) as [H2|H2].
  - rewrite fd_raw_with_buffer. unfold fd_raw.
    destruct (Nat.leb_spec 2 (length (fd_buffer d ++ st_data (fd_source d)))).
    + by rewrite drop_app_le by lia.
    + rewrite length_app in *. lia.
  - destruct Hc as [?|[Hc _]]; [lia|]. rewrite Hc.
    destruct (Nat.leb_spec 2 (length (fd_buffer d))); [lia|done].
Qed.

Lemma ck_spec_finish (s : chunked_decoder S) d :
  ck_spec (ck_finish s d) = ([], fd_raw d).
Proof. done. Qed.

(** Delivering [k] buffered bytes of the current chunk. *)
Lemma in_chunk_advance (d : feeder S) k rem :
  let d1 := fd_with_buffer d (drop k (fd_buffer d)) in
  (k <= length (fd_buffer d))%nat -> (k <= Z.to_nat rem)%nat ->
  length (fd_raw d) = (k + length (fd_raw d1))%nat /\
  in_chunk rem (fd_raw d) =
  (take k (fd_buffer d) ++ (in_chunk (rem - Z.of_nat k) (fd_raw d1)).1,
   (in_chunk (rem - Z.of_nat k) (fd_raw d1)).2).
Proof.
  intros d1 Hk Hr.
  assert (fd_raw d = take k (fd_buffer d) ++ fd_raw d1) as Hd.
  { unfold d1, fd_raw. cbn. by rewrite app_assoc, take_drop. }
  assert (length (take k (fd_buffer d)) = k) as Lk by (rewrite length_take; lia).
  split; [by rewrite Hd, length_app, Lk|].
  rewrite (in_chunk_take k) by (try lia; rewrite Hd, length_app; lia).
  assert (take k (fd_raw d) = take k (fd_buffer d)) as -> by (rewrite Hd; by apply take_app_length').
  assert (drop k (fd_raw d) = fd_raw d1) as -> by (rewrite Hd; by apply drop_app_length').
  done.
Qed.

Lemma read_chunk_data_spec fuel n (s : chunked_decoder S) :
  (0 < n)%nat -> ck_ok s -> ck_finished s = false -> ck_need_new s = false ->
  (length (ck_raw s) + 3 <= fuel)%nat ->
  exists out s', read_chunk_data fuel n s = Some (Some out, s') /\ ck_ok s' /\
    (length out <= n)%nat /\ ck_spec s = (out ++ (ck_spec s').1, (ck_spec s').2) /\
    ((ck_spec s).1 <> [] -> out <> []) /\ (length (ck_raw s') <= length (ck_raw s))%nat /\
    (out = [] -> ck_finished s' = true).
Proof.
  intros Hn [Hok Hrem] Hfin Hnew Hf. specialize (Hrem Hnew).
  assert (ck_spec s = in_chunk (ck_remaining s) (fd_raw (ck_feed s))) as ->
    by (unfold ck_spec; by rewrite Hfin, Hnew).
  unfold read_chunk_data. unfold ck_raw in *. pose proof (fd_steps_raw (ck_feed s)).
  destruct (fill_until_spec fuel 1 (ck_feed s) Hok ltac:(lia)) as (d & -> & Hokd & Hraw & Hcase).
  cbn [mbind option_bind]. rewrite <-Hraw in *. destruct (fd_buffer d) as [|b buf] eqn:Eb.
  { destruct Hcase as [Hc|[Hc _]]; [cbn in Hc; lia|]. rewrite Hc, in_chunk_nil.
    exists [], (ck_finish s d). rewrite ck_spec_finish, Hc. cbn.
    split_and!; try done; try lia; by rewrite Hc. }
  rewrite <-Eb in *. assert (0 < length (fd_buffer d))%nat as Hb by (rewrite Eb; cbn; lia).
  set (k := to_copy n (ck_remaining s) (fd_buffer d)).
  assert (0 < k <= n /\ k <= length (fd_buffer d) /\ k <= Z.to_nat (ck_remaining s))%nat
    as (Hk1 & Hk2 & Hk3) by (unfold k, to_copy; lia).
  destruct (Nat.eqb_spec k 0); [lia|].
  destruct (in_chunk_advance d k (ck_remaining s) Hk2 Hk3) as [Hlen ->].
  set (d1 := fd_with_buffer d (drop k (fd_buffer d))) in *.
  assert (length (take k (fd_buffer d)) = k) as Lk by (rewrite length_take; lia).
  assert (take k (fd_buffer d) <> []) as Hne by (intros E; rewrite E in Lk; cbn in Lk; lia).
  destruct (Z.eqb_spec (ck_remaining s - Z.of_nat k) 0) as [Ez|Ez].
  - destruct (fill_until_spec fuel 2 d1 Hokd) as (d2 & -> & Hokd2 & Hraw2 & Hcase2).
    { unfold d1. rewrite fd_steps_with_buffer. pose proof (fd_steps_raw d). lia. }
    pose proof (skip2_feeder d2 Hcase2) as Hd3. rewrite Hraw2 in Hd3.
    cbn [mbind option_bind]. set (d3 := if (2 <=? length (fd_buffer d2))%nat then _ else d2) in *.
    exists (take k (fd_buffer d)), (mk_chunked d3 (ck_finished s) (ck_remaining s - Z.of_nat k) true).
    unfold ck_spec, ck_raw. cbn [ck_feed ck_finished ck_remaining ck_need_new fst snd].
    rewrite Hfin, Hd3, Ez, in_chunk_0. pose proof (skip2_length (fd_raw d1)).
    split_and!; try done; try lia. split; [|done]. cbn. unfold d3. by case_if.
  - exists (take k (fd_buffer d)), (mk_chunked d1 (ck_finished s) (ck_remaining s - Z.of_nat k) (ck_need_new s)).
    unfold ck_spec, ck_ok, ck_raw. cbn [ck_feed ck_finished ck_remaining ck_need_new fst snd].
    rewrite Hfin, Hnew. split_and!; try done; intros; lia.
Qed.

(** One [read]: it returns, delivers the next bytes of the specified body, and
    delivers none only at its end. *)
Lemma ck_read_spec fuel n (s : chunked_decoder S) :
  (0 < n)%nat -> ck_ok s -> (length (ck_raw s) + 4 <= fuel)%nat ->
  exists out s', ck_read fuel n s = Some (out, s') /\ ck_ok s' /\
    (length out <= n)%nat /\ ck_spec s = (out ++ (ck_spec s').1, (ck_spec s').2) /\
    ((ck_spec s).1 <> [] -> out <> []) /\ (length (ck_raw s') <= length (ck_raw s))%nat /\
    (out = [] -> ck_finished s' = true).
Proof.
  intros Hn Hok Hf. destruct fuel as [|f]; [lia|]. cbn [ck_read].
  destruct (ck_finished s) eqn:Hfin.
  { exists [], s. unfold ck_spec. rewrite Hfin. cbn. split_and!; try done; lia. }
  destruct (ck_need_new s) eqn:Hnew.
  - destruct (begin_next_chunk_spec f s) as (more & s1 & -> & Hok1 & Hsp & Hl & Hm); try done; [lia|].
    rewrite <-Hsp. destruct more.
    + destruct Hm as [Hfin1 Hnew1].
      destruct (read_chunk_data_spec f n s1) as (out & s2 & -> & ? & ? & ? & ? & ? & ?); try done; [lia|].
      exists out, s2. split_and!; try done. lia.
    + exists [], s1. unfold ck_spec. rewrite Hm. cbn. split_and!; try done; lia.
  - destruct (read_chunk_data_spec f n s) as (out & s2 & -> & ? & ? & ? & ? & ? & ?); try done; [lia|].
    by exists out, s2.
Qed.

(** The decoder as a stream, [fuel] bounding the loops of one [read]. *)
Definition chunked_Stream (fuel : nat) : Stream (chunked_decoder S) := {|
  st_get_length := fun _ => -1;
  st_can_seek := fun _ => false;
  st_seek := fun _ _ s => (-1, s);
  st_read := fun n s => default ([], s) (ck_read fuel n s);
  st_write := fun _ s => (0%nat, s);
|}.

Definition ck_fits (fuel : nat) (s : chunked_decoder S) : Prop :=
  ck_ok s /\ (length (ck_raw s) + 4 <= fuel)%nat.

#[refine] Instance chunked_StreamReads (fuel : nat) : @StreamReads _ (chunked_Stream fuel) := {|
  st_data := fun s => (ck_spec s).1;
  st_ok := ck_fits fuel;
|}.
Proof.
  intros n s out s' Hn [Hok Hf]. cbn.
  destruct (ck_read_spec fuel n s Hn Hok Hf) as (o & s1 & -> & Hok1 & Hle & Hsp & Hne & Hl & _).
  intros [= <- <-]. split; [split; [done|lia]|]. split; [by rewrite Hsp|done].
Defined.

(** Draining the decoder leaves exactly the bytes after the body unread. *)
Lemma ck_drain_rest fuel k (s : chunked_decoder S) acc out s' :
  ck_fits fuel s -> @read_all _ (chunked_Stream fuel) k s acc = Some (out, s') ->
  ck_ok s' /\ ck_finished s' = true /\ ck_raw s' = (ck_spec s).2.
Proof.
  revert s acc. induction k as [|k IH]; intros s acc Hfit; [done|]. cbn.
  destruct (ck_read_spec fuel chunk_size s) as (o & s1 & -> & Hok1 & _ & Hsp & _ & Hl & Hfin);
    [auto with nhttp|apply Hfit|apply Hfit|]. cbn.
  assert (ck_fits fuel s1) as Hfit1 by (split; [done|destruct Hfit; lia]).
  destruct o as [|b o].
  - intros [= <- <-]. specialize (Hfin eq_refl). split; [done|]. split; [done|].
    rewrite Hsp. unfold ck_spec. by rewrite Hfin.
  - intros Hr. apply IH in Hr as (? & ? & Hraw); [|done]. by rewrite Hraw, Hsp.
Qed.

(** Draining a fresh decoder. *)
Lemma chunked_decode_spec (src : S) fuel k :
  st_ok src -> (length (st_data src) + 4 <= fuel)%nat -> (length (st_data src) < k)%nat ->
  exists s', @read_all _ (chunked_Stream fuel) k (chunked_new src) [] =
      Some ((dechunk (st_data src)).1, s') /\
    ck_finished s' = true /\ ck_raw s' = (dechunk (st_data src)).2.
Proof.
  intros Hok Hf Hk.
  assert (ck_fits fuel (chunked_new src)) as Hfit by (split; [by split|done]).
  assert (ck_spec (chunked_new src) = dechunk (st_data src)) as Hsp by done.
  pose proof (dechunk_length (st_data src)) as Hl.
  destruct (@read_all_spec _ _ (chunked_StreamReads fuel) k (chunked_new src) [] Hfit)
    as (s' & Hr & _ & _); [cbn -[dechunk]; unfold ck_raw, fd_raw; cbn -[dechunk]; lia|].
  exists s'. split; [exact Hr|].
  destruct (ck_drain_rest _ _ _ _ _ _ Hfit Hr) as (_ & Hfin & Hraw). by rewrite Hraw, Hsp.
Qed.
End Refinement.

(** ** Decoding what the encoder wrote *)

Lemma hex_digit_spec d : 0 <= d < 16 -> chunk_digit (hex_digit d) = Some d.
Proof.
  intros. assert (forallb (fun d => bool_decide (chunk_digit (hex_digit d) = Some d)) (seqZ 0 16) = true)
    as HA by (vm_compute; reflexivity).
  rewrite forallb_forall in HA. eapply bool_decide_eq_true, HA, list_elem_of_In, elem_of_seqZ. lia.
Qed.

(** The accumulated size is the value of the digits modulo [2^64]. *)
Lemma chunk_size_loop_digits size any ds :
  Forall (fun d => 0 <= d < 16) ds ->
  chunk_size_loop (uwrap 64 size) any (map hex_digit ds) =
  (uwrap 64 (eval_digits 16 size ds), any || negb (length ds =? 0)%nat).
Proof.
  intros Hds. revert size any. induction Hds as [|d ds Hd _ IH]; intros size any.
  - cbn. by rewrite orb_false_r.
  - cbn [map chunk_size_loop]. rewrite hex_digit_spec by done.
    replace (uwrap 64 (uwrap 64 size * 16 + d)) with (uwrap 64 (size * 16 + d)).
    + rewrite IH. cbn. by rewrite orb_true_r.
    + unfold uwrap. by rewrite <-(Z.add_mod_idemp_l (size * 16)), <-(Z.mul_mod_idemp_l size),
        Z.add_mod_idemp_l by lia.
Qed.

Lemma parse_chunk_size_hex v :
  0 <= v -> parse_chunk_size (map hex_digit (digits 16 v)) = Some (uwrap 64 v).
Proof.
  intros Hv. unfold parse_chunk_size. change 0 with (uwrap 64 0).
  rewrite chunk_size_loop_digits by (apply digits_range; lia).
  rewrite digits_eval by lia. pose proof (digits_nonempty 16 v ltac:(lia) Hv) as Hne.
  by destruct (digits 16 v).
Qed.

Lemma hex_digits_no_lf v : LF ∉ map hex_digit (digits 16 v).
Proof.
  intros (d & E & Hd)%list_elem_of_fmap. pose proof (digits_range 16 v ltac:(lia)) as Hr.
  rewrite Forall_forall in Hr. specialize (Hr d Hd).
  pose proof (hex_digit_spec d Hr) as Hs. by rewrite <-E in Hs.
Qed.

Lemma dechunk_encode_chunk c r :
  c <> [] -> Z.of_nat (length c) < 2 ^ 64 ->
  dechunk (encode_chunk c ++ r) = (c ++ (dechunk r).1, (dechunk r).2).
Proof.
  intros Hc Hl. rewrite dechunk_eq. unfold encode_chunk, format_chunk_header.
  rewrite <-!app_assoc, cut_line_crlf by apply hex_digits_no_lf.
  rewrite parse_chunk_size_hex, uwrap_small by lia.
  assert (0 < length c)%nat by (destruct c; [done|cbn; lia]).
  destruct (Z.eqb_spec (Z.of_nat (length c)) 0); [lia|].
  rewrite (app_assoc (map _ _) CRLF), drop_app_length' by (rewrite length_app; cbn; lia).
  unfold in_chunk. rewrite Nat2Z.id, take_app_length, drop_app_length.
  assert (skip2 (chunk_data_terminator ++ r) = r) as -> by done.
  by destruct (dechunk r).
Qed.

Lemma dechunk_terminator rest : dechunk (chunked_body_terminator ++ rest) = ([], rest).
Proof.
  rewrite dechunk_eq. unfold chunked_body_terminator. rewrite <-!app_assoc.
  rewrite (cut_line_crlf (str "0")) by (refine (bool_decide_unpack _ _); vm_compute; exact I).
  change (parse_chunk_size (str "0")) with (Some 0). done.
Qed.

Lemma dechunk_encode chunks rest :
  Forall (fun c => c <> [] /\ Z.of_nat (length c) < 2 ^ 64) chunks ->
  dechunk (encode_chunks chunks ++ chunked_body_terminator ++ rest) = (concat chunks, rest).
Proof.
  induction 1 as [|c cs [Hc Hl] _ IH]; [apply dechunk_terminator|].
  unfold encode_chunks in *. cbn [map concat]. rewrite <-(app_assoc (encode_chunk c)).
  by rewrite dechunk_encode_chunk, IH by done.
Qed.
