(* ===== verification/Http1Io.v ===== *)
(** * Http1Io: src/server/http1_io.cpp and http1_io.hpp

    The HTTP/1.1 wire helpers shared by the server and the reverse proxy:
    header blocks, the request/response body stream chosen from the headers,
    and message-body framing on output.  [buffered_wire_stream] refers to the
    connection's own read buffer and wire, so here its state is that pair. *)

From S2P Require Import Prelude Bytes Stream Feeder Header Chunked.

#[local] Open Scope Z_scope.

(** ** buffered_wire_stream (and owned_buffered_wire_stream) *)
Section BufferedWire.
Context {S : Type} `{Stream S}.

Record buffered_wire := mk_bw { bw_leftover : bytes; bw_wire : S }.

Definition bw_read (n : nat) (b : buffered_wire) : bytes * buffered_wire :=
  match bw_leftover b with
  | [] => let '(out, w) := st_read n (bw_wire b) in (out, mk_bw [] w)
  | l => let k := Nat.min n (length l) in (take k l, mk_bw (drop k l) (bw_wire b))
  end.

#[global] Instance bw_Stream : Stream buffered_wire := {
  st_get_length := fun _ => -1;
  st_can_seek := fun _ => false;
  st_seek := fun _ _ b => (-1, b);
  st_read := bw_read;
  st_write := fun _ b => (0%nat, b);
}.
End BufferedWire.
Arguments buffered_wire S : clear implicits.

(** ** Reading a header block *)
Section ReadHeaders.
Context {S : Type} `{Stream S}.

(** The inner loop: read until the buffer holds a line end; [None] is the
    fuel, an inner [false] the early [co_return false]. *)
Fixpoint fill_line (fuel max_header_size : nat) (buffer : bytes) (w : S)
  : option (bool * bytes * S) :=
  match find_byte LF buffer with
  | Some _ => Some (true, buffer, w)
  | None =>
      match fuel with
      | O => None
      | Datatypes.S f =>
          if (max_header_size <? length buffer)%nat then Some (false, buffer, w)
          else
            let '(chunk, w') := st_read chunk_size w in
            match chunk with
            | [] => Some (false, buffer, w')
            | _ => fill_line f max_header_size (buffer ++ chunk) w'
            end
      end
  end.

Fixpoint read_headers (fuel max_header_size : nat) (buffer : bytes) (w : S) (out : http_headers)
  : option (bool * http_headers * bytes * S) :=
  match fuel with
  | O => None
  | Datatypes.S f =>
      match fill_line f max_header_size buffer w with
      | None => None
      | Some (false, buffer', w') => Some (false, out, buffer', w')
      | Some (true, buffer', w') =>
          match cut_line buffer' with
          | None => Some (false, out, buffer', w')
          | Some ([], k) => Some (true, out, drop k buffer', w')
          | Some (_, _) =>
              match header_try_parse buffer' with
              | Parsed h consumed =>
                  read_headers f max_header_size (drop consumed buffer') w'
                    (headers_add (h_name h) (h_value h) out)
              | _ => Some (false, out, buffer', w')
              end
          end
      end
  end.
End ReadHeaders.

(** ** The body stream *)

Inductive body_stream (S : Type) :=
| BodyChunked (c : chunked_decoder (buffered_wire S))
| BodyLength (r : range_stream (buffered_wire S))
| BodyNone (m : memory_stream).
Arguments BodyChunked {S} c.
Arguments BodyLength {S} r.
Arguments BodyNone {S} m.

(** [nullptr] on a malformed length; [BodyOverflow] is the undefined case. *)
Inductive body_result (S : Type) := BodyNull | BodyOverflow | Body (b : body_stream S).
Arguments BodyNull {S}.
Arguments BodyOverflow {S}.
Arguments Body {S} b.

Definition make_body_stream {S} `{Stream S} (read_buffer : bytes) (w : S) (headers : http_headers)
  : body_result S :=
  let source := mk_bw read_buffer w in
  let by_length :=
    match headers_get CONTENT_LENGTH headers with
    | Some cl =>
        match parse_i64 0 cl with
        | NumBad => BodyNull
        | NumOverflow => BodyOverflow
        | Num length => Body (BodyLength (range_stream_new source 0 length))
        end
    | None => Body (BodyNone (memory_stream_new []))
    end in
  match headers_get TRANSFER_ENCODING headers with
  | Some te =>
      if header_value_contains_token te (str "chunked")
      then Body (BodyChunked (chunked_new source))
      else by_length
  | None => by_length
  end.

(** ** Writing a body *)
Section WriteBody.
Context {W B : Type} `{Stream W} `{Stream B}.

(** [content_length < 0]: chunked transfer coding. *)
Fixpoint write_body_chunked (fuel : nat) (w : W) (body : B) : option (W * B) :=
  match fuel with
  | O => None
  | Datatypes.S f =>
      let '(buf, body') := st_read chunk_size body in
      match buf with
      | [] => w' ← write_all f w chunked_body_terminator; Some (w', body')
      | _ =>
          w1 ← write_all f w (format_chunk_header (length buf));
          w2 ← write_all f w1 buf;
          w3 ← write_all f w2 chunk_data_terminator;
          write_body_chunked f w3 body'
      end
  end.

(** [content_length >= 0]: a copy of at most that many bytes. *)
Fixpoint write_body_plain (fuel : nat) (w : W) (body : B) (remaining : Z) : option (W * B) :=
  if 0 <? remaining then
    match fuel with
    | O => None
    | Datatypes.S f =>
        let want := Z.to_nat (Z.min remaining (Z.of_nat chunk_size)) in
        let '(buf, body') := st_read want body in
        match buf with
        | [] => Some (w, body')
        | _ => w' ← write_all f w buf; write_body_plain f w' body' (remaining - Z.of_nat (length buf))
        end
    end
  else Some (w, body).

(** The generic paths of [write_message_body]. *)
Definition write_message_body (fuel : nat) (w : W) (body : B) (content_length : Z) : option (W * B) :=
  if content_length <? 0 then write_body_chunked fuel w body
  else write_body_plain fuel w body content_length.
End WriteBody.

(** [async_socket::send_file] over sendfile(2): bytes of the file from
    [offset] go to the socket, which accepts a prefix of them. *)
Definition send_file (content : bytes) (offset want : nat) (w : wire) : nat * wire :=
  st_write (take want (drop offset content)) w.

(** [write_message_body_sendfile]. *)
Fixpoint write_message_body_sendfile (fuel : nat) (w : wire) (content : bytes) (offset : nat)
    (remaining : Z) : option wire :=
  if 0 <? remaining then
    match fuel with
    | O => None
    | S f =>
        let '(sent, w') := send_file content offset (Z.to_nat remaining) w in
        if (sent =? 0)%nat then Some w'
        else write_message_body_sendfile f w' content (offset + sent) (remaining - Z.of_nat sent)
    end
  else Some w.

(** ** The buffered wire is a stream *)
Section BufferedWireFacts.
Context {S : Type} `{StreamReads S}.

Definition bw_raw (b : buffered_wire S) : bytes := bw_leftover b ++ st_data (bw_wire b).

#[global, refine] Instance bw_StreamReads : StreamReads (buffered_wire S) := {
  st_data := bw_raw;
  st_ok := fun b => st_ok (bw_wire b);
}.
Proof.
  intros n [l w] out b' Hn Hok. cbn. unfold bw_read, bw_raw. cbn.
  destruct l as [|x l].
  - destruct (st_read n w) as [o w'] eqn:Hr. intros [= <- <-]. cbn.
    by apply (st_read_spec _ _ _ _ Hn Hok Hr).
  - set (k := Nat.min n (length (x :: l))). intros [= <- <-]. cbn [bw_wire bw_leftover].
    split; [done|]. split; [by rewrite app_assoc, take_drop|].
    rewrite length_take. split; [lia|]. intros _. unfold k. by destruct n; [lia|].
Defined.

(** A line end within the limit is found, whatever the segmentation. *)
Lemma fill_line_spec fuel maxsz buffer (w : S) i :
  st_ok w -> (length (st_data w) < fuel)%nat ->
  find_byte LF (buffer ++ st_data w) = Some i -> (i <= maxsz)%nat ->
  exists buffer' w', fill_line fuel maxsz buffer w = Some (true, buffer', w') /\ st_ok w' /\
    buffer' ++ st_data w' = buffer ++ st_data w /\ find_byte LF buffer' = Some i /\
    (length (st_data w') <= length (st_data w))%nat.
Proof.
  revert buffer w. induction fuel as [|f IH]; intros buffer w Hok Hf Hi Hm; [lia|].
  cbn [fill_line]. destruct (find_byte LF buffer) as [j|] eqn:Ej.
  { exists buffer, w. rewrite (find_byte_extend _ _ _ _ Ej) in Hi. by rewrite <-Hi. }
  assert (length buffer <= i)%nat as Hle by (by eapply find_byte_beyond; [|apply find_byte_None]).
  destruct (Nat.ltb_spec maxsz (length buffer)); [lia|].
  destruct (st_read chunk_size w) as [chunk w'] eqn:Hr.
  pose proof (read_empty_iff _ _ _ _ Hok chunk_size_pos Hr) as Hemp.
  destruct (st_read_spec _ _ _ _ chunk_size_pos Hok Hr) as (Hok' & Hd & _ & _).
  destruct chunk as [|x chunk].
  { destruct Hemp as [Hemp _]. by rewrite Hemp, app_nil_r, Ej in Hi. }
  rewrite Hd in Hi, Hf |- *. rewrite length_app in Hf. cbn in Hf. rewrite app_assoc in Hi |- *.
  destruct (IH (buffer ++ x :: chunk) w') as (b' & w'' & ? & ? & ? & ? & ?); try done; [lia|].
  exists b', w''. split_and!; try done. rewrite length_app. cbn. lia.
Qed.

(** The buffer of a found line holds the line itself. *)
Lemma cut_line_buffered buffer data i :
  find_byte LF buffer = Some i -> cut_line buffer = cut_line (buffer ++ data).
Proof.
  intros Hi. destruct (cut_line buffer) as [[l k]|] eqn:E.
  - by rewrite (cut_line_extend _ _ _ _ E).
  - apply cut_line_None, find_byte_None in E. congruence.
Qed.

Lemma header_line_find_lf h rest :
  header_wf h -> find_byte LF (header_line h ++ rest) = Some (length (header_line h) - 1)%nat.
Proof.
  intros Hwf. rewrite header_line_split.
  replace ((h_name h ++ ":"%byte :: SP :: h_value h) ++ CRLF ++ rest)
    with (((h_name h ++ ":"%byte :: SP :: h_value h) ++ [CR]) ++ LF :: rest) by (by rewrite <-app_assoc).
  rewrite find_byte_app.
  - f_equal. unfold header_line, CRLF. change (str ": ") with [":"%byte; SP]. solve_len.
  - apply not_elem_of_app. split; [by apply header_line_no_lf|]. solve_notin.
Qed.

(** The blank line ends the block. *)
Lemma read_headers_end fuel maxsz buffer (w : S) out rest :
  st_ok w -> (1 <= maxsz)%nat -> buffer ++ st_data w = CRLF ++ rest ->
  (length (st_data w) < fuel)%nat ->
  exists buffer' w', read_headers (Datatypes.S fuel) maxsz buffer w out = Some (true, out, buffer', w') /\
    st_ok w' /\ buffer' ++ st_data w' = rest.
Proof.
  intros Hok Hm Hraw Hf. cbn [read_headers].
  destruct (fill_line_spec fuel maxsz buffer w 1) as (b' & w' & -> & Hok' & Hd & Hb' & _);
    [done|done|by rewrite Hraw|done|].
  rewrite (cut_line_buffered b' (st_data w') 1), Hd, Hraw by done.
  change (cut_line (CRLF ++ rest)) with (Some ([] : bytes, 2%nat)).
  exists (drop 2 b'), w'. split; [done|]. split; [done|].
  rewrite Hraw in Hd. apply (f_equal (drop 2)) in Hd.
  apply find_byte_lt in Hb'. rewrite drop_app_le in Hd by lia. exact Hd.
Qed.

(** One header line is parsed and consumed. *)
Lemma read_headers_step h fuel maxsz buffer (w : S) out rest :
  st_ok w -> header_wf h -> (length (header_line h) <= maxsz)%nat ->
  buffer ++ st_data w = header_line h ++ rest -> (length (st_data w) < fuel)%nat ->
  exists buffer' w', st_ok w' /\ buffer' ++ st_data w' = rest /\
    (length (st_data w') <= length (st_data w))%nat /\
    read_headers (Datatypes.S fuel) maxsz buffer w out =
    read_headers fuel maxsz buffer' w' (out ++ [h]).
Proof.
  intros Hok Hh Hm Hraw Hf. cbn [read_headers].
  destruct (fill_line_spec fuel maxsz buffer w (length (header_line h) - 1))
    as (b' & w' & -> & Hok' & Hd & Hb' & Hle); [done|done|by rewrite Hraw, header_line_find_lf|lia|].
  rewrite (cut_line_buffered b' (st_data w') _ Hb'), Hd, Hraw, header_line_split, cut_line_crlf
    by by apply header_line_no_lf.
  destruct (h_name h ++ ":"%byte :: SP :: h_value h) as [|x l] eqn:El; [by destruct (h_name h)|].
  assert (header_try_parse b' = Parsed h (length (header_line h))) as ->.
  { rewrite <-(header_try_parse_extend b' (st_data w')).
    - rewrite Hd, Hraw. by apply header_parse_line.
    - intros E%header_need_more%find_byte_None. congruence. }
  exists (drop (length (header_line h)) b'), w'. split; [done|]. split; [|split; [done|]].
  - rewrite Hraw in Hd. apply (f_equal (drop (length (header_line h)))) in Hd.
    rewrite drop_app_length, drop_app_le in Hd; [done|]. apply find_byte_lt in Hb'. lia.
  - unfold headers_add. by destruct h.
Qed.

(** A written header block is read back, header for header, and exactly it is
    consumed. *)
Lemma read_headers_block hs fuel maxsz buffer (w : S) out rest :
  st_ok w -> Forall header_wf hs ->
  Forall (fun h => length (header_line h) <= maxsz)%nat hs -> (1 <= maxsz)%nat ->
  buffer ++ st_data w = headers_write hs ++ CRLF ++ rest ->
  (length (st_data w) + length hs + 1 < fuel)%nat ->
  exists buffer' w', read_headers fuel maxsz buffer w out = Some (true, out ++ hs, buffer', w') /\
    st_ok w' /\ buffer' ++ st_data w' = rest.
Proof.
  intros Hok Hwf. revert fuel buffer w out Hok.
  induction Hwf as [|h hs Hh Hhs IH]; intros fuel buffer w out Hok Hlen Hm Hraw Hf.
  all: destruct fuel as [|f]; [lia|]; cbn [length] in Hf.
  - rewrite app_nil_r. by apply read_headers_end; [..|lia].
  - inversion Hlen as [|? ? Hl1 Hl2]; subst. cbn [headers_write] in Hraw. rewrite <-app_assoc in Hraw.
    destruct (read_headers_step h f maxsz buffer w out _ Hok Hh Hl1 Hraw) as (b' & w' & Hok' & Hr' & Hle & ->);
      [lia|].
    destruct (IH f b' w' (out ++ [h]) Hok' Hl2 Hm Hr') as (b'' & w'' & -> & ? & ?); [lia|].
    exists b'', w''. by rewrite <-app_assoc.
Qed.
End BufferedWireFacts.

(** ** Request and response bodies *)
Section Bodies.
Context {S : Type} `{StreamReads S}.

(** A Content-Length body read through make_body_stream yields exactly the announced bytes,
    whether they are already buffered or still on the wire, and leaves the rest for the next
    request. *)
Lemma length_body_exact (buffer body rest : bytes) (w : S) headers fuel :
  st_ok w -> headers_get TRANSFER_ENCODING headers = None ->
  headers_get CONTENT_LENGTH headers = Some (to_string (Z.of_nat (length body))) ->
  Z.of_nat (length body) <= i64_max -> buffer ++ st_data w = body ++ rest ->
  (length body < fuel)%nat ->
  exists r r', make_body_stream buffer w headers = Body (BodyLength r) /\
    read_all fuel r [] = Some (body, r') /\ bw_raw (rs_inner r') = rest.
Proof.
  intros Hok Hte Hcl Hmax Hraw Hf. unfold make_body_stream. rewrite Hte, Hcl, parse_i64_to_string by lia.
  set (r := range_stream_new _ _ _).
  destruct (range_new_unseekable (mk_bw buffer w) (Z.of_nat (length body)))
    as (Hokr & Hdata & Hin); [done|done|done|lia|].
  assert (st_data r = body) as Hd.
  { unfold r. rewrite Hdata. cbn [st_data bw_StreamReads]. unfold bw_raw. cbn.
    by rewrite Hraw, Nat2Z.id, take_app_length. }
  destruct (read_all_spec fuel r [] Hokr) as (r' & Hr & _ & _); [by rewrite Hd|].
  destruct (rs_drained r fuel [] _ r' Hokr Hr) as (d & Ed & Hinner & _ & _).
  rewrite Hd in Hr, Ed. cbn in Ed. subst d.
  exists r, r'. split; [done|]. split; [done|].
  unfold r in Hinner. rewrite Hin in Hinner. cbn [st_data bw_StreamReads] in Hinner.
  unfold bw_raw at 1 in Hinner. cbn [bw_leftover bw_wire] in Hinner. rewrite Hraw in Hinner.
  apply app_inv_head in Hinner. rewrite Hinner. symmetry.
  assert (rs_positioned r' = true) as Hpos by by apply (read_all_positioned fuel r [] body).
  unfold ensure_positioned. by rewrite Hpos.
Qed.

(** What a decoder has taken from the connection beyond the body, and what later
    readers of the connection get. *)
Definition read_ahead (c : chunked_decoder (buffered_wire S)) : bytes := fd_buffer (ck_feed c).
Definition left_unread (c : chunked_decoder (buffered_wire S)) : bytes := bw_raw (fd_source (ck_feed c)).

(** C14: A chunked request body (non-empty chunks, no trailers) read through make_body_stream
    yields exactly the concatenation of its chunks, for every segmentation of the wire, and no
    byte after the terminator is read as body or altered: those bytes are, in order, what the
    decoder has read ahead into its private buffer (which the connection does not take back)
    and what is left unread for the connection. *)
Theorem chunked_body_exact (buffer rest : bytes) (chunks : list bytes) (w : S) headers te fuel k :
  st_ok w -> headers_get TRANSFER_ENCODING headers = Some te ->
  header_value_contains_token te (str "chunked") = true ->
  Forall (fun c => c <> [] /\ Z.of_nat (length c) < 2 ^ 64) chunks ->
  buffer ++ st_data w = encode_chunks chunks ++ chunked_body_terminator ++ rest ->
  (length (buffer ++ st_data w) + 4 <= fuel)%nat -> (length (buffer ++ st_data w) < k)%nat ->
  exists c c', make_body_stream buffer w headers = Body (BodyChunked c) /\
    @read_all _ (chunked_Stream fuel) k c [] = Some (concat chunks, c') /\
    read_ahead c' ++ left_unread c' = rest.
Proof.
  intros Hok Hte Htok Hch Hraw Hf Hk. unfold make_body_stream. rewrite Hte, Htok.
  exists (chunked_new (mk_bw buffer w)).
  pose proof (dechunk_encode chunks rest Hch) as Hde. rewrite <-Hraw in Hde.
  destruct (chunked_decode_spec (mk_bw buffer w) fuel k) as (c' & Hr & _ & Hc'); [done..|].
  exists c'. split; [done|].
  cbn [st_data bw_StreamReads] in Hr, Hc'. unfold bw_raw in Hr, Hc'. cbn [bw_leftover bw_wire] in Hr, Hc'.
  rewrite Hde in Hr, Hc'. done.
Qed.
End Bodies.

(** The chunked decoder reads ahead: the bytes of a pipelined request that
    arrive with the end of a chunked body are left in the decoder's own buffer
    and not in the connection's, which then starts its next request without
    them. *)
Lemma chunked_body_read_ahead :
  let next := str "GET / HTTP/1.1" ++ CRLF in
  let w := mk_wire [chunked_body_terminator ++ next] [] [] in
  exists c', @read_all _ (chunked_Stream 64) 64 (chunked_new (mk_bw [] w)) [] = Some ([], c') /\
    read_ahead c' = next /\ left_unread c' = [].
Proof.
  eexists. split; [vm_compute; reflexivity|]. split; vm_compute; reflexivity.
Qed.

(** ** Written bodies *)
Section Written.
Context {W B : Type} `{StreamWrites W} `{StreamReads B}.

Lemma format_chunk_header_length n : Z.of_nat n < 2 ^ 64 -> (length (format_chunk_header n) <= 18)%nat.
Proof.
  intros Hn. unfold format_chunk_header. rewrite length_app, length_map.
  pose proof (digits_length 16 (Z.of_nat n) 16 ltac:(lia) ltac:(lia)) as Hd.
  change (16 ^ Z.of_nat 16) with (2 ^ 64) in Hd. specialize (Hd ltac:(lia)).
  change (length CRLF) with 2%nat. lia.
Qed.

(** The chunked path writes the body as non-empty chunks and terminates it. *)
Lemma write_body_chunked_spec fuel (w : W) (body : B) :
  st_ok body -> (length (st_data body) + chunk_size + 32 <= fuel)%nat ->
  exists w' body' chunks, write_body_chunked fuel w body = Some (w', body') /\
    st_written w' = st_written w ++ encode_chunks chunks ++ chunked_body_terminator /\
    concat chunks = st_data body /\
    Forall (fun c => c <> [] /\ Z.of_nat (length c) < 2 ^ 64) chunks.
Proof.
  revert w body. induction fuel as [|f IH]; intros w body Hok Hf; [lia|].
  cbn [write_body_chunked]. destruct (st_read chunk_size body) as [buf body'] eqn:Hr.
  pose proof (read_empty_iff _ _ _ _ Hok chunk_size_pos Hr) as Hemp.
  destruct (st_read_spec _ _ _ _ chunk_size_pos Hok Hr) as (Hok' & Hd & Hle & _).
  assert (chunk_size = Z.to_nat 4096) as Hcs by done.
  destruct buf as [|b0 buf0] eqn:Eb.
  - destruct (write_all_spec f w chunked_body_terminator) as (w' & -> & Hw);
      [change (length chunked_body_terminator) with 5%nat; lia|].
    exists w', body', []. destruct Hemp as [-> _]; [|done]. by rewrite Hw.
  - rewrite <-Eb in *. assert (buf <> []) as Hbne by (by rewrite Eb).
    pose proof (format_chunk_header_length (length buf) ltac:(lia)).
    destruct (write_all_spec f w (format_chunk_header (length buf))) as (w1 & -> & Hw1); [lia|].
    cbn [mbind option_bind].
    destruct (write_all_spec f w1 buf) as (w2 & -> & Hw2); [lia|]. cbn [mbind option_bind].
    destruct (write_all_spec f w2 chunk_data_terminator) as (w3 & -> & Hw3); [cbn; lia|].
    cbn [mbind option_bind].
    destruct (IH w3 body' Hok') as (w' & b'' & cs & -> & Hw' & Hc & Hf').
    { rewrite Hd, length_app in Hf. destruct buf; [done|]. cbn in Hf. lia. }
    exists w', b'', (buf :: cs). split; [done|]. split; [|split].
    + rewrite Hw', Hw3, Hw2, Hw1. unfold encode_chunks. cbn [map concat]. unfold encode_chunk.
      by rewrite <-!app_assoc.
    + cbn. by rewrite Hc, Hd.
    + constructor; [|done]. split; [done|]. lia.
Qed.

Lemma write_body_plain_spec fuel (w : W) (body : B) n :
  st_ok body -> (length (st_data body) + chunk_size < fuel)%nat ->
  exists w' body', write_body_plain fuel w body n = Some (w', body') /\
    st_written w' = st_written w ++ take (Z.to_nat n) (st_data body).
Proof.
  revert w body n. induction fuel as [|f IH]; intros w body n Hok Hf; [lia|].
  cbn [write_body_plain]. destruct (Z.ltb_spec 0 n) as [Hn|Hn].
  2:{ exists w, body. replace (Z.to_nat n) with 0%nat by lia. by rewrite take_0, app_nil_r. }
  set (want := Z.to_nat (Z.min n (Z.of_nat chunk_size))).
  assert (chunk_size = Z.to_nat 4096) as Hcs by done.
  assert (0 < want)%nat as Hwant by lia.
  destruct (st_read want body) as [buf body'] eqn:Hr.
  pose proof (read_empty_iff _ _ _ _ Hok Hwant Hr) as Hemp.
  destruct (st_read_spec _ _ _ _ Hwant Hok Hr) as (Hok' & Hd & Hle & _).
  destruct buf as [|b0 buf0] eqn:Eb.
  - exists w, body'. destruct Hemp as [-> _]; [|done]. by rewrite take_nil, app_nil_r.
  - rewrite <-Eb in *. assert (0 < length buf)%nat by (rewrite Eb; cbn; lia).
    destruct (write_all_spec f w buf) as (w1 & -> & Hw1); [lia|]. cbn [mbind option_bind].
    destruct (IH w1 body' (n - Z.of_nat (length buf)) Hok') as (w' & b'' & -> & Hw').
    { rewrite Hd, length_app in Hf. lia. }
    exists w', b''. split; [done|]. rewrite Hw', Hw1, Hd, <-app_assoc. f_equal.
    rewrite take_app_ge by lia. do 2 f_equal. lia.
Qed.

(** A body of unknown length written by write_message_body is a chunked coding that a decoder
    turns back into exactly the body's bytes, whatever the transport accepts per write. *)
Lemma write_body_then_decode fuel (w : W) (body : B) :
  st_ok body -> (length (st_data body) + chunk_size + 32 <= fuel)%nat ->
  exists w' body' coded, write_message_body fuel w body (-1) = Some (w', body') /\
    st_written w' = st_written w ++ coded /\
    forall rest, dechunk (coded ++ rest) = (st_data body, rest).
Proof.
  intros Hok Hf.
  destruct (write_body_chunked_spec fuel w body Hok Hf) as (w' & b' & cs & Hw & Hwr & Hc & Hcs).
  exists w', b', (encode_chunks cs ++ chunked_body_terminator). split; [done|]. split; [done|].
  intros rest. rewrite <-app_assoc, dechunk_encode by done. by rewrite Hc.
Qed.
End Written.

Lemma sendfile_spec fuel w content offset n :
  (length content - offset < fuel)%nat ->
  exists w', write_message_body_sendfile fuel w content offset n = Some w' /\
    w_out w' = w_out w ++ take (Z.to_nat n) (drop offset content).
Proof.
  revert w offset n. induction fuel as [|f IH]; intros w offset n Hf; [lia|].
  cbn [write_message_body_sendfile]. destruct (Z.ltb_spec 0 n) as [Hn|Hn].
  2:{ exists w. replace (Z.to_nat n) with 0%nat by lia. by rewrite take_0, app_nil_r. }
  unfold send_file. set (want := take (Z.to_nat n) (drop offset content)).
  destruct (st_write want w) as [sent w1] eqn:Hw.
  destruct (st_write_spec _ _ _ _ Hw) as (Hle & Hpos & Hwr). cbn [st_written wire_StreamWrites] in Hwr.
  destruct (Nat.eqb_spec sent 0) as [->|Hs].
  - exists w1. split; [done|]. rewrite Hwr, take_0. destruct want; [done|].
    specialize (Hpos ltac:(done)). lia.
  - unfold want in Hle. rewrite length_take, length_drop in Hle.
    destruct (IH w1 (offset + sent)%nat (n - Z.of_nat sent)) as (w' & -> & Hw'); [lia|].
    exists w'. split; [done|]. rewrite Hw', Hwr, <-app_assoc. f_equal.
    rewrite <-drop_drop. replace (Z.to_nat (n - Z.of_nat sent)) with (Z.to_nat n - sent)%nat by lia.
    unfold want. rewrite <-(take_drop sent (take (Z.to_nat n) (drop offset content))) at 2.
    by rewrite skipn_firstn_comm.
Qed.

(** The sendfile path puts the same bytes on the wire as the buffered path: the first n bytes of
    the file. *)
Lemma sendfile_equivalent content n fuel w :
  0 <= n -> (length content + chunk_size < fuel)%nat ->
  exists w1 w2 body', write_message_body_sendfile fuel w content 0 n = Some w1 /\
    write_message_body fuel w (memory_stream_new content) n = Some (w2, body') /\
    w_out w1 = w_out w2 /\ w_out w2 = w_out w ++ take (Z.to_nat n) content.
Proof.
  intros Hn Hf. destruct (sendfile_spec fuel w content 0 n) as (w1 & -> & Hw1); [lia|].
  unfold write_message_body. destruct (Z.ltb_spec n 0); [lia|].
  destruct (write_body_plain_spec fuel w (memory_stream_new content) n) as (w2 & b' & -> & Hw2);
    [apply Nat.le_0_l|change (st_data (memory_stream_new content)) with content; lia|].
  exists w1, w2, b'. change (st_data (memory_stream_new content)) with content in Hw2.
  cbn [st_written wire_StreamWrites] in Hw2. by rewrite Hw1, Hw2.
Qed.

(** ** The theorems on concrete wires *)
Definition length_headers : http_headers := [mk_header CONTENT_LENGTH (str "5")].
Definition chunked_headers : http_headers := [mk_header TRANSFER_ENCODING (str "chunked")].

Lemma length_body_exact_witness :
  exists r r', make_body_stream (str "he") (mk_wire [str "l"; str "loGET "] [] []) length_headers =
      Body (BodyLength r) /\
    read_all 9 r [] = Some (str "hello", r') /\ bw_raw (rs_inner r') = str "GET ".
Proof.
  apply (length_body_exact (str "he") (str "hello") (str "GET ")); try reflexivity; try exact I.
  - vm_compute. intros ?; discriminate.
  - vm_compute. lia.
Defined.

Lemma chunked_body_exact_witness :
  let w := mk_wire [encode_chunks [str "hel"; str "lo"]; chunked_body_terminator ++ str "GET "] [] [] in
  exists c c', make_body_stream [] w chunked_headers = Body (BodyChunked c) /\
    @read_all _ (chunked_Stream 64) 64 c [] = Some (str "hello", c') /\
    read_ahead c' ++ left_unread c' = str "GET ".
Proof.
  intros w. apply (chunked_body_exact [] (str "GET ") [str "hel"; str "lo"] w chunked_headers (str "chunked"));
    try reflexivity; try exact I.
  - repeat constructor; vm_compute; try done; intros ?; discriminate.
  - vm_compute. lia.
  - vm_compute. lia.
Defined.

Lemma write_body_then_decode_witness :
  exists w' body' coded,
    write_message_body (Z.to_nat 5000) (mk_wire [] [] [3%nat]) (memory_stream_new (str "hello")) (-1) =
      Some (w', body') /\
    w_out w' = coded /\ forall rest, dechunk (coded ++ rest) = (str "hello", rest).
Proof.
  destruct (write_body_then_decode (Z.to_nat 5000) (mk_wire [] [] [3%nat]) (memory_stream_new (str "hello")))
    as (w' & body' & coded & E & Hw & Hd).
  - apply Nat.le_0_l.
  - change (length (st_data (memory_stream_new (str "hello")))) with 5%nat. rewrite chunk_size_eq. lia.
  - by exists w', body', coded.
Defined.

Lemma sendfile_equivalent_witness :
  exists w1 w2 body',
    write_message_body_sendfile (Z.to_nat 5000) (mk_wire [] [] [1%nat]) (str "content") 0 4 = Some w1 /\
    write_message_body (Z.to_nat 5000) (mk_wire [] [] [1%nat]) (memory_stream_new (str "content")) 4 =
      Some (w2, body') /\
    w_out w1 = w_out w2 /\ w_out w2 = str "cont".
Proof.
  apply (sendfile_equivalent (str "content") 4 (Z.to_nat 5000) (mk_wire [] [] [1%nat])); [lia|].
  change (length (str "content")) with 7%nat. rewrite chunk_size_eq. lia.
Defined.
