(* ===== verification/Frame.v ===== *)
(** * Frame: src/http2/frame.cpp and frame.hpp

    HTTP/2 frame headers and the payload codecs.  Byte buffers given to the
    parsers by pointer and length are [bytes]; a read outside the buffer is
    [None] (undefined behaviour in the source). *)

From S2P Require Import Prelude Bytes.

#[local] Open Scope Z_scope.

(** ** Big-endian words *)

Definition write_u24 (value : Z) : bytes :=
  [z2b (Z.land (Z.shiftr value 16) 255); z2b (Z.land (Z.shiftr value 8) 255); z2b (Z.land value 255)].

Definition write_u32 (value : Z) : bytes :=
  [z2b (Z.land (Z.shiftr value 24) 255); z2b (Z.land (Z.shiftr value 16) 255);
   z2b (Z.land (Z.shiftr value 8) 255); z2b (Z.land value 255)].

Definition write_u16 (value : Z) : bytes :=
  [z2b (Z.land (Z.shiftr value 8) 255); z2b (Z.land value 255)].

Definition read_u24 (p : bytes) : option Z :=
  match p with
  | a :: b :: c :: _ => Some (Z.lor (Z.lor (Z.shiftl (b2z a) 16) (Z.shiftl (b2z b) 8)) (b2z c))
  | _ => None
  end.

Definition read_u32 (p : bytes) : option Z :=
  match p with
  | a :: b :: c :: d :: _ =>
      Some (Z.lor (Z.lor (Z.lor (Z.shiftl (b2z a) 24) (Z.shiftl (b2z b) 16)) (Z.shiftl (b2z c) 8)) (b2z d))
  | _ => None
  end.

Definition read_u16 (p : bytes) : option Z :=
  match p with
  | a :: b :: _ => Some (uwrap 16 (Z.lor (Z.shiftl (b2z a) 8) (b2z b)))
  | _ => None
  end.

(** ** The frame header *)

(** [enum class frame_type : std::uint8_t]; any byte is a value of it. *)
Inductive frame_type :=
| ft_data | ft_headers | ft_priority | ft_rst_stream | ft_settings | ft_push_promise
| ft_ping | ft_goaway | ft_window_update | ft_continuation
| ft_other (v : Z).

#[global] Instance frame_type_eq_dec : EqDecision frame_type.
Proof. solve_decision. Defined.

Definition ft_to_Z (t : frame_type) : Z :=
  match t with
  | ft_data => 0 | ft_headers => 1 | ft_priority => 2 | ft_rst_stream => 3 | ft_settings => 4
  | ft_push_promise => 5 | ft_ping => 6 | ft_goaway => 7 | ft_window_update => 8
  | ft_continuation => 9 | ft_other v => v
  end.

Definition ft_of_Z (v : Z) : frame_type :=
  match v with
  | 0 => ft_data | 1 => ft_headers | 2 => ft_priority | 3 => ft_rst_stream | 4 => ft_settings
  | 5 => ft_push_promise | 6 => ft_ping | 7 => ft_goaway | 8 => ft_window_update
  | 9 => ft_continuation | _ => ft_other v
  end.

Definition flag_end_stream : Z := 1.
Definition flag_ack : Z := 1.
Definition flag_end_headers : Z := 4.
Definition flag_padded : Z := 8.
Definition flag_priority : Z := 32.

Record frame_header := mk_frame_header {
  fh_length : Z;
  fh_type : frame_type;
  fh_flags : Z;
  fh_stream_id : Z;
}.

Definition fh_wire_size : nat := 9.

Definition frame_header_write (h : frame_header) : bytes :=
  write_u24 (Z.land (fh_length h) 16777215) ++ [z2b (ft_to_Z (fh_type h))] ++ [z2b (fh_flags h)]
  ++ write_u32 (Z.land (fh_stream_id h) 2147483647).

Definition frame_header_parse (data : bytes) : option frame_header :=
  len ← read_u24 data;
  ty ← data !! 3%nat;
  fl ← data !! 4%nat;
  sid ← read_u32 (drop 5 data);
  Some (mk_frame_header len (ft_of_Z (b2z ty)) (b2z fl) (Z.land sid 2147483647)).

(** ** Payloads *)

Record settings_param := mk_setting { sp_id : Z; sp_value : Z }.

Definition settings_header_table_size : Z := 1.
Definition settings_enable_push : Z := 2.
Definition settings_max_concurrent_streams : Z := 3.
Definition settings_initial_window_size : Z := 4.
Definition settings_max_frame_size : Z := 5.
Definition settings_max_header_list_size : Z := 6.

Definition err_no_error : Z := 0.
Definition err_protocol_error : Z := 1.
Definition err_internal_error : Z := 2.
Definition err_flow_control_error : Z := 3.
Definition err_stream_closed : Z := 5.
Definition err_frame_size_error : Z := 6.
Definition err_refused_stream : Z := 7.
Definition err_cancel : Z := 8.
Definition err_compression_error : Z := 9.

Definition client_preface : bytes :=
  str "PRI * HTTP/2.0" ++ CRLF ++ CRLF ++ str "SM" ++ CRLF ++ CRLF.

Fixpoint write_settings_payload (params : list settings_param) : bytes :=
  match params with
  | [] => []
  | p :: r => write_u16 (sp_id p) ++ write_u32 (sp_value p) ++ write_settings_payload r
  end.

(** The loop [for (i = 0; i < len; i += 6)], [n] iterations. *)
Fixpoint parse_settings_loop (n : nat) (data : bytes) (out : list settings_param)
  : option (list settings_param) :=
  match n with
  | O => Some out
  | S n' =>
      id ← read_u16 data;
      value ← read_u32 (drop 2 data);
      parse_settings_loop n' (drop 6 data) (out ++ [mk_setting id value])
  end.

(** [None]: the payload is rejected. *)
Definition parse_settings_payload (data : bytes) : option (list settings_param) :=
  if negb (length data mod 6 =? 0)%nat then None
  else parse_settings_loop (length data / 6) data [].

Definition write_window_update_payload (increment : Z) : bytes :=
  write_u32 (Z.land increment 2147483647).

Definition parse_window_update_payload (data : bytes) : option Z :=
  if negb (length data =? 4)%nat then None
  else v ← read_u32 data; Some (Z.land v 2147483647).

Definition write_rst_stream_payload (error : Z) : bytes := write_u32 error.

Definition parse_rst_stream_payload (data : bytes) : option Z :=
  if negb (length data =? 4)%nat then None else read_u32 data.

Definition write_goaway_payload (last_stream_id error : Z) (debug_data : bytes) : bytes :=
  write_u32 (Z.land last_stream_id 2147483647) ++ write_u32 error ++ debug_data.

Definition write_ping_payload (opaque : bytes) : bytes := opaque.

(** Content length and offset, [None] when the declared padding does not fit. *)
Definition strip_padding (payload : bytes) (padded : bool) : option (nat * nat) :=
  if negb padded then Some (length payload, 0%nat)
  else
    match payload with
    | [] => None
    | p :: _ =>
        let pad_length := Z.to_nat (b2z p) in
        if (length payload <? pad_length + 1)%nat then None
        else Some ((length payload - 1 - pad_length)%nat, 1%nat)
    end.

(** ** Lemmas *)

Lemma join_bytes a b c d :
  Z.lor (Z.lor (Z.lor (Z.shiftl (b2z a) 24) (Z.shiftl (b2z b) 16)) (Z.shiftl (b2z c) 8)) (b2z d)
  = ((b2z a * 256 + b2z b) * 256 + b2z c) * 256 + b2z d.
Proof.
  pose proof (b2z_range b). pose proof (b2z_range c). pose proof (b2z_range d).
  rewrite <-(Z.shiftl_shiftl _ 8 16) by lia. rewrite <-Z.shiftl_lor.
  rewrite <-(Z.shiftl_shiftl _ 8 8) by lia. rewrite <-Z.shiftl_lor.
  rewrite !lor_shiftl_add by (cbn; lia). reflexivity.
Qed.

(** The bytes of a word, most significant first. *)
Lemma split_bytes v :
  0 <= v < 2 ^ 32 ->
  v = ((v / 2 ^ 24 mod 256 * 256 + v / 2 ^ 16 mod 256) * 256 + v / 2 ^ 8 mod 256) * 256 + v mod 256.
Proof.
  intros Hv.
  pose proof (Z.div_mod v 256 ltac:(lia)). pose proof (Z.div_mod (v / 256) 256 ltac:(lia)).
  pose proof (Z.div_mod (v / 256 / 256) 256 ltac:(lia)).
  rewrite !Z.div_div in * by lia. change (256 * 256) with 65536 in *.
  change (65536 * 256) with 16777216 in *.
  change (2 ^ 24) with 16777216. change (2 ^ 16) with 65536. change (2 ^ 8) with 256.
  rewrite (Z.mod_small (v / 16777216)).
  - lia.
  - split; [apply Z.div_pos; lia|]. apply Z.div_lt_upper_bound; [lia|]. cbn in Hv. lia.
Qed.

Lemma b2z_octet v : b2z (z2b (Z.land v 255)) = v mod 256.
Proof. rewrite land_ff, b2z_z2b. apply Z.mod_mod. lia. Qed.

Lemma read_write_u32 v rest : 0 <= v < 2 ^ 32 -> read_u32 (write_u32 v ++ rest) = Some v.
Proof.
  intros Hv. cbn -[Z.lor]. f_equal. rewrite join_bytes, !b2z_octet, !Z.shiftr_div_pow2 by lia.
  symmetry. by apply split_bytes.
Qed.

Lemma read_write_u24 v rest : 0 <= v < 2 ^ 24 -> read_u24 (write_u24 v ++ rest) = Some v.
Proof.
  intros Hv. cbn -[Z.lor]. f_equal.
  pose proof (join_bytes x00 (z2b (Z.land (Z.shiftr v 16) 255)) (z2b (Z.land (Z.shiftr v 8) 255))
    (z2b (Z.land v 255))) as Hj.
  change (Z.shiftl (b2z x00) 24) with 0 in Hj. rewrite Z.lor_0_l in Hj. rewrite Hj.
  change (b2z x00) with 0. rewrite !b2z_octet, !Z.shiftr_div_pow2 by lia.
  pose proof (split_bytes v ltac:(cbn in *; lia)) as Hs.
  rewrite (Z.div_small v (2 ^ 24)) in Hs by lia. rewrite Hs at 4. reflexivity.
Qed.

Lemma read_write_u16 v rest : 0 <= v < 2 ^ 16 -> read_u16 (write_u16 v ++ rest) = Some v.
Proof.
  intros Hv. cbn -[Z.lor]. f_equal. rewrite lor_shiftl_add by (pose proof (b2z_range (z2b (Z.land v 255))); cbn; lia).
  rewrite !b2z_octet, !Z.shiftr_div_pow2 by lia. change (2 ^ 8) with 256.
  pose proof (Z.div_mod v 256 ltac:(lia)).
  rewrite (Z.mod_small (v / 256)) by (split; [apply Z.div_pos|apply Z.div_lt_upper_bound]; cbn in *; lia).
  replace (v / 256 * 256 + v mod 256) with v by lia. by apply uwrap_small.
Qed.

Lemma land_31 v : 0 <= v < 2 ^ 31 -> Z.land v 2147483647 = v.
Proof. intros. change 2147483647 with (Z.ones 31). rewrite Z.land_ones by lia. by apply Z.mod_small. Qed.

Lemma land_24 v : 0 <= v < 2 ^ 24 -> Z.land v 16777215 = v.
Proof. intros. change 16777215 with (Z.ones 24). rewrite Z.land_ones by lia. by apply Z.mod_small. Qed.

Definition frame_type_wf (t : frame_type) : Prop :=
  match t with ft_other v => 10 <= v < 256 | _ => True end.

(** A header whose fields fit their wire widths. *)
Definition frame_header_wf (h : frame_header) : Prop :=
  0 <= fh_length h < 2 ^ 24 /\ frame_type_wf (fh_type h) /\ 0 <= fh_flags h < 256 /\
  0 <= fh_stream_id h < 2 ^ 31.

Lemma ft_roundtrip t : frame_type_wf t -> ft_of_Z (b2z (z2b (ft_to_Z t))) = t.
Proof.
  destruct t as [ | | | | | | | | | |v]; try done. cbn [frame_type_wf ft_to_Z]. intros Hv.
  rewrite b2z_z2b_small by lia. unfold ft_of_Z. destruct v as [|p|p]; try lia.
  do 9 (destruct p as [p|p|]; try lia; try done).
Qed.

(** A nine-byte HTTP/2 frame header whose fields fit their widths is parsed back from its
    serialization, whatever payload follows. *)
Lemma frame_header_roundtrip h payload :
  frame_header_wf h -> frame_header_parse (frame_header_write h ++ payload) = Some h.
Proof.
  intros (Hl & Ht & Hf & Hs). unfold frame_header_write, frame_header_parse.
  rewrite (land_24 _ Hl), (land_31 _ Hs), <-!app_assoc, read_write_u24 by done.
  cbn [mbind option_bind app write_u24 lookup list_lookup].
  change (drop 5 _) with (write_u32 (fh_stream_id h) ++ payload).
  rewrite read_write_u32 by (split; [lia|]; etrans; [apply Hs|reflexivity]).
  cbn [mbind option_bind]. rewrite ft_roundtrip, b2z_z2b_small, land_31 by done. by destruct h.
Qed.

(** Whatever nine bytes arrive, the parsed fields fit their widths. *)
Lemma frame_header_parse_wf data h :
  (9 <= length data)%nat -> frame_header_parse data = Some h ->
  0 <= fh_length h < 2 ^ 24 /\ 0 <= fh_flags h < 256 /\ 0 <= fh_stream_id h < 2 ^ 31.
Proof.
  intros _. unfold frame_header_parse. destruct data as [|a [|b [|c r]]]; try done. cbn [read_u24 mbind option_bind].
  destruct ((a :: b :: c :: r) !! 3%nat) as [ty|]; [|done]. cbn [mbind option_bind].
  destruct ((a :: b :: c :: r) !! 4%nat) as [fl|]; [|done]. cbn [mbind option_bind].
  destruct (read_u32 _) as [sid|]; [|done]. cbn [mbind option_bind]. intros [= <-].
  cbn [fh_length fh_flags fh_stream_id]. split; [|split].
  - pose proof (join_bytes x00 a b c) as Hj.
    change (Z.shiftl (b2z x00) 24) with 0 in Hj. rewrite Z.lor_0_l in Hj. rewrite Hj.
    pose proof (b2z_range a). pose proof (b2z_range b). pose proof (b2z_range c).
    change (b2z x00) with 0. lia.
  - apply b2z_range.
  - change 2147483647 with (Z.ones 31). rewrite Z.land_ones by lia. apply Z.mod_pos_bound. lia.
Qed.

Lemma frame_header_parse_total data : (9 <= length data)%nat -> is_Some (frame_header_parse data).
Proof.
  intros Hl. do 9 (destruct data as [|? data]; [cbn in Hl; lia|]). by eexists.
Qed.

Definition setting_wf (p : settings_param) : Prop := 0 <= sp_id p < 2 ^ 16 /\ 0 <= sp_value p < 2 ^ 32.

Lemma write_settings_length ps : length (write_settings_payload ps) = (6 * length ps)%nat.
Proof. induction ps as [|p ps IH]; cbn [write_settings_payload length]; [done|]. cbn. rewrite IH. lia. Qed.

Lemma parse_settings_loop_write ps out :
  Forall setting_wf ps ->
  parse_settings_loop (length ps) (write_settings_payload ps) out = Some (out ++ ps).
Proof.
  intros H. revert out. induction H as [|p ps [Hi Hv] _ IH]; intros out; [by rewrite app_nil_r|].
  cbn [length parse_settings_loop write_settings_payload].
  rewrite read_write_u16 by done. cbn [mbind option_bind].
  change (drop 2 _) with (write_u32 (sp_value p) ++ write_settings_payload ps).
  rewrite read_write_u32 by done. cbn [mbind option_bind].
  change (drop 6 _) with (write_settings_payload ps).
  rewrite IH, <-app_assoc. by destruct p.
Qed.

(** A SETTINGS payload is parsed back into the parameters written. *)
Lemma settings_roundtrip ps :
  Forall setting_wf ps -> parse_settings_payload (write_settings_payload ps) = Some ps.
Proof.
  intros H. unfold parse_settings_payload. rewrite write_settings_length.
  rewrite Nat.mul_comm, Nat.Div0.mod_mul, Nat.div_mul by lia. cbn [Nat.eqb negb].
  by apply parse_settings_loop_write.
Qed.

(** A payload is accepted exactly when its size is a multiple of six: the loop
    never reads outside it. *)
Lemma parse_settings_total data :
  is_Some (parse_settings_payload data) <-> (length data mod 6 = 0)%nat.
Proof.
  unfold parse_settings_payload. destruct (Nat.eqb_spec (length data mod 6) 0) as [E|E]; cbn [negb].
  2:{ split; [by intros [? ?]|done]. }
  split; [done|]. intros _.
  assert (length data = 6 * (length data / 6))%nat as Hl
    by (pose proof (Nat.div_mod_eq (length data) 6); lia).
  generalize (@nil settings_param). revert Hl. generalize (length data / 6)%nat. clear E.
  intros n. revert data. induction n as [|n IH]; intros data Hl out; [by eexists|].
  do 6 (destruct data as [|? data]; [cbn in Hl; lia|]).
  cbn [parse_settings_loop read_u16 read_u32 drop mbind option_bind]. apply IH. rewrite drop_0. cbn in Hl. lia.
Qed.

Lemma window_update_roundtrip v :
  0 <= v < 2 ^ 31 -> parse_window_update_payload (write_window_update_payload v) = Some v.
Proof.
  intros Hv. unfold parse_window_update_payload, write_window_update_payload.
  rewrite land_31 by done. change (length (write_u32 v)) with 4%nat. cbn [Nat.eqb negb].
  rewrite <-(app_nil_r (write_u32 v)), read_write_u32 by lia.
  cbn [mbind option_bind]. by rewrite land_31.
Qed.

Lemma rst_stream_roundtrip e :
  0 <= e < 2 ^ 32 -> parse_rst_stream_payload (write_rst_stream_payload e) = Some e.
Proof.
  intros He. unfold parse_rst_stream_payload, write_rst_stream_payload.
  change (length (write_u32 e)) with 4%nat. cbn [Nat.eqb negb].
  by rewrite <-(app_nil_r (write_u32 e)), read_write_u32.
Qed.

(** A payload accepted by strip_padding splits into the pad length byte, the content slice
    returned and exactly that many pad bytes; the slice is inside the payload. *)
Lemma strip_padding_sound payload padded len off :
  strip_padding payload padded = Some (len, off) ->
  (off + len <= length payload)%nat /\
  (padded = false -> take len (drop off payload) = payload) /\
  (padded = true -> exists p content pad,
     payload = p :: content ++ pad /\ length content = len /\ off = 1%nat /\
     Z.of_nat (length pad) = b2z p /\ take len (drop off payload) = content).
Proof.
  unfold strip_padding. destruct padded; cbn [negb].
  - destruct payload as [|p r]; [done|]. cbn [length].
    destruct (Nat.ltb_spec (S (length r)) (Z.to_nat (b2z p) + 1)) as [|Hle]; [done|].
    intros [= <- <-]. split; [lia|]. split; [done|]. intros _.
    set (len := (length r - 0 - Z.to_nat (b2z p))%nat).
    exists p, (take len r), (drop len r). pose proof (b2z_range p).
    rewrite take_drop, length_take, length_drop. split_and!; try done; try lia.
  - intros [= <- <-]. split; [lia|]. split; [|done]. intros _. by rewrite drop_0, firstn_all.
Qed.

(** Padding is rejected exactly when it does not fit. *)
Lemma strip_padding_None payload padded :
  strip_padding payload padded = None <->
  padded = true /\ match payload with [] => True | p :: r => (length r < Z.to_nat (b2z p))%nat end.
Proof.
  unfold strip_padding. destruct padded; cbn [negb]; [|naive_solver].
  destruct payload as [|p r]; [naive_solver|]. cbn [length].
  destruct (Nat.ltb_spec (S (length r)) (Z.to_nat (b2z p) + 1)); naive_solver lia.
Qed.

Lemma frame_header_roundtrip_witness :
  let h := mk_frame_header 16384 ft_headers 5 2147483647 in
  frame_header_parse (frame_header_write h ++ [x01]) = Some h.
Proof. intros h. apply frame_header_roundtrip. repeat split; cbn; lia. Defined.

Lemma strip_padding_sound_witness :
  let payload := [x02; x61; x62; x00; x00] in
  exists pad, payload = [x02; x61; x62] ++ pad /\ Z.of_nat (length pad) = 2.
Proof.
  intros payload.
  destruct (strip_padding_sound payload true 2 1) as (_ & _ & H3); [vm_compute; reflexivity|].
  destruct (H3 eq_refl) as (p & content & pad & E & _ & _ & Hp & Hc).
  change (take 2 (drop 1 payload)) with [x61; x62] in Hc. subst content.
  injection E as <- Epad. exists pad. split; [by rewrite <-Epad|exact Hp].
Defined.
