(* ===== verification/Huffman.v ===== *)
(** * Huffman: the Huffman code of src/http2/hpack.cpp

    [huffman_tree] is the decoding trie: the source keeps its nodes in one
    vector and links them by index, here a node holds its children (no node is
    shared or relinked, so the two are the same tree).  The encoder keeps the
    source's 64-bit bit buffer.  Bit sequences, most significant bit first,
    connect the two. *)

From S2P Require Import Prelude Bytes HpackTables.

#[local] Open Scope Z_scope.

(** ** The trie *)

(** [hnil] is the child index -1; [symbol] is [None] for the source's -1. *)
Inductive huffman_tree :=
| hnil
| hnode (symbol : option Z) (child0 child1 : huffman_tree).

Definition h_symbol (t : huffman_tree) : option Z :=
  match t with hnil => None | hnode s _ _ => s end.

Definition h_child (bit : bool) (t : huffman_tree) : huffman_tree :=
  match t with hnil => hnil | hnode _ a b => if bit then b else a end.

(** The low [n] bits of [v], most significant first. *)
Fixpoint bits_of (n : nat) (v : Z) : list bool :=
  match n with
  | O => []
  | S m => Z.testbit v (Z.of_nat m) :: bits_of m v
  end.

(** [insert]: a missing child on the way is pushed as a fresh node. *)
Fixpoint h_insert (symbol : Z) (code : list bool) (t : huffman_tree) : huffman_tree :=
  let '(s, a, b) := match t with hnil => (None, hnil, hnil) | hnode s a b => (s, a, b) end in
  match code with
  | [] => hnode (Some symbol) a b
  | true :: r => hnode s a (h_insert symbol r b)
  | false :: r => hnode s (h_insert symbol r a) b
  end.

Definition code_of (sym : nat) : huffman_code := nth sym huffman_table (mk_huffman_code 0 0).

Definition code_bits (sym : nat) : list bool :=
  bits_of (Z.to_nat (hc_bits (code_of sym))) (hc_code (code_of sym)).

(** The constructor: the 256 byte symbols, not EOS. *)
Definition huffman : huffman_tree :=
  fold_left (fun t sym => h_insert (Z.of_nat sym) (code_bits sym) t) (seq 0 256)
    (hnode None hnil hnil).

(** ** Decoding *)

(** The bit loop; the result is the output with the final node, the number of
    bits since the last symbol and whether they were all ones. *)
Fixpoint decode_bits (root cur : huffman_tree) (pending_bits : nat) (all_ones : bool)
    (bits : list bool) : option (bytes * (nat * bool)) :=
  match bits with
  | [] => Some ([], (pending_bits, all_ones))
  | bit :: r =>
      match h_child bit cur with
      | hnil => None
      | next =>
          match h_symbol next with
          | Some sym =>
              match decode_bits root root 0 true r with
              | Some (out, fin) => Some (z2b sym :: out, fin)
              | None => None
              end
          | None => decode_bits root next (S pending_bits) (if bit then all_ones else false) r
          end
      end
  end.

Definition bits_of_bytes (data : bytes) : list bool :=
  concat (map (fun b => bits_of 8 (b2z b)) data).

Definition huffman_decode (data : bytes) : option bytes :=
  match decode_bits huffman huffman 0 true (bits_of_bytes data) with
  | None => None
  | Some (out, (pending_bits, all_ones)) =>
      if (8 <=? pending_bits)%nat then None
      else if (pending_bits =? 0)%nat || all_ones then Some out else None
  end.

(** ** Encoding *)

(** [while (bit_count >= 8)]; [fuel] is [bit_count] itself. *)
Fixpoint emit_bytes (fuel : nat) (bit_buffer : Z) (bit_count : nat) : bytes * nat :=
  match fuel with
  | O => ([], bit_count)
  | S f =>
      if (8 <=? bit_count)%nat then
        let c := (bit_count - 8)%nat in
        let '(bs, c') := emit_bytes f bit_buffer c in
        (z2b (Z.land (Z.shiftr bit_buffer (Z.of_nat c)) 255) :: bs, c')
      else ([], bit_count)
  end.

Definition keep_low (bit_buffer : Z) (bit_count : nat) : Z :=
  Z.land bit_buffer (if (bit_count =? 0)%nat then 0 else Z.shiftl 1 (Z.of_nat bit_count) - 1).

Fixpoint encode_loop (value : bytes) (bit_buffer : Z) (bit_count : nat) : bytes * Z * nat :=
  match value with
  | [] => ([], bit_buffer, bit_count)
  | c :: r =>
      let hc := code_of (Z.to_nat (b2z c)) in
      let buffer := Z.lor (uwrap 64 (Z.shiftl bit_buffer (hc_bits hc))) (hc_code hc) in
      let count := (bit_count + Z.to_nat (hc_bits hc))%nat in
      let '(bs, count') := emit_bytes count buffer count in
      let '(rest, fb, fc) := encode_loop r (keep_low buffer count') count' in
      (bs ++ rest, fb, fc)
  end.

Definition huffman_encode (value : bytes) : bytes :=
  let '(encoded, bit_buffer, bit_count) := encode_loop value 0 0 in
  if (0 <? bit_count)%nat
  then encoded ++ [z2b (Z.lor (Z.shiftl bit_buffer (8 - Z.of_nat bit_count))
                              (Z.shiftr 255 (Z.of_nat bit_count)))]
  else encoded.

(** ** Bit sequences *)

Lemma bits_of_ext n v w :
  (forall i, 0 <= i < Z.of_nat n -> Z.testbit v i = Z.testbit w i) -> bits_of n v = bits_of n w.
Proof.
  induction n as [|n IH]; intros H; [done|]. cbn [bits_of]. rewrite H by lia. f_equal.
  apply IH. intros. apply H. lia.
Qed.

Lemma bits_of_length n v : length (bits_of n v) = n.
Proof. induction n as [|n IH]; cbn; [done|]. by rewrite IH. Qed.

Lemma bits_of_app a b v : bits_of (a + b) v = bits_of a (Z.shiftr v (Z.of_nat b)) ++ bits_of b v.
Proof.
  induction a as [|a IH]; [done|]. cbn [Nat.add bits_of app]. rewrite IH.
  f_equal. rewrite Z.shiftr_spec by lia. f_equal. lia.
Qed.

Lemma bits_of_lor a b v c :
  0 <= c < 2 ^ Z.of_nat b ->
  bits_of (a + b) (Z.lor (Z.shiftl v (Z.of_nat b)) c) = bits_of a v ++ bits_of b c.
Proof.
  intros Hc. rewrite bits_of_app. f_equal.
  - apply bits_of_ext. intros i Hi. rewrite Z.shiftr_spec, Z.lor_spec, Z.shiftl_spec by lia.
    replace (i + Z.of_nat b - Z.of_nat b) with i by lia.
    assert (Z.testbit c (i + Z.of_nat b) = false) as ->; [|by rewrite orb_false_r].
    destruct (Z.eq_dec c 0) as [->|]; [apply Z.bits_0|].
    apply Z.bits_above_log2; [lia|]. enough (Z.log2 c < Z.of_nat b) by lia.
    apply Z.log2_lt_pow2; lia.
  - apply bits_of_ext. intros i Hi. rewrite Z.lor_spec, Z.shiftl_spec_low by lia. done.
Qed.

Lemma bits_of_octet v : bits_of 8 (b2z (z2b (Z.land v 255))) = bits_of 8 v.
Proof.
  apply bits_of_ext. intros i Hi. rewrite b2z_z2b.
  assert (Z.land v 255 mod 256 = Z.land v 255) as ->.
  { rewrite land_ff. apply Z.mod_mod. lia. }
  rewrite Z.land_spec. change 255 with (Z.ones 8). rewrite Z.ones_spec_low by lia.
  by rewrite andb_true_r.
Qed.

Lemma bits_of_bytes_app a b : bits_of_bytes (a ++ b) = bits_of_bytes a ++ bits_of_bytes b.
Proof. unfold bits_of_bytes. by rewrite map_app, concat_app. Qed.

(** ** The encoder emits the codes *)

(** The table's codes fit their lengths, which are between 5 and 30. *)
Lemma code_of_wf c :
  0 <= hc_code (code_of (Z.to_nat (b2z c))) < 2 ^ hc_bits (code_of (Z.to_nat (b2z c))) /\
  5 <= hc_bits (code_of (Z.to_nat (b2z c))) <= 30.
Proof.
  set (f c := let hc := code_of (Z.to_nat (b2z c)) in
    (0 <=? hc_code hc) && (hc_code hc <? 2 ^ hc_bits hc) && (5 <=? hc_bits hc) && (hc_bits hc <=? 30)).
  assert (f c = true) as Hf by by_all_bytes f. unfold f in Hf. cbv zeta in Hf. bool_to_prop. lia.
Qed.

Lemma emit_bytes_spec fuel buf count :
  (count <= fuel)%nat ->
  let '(bs, c') := emit_bytes fuel buf count in
  (c' < 8)%nat /\ bits_of_bytes bs ++ bits_of c' buf = bits_of count buf.
Proof.
  revert count. induction fuel as [|f IH]; intros count Hf; cbn [emit_bytes].
  - split; [lia|done].
  - destruct (Nat.leb_spec 8 count) as [H8|H8]; [|split; [lia|done]].
    specialize (IH (count - 8)%nat ltac:(lia)).
    destruct (emit_bytes f buf (count - 8)) as [bs c']. destruct IH as [Hc Hb].
    split; [done|]. unfold bits_of_bytes in *. cbn [map concat].
    rewrite bits_of_octet, <-app_assoc, Hb.
    replace count with (8 + (count - 8))%nat at 3 by lia. by rewrite bits_of_app.
Qed.

Lemma keep_low_spec buf count :
  0 <= keep_low buf count < 2 ^ Z.of_nat count /\ bits_of count (keep_low buf count) = bits_of count buf.
Proof.
  unfold keep_low. destruct (Nat.eqb_spec count 0) as [->|Hc].
  - rewrite Z.land_0_r. done.
  - rewrite Z.shiftl_mul_pow2, Z.mul_1_l by lia.
    replace (2 ^ Z.of_nat count - 1) with (Z.ones (Z.of_nat count)) by (rewrite Z.ones_equiv; lia).
    rewrite Z.land_ones by lia. split; [apply Z.mod_pos_bound; lia|].
    apply bits_of_ext. intros i Hi. by rewrite Z.mod_pow2_bits_low by lia.
Qed.

Definition codes (value : bytes) : list bool :=
  concat (map (fun c => code_bits (Z.to_nat (b2z c))) value).

Lemma encode_loop_spec value buf count :
  0 <= buf < 2 ^ Z.of_nat count -> (count < 8)%nat ->
  let '(bs, fb, fc) := encode_loop value buf count in
  0 <= fb < 2 ^ Z.of_nat fc /\ (fc < 8)%nat /\
  bits_of_bytes bs ++ bits_of fc fb = bits_of count buf ++ codes value.
Proof.
  revert buf count. induction value as [|c r IH]; intros buf count Hb Hc; cbn [encode_loop].
  - unfold codes. cbn. by rewrite app_nil_r.
  - destruct (code_of_wf c) as [Hcode Hbits].
    set (hc := code_of (Z.to_nat (b2z c))) in *.
    assert (0 <= Z.shiftl buf (hc_bits hc) < 2 ^ 64) as Hsh.
    { rewrite Z.shiftl_mul_pow2 by lia. split; [lia|].
      apply Z.lt_le_trans with (2 ^ Z.of_nat count * 2 ^ hc_bits hc).
      - apply Z.mul_lt_mono_pos_r; lia.
      - rewrite <-Z.pow_add_r by lia. apply Z.pow_le_mono_r; lia. }
    rewrite (uwrap_small _ _ Hsh). set (buffer := Z.lor _ _).
    set (cnt := (count + Z.to_nat (hc_bits hc))%nat).
    pose proof (emit_bytes_spec cnt buffer cnt ltac:(lia)) as He.
    destruct (emit_bytes cnt buffer cnt) as [bs c']. destruct He as [Hc' He].
    destruct (keep_low_spec buffer c') as [Hk1 Hk2].
    specialize (IH (keep_low buffer c') c' Hk1 Hc').
    destruct (encode_loop r (keep_low buffer c') c') as [[rest fb] fc].
    destruct IH as (Hf1 & Hf2 & Hf3). split; [done|]. split; [done|].
    rewrite bits_of_bytes_app, <-app_assoc, Hf3, Hk2, app_assoc, He.
    unfold codes. cbn [map concat]. rewrite app_assoc. f_equal.
    unfold cnt, buffer, code_bits. fold hc.
    rewrite <-(Z2Nat.id (hc_bits hc)) at 2 by lia.
    rewrite bits_of_lor; [done|]. by rewrite Z2Nat.id by lia.
Qed.

Lemma bits_of_ones n m : (n <= m)%nat -> bits_of n (Z.ones (Z.of_nat m)) = replicate n true.
Proof.
  induction n as [|n IH]; intros H; [done|]. cbn [bits_of replicate].
  rewrite Z.ones_spec_low, IH by lia. done.
Qed.

(** The padding byte: the pending bits, then ones. *)
Lemma pad_byte_bits fb fc :
  0 <= fb < 2 ^ Z.of_nat fc -> (0 < fc < 8)%nat ->
  bits_of 8 (b2z (z2b (Z.lor (Z.shiftl fb (8 - Z.of_nat fc)) (Z.shiftr 255 (Z.of_nat fc)))))
  = bits_of fc fb ++ replicate (8 - fc) true.
Proof.
  intros Hb Hc.
  assert (Z.shiftr 255 (Z.of_nat fc) = Z.ones (Z.of_nat (8 - fc))) as ->.
  { destruct fc as [|[|[|[|[|[|[|[|]]]]]]]]; try lia; reflexivity. }
  replace (8 - Z.of_nat fc) with (Z.of_nat (8 - fc)) by lia. set (v := Z.lor _ _).
  assert (bits_of 8 (b2z (z2b v)) = bits_of 8 v) as ->.
  { rewrite <-(bits_of_octet v). by rewrite land_ff, z2b_mod. }
  replace 8%nat with (fc + (8 - fc))%nat at 1 by lia. unfold v. rewrite bits_of_lor.
  - by rewrite bits_of_ones.
  - rewrite Z.ones_equiv. pose proof (Z.pow_pos_nonneg 2 (Z.of_nat (8 - fc))). lia.
Qed.

(** The encoded bytes are the codes followed by fewer than eight ones. *)
Lemma huffman_encode_bits value :
  exists k, (k < 8)%nat /\ bits_of_bytes (huffman_encode value) = codes value ++ replicate k true.
Proof.
  unfold huffman_encode. pose proof (encode_loop_spec value 0 0 ltac:(cbn; lia) ltac:(lia)) as H.
  destruct (encode_loop value 0 0) as [[bs fb] fc]. destruct H as (Hb & Hc & H).
  cbn [bits_of app] in H. destruct (Nat.ltb_spec 0 fc) as [Hp|Hp].
  - exists (8 - fc)%nat. split; [lia|]. rewrite bits_of_bytes_app, <-H, <-app_assoc. f_equal.
    unfold bits_of_bytes. cbn [map concat]. rewrite app_nil_r. by apply pad_byte_bits.
  - exists 0%nat. split; [lia|]. replace fc with 0%nat in H by lia. cbn in H.
    by rewrite app_nil_r in H |- *.
Qed.

(** ** The decoder reads them *)

(** From [t], [bits] lead to a node with [sym] through nodes without symbol. *)
Fixpoint path_ok (t : huffman_tree) (bits : list bool) (sym : Z) : bool :=
  match bits with
  | [] => false
  | bit :: r =>
      match h_child bit t, r with
      | hnil, _ => false
      | next, [] => bool_decide (h_symbol next = Some sym)
      | next, _ => bool_decide (h_symbol next = None) && path_ok next r sym
      end
  end.

Lemma decode_path root t bits sym p o rest :
  path_ok t bits sym = true ->
  decode_bits root t p o (bits ++ rest) =
  match decode_bits root root 0 true rest with
  | Some (out, fin) => Some (z2b sym :: out, fin)
  | None => None
  end.
Proof.
  revert t p o. induction bits as [|bit r IH]; intros t p o; [done|]. cbn [path_ok app decode_bits].
  destruct (h_child bit t) as [|s a b] eqn:Ec; [done|]. destruct r as [|bit' r].
  - intros E%bool_decide_eq_true. cbn [h_symbol] in *. by rewrite E.
  - intros [E%bool_decide_eq_true Hp]%andb_prop. rewrite E. by apply IH.
Qed.

(** The trie holds every byte's code. *)
Lemma huffman_paths c : path_ok huffman (code_bits (Z.to_nat (b2z c))) (b2z c) = true.
Proof. by_all_bytes (fun c => path_ok huffman (code_bits (Z.to_nat (b2z c))) (b2z c)). Qed.

Lemma decode_codes value rest :
  decode_bits huffman huffman 0 true (codes value ++ rest) =
  match decode_bits huffman huffman 0 true rest with
  | Some (out, fin) => Some (value ++ out, fin)
  | None => None
  end.
Proof.
  unfold codes. induction value as [|c r IH]; cbn [map concat app].
  - by destruct (decode_bits huffman huffman 0 true rest) as [[? ?]|].
  - rewrite <-app_assoc, (decode_path _ _ _ _ _ _ _ (huffman_paths c)), IH, z2b_b2z.
    by destruct (decode_bits huffman huffman 0 true rest) as [[? ?]|].
Qed.

(** Seven ones lead to no symbol: they are a prefix of EOS. *)
Lemma decode_padding k :
  (k < 8)%nat -> decode_bits huffman huffman 0 true (replicate k true) = Some ([], (k, true)).
Proof.
  intros Hk.
  assert (forallb (fun k => match decode_bits huffman huffman 0 true (replicate k true) with
     | Some ([], (k', true)) => (k' =? k)%nat | _ => false end) (seq 0 8) = true) as H
    by (vm_compute; reflexivity).
  rewrite forallb_forall in H. specialize (H k ltac:(apply in_seq; lia)).
  destruct (decode_bits huffman huffman 0 true (replicate k true)) as [[[|? ?] [k' [|]]]|]; try done.
  by apply Nat.eqb_eq in H as ->.
Qed.

Lemma huffman_decode_encode value : huffman_decode (huffman_encode value) = Some value.
Proof.
  unfold huffman_decode. destruct (huffman_encode_bits value) as (k & Hk & ->).
  rewrite decode_codes, decode_padding by done. rewrite app_nil_r.
  destruct (Nat.leb_spec 8 k); [lia|]. by rewrite orb_true_r.
Qed.

(** At most 30 bits per symbol. *)
Lemma huffman_encode_length value : (length (huffman_encode value) <= 4 * length value + 1)%nat.
Proof.
  destruct (huffman_encode_bits value) as (k & Hk & H). apply (f_equal length) in H.
  rewrite length_app, length_replicate in H.
  assert (forall d, length (bits_of_bytes d) = 8 * length d)%nat as H8.
  { induction d as [|b d IH]; [done|]. unfold bits_of_bytes in *. cbn [map concat].
    rewrite length_app, bits_of_length, IH. cbn. lia. }
  assert (length (codes value) <= 30 * length value)%nat.
  { clear. induction value as [|c r IH]; [done|]. unfold codes, code_bits in *. cbn [map concat length].
    rewrite length_app, bits_of_length. pose proof (code_of_wf c). lia. }
  rewrite H8 in H. lia.
Qed.

(** Strictness: eight or more pending bits, or padding with a zero, are
    rejected whatever came before. *)
Lemma huffman_reject_long_padding : huffman_decode [xff] = None.
Proof. vm_compute. reflexivity. Qed.
