(* ===== verification/Hpack.v ===== *)
(** * Hpack: src/http2/hpack.cpp and hpack.hpp

    HPACK integers, string literals, the dynamic table and header blocks.  The
    [bit_reader] over a byte array is the list of bytes not taken yet. *)

From S2P Require Import Prelude Bytes HpackTables Huffman.

#[local] Open Scope Z_scope.

Record header_field := mk_field { hf_name : bytes; hf_value : bytes }.
Abbreviation header_list := (list header_field).

(** ** Integers *)

(** The continuation loop; [value] is a [std::uint64_t] and wraps. *)
Fixpoint read_integer_loop (r : bytes) (value m : Z) : option (Z * bytes) :=
  match r with
  | [] => None
  | b :: r' =>
      let value' := uwrap 64 (value + uwrap 64 (Z.shiftl (Z.land (b2z b) 127) m)) in
      let m' := m + 7 in
      if Z.land (b2z b) 128 =? 0 then Some (value', r')
      else if 63 <? m' then None
      else read_integer_loop r' value' m'
  end.

(** [first] is the byte already taken, [r.data[r.pos - 1]]. *)
Definition read_integer (first : byte) (r : bytes) (prefix_bits : Z) : option (Z * bytes) :=
  let mask := Z.shiftl 1 prefix_bits - 1 in
  let value := Z.land (b2z first) mask in
  if value <? mask then Some (value, r) else read_integer_loop r value 0.

(** [while (value >= 128)]. *)
Fixpoint write_integer_loop (fuel : nat) (value : Z) : bytes :=
  match fuel with
  | O => []
  | S f =>
      if 128 <=? value
      then z2b (Z.lor (value mod 128) 128) :: write_integer_loop f (value / 128)
      else [z2b value]
  end.

Definition write_integer (value prefix_bits prefix_pattern : Z) : bytes :=
  let max_prefix := Z.shiftl 1 prefix_bits - 1 in
  if value <? max_prefix then [z2b (Z.lor prefix_pattern value)]
  else z2b (Z.lor prefix_pattern max_prefix) :: write_integer_loop 10 (value - max_prefix).

(** ** String literals *)

Definition read_string (r : bytes) : option (bytes * bytes) :=
  match r with
  | [] => None
  | first :: r1 =>
      let is_huffman := negb (Z.land (b2z first) 128 =? 0) in
      match read_integer first r1 7 with
      | None => None
      | Some (len, r2) =>
          if Z.of_nat (length r2) <? len then None
          else
            let ulen := Z.to_nat len in
            let raw := take ulen r2 in
            if is_huffman then
              match huffman_decode raw with
              | None => None
              | Some out => Some (out, drop ulen r2)
              end
            else Some (raw, drop ulen r2)
      end
  end.

Definition write_string (value : bytes) : bytes :=
  let encoded := huffman_encode value in
  write_integer (Z.of_nat (length encoded)) 7 128 ++ encoded.

(** ** The decoder and its dynamic table *)

Record hpack_decoder := mk_hpack {
  hd_max : Z;                        (** [max_dynamic_table_size_] *)
  hd_size : Z;                       (** [dynamic_table_size_] *)
  hd_table : list (bytes * bytes);   (** front = most recently added *)
}.

Definition hpack_decoder_new (max_size : Z) : hpack_decoder := mk_hpack max_size 0 [].

Definition set_max_dynamic_table_size (max_size : Z) (d : hpack_decoder) : hpack_decoder :=
  mk_hpack max_size (hd_size d) (hd_table d).

Definition entry_size (e : bytes * bytes) : Z :=
  Z.of_nat (length e.1) + Z.of_nat (length e.2) + 32.

Definition lookup_indexed (index : Z) (d : hpack_decoder) : option (bytes * bytes) :=
  if index =? 0 then None
  else if index <=? Z.of_nat (length static_table) then static_table !! Z.to_nat (index - 1)
  else
    let dyn_index := index - Z.of_nat (length static_table) - 1 in
    if Z.of_nat (length (hd_table d)) <=? dyn_index then None
    else hd_table d !! Z.to_nat dyn_index.

(** [while (size > max && !empty) pop_back()], over the table from its back. *)
Fixpoint evict_loop (max size : Z) (rev_table : list (bytes * bytes)) : Z * list (bytes * bytes) :=
  match rev_table with
  | [] => (size, [])
  | back :: r => if max <? size then evict_loop max (size - entry_size back) r else (size, rev_table)
  end.

Definition evict_to_fit (d : hpack_decoder) : hpack_decoder :=
  let '(size, rev_table) := evict_loop (hd_max d) (hd_size d) (rev (hd_table d)) in
  mk_hpack (hd_max d) size (rev rev_table).

Definition add_to_dynamic_table (name value : bytes) (d : hpack_decoder) : hpack_decoder :=
  evict_to_fit (mk_hpack (hd_max d) (hd_size d + entry_size (name, value))
                  ((name, value) :: hd_table d)).

Definition read_size_update (first : byte) (r : bytes) (d : hpack_decoder)
  : option (hpack_decoder * bytes) :=
  match read_integer first r 5 with
  | None => None
  | Some (new_size, r') =>
      if hd_max d <? new_size then None
      else Some (evict_to_fit (mk_hpack new_size (hd_size d) (hd_table d)), r')
  end.

(** The name and value of a literal representation. *)
Definition read_literal (first : byte) (r : bytes) (prefix_bits : Z) (d : hpack_decoder)
  : option (bytes * bytes * bytes) :=
  '(name_index, r1) ← read_integer first r prefix_bits;
  '(name, r2) ←
    (if name_index =? 0 then read_string r1
     else '(n, _) ← lookup_indexed name_index d; Some (n, r1));
  '(value, r3) ← read_string r2;
  Some (name, value, r3).

(** One representation of a header block; [None] is [return false]. *)
Definition decode_step (first : byte) (r : bytes) (d : hpack_decoder)
  : option (hpack_decoder * header_list * bytes) :=
  let f := b2z first in
  if negb (Z.land f 128 =? 0) then
    '(index, r') ← read_integer first r 7;
    if index =? 0 then None
    else '(n, v) ← lookup_indexed index d; Some (d, [mk_field n v], r')
  else if Z.land f 192 =? 64 then
    '(name, value, r') ← read_literal first r 6 d;
    Some (add_to_dynamic_table name value d, [mk_field name value], r')
  else if Z.land f 224 =? 32 then
    '(d', r') ← read_size_update first r d; Some (d', [], r')
  else
    '(name, value, r') ← read_literal first r 4 d;
    Some (d, [mk_field name value], r').

(** [decode]: the verdict, the decoder's state and the fields so far. *)
Fixpoint hpack_decode (fuel : nat) (data : bytes) (d : hpack_decoder) (out : header_list)
  : option (bool * hpack_decoder * header_list) :=
  match data with
  | [] => Some (true, d, out)
  | first :: r =>
      match fuel with
      | O => None
      | S f =>
          match decode_step first r d with
          | None => Some (false, d, out)
          | Some (d', fields, r') => hpack_decode f r' d' (out ++ fields)
          end
      end
  end.

(** ** The encoder *)

Fixpoint hpack_encode (headers : header_list) : bytes :=
  match headers with
  | [] => []
  | h :: r => [x00] ++ write_string (hf_name h) ++ write_string (hf_value h) ++ hpack_encode r
  end.

(** ** Integers round-trip *)

Lemma read_write_integer_loop fuel v value m rest :
  0 <= v < 128 ^ Z.of_nat fuel -> 0 <= value -> 0 <= m <= 63 -> value + v * 2 ^ m < 2 ^ 64 ->
  (0 < fuel)%nat ->
  read_integer_loop (write_integer_loop fuel v ++ rest) value m = Some (value + v * 2 ^ m, rest).
Proof.
  revert v value m. induction fuel as [|f IH]; intros v value m Hv Hval Hm Hsum Hf; [lia|].
  pose proof (Z.pow_pos_nonneg 2 m ltac:(lia) ltac:(lia)) as Hp.
  cbn [write_integer_loop]. destruct (Z.leb_spec 128 v) as [Hge|Hlt]; cbn [app read_integer_loop].
  - pose proof (Z.mod_pos_bound v 128 ltac:(lia)) as Hr.
    destruct (cont_byte (v mod 128) Hr) as (-> & Hc & _ & _). apply Z.eqb_neq in Hc. rewrite Hc.
    pose proof (Z.div_mod v 128 ltac:(lia)) as Hdm.
    assert (m + 7 <= 63) as Hm7.
    { destruct (Z.le_gt_cases (m + 7) 63) as [|Hgt]; [done|]. exfalso.
      assert (2 ^ 64 <= 2 ^ (m + 7)) by (apply Z.pow_le_mono_r; lia).
      rewrite Z.pow_add_r in * by lia. change (2 ^ 7) with 128 in *. nia. }
    destruct (Z.ltb_spec 63 (m + 7)); [lia|]. rewrite Z.shiftl_mul_pow2 by lia.
    assert (0 <= v / 128) by (apply Z.div_pos; lia).
    assert (v mod 128 * 2 ^ m <= v * 2 ^ m) by (apply Z.mul_le_mono_nonneg_r; lia).
    assert (0 <= v mod 128 * 2 ^ m) by (apply Z.mul_nonneg_nonneg; lia).
    rewrite (uwrap_small 64 (v mod 128 * 2 ^ m)), uwrap_small by lia.
    assert (value + v * 2 ^ m = value + v mod 128 * 2 ^ m + v / 128 * 2 ^ (m + 7)) as ->.
    { rewrite Z.pow_add_r by lia. change (2 ^ 7) with 128. nia. }
    destruct f as [|f].
    { cbn in Hv. lia. }
    apply IH; try lia.
    + split; [done|]. apply Z.div_lt_upper_bound; [lia|].
      replace (Z.of_nat (S (S f))) with (1 + Z.of_nat (S f)) in Hv by lia.
      rewrite Z.pow_add_r in Hv by lia. lia.
    + rewrite Z.pow_add_r in * by lia. change (2 ^ 7) with 128 in *. nia.
  - destruct (cont_byte v ltac:(lia)) as (_ & _ & -> & ->). cbn [Z.eqb].
    rewrite Z.shiftl_mul_pow2 by lia. assert (0 <= v * 2 ^ m) by (apply Z.mul_nonneg_nonneg; lia).
    by rewrite (uwrap_small 64 (v * 2 ^ m)), uwrap_small by lia.
Qed.

(** The prefix byte, for a pattern occupying the bits above the prefix. *)
Lemma prefix_byte N k v :
  0 <= N <= 8 -> 0 <= k -> k * 2 ^ N < 256 -> 0 <= v < 2 ^ N -> k * 2 ^ N + v < 256 ->
  Z.land (b2z (z2b (Z.lor (k * 2 ^ N) v))) (Z.shiftl 1 N - 1) = v.
Proof.
  intros HN Hk Hp Hv Hs. rewrite <-Z.shiftl_mul_pow2, lor_shiftl_add by lia.
  rewrite b2z_z2b_small by (pose proof (Z.pow_pos_nonneg 2 N); lia).
  rewrite Z.shiftl_mul_pow2, Z.mul_1_l by lia.
  replace (2 ^ N - 1) with (Z.ones N) by (rewrite Z.ones_equiv; lia).
  rewrite Z.land_ones by lia. rewrite Z.add_comm, Z_mod_plus_full. by apply Z.mod_small.
Qed.

(** Every 64-bit value survives, under any instruction pattern. *)
Lemma read_write_integer v N k rest :
  0 <= v < 2 ^ 64 -> 1 <= N <= 8 -> 0 <= k -> (k + 1) * 2 ^ N <= 256 ->
  exists first r, write_integer v N (k * 2 ^ N) ++ rest = first :: r /\
    read_integer first r N = Some (v, rest).
Proof.
  intros Hv HN Hk Hp. pose proof (Z.pow_pos_nonneg 2 N ltac:(lia) ltac:(lia)) as Hpos.
  assert (Z.shiftl 1 N - 1 = 2 ^ N - 1) as Hmask by (rewrite Z.shiftl_mul_pow2; lia).
  unfold write_integer, read_integer. destruct (Z.ltb_spec v (Z.shiftl 1 N - 1)) as [Hlt|Hge].
  - do 2 eexists. split; [done|]. rewrite prefix_byte by nia.
    by destruct (Z.ltb_spec v (Z.shiftl 1 N - 1)); [|lia].
  - do 2 eexists. split; [done|]. rewrite prefix_byte by nia. rewrite Z.ltb_irrefl.
    rewrite read_write_integer_loop; [|rewrite Hmask in *; cbn in *; lia..|lia].
    f_equal. f_equal. rewrite Z.pow_0_r. lia.
Qed.

(** The first byte of a written string announces Huffman coding. *)
Lemma write_integer_huffman_bit v rest first r :
  0 <= v -> write_integer v 7 128 ++ rest = first :: r -> Z.land (b2z first) 128 <> 0.
Proof.
  intros Hv. unfold write_integer. destruct (Z.ltb_spec v (Z.shiftl 1 7 - 1)) as [Hlt|Hge].
  - intros [= <- _]. rewrite Z.lor_comm. apply cont_byte. change (Z.shiftl 1 7 - 1) with 127 in Hlt. lia.
  - intros [= <- _]. done.
Qed.

(** ** Strings and header lists round-trip *)

Definition string_fits (s : bytes) : Prop := Z.of_nat (length s) < 2 ^ 60.

Lemma read_write_string s rest :
  string_fits s -> read_string (write_string s ++ rest) = Some (s, rest).
Proof.
  unfold string_fits, write_string. intros Hs. pose proof (huffman_encode_length s) as Hl.
  set (enc := huffman_encode s) in *. rewrite <-app_assoc.
  destruct (read_write_integer (Z.of_nat (length enc)) 7 1 (enc ++ rest)) as (first & r & E & Hr); [lia..|].
  change (1 * 2 ^ 7) with 128 in E. rewrite E. cbn [read_string].
  pose proof (write_integer_huffman_bit _ _ _ _ (Nat2Z.is_nonneg _) E) as Hb. apply Z.eqb_neq in Hb.
  rewrite Hr, Hb. cbn [negb]. destruct (Z.ltb_spec (Z.of_nat (length (enc ++ rest))) (Z.of_nat (length enc))) as [Hx|_].
  { rewrite length_app in Hx. lia. }
  rewrite Nat2Z.id, take_app_length, drop_app_length. unfold enc. by rewrite huffman_decode_encode.
Qed.

Lemma decode_step_literal h rest d :
  string_fits (hf_name h) -> string_fits (hf_value h) ->
  decode_step x00 (write_string (hf_name h) ++ write_string (hf_value h) ++ rest) d =
  Some (d, [h], rest).
Proof.
  intros Hn Hv. unfold decode_step. cbv zeta.
  change (negb (Z.land (b2z x00) 128 =? 0)) with false.
  change (Z.land (b2z x00) 192 =? 64) with false. change (Z.land (b2z x00) 224 =? 32) with false.
  unfold read_literal. set (r := write_string (hf_name h) ++ _).
  change (read_integer x00 r 4) with (Some (0, r)). cbn [mbind option_bind Z.eqb]. unfold r.
  rewrite read_write_string by done. cbn [mbind option_bind].
  rewrite read_write_string by done. by destruct h.
Qed.

(** The decoder inverts the encoder. *)
Lemma hpack_decode_encode headers d out fuel :
  Forall (fun h => string_fits (hf_name h) /\ string_fits (hf_value h)) headers ->
  (length headers <= fuel)%nat ->
  hpack_decode fuel (hpack_encode headers) d out = Some (true, d, out ++ headers).
Proof.
  intros H. revert out fuel. induction H as [|h hs [Hn Hv] _ IH]; intros out fuel Hf.
  - rewrite app_nil_r. by destruct fuel.
  - destruct fuel as [|f]; [cbn in Hf; lia|]. cbn [hpack_encode app hpack_decode].
    rewrite decode_step_literal, IH by (done || cbn in Hf; lia). by rewrite <-app_assoc.
Qed.

(** C16: The HPACK decoder inverts the encoder on every header list of encodable lengths
    (integers, Huffman strings, literal fields), from any table state, and leaves the dynamic
    table unchanged. *)
Theorem hpack_roundtrip headers d out fuel :
  Forall (fun h => string_fits (hf_name h) /\ string_fits (hf_value h)) headers ->
  (length headers <= fuel)%nat ->
  hpack_decode fuel (hpack_encode headers) d out = Some (true, d, out ++ headers).
Proof. apply hpack_decode_encode. Qed.

(** ** The dynamic table *)

Definition table_size (t : list (bytes * bytes)) : Z := foldr (fun e n => entry_size e + n) 0 t.

(** The accounted size is the table's size and within the bound. *)
Definition hpack_wf (d : hpack_decoder) : Prop :=
  0 <= hd_max d /\ hd_size d = table_size (hd_table d) /\ hd_size d <= hd_max d.

Lemma table_size_app a b : table_size (a ++ b) = table_size a + table_size b.
Proof. unfold table_size. induction a as [|e a IH]; cbn; [done|]. rewrite IH. lia. Qed.

Lemma table_size_nonneg t : 0 <= table_size t.
Proof. induction t as [|e t IH]; cbn; [done|]. fold (table_size t). unfold entry_size. lia. Qed.

Lemma evict_loop_spec max size rt :
  0 <= max -> size = table_size (rev rt) ->
  exists gone kept, rt = gone ++ kept /\ evict_loop max size rt = (table_size (rev kept), kept) /\
    table_size (rev kept) <= max /\ (size <= max -> gone = []).
Proof.
  intros Hm. revert size. induction rt as [|b r IH]; intros size Hs; cbn [evict_loop].
  - exists [], []. cbn in *. subst. split_and!; done || lia.
  - cbn [rev] in Hs. rewrite table_size_app in Hs. cbn in Hs.
    destruct (Z.ltb_spec max size) as [Hlt|Hle].
    + destruct (IH (size - entry_size b)) as (g & k & -> & -> & Hk & _); [lia|].
      exists (b :: g), k. split_and!; try done. lia.
    + exists [], (b :: r). cbn [rev app]. rewrite table_size_app. cbn.
      split_and!; try done; [f_equal|]; lia.
Qed.

(** Eviction keeps a prefix (the most recent entries), fits the bound, and
    keeps everything when it already fits. *)
Lemma evict_to_fit_spec d :
  0 <= hd_max d -> hd_size d = table_size (hd_table d) ->
  hpack_wf (evict_to_fit d) /\ hd_max (evict_to_fit d) = hd_max d /\
  (exists gone, hd_table d = hd_table (evict_to_fit d) ++ gone) /\
  (hd_size d <= hd_max d -> hd_table (evict_to_fit d) = hd_table d).
Proof.
  intros Hm Hs. unfold evict_to_fit.
  destruct (evict_loop_spec (hd_max d) (hd_size d) (rev (hd_table d)) Hm) as (g & k & E & -> & Hk & Hkeep);
    [by rewrite rev_involutive|].
  apply (f_equal (@rev _)) in E. rewrite rev_involutive, rev_app_distr in E.
  split; [by split|]. split; [done|]. cbn. split; [by exists (rev g)|].
  intros Hle. rewrite (Hkeep Hle) in E. by rewrite E, app_nil_r.
Qed.

Lemma read_integer_loop_nonneg r value m v r' :
  read_integer_loop r value m = Some (v, r') -> 0 <= v < 2 ^ 64.
Proof.
  revert value m. induction r as [|b r IH]; intros value m; [done|]. cbn [read_integer_loop].
  case_if; [|case_if; [done|apply IH]]. intros [= <- <-]. apply uwrap_range. lia.
Qed.

Lemma read_integer_nonneg first r N v r' : read_integer first r N = Some (v, r') -> 0 <= v.
Proof.
  unfold read_integer. case_if.
  - intros [= <- <-]. apply Z.land_nonneg. left. apply b2z_range.
  - intros H. apply read_integer_loop_nonneg in H. lia.
Qed.

Lemma decode_step_wf first r d d' fs r' :
  hpack_wf d -> decode_step first r d = Some (d', fs, r') -> hpack_wf d' /\ hd_max d' <= hd_max d.
Proof.
  intros Hwf. pose proof Hwf as (Hm & Hs & Hle). unfold decode_step.
  case_if; [|case_if; [|case_if]].
  - destruct (read_integer first r 7) as [[i r1]|]; [|done]. cbn. case_if; [done|].
    destruct (lookup_indexed i d) as [[n v]|]; [|done]. cbn. intros [= <- <- <-]. split; [done|lia].
  - destruct (read_literal first r 6 d) as [[[n v] r1]|]; [|done]. cbn -[add_to_dynamic_table].
    intros [= <- <- <-]. unfold add_to_dynamic_table.
    destruct (evict_to_fit_spec (mk_hpack (hd_max d) (hd_size d + entry_size (n, v)) ((n, v) :: hd_table d)))
      as (H1 & H2 & _); [done|cbn [hd_size hd_table]; rewrite Hs; apply Z.add_comm|].
    rewrite H2. cbn. split; [done|lia].
  - unfold read_size_update. destruct (read_integer first r 5) as [[sz r1]|] eqn:Er; [|done]. cbn.
    case_if; [done|]. cbn. intros [= <- <- <-].
    destruct (evict_to_fit_spec (mk_hpack sz (hd_size d) (hd_table d))) as (H1 & H2 & _); [|done|].
    { cbn. by eapply read_integer_nonneg. }
    rewrite H2. cbn. split; [done|lia].
  - destruct (read_literal first r 4 d) as [[[n v] r1]|]; [|done]. cbn.
    intros [= <- <- <-]. split; [done|lia].
Qed.

(** C17: Whatever bytes arrive, the decoder keeps its dynamic table's recorded size equal to the
    sum of entry sizes and within the bound, and the bound never grows. *)
Theorem hpack_decode_table_invariant fuel data d out ok d' out' :
  hpack_wf d -> hpack_decode fuel data d out = Some (ok, d', out') ->
  hpack_wf d' /\ hd_max d' <= hd_max d.
Proof.
  revert data d out. induction fuel as [|f IH]; intros [|b data] d out Hwf; cbn [hpack_decode]; try done.
  1,2: intros [= <- <- <-]; split; [done|lia].
  destruct (decode_step b data d) as [[[d1 fs] r']|] eqn:E; [|intros [= <- <- <-]; split; [done|lia]].
  apply decode_step_wf in E as [Hwf1 Hm1]; [|done]. intros Hd.
  destruct (IH _ _ _ Hwf1 Hd). split; [done|lia].
Qed.

(** Every representation consumes at least its first byte: the block length
    is enough fuel. *)
Lemma read_integer_loop_consumes r value m v r' :
  read_integer_loop r value m = Some (v, r') -> (length r' <= length r)%nat.
Proof.
  revert value m. induction r as [|b r IH]; intros value m; [done|]. cbn [read_integer_loop].
  case_if; [intros [= <- <-]; cbn; lia|]. case_if; [done|]. intros H%IH. cbn. lia.
Qed.

Lemma read_integer_consumes first r N v r' :
  read_integer first r N = Some (v, r') -> (length r' <= length r)%nat.
Proof.
  unfold read_integer. case_if; [by intros [= <- <-]|]. apply read_integer_loop_consumes.
Qed.

Lemma read_string_consumes r s r' : read_string r = Some (s, r') -> (length r' <= length r)%nat.
Proof.
  destruct r as [|b r]; [done|]. cbn [read_string].
  destruct (read_integer b r 7) as [[n r1]|] eqn:E; [|done]. apply read_integer_consumes in E.
  case_if; [done|]. cbn [length]. case_if; [destruct (huffman_decode _); [|done]|];
    intros [= <- <-]; rewrite length_drop; lia.
Qed.

Lemma read_literal_consumes first r N d n v r' :
  read_literal first r N d = Some (n, v, r') -> (length r' <= length r)%nat.
Proof.
  unfold read_literal. destruct (read_integer first r N) as [[i r1]|] eqn:E1; [|done].
  cbn [mbind option_bind]. apply read_integer_consumes in E1.
  assert (forall nm r2, (if i =? 0 then read_string r1 else '(n0, _) ← lookup_indexed i d; Some (n0, r1))
    = Some (nm, r2) -> (length r2 <= length r1)%nat) as H2.
  { intros nm r2. case_if; [apply read_string_consumes|].
    destruct (lookup_indexed i d) as [[? ?]|]; [|done]. cbn. by intros [= <- <-]. }
  destruct (if i =? 0 then _ else _) as [[nm r2]|] ; [|done]. specialize (H2 _ _ eq_refl).
  cbn [mbind option_bind]. destruct (read_string r2) as [[v' r3]|] eqn:E3; [|done].
  cbn [mbind option_bind]. apply read_string_consumes in E3. intros [= <- <- <-]. lia.
Qed.

Lemma decode_step_consumes first r d d' fs r' :
  decode_step first r d = Some (d', fs, r') -> (length r' <= length r)%nat.
Proof.
  unfold decode_step. case_if; [|case_if; [|case_if]].
  - destruct (read_integer first r 7) as [[i r1]|] eqn:E; [|done]. cbn. case_if; [done|].
    destruct (lookup_indexed i d) as [[n v]|]; [|done]. cbn. intros [= <- <- <-].
    by eapply read_integer_consumes.
  - destruct (read_literal first r 6 d) as [[[n v] r1]|] eqn:E; [|done]. cbn -[add_to_dynamic_table].
    intros [= <- <- <-]. by eapply read_literal_consumes.
  - unfold read_size_update. destruct (read_integer first r 5) as [[sz r1]|] eqn:E; [|done]. cbn.
    case_if; [done|]. cbn. intros [= <- <- <-]. by eapply read_integer_consumes.
  - destruct (read_literal first r 4 d) as [[[n v] r1]|] eqn:E; [|done]. cbn.
    intros [= <- <- <-]. by eapply read_literal_consumes.
Qed.

(** C40: Decoding a header block always returns, accepting or rejecting, with fuel equal to the
    number of bytes: every field consumes at least one. *)
Theorem hpack_decode_terminates data d out fuel :
  (length data <= fuel)%nat -> is_Some (hpack_decode fuel data d out).
Proof.
  revert data d out. induction fuel as [|f IH]; intros [|b r] d out Hf; cbn [hpack_decode];
    try (by eexists); [cbn in Hf; lia|].
  destruct (decode_step b r d) as [[[d1 fs] r']|] eqn:E; [|by eexists].
  apply decode_step_consumes in E. apply IH. cbn in Hf. lia.
Qed.

(** The index space: 1 to 61 are the static entries, then the dynamic table,
    most recent first. *)
Lemma lookup_indexed_spec index d :
  0 <= index ->
  lookup_indexed index d =
  if index =? 0 then None else (static_table ++ hd_table d) !! Z.to_nat (index - 1).
Proof.
  intros Hi. unfold lookup_indexed. rewrite static_table_length.
  destruct (Z.eqb_spec index 0); [done|]. destruct (Z.leb_spec index (Z.of_nat 61)) as [Hs|Hs].
  - rewrite lookup_app_l; [done|]. rewrite static_table_length. lia.
  - rewrite lookup_app_r by (rewrite static_table_length; lia). rewrite static_table_length.
    replace (Z.to_nat (index - 1) - 61)%nat with (Z.to_nat (index - Z.of_nat 61 - 1)) by lia.
    case_if; [|done]. symmetry. apply lookup_ge_None. lia.
Qed.

(** The tenth continuation byte is shifted by 63: its upper bits fall off, so
    an encoding of 2^64 + 127 is accepted and read as 127. *)
Lemma read_integer_wraps :
  read_integer x7f (replicate 9 x80 ++ [x02]) 7 = Some (127, []).
Proof. vm_compute. reflexivity. Qed.

(** After a size update to 0, an update back to the initial bound is
    rejected. *)
Lemma size_update_not_restored :
  hpack_decode 8 [x20; x3f; xe1; x1f] (hpack_decoder_new 4096) [] =
  Some (false, mk_hpack 0 0 [], []).
Proof. vm_compute. reflexivity. Qed.

Lemma hpack_roundtrip_witness :
  let hs := [mk_field (str ":method") (str "GET"); mk_field (str "x-trace") (str "abc")] in
  hpack_decode 2 (hpack_encode hs) (hpack_decoder_new 4096) [] = Some (true, hpack_decoder_new 4096, hs).
Proof.
  intros hs. apply (hpack_roundtrip hs (hpack_decoder_new 4096) [] 2); [|cbn; lia].
  repeat constructor; vm_compute; reflexivity.
Defined.

(** A literal with incremental indexing: the table grows by one entry. *)
Lemma hpack_decode_table_invariant_witness :
  exists d', hpack_decode 8 [x40; x01; x61; x01; x62] (hpack_decoder_new 64) [] =
    Some (true, d', [mk_field (str "a") (str "b")]) /\ hd_size d' = 34 /\ hpack_wf d'.
Proof.
  eexists. split; [vm_compute; reflexivity|]. split; [reflexivity|].
  eapply (hpack_decode_table_invariant 8 [x40; x01; x61; x01; x62] (hpack_decoder_new 64) []).
  - repeat split; cbn; lia.
  - vm_compute. reflexivity.
Defined.

Lemma hpack_decode_terminates_witness : is_Some (hpack_decode 3 [x82; xff; xff] (hpack_decoder_new 64) []).
Proof. apply hpack_decode_terminates. cbn. lia. Defined.
