(* ===== verification/Sha1.v ===== *)
(** * Sha1: src/ws/sha1.cpp

    SHA-1 over 32-bit words kept in range with [uwrap 32]. *)

From S2P Require Import Prelude Bytes.

#[local] Open Scope Z_scope.

Definition rotl (v bits : Z) : Z :=
  Z.lor (uwrap 32 (Z.shiftl v bits)) (Z.shiftr v (32 - bits)).

(** [while (msg.size() % 64 != 56) msg.push_back(0)]. *)
Fixpoint pad_zeros (fuel : nat) (msg : bytes) : bytes :=
  if (length msg mod 64 =? 56)%nat then msg
  else match fuel with O => msg | S f => pad_zeros f (msg ++ [x00]) end.

(** The eight bytes of the bit length, most significant first. *)
Definition length_bytes (bit_length : Z) : bytes :=
  map (fun i => z2b (Z.land (Z.shiftr bit_length (i * 8)) 255)) [7; 6; 5; 4; 3; 2; 1; 0].

Definition sha1_message (data : bytes) : bytes :=
  pad_zeros 64 (data ++ [x80]) ++ length_bytes (uwrap 64 (Z.of_nat (length data) * 8)).

Definition word_at (chunk : bytes) (i : nat) : Z :=
  let at_ o := b2z (nth (4 * i + o) chunk x00) in
  Z.lor (Z.lor (Z.lor (Z.shiftl (at_ 0%nat) 24) (Z.shiftl (at_ 1%nat) 16)) (Z.shiftl (at_ 2%nat) 8)) (at_ 3%nat).

(** [for (i = 16; i < 80; ++i)]: [n] more words. *)
Fixpoint extend_words (n : nat) (w : list Z) : list Z :=
  match n with
  | O => w
  | S n' =>
      let i := length w in
      let at_ k := nth (i - k) w 0 in
      extend_words n' (w ++ [rotl (Z.lxor (Z.lxor (Z.lxor (at_ 3%nat) (at_ 8%nat)) (at_ 14%nat)) (at_ 16%nat)) 1])
  end.

Definition message_schedule (chunk : bytes) : list Z :=
  extend_words 64 (map (word_at chunk) (seq 0 16)).

Record sha1_state := mk_sha1 { s_a : Z; s_b : Z; s_c : Z; s_d : Z; s_e : Z }.

Definition round_fk (i : nat) (b c d : Z) : Z * Z :=
  if (i <? 20)%nat then (Z.lor (Z.land b c) (Z.land (Z.lnot b) d), 1518500249)
  else if (i <? 40)%nat then (Z.lxor (Z.lxor b c) d, 1859775393)
  else if (i <? 60)%nat then (Z.lor (Z.lor (Z.land b c) (Z.land b d)) (Z.land c d), 2400959708)
  else (Z.lxor (Z.lxor b c) d, 3395469782).

Fixpoint rounds (i : nat) (w : list Z) (s : sha1_state) : sha1_state :=
  match w with
  | [] => s
  | wi :: r =>
      let '(f, k) := round_fk i (s_b s) (s_c s) (s_d s) in
      let temp := uwrap 32 (rotl (s_a s) 5 + f + s_e s + k + wi) in
      rounds (S i) r (mk_sha1 temp (s_a s) (rotl (s_b s) 30) (s_c s) (s_d s))
  end.

Definition sha1_block (h : sha1_state) (chunk : bytes) : sha1_state :=
  let s := rounds 0 (message_schedule chunk) h in
  mk_sha1 (uwrap 32 (s_a h + s_a s)) (uwrap 32 (s_b h + s_b s)) (uwrap 32 (s_c h + s_c s))
          (uwrap 32 (s_d h + s_d s)) (uwrap 32 (s_e h + s_e s)).

(** [for (chunk = 0; chunk < msg.size(); chunk += 64)]. *)
Fixpoint sha1_blocks (fuel : nat) (h : sha1_state) (msg : bytes) : sha1_state :=
  match fuel, msg with
  | O, _ | _, [] => h
  | S f, _ => sha1_blocks f (sha1_block h (take 64 msg)) (drop 64 msg)
  end.

Definition sha1_init : sha1_state :=
  mk_sha1 1732584193 4023233417 2562383102 271733878 3285377520.

Definition put_word (h : Z) : bytes :=
  [z2b (Z.land (Z.shiftr h 24) 255); z2b (Z.land (Z.shiftr h 16) 255);
   z2b (Z.land (Z.shiftr h 8) 255); z2b (Z.land h 255)].

Definition sha1 (data : bytes) : bytes :=
  let msg := sha1_message data in
  let h := sha1_blocks (length msg) sha1_init msg in
  put_word (s_a h) ++ put_word (s_b h) ++ put_word (s_c h) ++ put_word (s_d h) ++ put_word (s_e h).

(** ** Padding *)

(** Zero bytes missing after a message of size [r] modulo 64. *)
Definition zeros_missing (r : nat) : nat := (56 + 64 - r) mod 64.

Lemma zeros_missing_step r :
  (r < 64)%nat ->
  if (r =? 56)%nat then zeros_missing r = 0%nat
  else zeros_missing r = S (zeros_missing ((r + 1) mod 64)).
Proof.
  intros Hr.
  assert (forallb (fun r => if (r =? 56)%nat then (zeros_missing r =? 0)%nat
      else (zeros_missing r =? S (zeros_missing ((r + 1) mod 64)))%nat) (seq 0 64) = true) as H
    by (vm_compute; reflexivity).
  rewrite forallb_forall in H. specialize (H r ltac:(apply in_seq; lia)).
  destruct (r =? 56)%nat; by apply Nat.eqb_eq in H.
Qed.

Lemma pad_zeros_spec fuel msg :
  (zeros_missing (length msg mod 64) <= fuel)%nat ->
  pad_zeros fuel msg = msg ++ replicate (zeros_missing (length msg mod 64)) x00.
Proof.
  revert msg. induction fuel as [|f IH]; intros msg Hf;
    pose proof (zeros_missing_step (length msg mod 64) (Nat.mod_upper_bound _ 64 ltac:(lia))) as Hs;
    cbn [pad_zeros]; destruct (length msg mod 64 =? 56)%nat.
  1,3: rewrite Hs; cbn; by rewrite app_nil_r.
  - lia.
  - assert (length (msg ++ [x00]) mod 64 = (length msg mod 64 + 1) mod 64)%nat as Hl.
    { rewrite length_app. cbn [length]. by rewrite Nat.Div0.add_mod_idemp_l. }
    rewrite IH by (rewrite Hl; lia). rewrite Hl, Hs. cbn [replicate]. by rewrite <-app_assoc.
Qed.

Lemma zeros_missing_lt r : (zeros_missing r < 64)%nat.
Proof. apply Nat.mod_upper_bound. lia. Qed.

(** The padded message: the data, one 1 bit, fewer than 64 zero bytes and the 64-bit bit length, a
    multiple of the block size. *)
Lemma sha1_message_padded data :
  exists k, (k < 64)%nat /\
    sha1_message data =
      data ++ [x80] ++ replicate k x00 ++ length_bytes (uwrap 64 (Z.of_nat (length data) * 8)) /\
    (length (sha1_message data) mod 64 = 0)%nat.
Proof.
  set (n := length (data ++ [x80])). exists (zeros_missing (n mod 64)).
  pose proof (zeros_missing_lt (n mod 64)) as Hlt. split; [done|].
  assert (sha1_message data = data ++ [x80] ++ replicate (zeros_missing (n mod 64)) x00
    ++ length_bytes (uwrap 64 (Z.of_nat (length data) * 8))) as E.
  { unfold sha1_message. rewrite pad_zeros_spec by (fold n; lia). by rewrite <-!app_assoc. }
  split; [done|]. rewrite E, (app_assoc data), length_app. fold n. rewrite length_app, length_replicate.
  change (length (length_bytes _)) with 8%nat.
  rewrite Nat.Div0.add_mod. pose proof (Nat.mod_upper_bound n 64 ltac:(lia)) as Hn.
  revert Hn. generalize (n mod 64)%nat. clear. intros r Hr.
  assert (forallb (fun r => ((r + (zeros_missing r + 8) mod 64) mod 64 =? 0)%nat) (seq 0 64) = true) as H
    by (vm_compute; reflexivity).
  rewrite forallb_forall in H. apply Nat.eqb_eq, H, in_seq. lia.
Qed.

Lemma sha1_length data : length (sha1 data) = 20%nat.
Proof. done. Qed.

(** FIPS 180 test vectors. *)
Example sha1_abc :
  sha1 (str "abc") = map z2b [169; 153; 62; 54; 71; 6; 129; 106; 186; 62; 37; 113; 120; 80; 194; 108;
                              156; 208; 216; 157].
Proof. vm_compute. reflexivity. Qed.
