(* ===== verification/Handshake.v ===== *)
(** * Handshake: src/ws/handshake.cpp

    Base64 and the [Sec-WebSocket-Accept] value. *)

From S2P Require Import Prelude Bytes Sha1.

#[local] Open Scope Z_scope.

Definition magic_guid : bytes := str "258EAFA5-E914-47DA-95CA-C5AB0DC85B11".

Definition base64_table : bytes :=
  str "ABCDEFGHIJKLMNOPQRSTUVWXYZabcdefghijklmnopqrstuvwxyz0123456789+/".

(** [table[(n >> shift) & 0x3F]]. *)
Definition b64 (n shift : Z) : byte :=
  nth (Z.to_nat (Z.land (Z.shiftr n shift) 63)) base64_table x00.

Fixpoint base64_encode (data : bytes) : bytes :=
  match data with
  | a :: b :: c :: r =>
      let n := Z.lor (Z.lor (Z.shiftl (b2z a) 16) (Z.shiftl (b2z b) 8)) (b2z c) in
      b64 n 18 :: b64 n 12 :: b64 n 6 :: b64 n 0 :: base64_encode r
  | [a] =>
      let n := Z.shiftl (b2z a) 16 in [b64 n 18; b64 n 12; "="%byte; "="%byte]
  | [a; b] =>
      let n := Z.lor (Z.shiftl (b2z a) 16) (Z.shiftl (b2z b) 8) in
      [b64 n 18; b64 n 12; b64 n 6; "="%byte]
  | [] => []
  end.

Definition compute_accept_key (client_key : bytes) : bytes :=
  base64_encode (sha1 (client_key ++ magic_guid)).

(** ** Lemmas *)

(** A reference decoder (RFC 4648). *)
Definition b64_value (c : byte) : Z :=
  match find_byte c base64_table with Some i => Z.of_nat i | None => 0 end.

Fixpoint base64_decode (s : bytes) : bytes :=
  match s with
  | a :: b :: c :: d :: r =>
      let v := ((b64_value a * 64 + b64_value b) * 64 + b64_value c) * 64 + b64_value d in
      let x := z2b (v / 65536) in let y := z2b (v / 256) in let z := z2b v in
      if Byte.eqb c "=" then [x] else if Byte.eqb d "=" then [x; y]
      else x :: y :: z :: base64_decode r
  | _ => []
  end.

Lemma b64_spec n s :
  0 <= n -> 0 <= s ->
  b64_value (b64 n s) = n / 2 ^ s mod 64 /\ b64 n s <> "="%byte.
Proof.
  intros Hn Hs. unfold b64. change 63 with (Z.ones 6). rewrite Z.land_ones, Z.shiftr_div_pow2 by lia.
  change (2 ^ 6) with 64. pose proof (Z.mod_pos_bound (n / 2 ^ s) 64 ltac:(lia)) as Hr.
  revert Hr. generalize (n / 2 ^ s mod 64). clear. intros v Hv.
  assert (forallb (fun v => (b64_value (nth (Z.to_nat v) base64_table x00) =? v)
     && negb (Byte.eqb (nth (Z.to_nat v) base64_table x00) "=")) (seqZ 0 64) = true) as H
    by (vm_compute; reflexivity).
  rewrite forallb_forall in H. specialize (H v ltac:(apply list_elem_of_In, elem_of_seqZ; lia)).
  bool_to_prop. split; [done|]. by apply byte_eqb_false.
Qed.

(** Four sextets give the 24-bit group back. *)
Lemma sextets n :
  0 <= n < 2 ^ 24 ->
  ((n / 2 ^ 18 mod 64 * 64 + n / 2 ^ 12 mod 64) * 64 + n / 2 ^ 6 mod 64) * 64 + n / 2 ^ 0 mod 64 = n.
Proof.
  intros Hn. change (2 ^ 18) with (64 * 64 * 64). change (2 ^ 12) with (64 * 64).
  change (2 ^ 6) with 64. rewrite Z.pow_0_r, Z.div_1_r, <-!Z.div_div by lia.
  pose proof (Z.div_mod n 64 ltac:(lia)). pose proof (Z.div_mod (n / 64) 64 ltac:(lia)).
  pose proof (Z.div_mod (n / 64 / 64) 64 ltac:(lia)).
  rewrite (Z.mod_small (n / 64 / 64 / 64)); [lia|].
  rewrite !Z.div_div by lia. split; [apply Z.div_pos; lia|apply Z.div_lt_upper_bound; lia].
Qed.

Lemma group_value a b c :
  Z.lor (Z.lor (Z.shiftl (b2z a) 16) (Z.shiftl (b2z b) 8)) (b2z c) = (b2z a * 256 + b2z b) * 256 + b2z c.
Proof.
  rewrite <-(Z.shiftl_shiftl _ 8 8), <-Z.shiftl_lor by lia.
  by rewrite !lor_shiftl_add by (try lia; apply b2z_range).
Qed.

Lemma group_bytes a b c :
  let v := (b2z a * 256 + b2z b) * 256 + b2z c in
  z2b (v / 65536) = a /\ z2b (v / 256) = b /\ z2b v = c.
Proof.
  pose proof (b2z_range a). pose proof (b2z_range b). pose proof (b2z_range c). cbv zeta.
  assert (((b2z a * 256 + b2z b) * 256 + b2z c) / 256 = b2z a * 256 + b2z b) as E
    by (rewrite Z.div_add_l, (Z.div_small (b2z c)) by lia; lia).
  split_and!; apply b2z_inj; rewrite b2z_z2b.
  - change 65536 with (256 * 256). rewrite <-Z.div_div, E, Z.div_add_l, (Z.div_small (b2z b)) by lia.
    rewrite Z.add_0_r. by apply Z.mod_small.
  - rewrite E, Z.add_comm, Z_mod_plus_full. by apply Z.mod_small.
  - rewrite Z.add_comm, Z_mod_plus_full. by apply Z.mod_small.
Qed.

(** The four characters of a group decode to its value. *)
Lemma group_decode n :
  0 <= n < 2 ^ 24 ->
  ((b64_value (b64 n 18) * 64 + b64_value (b64 n 12)) * 64 + b64_value (b64 n 6)) * 64
    + b64_value (b64 n 0) = n.
Proof.
  intros Hn. rewrite !(fun s H => proj1 (b64_spec n s (proj1 Hn) H)) by lia. by apply sextets.
Qed.

(** The padded groups: the missing sextets are zero. *)
Lemma partial_sextet n s k : 0 <= n -> 0 <= s -> n = k * 2 ^ (s + 6) -> n / 2 ^ s mod 64 = 0.
Proof.
  intros Hn Hs ->. rewrite Z.pow_add_r by lia.
  replace (k * (2 ^ s * 2 ^ 6)) with (k * 64 * 2 ^ s) by (change (2 ^ 6) with 64; lia).
  rewrite Z.div_mul by (pose proof (Z.pow_pos_nonneg 2 s); lia). apply Z.mod_mul. lia.
Qed.

Lemma decode_one a : base64_decode (base64_encode [a]) = [a].
Proof.
  pose proof (b2z_range a). cbn [base64_encode base64_decode]. rewrite byte_eqb_refl. f_equal.
  rewrite Z.shiftl_mul_pow2 by lia. set (v := b2z a * 2 ^ 16).
  pose proof (group_decode v ltac:(lia)) as G.
  rewrite (proj1 (b64_spec v 6 ltac:(lia) ltac:(lia))), (proj1 (b64_spec v 0 ltac:(lia) ltac:(lia))) in G.
  rewrite (partial_sextet v 6 (b2z a * 16)), (partial_sextet v 0 (b2z a * 1024)) in G by lia.
  change (b64_value "=") with 0. rewrite G. unfold v.
  apply b2z_inj. change (2 ^ 16) with 65536. rewrite Z.div_mul by lia. by rewrite z2b_b2z.
Qed.

Lemma decode_two a b : base64_decode (base64_encode [a; b]) = [a; b].
Proof.
  pose proof (b2z_range a). pose proof (b2z_range b). cbn [base64_encode base64_decode].
  set (v := Z.lor _ _). assert (v = (b2z a * 256 + b2z b) * 256) as Ev.
  { unfold v. pose proof (group_value a b x00) as Hg. change (b2z x00) with 0 in Hg.
    rewrite Z.lor_0_r in Hg. rewrite Hg. lia. }
  pose proof (group_decode v ltac:(lia)) as G.
  rewrite (proj2 (byte_eqb_false _ _) (proj2 (b64_spec v 6 ltac:(lia) ltac:(lia)))), byte_eqb_refl.
  change (b64_value "=") with 0. rewrite (proj1 (b64_spec v 0 ltac:(lia) ltac:(lia))) in G.
  rewrite (partial_sextet v 0 ((b2z a * 256 + b2z b) * 4)) in G by lia. rewrite G, Ev.
  destruct (group_bytes a b x00) as (Ga & Gb & _). change (b2z x00) with 0 in *. rewrite Z.add_0_r in *.
  by rewrite Ga, Gb.
Qed.

Lemma decode_three a b c r :
  base64_decode (base64_encode (a :: b :: c :: r)) = a :: b :: c :: base64_decode (base64_encode r).
Proof.
  pose proof (b2z_range a). pose proof (b2z_range b). pose proof (b2z_range c).
  cbn [base64_encode base64_decode]. rewrite group_value. set (v := (b2z a * 256 + b2z b) * 256 + b2z c).
  rewrite (proj2 (byte_eqb_false _ _) (proj2 (b64_spec v 6 ltac:(lia) ltac:(lia)))).
  rewrite (proj2 (byte_eqb_false _ _) (proj2 (b64_spec v 0 ltac:(lia) ltac:(lia)))).
  rewrite group_decode by lia. destruct (group_bytes a b c) as (Ga & Gb & Gc). fold v in Ga, Gb, Gc.
  by rewrite Ga, Gb, Gc.
Qed.

(** Base64 encoding is inverted by a reference decoder on every byte string, so no information of
    the digest is lost in the accept key. *)
Lemma base64_roundtrip data : base64_decode (base64_encode data) = data.
Proof.
  enough (forall n data, (length data <= n)%nat -> base64_decode (base64_encode data) = data) as H
    by (by apply (H (length data))).
  clear data. induction n as [|n IH]; intros [|a [|b [|c r]]] Hn; try done; cbn [length] in Hn; try lia.
  - apply decode_one.
  - apply decode_two.
  - rewrite decode_three, IH by lia. done.
Qed.

(** The example of RFC 6455, section 1.3. *)
Example accept_key_rfc :
  compute_accept_key (str "dGhlIHNhbXBsZSBub25jZQ==") = str "s3pPLMBiTxaQ9kYGzzhZRbK+xOo=".
Proof. vm_compute. reflexivity. Qed.
