(* ===== verification/WsConnection.v ===== *)
(** * WsConnection: src/ws/connection.cpp

    The RFC 6455 frame codec over an upgraded connection.  Reading is written
    in a small state monad over the buffered wire ([rd]); [parse_frame] is its
    specification over the raw bytes. *)

From S2P Require Import Prelude Bytes Stream Feeder.

#[local] Open Scope Z_scope.

Definition opcode_continuation : Z := 0.
Definition opcode_text : Z := 1.
Definition opcode_binary : Z := 2.
Definition opcode_close : Z := 8.
Definition opcode_ping : Z := 9.
Definition opcode_pong : Z := 10.

Inductive message_type := mt_text | mt_binary.
Record message := mk_message { msg_type : message_type; msg_data : bytes }.
Record raw_frame := mk_frame { fr_fin : bool; fr_opcode : Z; fr_payload : bytes }.

(** [payload[i] ^ key[i % 4]], from index [i]. *)
Fixpoint unmask_from (i : nat) (key payload : bytes) : bytes :=
  match payload with
  | [] => []
  | c :: r => z2b (Z.lxor (b2z c) (b2z (nth (i mod 4) key x00))) :: unmask_from (S i) key r
  end.

Definition unmask (key payload : bytes) : bytes := unmask_from 0 key payload.

(** ** Reading frames *)
Section Reader.
Context {W : Type} `{Stream W}.

(** The outer option is the fuel; the inner one is [co_return std::nullopt]. *)
Definition rd (A : Type) : Type := feeder W -> option (option A * feeder W).

Definition rd_ret {A} (a : A) : rd A := fun d => Some (Some a, d).

Definition rd_bind {A B} (m : rd A) (k : A -> rd B) : rd B := fun d =>
  match m d with
  | None => None
  | Some (None, d') => Some (None, d')
  | Some (Some a, d') => k a d'
  end.

(** [read_exact(out, n)]. *)
Fixpoint read_exact (fuel : nat) (n : Z) (d : feeder W) : option (option bytes * feeder W) :=
  if Z.of_nat (length (fd_buffer d)) <? n then
    match fuel with
    | O => None
    | Datatypes.S f =>
        let '(more, d') := fill_more d in
        if more then read_exact f n d' else Some (None, d')
    end
  else
    Some (Some (take (Z.to_nat n) (fd_buffer d)),
          fd_with_buffer d (drop (Z.to_nat n) (fd_buffer d))).
End Reader.
Arguments rd W A : clear implicits.

Declare Scope rd_scope.
Delimit Scope rd_scope with rd.
Notation "x <-- m ;; k" := (rd_bind m (fun x => k))
  (at level 100, m at next level, right associativity) : rd_scope.

Section ReadFrame.
Context {W : Type} `{Stream W}.
#[local] Open Scope rd_scope.

Definition read_frame (fuel : nat) : rd W raw_frame :=
  head <-- read_exact fuel 2;;
  let b0 := b2z (nth 0 head x00) in
  let b1 := b2z (nth 1 head x00) in
  let fin := negb (Z.land b0 128 =? 0) in
  let opcode := Z.land b0 15 in
  let masked := negb (Z.land b1 128 =? 0) in
  let length0 := Z.land b1 127 in
  length <--
    (if length0 =? 126 then
       ext <-- read_exact fuel 2;;
       rd_ret (Z.lor (Z.shiftl (b2z (nth 0 ext x00)) 8) (b2z (nth 1 ext x00)))
     else if length0 =? 127 then ext <-- read_exact fuel 8;; rd_ret (be_value 0 ext)
     else rd_ret length0);;
  key <-- (if masked then read_exact fuel 4 else rd_ret (replicate 4 x00));;
  payload <--
    (if 0 <? length then
       p <-- read_exact fuel length;; rd_ret (if masked then unmask key p else p)
     else rd_ret []);;
  rd_ret (mk_frame fin opcode payload).
End ReadFrame.

(** ** Writing frames *)

Definition frame_head (fin : bool) (opcode : Z) (n : nat) : bytes :=
  let len := Z.of_nat n in
  z2b (Z.lor (if fin then 128 else 0) (Z.land opcode 15)) ::
  (if len <=? 125 then [z2b len]
   else if len <=? 65535 then [z2b 126; z2b (Z.land (Z.shiftr len 8) 255); z2b (Z.land len 255)]
   else z2b 127 :: be_bytes 8 len).

(** ** The connection *)
Section Connection.
Context {W : Type} `{Stream W}.

Record ws_connection := mk_ws { ws_feed : feeder W; ws_closed : bool }.

Definition ws_new (w : W) (initial_buffer : bytes) : ws_connection :=
  mk_ws (mk_feeder w initial_buffer false) false.

Definition ws_write_all (fuel : nat) (d : feeder W) (bs : bytes) : option (feeder W) :=
  w ← write_all fuel (fd_source d) bs; Some (mk_feeder w (fd_buffer d) (fd_eof d)).

Definition write_frame (fuel : nat) (fin : bool) (opcode : Z) (data : bytes) (d : feeder W)
  : option (feeder W) :=
  d1 ← ws_write_all fuel d (frame_head fin opcode (length data));
  match data with [] => Some d1 | _ => ws_write_all fuel d1 data end.

Definition ws_close (fuel : nat) (code : Z) (reason : bytes) (c : ws_connection)
  : option ws_connection :=
  if ws_closed c then Some c
  else
    let payload := z2b (Z.land (Z.shiftr code 8) 255) :: z2b (Z.land code 255) :: reason in
    d ← write_frame fuel true opcode_close payload (ws_feed c); Some (mk_ws d true).

Definition send_text (fuel : nat) (text : bytes) (c : ws_connection) : option ws_connection :=
  d ← write_frame fuel true opcode_text text (ws_feed c); Some (mk_ws d (ws_closed c)).

Definition send_binary (fuel : nat) (data : bytes) (c : ws_connection) : option ws_connection :=
  d ← write_frame fuel true opcode_binary data (ws_feed c); Some (mk_ws d (ws_closed c)).

(** The loop of [receive], with its two locals. *)
Fixpoint receive_loop (fuel : nat) (accumulated : bytes) (message_opcode : option Z)
    (c : ws_connection) : option (option message * ws_connection) :=
  match fuel with
  | O => None
  | Datatypes.S f =>
      if ws_closed c then Some (None, c)
      else
        match read_frame f (ws_feed c) with
        | None => None
        | Some (None, d) => Some (None, mk_ws d true)
        | Some (Some fr, d) =>
            if fr_opcode fr =? opcode_close then
              d' ← write_frame f true opcode_close (fr_payload fr) d; Some (None, mk_ws d' true)
            else if fr_opcode fr =? opcode_ping then
              d' ← write_frame f true opcode_pong (fr_payload fr) d;
              receive_loop f accumulated message_opcode (mk_ws d' false)
            else if fr_opcode fr =? opcode_pong then
              receive_loop f accumulated message_opcode (mk_ws d false)
            else
              let data acc mop :=
                if fr_fin fr
                then Some (Some (mk_message (if mop =? opcode_text then mt_text else mt_binary) acc),
                           mk_ws d false)
                else receive_loop f acc (Some mop) (mk_ws d false) in
              if fr_opcode fr =? opcode_continuation then
                match message_opcode with
                | None =>
                    c' ← ws_close f 1002 (str "unexpected continuation frame") (mk_ws d false);
                    Some (None, c')
                | Some mop => data (accumulated ++ fr_payload fr) mop
                end
              else if (fr_opcode fr =? opcode_text) || (fr_opcode fr =? opcode_binary) then
                data (fr_payload fr) (fr_opcode fr)
              else
                c' ← ws_close f 1002 (str "unsupported opcode") (mk_ws d false); Some (None, c')
        end
  end.

Definition receive (fuel : nat) (c : ws_connection) : option (option message * ws_connection) :=
  receive_loop fuel [] None c.
End Connection.
Arguments ws_connection W : clear implicits.

(** ** Specification: frames in a byte sequence *)

Definition take_exact (n : Z) (raw : bytes) : option (bytes * bytes) :=
  if Z.of_nat (length raw) <? n then None
  else Some (take (Z.to_nat n) raw, drop (Z.to_nat n) raw).

(** The frame at the front of [raw] and the bytes after it; [None] when it is
    incomplete. *)
Definition parse_frame (raw : bytes) : option (raw_frame * bytes) :=
  '(head, r) ← take_exact 2 raw;
  let b0 := b2z (nth 0 head x00) in
  let b1 := b2z (nth 1 head x00) in
  let masked := negb (Z.land b1 128 =? 0) in
  let length0 := Z.land b1 127 in
  '(len, r) ←
    (if length0 =? 126 then
       '(ext, r) ← take_exact 2 r;
       Some (Z.lor (Z.shiftl (b2z (nth 0 ext x00)) 8) (b2z (nth 1 ext x00)), r)
     else if length0 =? 127 then '(ext, r) ← take_exact 8 r; Some (be_value 0 ext, r)
     else Some (length0, r));
  '(key, r) ← (if masked then take_exact 4 r else Some (replicate 4 x00, r));
  '(payload, r) ←
    (if 0 <? len then
       '(p, r) ← take_exact len r; Some (if masked then unmask key p else p, r)
     else Some ([], r));
  Some (mk_frame (negb (Z.land b0 128 =? 0)) (Z.land b0 15) payload, r).

(** A peer's frame: [key] is the masking key of a client frame. *)
Definition encode_frame (key : option bytes) (f : raw_frame) : bytes :=
  let head := frame_head (fr_fin f) (fr_opcode f) (length (fr_payload f)) in
  match key with
  | None => head ++ fr_payload f
  | Some k =>
      match head with
      | b0 :: b1 :: ext => b0 :: z2b (Z.lor 128 (b2z b1)) :: ext ++ k ++ unmask k (fr_payload f)
      | _ => head
      end
  end.

(** ** Masking *)

Lemma lxor_byte_twice a k : z2b (Z.lxor (b2z (z2b (Z.lxor (b2z a) (b2z k)))) (b2z k)) = a.
Proof.
  apply b2z_inj. rewrite !b2z_z2b. change 256 with (2 ^ 8). apply Z.bits_inj'. intros i Hi.
  destruct (Z.lt_ge_cases i 8) as [Hlt|Hge].
  - rewrite Z.mod_pow2_bits_low, Z.lxor_spec, Z.mod_pow2_bits_low, Z.lxor_spec by lia.
    by rewrite xorb_assoc, xorb_nilpotent, xorb_false_r.
  - rewrite Z.mod_pow2_bits_high by lia. symmetry. pose proof (b2z_range a).
    destruct (Z.eq_dec (b2z a) 0) as [->|]; [apply Z.bits_0|].
    apply Z.bits_above_log2; [lia|]. enough (Z.log2 (b2z a) < 8) by lia. apply Z.log2_lt_pow2; lia.
Qed.

Lemma unmask_from_involutive i key p : unmask_from i key (unmask_from i key p) = p.
Proof.
  revert i. induction p as [|c r IH]; intros i; cbn [unmask_from]; [done|].
  by rewrite lxor_byte_twice, IH.
Qed.

Lemma unmask_involutive key p : unmask key (unmask key p) = p.
Proof. apply unmask_from_involutive. Qed.

Lemma unmask_length key p : length (unmask key p) = length p.
Proof.
  unfold unmask. generalize 0%nat. induction p as [|c r IH]; intros i; cbn; [done|]. by rewrite IH.
Qed.

(** ** The reader refines the parser *)
Section Refinement.
Context {W : Type} `{StreamDuplex W}.

Definition fd_written (d : feeder W) : bytes := st_written (fd_source d).

(** From a feeder holding [raw], [m] behaves as [p] on [raw]: it consumes the
    same bytes, writes nothing, and needs no more fuel than the steps left. *)
Definition refines {A} (bound : nat) (m : rd W A) (p : bytes -> option (A * bytes)) : Prop :=
  forall d, fd_ok d -> (fd_steps d < bound)%nat ->
  exists d', fd_ok d' /\ (fd_steps d' <= fd_steps d)%nat /\ fd_written d' = fd_written d /\
    match p (fd_raw d) with
    | Some (a, rest) => m d = Some (Some a, d') /\ fd_raw d' = rest
    | None => m d = Some (None, d')
    end.

Lemma refines_ret {A} bound (a : A) : refines bound (rd_ret a) (fun raw => Some (a, raw)).
Proof. intros d Hok _. by exists d. Qed.

Lemma refines_bind {A B} bound (m : rd W A) (k : A -> rd W B) p q :
  refines bound m p -> (forall a, refines bound (k a) (q a)) ->
  refines bound (rd_bind m k) (fun raw => '(a, r) ← p raw; q a r).
Proof.
  intros Hm Hk d Hok Hb. destruct (Hm d Hok Hb) as (d1 & Hok1 & Hs1 & Hw1 & E1).
  unfold rd_bind. destruct (p (fd_raw d)) as [[a r]|]; cbn [mbind option_bind].
  - destruct E1 as [-> <-]. destruct (Hk a d1 Hok1 ltac:(lia)) as (d2 & Hok2 & Hs2 & Hw2 & E2).
    exists d2. split; [done|]. split; [lia|]. split; [congruence|done].
  - rewrite E1. by exists d1.
Qed.

Lemma refines_if {A} bound (b : bool) (m1 m2 : rd W A) p1 p2 :
  refines bound m1 p1 -> refines bound m2 p2 ->
  refines bound (if b then m1 else m2) (fun raw => if b then p1 raw else p2 raw).
Proof. by destruct b. Qed.

Lemma fill_more_written d : fd_written (fill_more d).2 = fd_written d.
Proof.
  unfold fill_more, fd_written. destruct (fd_eof d); [done|].
  destruct (st_read chunk_size (fd_source d)) as [c s'] eqn:E.
  apply st_read_written in E. by destruct c.
Qed.

Lemma take_exact_buffered n d :
  0 <= n <= Z.of_nat (length (fd_buffer d)) ->
  take_exact n (fd_raw d) =
  Some (take (Z.to_nat n) (fd_buffer d), fd_raw (fd_with_buffer d (drop (Z.to_nat n) (fd_buffer d)))).
Proof.
  intros Hn. unfold take_exact. rewrite fd_raw_with_buffer. unfold fd_raw. rewrite length_app.
  destruct (Z.ltb_spec (Z.of_nat (length (fd_buffer d) + length (st_data (fd_source d)))) n); [lia|].
  by rewrite take_app_le, drop_app_le by lia.
Qed.

Lemma read_exact_refines fuel n : 0 <= n -> refines fuel (read_exact fuel n) (take_exact n).
Proof.
  intros Hn. induction fuel as [|f IH]; intros d Hok Hf; [lia|]. cbn [read_exact].
  destruct (Z.ltb_spec (Z.of_nat (length (fd_buffer d))) n) as [Hlt|Hge].
  - pose proof (fill_more_written d) as Hwr. destruct (fd_eof d) eqn:Eof.
    + exists d. unfold fill_more. rewrite Eof. unfold take_exact, fd_raw.
      rewrite (proj2 Hok Eof), app_nil_r.
      destruct (Z.ltb_spec (Z.of_nat (length (fd_buffer d))) n); [done|lia].
    + destruct (fill_more_spec d Hok Eof) as (Hok' & Hraw & Hst & _).
      destruct (fill_more d) as [more d'] eqn:Efm. cbn [snd] in *. destruct more.
      * destruct (IH d' Hok' ltac:(lia)) as (d2 & Hok2 & Hs2 & Hw2 & E2).
        exists d2. split; [done|]. split; [lia|]. split; [congruence|]. by rewrite <-Hraw.
      * exists d'. split; [done|]. split; [lia|]. split; [done|].
        unfold fill_more in Efm. rewrite Eof in Efm.
        destruct (st_read chunk_size (fd_source d)) as [[|x c] src]; simplify_eq.
        rewrite <-Hraw. destruct Hok' as [_ He]. unfold take_exact, fd_raw.
        rewrite He, app_nil_r by done. cbn [fd_buffer].
        destruct (Z.ltb_spec (Z.of_nat (length (fd_buffer d))) n); [done|lia].
  - exists (fd_with_buffer d (drop (Z.to_nat n) (fd_buffer d))).
    rewrite take_exact_buffered by lia. done.
Qed.

(** Reading a frame is parsing it, however its bytes arrive. *)
Lemma read_frame_refines fuel : refines fuel (read_frame fuel) parse_frame.
Proof.
  unfold read_frame, parse_frame.
  apply refines_bind; [apply read_exact_refines; lia|]. intros head. cbv zeta.
  apply refines_bind; [|intros len].
  { apply refines_if; [|apply refines_if; [|apply refines_ret]];
      (apply refines_bind; [apply read_exact_refines; lia|intros; apply refines_ret]). }
  apply refines_bind; [apply refines_if; [apply read_exact_refines; lia|apply refines_ret]|].
  intros key. apply refines_bind; [|intros; apply refines_ret].
  destruct (Z.ltb_spec 0 len); [|apply refines_ret].
  apply refines_bind; [apply read_exact_refines; lia|intros; apply refines_ret].
Qed.
End Refinement.

(** ** Parsing an encoded frame *)

Definition frame_wf (f : raw_frame) : Prop :=
  0 <= fr_opcode f < 16 /\ Z.of_nat (length (fr_payload f)) < 2 ^ 64.

Definition key_wf (key : option bytes) : Prop :=
  match key with Some k => length k = 4%nat | None => True end.

Lemma take_exact_app a b : take_exact (Z.of_nat (length a)) (a ++ b) = Some (a, b).
Proof.
  unfold take_exact. rewrite length_app.
  destruct (Z.ltb_spec (Z.of_nat (length a + length b)) (Z.of_nat (length a))); [lia|].
  by rewrite Nat2Z.id, take_app_length, drop_app_length.
Qed.

(** The seven-bit length code and the extended length. *)
Definition len_code (n : nat) : Z * bytes :=
  let len := Z.of_nat n in
  if len <=? 125 then (len, [])
  else if len <=? 65535 then (126, [z2b (Z.land (Z.shiftr len 8) 255); z2b (Z.land len 255)])
  else (127, be_bytes 8 len).

Lemma frame_head_code fin op n :
  frame_head fin op n =
  z2b (Z.lor (if fin then 128 else 0) (Z.land op 15)) :: z2b (len_code n).1 :: (len_code n).2.
Proof. unfold frame_head, len_code. by repeat case_if. Qed.

Lemma len_code_range n : 0 <= (len_code n).1 < 128.
Proof. unfold len_code. repeat case_if; cbn; lia. Qed.

Lemma parse_len_code n rest :
  Z.of_nat n < 2 ^ 64 ->
  (if (len_code n).1 =? 126 then
     '(ext, r) ← take_exact 2 ((len_code n).2 ++ rest);
     Some (Z.lor (Z.shiftl (b2z (nth 0 ext x00)) 8) (b2z (nth 1 ext x00)), r)
   else if (len_code n).1 =? 127 then
     '(ext, r) ← take_exact 8 ((len_code n).2 ++ rest); Some (be_value 0 ext, r)
   else Some ((len_code n).1, (len_code n).2 ++ rest)) = Some (Z.of_nat n, rest).
Proof.
  intros Hn. unfold len_code. destruct (Z.leb_spec (Z.of_nat n) 125); [|destruct (Z.leb_spec (Z.of_nat n) 65535)];
    cbn [fst snd].
  - destruct (Z.eqb_spec (Z.of_nat n) 126); [lia|]. destruct (Z.eqb_spec (Z.of_nat n) 127); [lia|]. done.
  - change (126 =? 126) with true. cbv iota.
    rewrite (take_exact_app [z2b (Z.land (Z.shiftr (Z.of_nat n) 8) 255); z2b (Z.land (Z.of_nat n) 255)]).
    cbn [mbind option_bind nth]. f_equal. f_equal.
    rewrite lor_shiftl_add by (try lia; apply b2z_range).
    rewrite !land_ff, !b2z_z2b, !Z.mod_mod, Z.shiftr_div_pow2 by lia. change (2 ^ 8) with 256.
    pose proof (Z.div_mod (Z.of_nat n) 256 ltac:(lia)).
    rewrite (Z.mod_small (Z.of_nat n / 256))
      by (split; [apply Z.div_pos|apply Z.div_lt_upper_bound]; lia). lia.
  - change (127 =? 126) with false. change (127 =? 127) with true. cbv iota.
    pose proof (take_exact_app (be_bytes 8 (Z.of_nat n)) rest) as Ht. rewrite be_bytes_length in Ht.
    change (Z.of_nat 8) with 8 in Ht. rewrite Ht. cbn [mbind option_bind]. f_equal. f_equal.
    pose proof (be_value_bytes 8 (Z.of_nat n) 0) as Hbe. change (256 ^ Z.of_nat 8) with (2 ^ 64) in Hbe.
    rewrite Z.mod_small, Z.mul_0_l, Z.add_0_l in Hbe by lia. apply Hbe; lia.
Qed.

Lemma frame_first_byte (fin : bool) op :
  0 <= op < 16 ->
  let b0 := b2z (z2b (Z.lor (if fin then 128 else 0) (Z.land op 15))) in
  negb (Z.land b0 128 =? 0) = fin /\ Z.land b0 15 = op.
Proof.
  intros Hop. set (b v fin0 := b2z (z2b (Z.lor (if fin0 : bool then 128 else 0) (Z.land v 15)))).
  assert (forallb (fun v => forallb (fun f => Bool.eqb (negb (Z.land (b v f) 128 =? 0)) f
     && (Z.land (b v f) 15 =? v)) [true; false]) (seqZ 0 16) = true) as H by (vm_compute; reflexivity).
  rewrite forallb_forall in H. specialize (H op ltac:(apply list_elem_of_In, elem_of_seqZ; lia)).
  rewrite forallb_forall in H. specialize (H fin ltac:(destruct fin; cbn; auto)).
  apply andb_prop in H as [H1%eqb_prop H2%Z.eqb_eq]. done.
Qed.

Lemma parse_encode_frame key f rest :
  frame_wf f -> key_wf key -> parse_frame (encode_frame key f ++ rest) = Some (f, rest).
Proof.
  intros [Hop Hlen] Hkey. unfold encode_frame. rewrite frame_head_code.
  set (n := length (fr_payload f)) in *. set (b0 := z2b _).
  pose proof (len_code_range n) as Hr. destruct (frame_first_byte (fr_fin f) (fr_opcode f) Hop) as [Hfin Hopc].
  fold b0 in Hfin, Hopc.
  assert (forall b1 tl, take_exact 2 (b0 :: b1 :: tl) = Some ([b0; b1], tl)) as Ht2
    by (intros; apply (take_exact_app [b0; b1])).
  destruct (cont_byte (len_code n).1 Hr) as (Hm1 & Hm2 & Hu1 & Hu2).
  unfold parse_frame. destruct key as [k|]; cbn [app].
  - rewrite Ht2. cbn [mbind option_bind nth]. cbv zeta. 
    rewrite (b2z_z2b_small (len_code n).1), (Z.lor_comm 128) by lia.
    apply Z.eqb_neq in Hm2. rewrite Hm1, Hm2, Hfin, Hopc. cbn [negb].
    rewrite <-!app_assoc, parse_len_code by done. cbn [mbind option_bind].
    pose proof (take_exact_app k (unmask k (fr_payload f) ++ rest)) as Ht4. cbn in Hkey. rewrite Hkey in Ht4.
    change (Z.of_nat 4) with 4 in Ht4. rewrite Ht4. cbn [mbind option_bind].
    pose proof (take_exact_app (unmask k (fr_payload f)) rest) as Htp. rewrite unmask_length in Htp. fold n in Htp.
    destruct (Z.ltb_spec 0 (Z.of_nat n)) as [Hp|Hp].
    + rewrite Htp. cbn [mbind option_bind]. rewrite unmask_involutive. by destruct f.
    + destruct f as [fi o p]. cbn in *. by destruct p.
  - rewrite Ht2. cbn [mbind option_bind nth]. cbv zeta. rewrite Hu1, Hu2, Hfin, Hopc. cbn [negb Z.eqb].
    rewrite <-!app_assoc, parse_len_code by done. cbn [mbind option_bind].
    pose proof (take_exact_app (fr_payload f) rest) as Htp. fold n in Htp.
    destruct (Z.ltb_spec 0 (Z.of_nat n)) as [Hp|Hp].
    + rewrite Htp. cbn [mbind option_bind]. by destruct f.
    + destruct f as [fi o p]. cbn in *. by destruct p.
Qed.

(** A frame written with or without a masking key, in any of the three length forms, is read back
    with its FIN bit, opcode and unmasked payload for every segmentation of the wire, leaving
    the following bytes. *)
Lemma ws_frame_roundtrip {W} `{StreamDuplex W} key f rest (d : feeder W) fuel :
  frame_wf f -> key_wf key -> fd_ok d -> fd_raw d = encode_frame key f ++ rest ->
  (length (fd_raw d) + 1 < fuel)%nat ->
  exists d', read_frame fuel d = Some (Some f, d') /\ fd_raw d' = rest /\ fd_ok d'.
Proof.
  intros Hf Hk Hok Hraw Hfuel. pose proof (fd_steps_raw d) as Hs.
  destruct (read_frame_refines fuel d Hok ltac:(lia)) as (d' & Hok' & _ & _ & E).
  rewrite Hraw, parse_encode_frame in E by done. destruct E as [E Er]. by exists d'.
Qed.

(** ** Receiving messages *)

(** A frame the server writes. *)
Definition server_frame (op : Z) (data : bytes) : bytes := encode_frame None (mk_frame true op data).

Definition close_payload (code : Z) (reason : bytes) : bytes :=
  z2b (Z.land (Z.shiftr code 8) 255) :: z2b (Z.land code 255) :: reason.

(** What [receive] does on a sequence of frames: its result, whether the
    connection ends up closed, the bytes it writes, the frames left. *)
Fixpoint receive_spec (frames : list (option bytes * raw_frame)) (acc : bytes) (mop : option Z)
  : option (option message * bool * bytes * list (option bytes * raw_frame)) :=
  match frames with
  | [] => None
  | (_, fr) :: todo =>
      if fr_opcode fr =? opcode_close then
        Some (None, true, server_frame opcode_close (fr_payload fr), todo)
      else if fr_opcode fr =? opcode_ping then
        match receive_spec todo acc mop with
        | Some (res, closed, replies, todo') =>
            Some (res, closed, server_frame opcode_pong (fr_payload fr) ++ replies, todo')
        | None => None
        end
      else if fr_opcode fr =? opcode_pong then receive_spec todo acc mop
      else
        let data acc mop :=
          if fr_fin fr
          then Some (Some (mk_message (if mop =? opcode_text then mt_text else mt_binary) acc),
                     false, [], todo)
          else receive_spec todo acc (Some mop) in
        if fr_opcode fr =? opcode_continuation then
          match mop with
          | None => Some (None, true,
              server_frame opcode_close (close_payload 1002 (str "unexpected continuation frame")), todo)
          | Some m => data (acc ++ fr_payload fr) m
          end
        else if (fr_opcode fr =? opcode_text) || (fr_opcode fr =? opcode_binary) then
          data (fr_payload fr) (fr_opcode fr)
        else Some (None, true,
               server_frame opcode_close (close_payload 1002 (str "unsupported opcode")), todo)
  end.

Definition encode_frames (frames : list (option bytes * raw_frame)) : bytes :=
  concat (map (fun kf => encode_frame kf.1 kf.2) frames).

Section Receive.
Context {W : Type} `{StreamDuplex W}.

Lemma ws_write_all_spec fuel (d : feeder W) bs :
  fd_ok d -> (length bs <= fuel)%nat ->
  exists d', ws_write_all fuel d bs = Some d' /\ fd_ok d' /\ fd_raw d' = fd_raw d /\
    fd_written d' = fd_written d ++ bs.
Proof.
  intros [Hok He] Hf. unfold ws_write_all.
  destruct (write_all_spec fuel (fd_source d) bs Hf) as (w & Hw & Hwr).
  destruct (write_all_data _ _ _ _ Hok Hw) as [Hok' Hd]. rewrite Hw.
  eexists. split; [reflexivity|]. unfold fd_ok, fd_raw, fd_written. cbn. by rewrite Hd, Hwr.
Qed.

Lemma frame_head_length fin op n : (length (frame_head fin op n) <= 10)%nat.
Proof. unfold frame_head. repeat case_if; cbn; lia. Qed.

Lemma write_frame_spec fuel op data (d : feeder W) :
  fd_ok d -> (length data + 10 <= fuel)%nat ->
  exists d', write_frame fuel true op data d = Some d' /\ fd_ok d' /\ fd_raw d' = fd_raw d /\
    fd_written d' = fd_written d ++ server_frame op data.
Proof.
  intros Hok Hf. unfold write_frame, server_frame, encode_frame. cbn [fr_fin fr_opcode fr_payload].
  pose proof (frame_head_length true op (length data)).
  destruct (ws_write_all_spec fuel d (frame_head true op (length data)) Hok) as (d1 & -> & Hok1 & Hr1 & Hw1);
    [lia|]. cbn [mbind option_bind]. destruct data as [|b data].
  - exists d1. by rewrite app_nil_r.
  - destruct (ws_write_all_spec fuel d1 (b :: data) Hok1) as (d2 & -> & Hok2 & Hr2 & Hw2); [lia|].
    exists d2. split; [done|]. split; [done|]. split; [congruence|]. by rewrite Hw2, Hw1, <-app_assoc.
Qed.

Lemma ws_close_spec fuel code reason (d : feeder W) :
  fd_ok d -> (length reason + 12 <= fuel)%nat ->
  exists d', ws_close fuel code reason (mk_ws d false) = Some (mk_ws d' true) /\ fd_ok d' /\
    fd_raw d' = fd_raw d /\
    fd_written d' = fd_written d ++ server_frame opcode_close (close_payload code reason).
Proof.
  intros Hok Hf. unfold ws_close. cbn [ws_closed ws_feed]. fold (close_payload code reason).
  destruct (write_frame_spec fuel opcode_close (close_payload code reason) d Hok)
    as (d' & -> & ? & ? & ?); [unfold close_payload; cbn; lia|]. by exists d'.
Qed.

Lemma encode_frame_length key f : (length (fr_payload f) + 2 <= length (encode_frame key f))%nat.
Proof.
  unfold encode_frame. rewrite frame_head_code. destruct key as [k|]; cbn;
    rewrite ?length_app, ?unmask_length; lia.
Qed.

(** What a call of [receive] owes its caller, given the specified outcome. *)
Definition receive_outcome (d : feeder W) (rest : bytes)
    (r : option (option message * ws_connection W))
    (spec : option message * bool * bytes * list (option bytes * raw_frame)) : Prop :=
  let '(res, closed, replies, todo) := spec in
  exists d', r = Some (res, mk_ws d' closed) /\ fd_ok d' /\
    fd_raw d' = encode_frames todo ++ rest /\ fd_written d' = fd_written d ++ replies.

(** Reading the next of the encoded frames. *)
Lemma receive_next key fr todo fuel (d : feeder W) rest :
  fd_ok d -> key_wf key -> frame_wf fr -> fd_raw d = encode_frames ((key, fr) :: todo) ++ rest ->
  (length (fd_raw d) + 1 < fuel)%nat ->
  exists d1, read_frame fuel d = Some (Some fr, d1) /\ fd_ok d1 /\
    fd_raw d1 = encode_frames todo ++ rest /\ fd_written d1 = fd_written d /\
    (length (fd_raw d1) + length (fr_payload fr) + 2 <= length (fd_raw d))%nat.
Proof.
  intros Hok Hk Hf Hraw Hfuel. pose proof (fd_steps_raw d).
  unfold encode_frames in Hraw. cbn [map concat fst snd] in Hraw. rewrite <-app_assoc in Hraw.
  destruct (read_frame_refines fuel d Hok ltac:(lia)) as (d1 & Hok1 & _ & Hw1 & E).
  rewrite Hraw, parse_encode_frame in E by done. destruct E as [E Hraw1].
  exists d1. split_and!; try done. rewrite Hraw, <-Hraw1, length_app.
  pose proof (encode_frame_length key fr). lia.
Qed.

Lemma receive_outcome_written d d1 rest r spec :
  fd_written d1 = fd_written d -> receive_outcome d1 rest r spec -> receive_outcome d rest r spec.
Proof. unfold receive_outcome. by intros ->. Qed.

Lemma receive_outcome_close fuel d rest todo reason :
  fd_ok d -> fd_raw d = encode_frames todo ++ rest -> (length reason + 12 <= fuel)%nat ->
  receive_outcome d rest (c' ← ws_close fuel 1002 reason (mk_ws d false); Some (None, c'))
    (None, true, server_frame opcode_close (close_payload 1002 reason), todo).
Proof.
  intros Hok Hraw Hf. destruct (ws_close_spec fuel 1002 reason d Hok Hf) as (d2 & -> & ? & Hr2 & Hw2).
  exists d2. by rewrite Hr2, Hraw, Hw2.
Qed.

Lemma receive_loop_refines frames fuel acc mop (d : feeder W) rest spec :
  fd_ok d -> Forall (fun kf => key_wf kf.1 /\ frame_wf kf.2) frames ->
  fd_raw d = encode_frames frames ++ rest -> (length (fd_raw d) + 64 <= fuel)%nat ->
  receive_spec frames acc mop = Some spec ->
  receive_outcome d rest (receive_loop fuel acc mop (mk_ws d false)) spec.
Proof.
  intros Hok Hwf. revert fuel acc mop d Hok spec.
  induction Hwf as [|[key fr] todo [Hk Hf] _ IH]; intros fuel acc mop d Hok spec Hraw Hfuel; [done|].
  cbn [fst snd] in Hk, Hf. destruct fuel as [|f]; [lia|]. cbn [receive_loop ws_closed ws_feed].
  destruct (receive_next key fr todo f d rest Hok Hk Hf Hraw ltac:(lia)) as (d1 & -> & Hok1 & Hraw1 & Hw1 & Hlen).
  cbn [receive_spec]. destruct (fr_opcode fr =? opcode_close).
  { intros [= <-]. destruct (write_frame_spec f opcode_close (fr_payload fr) d1 Hok1)
      as (d2 & -> & ? & Hr2 & Hw2); [lia|]. exists d2. by rewrite Hr2, Hraw1, Hw2, Hw1. }
  destruct (fr_opcode fr =? opcode_ping).
  { destruct (write_frame_spec f opcode_pong (fr_payload fr) d1 Hok1) as (d2 & -> & Hok2 & Hr2 & Hw2); [lia|].
    cbn [mbind option_bind]. destruct (receive_spec todo acc mop) as [[[[res cl] rp] lf]|] eqn:Es; [|done].
    intros [= <-]. destruct (IH f acc mop d2 Hok2 _ ltac:(congruence) ltac:(rewrite Hr2; lia) Es)
      as (d3 & E3 & ? & ? & Hw3).
    exists d3. split_and!; try done. by rewrite Hw3, Hw2, Hw1, <-app_assoc. }
  intros Hspec. apply (receive_outcome_written d d1 rest _ _ Hw1). revert Hspec.
  assert (forall a m s, receive_spec todo a m = Some s ->
    receive_outcome d1 rest (receive_loop f a m (mk_ws d1 false)) s) as Hrec.
  { intros a m s Es. by apply IH; [..|lia|]. }
  destruct (fr_opcode fr =? opcode_pong); [apply Hrec|].
  assert (forall a m s, (if fr_fin fr
      then Some (Some (mk_message (if m =? opcode_text then mt_text else mt_binary) a), false, [], todo)
      else receive_spec todo a (Some m)) = Some s ->
    receive_outcome d1 rest (if fr_fin fr
      then Some (Some (mk_message (if m =? opcode_text then mt_text else mt_binary) a), mk_ws d1 false)
      else receive_loop f a (Some m) (mk_ws d1 false)) s) as Hdata.
  { intros a m s. destruct (fr_fin fr); [|apply Hrec]. intros [= <-]. exists d1. by rewrite app_nil_r. }
  destruct (fr_opcode fr =? opcode_continuation); [destruct mop; [apply Hdata|]|].
  2: destruct ((fr_opcode fr =? opcode_text) || (fr_opcode fr =? opcode_binary)); [apply Hdata|].
  all: intros [= <-]; apply receive_outcome_close; [done..|].
  - change (length (str "unexpected continuation frame")) with 29%nat. lia.
  - change (length (str "unsupported opcode")) with 18%nat. lia.
Qed.
End Receive.

(** ** Fragmented messages with interleaved control frames *)

(** A frame that may follow the first fragment of an unfinished message. *)
Definition mid_frame (f : raw_frame) : Prop :=
  fr_opcode f = opcode_ping \/ fr_opcode f = opcode_pong \/
  (fr_opcode f = opcode_continuation /\ fr_fin f = false).

(** The message data among such frames, and the pongs their pings cause. *)
Definition mid_data (fs : list (option bytes * raw_frame)) : bytes :=
  concat (map (fun kf => if fr_opcode kf.2 =? opcode_continuation then fr_payload kf.2 else []) fs).

Definition mid_pongs (fs : list (option bytes * raw_frame)) : bytes :=
  concat (map (fun kf => if fr_opcode kf.2 =? opcode_ping
                         then server_frame opcode_pong (fr_payload kf.2) else []) fs).

Definition message_type_of (op : Z) : message_type := if op =? opcode_text then mt_text else mt_binary.

Lemma receive_spec_fragments mids acc op lastf todo :
  Forall (fun kf => mid_frame kf.2) mids ->
  fr_opcode lastf.2 = opcode_continuation -> fr_fin lastf.2 = true ->
  receive_spec (mids ++ lastf :: todo) acc (Some op) =
  Some (Some (mk_message (message_type_of op) (acc ++ mid_data mids ++ fr_payload lastf.2)), false,
        mid_pongs mids, todo).
Proof.
  intros Hm Hl Hfin. destruct lastf as [kl fl]. cbn [snd] in *.
  revert acc. induction Hm as [|[k f] mids Hf _ IH]; intros acc; cbn [app receive_spec].
  - by rewrite Hl, Hfin.
  - cbn [snd] in Hf. unfold mid_data, mid_pongs in *. cbn [map concat snd].
    destruct Hf as [E|[E|[E Hnf]]]; rewrite E; cbn [Z.eqb opcode_ping opcode_pong opcode_close opcode_continuation Pos.eqb].
    + by rewrite IH.
    + by rewrite IH.
    + rewrite Hnf, IH. by rewrite <-!app_assoc.
Qed.

(** C18: receive() reassembles a fragmented WebSocket message with control frames interleaved: it
    returns the concatenated payload with the first frame's type, answers each ping by a pong
    with the same payload, and leaves the following frames unread. *)
Theorem ws_receive_reassembles {W} `{StreamDuplex W} first mids lastf todo (d : feeder W) rest fuel :
  fd_ok d -> Forall (fun kf => key_wf kf.1 /\ frame_wf kf.2) (first :: mids ++ lastf :: todo) ->
  (fr_opcode first.2 = opcode_text \/ fr_opcode first.2 = opcode_binary) -> fr_fin first.2 = false ->
  Forall (fun kf => mid_frame kf.2) mids ->
  fr_opcode lastf.2 = opcode_continuation -> fr_fin lastf.2 = true ->
  fd_raw d = encode_frames (first :: mids ++ lastf :: todo) ++ rest ->
  (length (fd_raw d) + 64 <= fuel)%nat ->
  exists d', receive fuel (mk_ws d false) =
    Some (Some (mk_message (message_type_of (fr_opcode first.2))
                  (fr_payload first.2 ++ mid_data mids ++ fr_payload lastf.2)), mk_ws d' false) /\
    fd_raw d' = encode_frames todo ++ rest /\ fd_written d' = fd_written d ++ mid_pongs mids.
Proof.
  intros Hok Hwf Hop Hnf Hm Hl Hfin Hraw Hfuel.
  destruct (receive_loop_refines (first :: mids ++ lastf :: todo) fuel [] None d rest
    (Some (mk_message (message_type_of (fr_opcode first.2))
       (fr_payload first.2 ++ mid_data mids ++ fr_payload lastf.2)), false, mid_pongs mids, todo))
    as (d' & Hr & _ & ? & ?); try done.
  - destruct first as [k f]. cbn [receive_spec snd] in *.
    rewrite <-(receive_spec_fragments mids (fr_payload f) (fr_opcode f) lastf todo Hm Hl Hfin).
    destruct Hop as [E|E]; rewrite E; cbn [Z.eqb Pos.eqb opcode_text opcode_binary opcode_ping
      opcode_pong opcode_close opcode_continuation orb]; by rewrite Hnf.
  - by exists d'.
Qed.

(** A closed connection stays closed: nothing is read or written. *)
Lemma receive_closed {W} `{Stream W} fuel (d : feeder W) :
  receive (S fuel) (mk_ws d true) = Some (None, mk_ws d true).
Proof. done. Qed.

(** A text or binary frame that arrives before the previous message is
    finished replaces it. *)
Lemma receive_spec_overwrites k1 k2 p1 p2 :
  receive_spec [(k1, mk_frame false opcode_text p1); (k2, mk_frame true opcode_text p2)] [] None =
  Some (Some (mk_message mt_text p2), false, [], []).
Proof. done. Qed.

(** ** The theorems on a concrete wire *)
Lemma ws_frame_roundtrip_witness :
  let key := Some [x37; xfa; x21; x3d] in
  let f := mk_frame true opcode_text (str "Hello") in
  exists d', read_frame 64 (mk_feeder (mk_wire [take 3 (encode_frame key f); drop 3 (encode_frame key f)] [] [])
                              [] false) = Some (Some f, d') /\ fd_raw d' = [] /\ fd_ok d'.
Proof.
  intros key f. apply (ws_frame_roundtrip key f []).
  - split; vm_compute; split; try done; intros ?; discriminate.
  - reflexivity.
  - by split.
  - vm_compute. reflexivity.
  - apply Nat.ltb_lt. vm_compute. reflexivity.
Defined.

Definition demo_first := (Some [x01; x02; x03; x04], mk_frame false opcode_text (str "He")).
Definition demo_ping := (Some [x05; x06; x07; x08], mk_frame true opcode_ping (str "p")).
Definition demo_last := (Some [x05; x06; x07; x08], mk_frame true opcode_continuation (str "llo")).
Definition demo_frames : list (option bytes * raw_frame) := [demo_first; demo_ping; demo_last].

Lemma ws_receive_reassembles_witness :
  exists d', receive 200 (mk_ws (mk_feeder (mk_wire [encode_frames demo_frames] [] []) [] false) false) =
    Some (Some (mk_message mt_text (str "Hello")), mk_ws d' false) /\
    fd_raw d' = [] /\ w_out (fd_source d') = server_frame opcode_pong (str "p").
Proof.
  destruct (ws_receive_reassembles demo_first [demo_ping] demo_last []
    (mk_feeder (mk_wire [encode_frames demo_frames] [] []) [] false) [] 200) as (d' & E & Hr & Hw).
  - by split.
  - repeat constructor; vm_compute; done.
  - by left.
  - done.
  - repeat constructor.
  - done.
  - done.
  - vm_compute. reflexivity.
  - apply Nat.leb_le. vm_compute. reflexivity.
  - exists d'. split; [exact E|]. split; [exact Hr|]. exact Hw.
Defined.
