(* ===== verification/Route.v ===== *)
(** * Route: src/router/route.cpp and route.hpp

    The path trie.  Nodes are shared mutable objects ([std::shared_ptr<route>],
    also held by group proxies), so they live in an arena and a [route_ptr] is
    an index into it.  Registration ([child], [set_target], ...) transforms the
    arena; [route_match] only reads it. *)

From S2P Require Import Prelude Bytes Method.

#[local] Open Scope Z_scope.

Inductive route_kind := rk_root | rk_static | rk_param | rk_wildcard.

(** ** capture_map: a flat map scanned in order *)

Abbreviation capture_map := (list (bytes * bytes)).

(** [captures[key] = value]. *)
Fixpoint cm_set (key value : bytes) (m : capture_map) : capture_map :=
  match m with
  | [] => [(key, value)]
  | (k, v) :: r => if bytes_eqb k key then (k, value) :: r else (k, v) :: cm_set key value r
  end.

(** [at], [None] being the thrown [out_of_range]. *)
Fixpoint cm_at (key : bytes) (m : capture_map) : option bytes :=
  match m with
  | [] => None
  | (k, v) :: r => if bytes_eqb k key then Some v else cm_at key r
  end.

Definition cm_count (key : bytes) (m : capture_map) : nat :=
  match cm_at key m with Some _ => 1 | None => 0 end.

Record route_state := mk_route_state { rst_captures : capture_map; rst_depth : Z }.

Definition route_state_init : route_state := mk_route_state [] 0.

(** ** Nodes *)
Section Route.
Context {target middleware : Type}.

Record method_target_entry := mk_mte {
  mte_id : http_method_id;
  mte_name : bytes;
  mte_target : target;
}.

Record route_node := mk_node {
  rn_kind : route_kind;
  rn_name : bytes;
  rn_predicate : option (bytes -> bool);
  rn_statics : list nat;
  rn_params : list nat;
  rn_wildcard : option nat;
  rn_targets : list method_target_entry;
  rn_middlewares : list middleware;
}.

Definition node_new (kind : route_kind) (name : bytes) : route_node :=
  mk_node kind name None [] [] None [] [].

Abbreviation arena := (list route_node).

Definition node (a : arena) (i : nat) : route_node := default (node_new rk_root []) (a !! i).
Definition name_of (a : arena) (i : nat) : bytes := rn_name (node a i).

(** Updates of one field of a node. *)
Definition with_statics (l : list nat) (n : route_node) : route_node :=
  mk_node (rn_kind n) (rn_name n) (rn_predicate n) l (rn_params n) (rn_wildcard n) (rn_targets n)
    (rn_middlewares n).
Definition with_params (l : list nat) (n : route_node) : route_node :=
  mk_node (rn_kind n) (rn_name n) (rn_predicate n) (rn_statics n) l (rn_wildcard n) (rn_targets n)
    (rn_middlewares n).
Definition with_wildcard (w : nat) (n : route_node) : route_node :=
  mk_node (rn_kind n) (rn_name n) (rn_predicate n) (rn_statics n) (rn_params n) (Some w) (rn_targets n)
    (rn_middlewares n).
Definition with_targets (t : list method_target_entry) (n : route_node) : route_node :=
  mk_node (rn_kind n) (rn_name n) (rn_predicate n) (rn_statics n) (rn_params n) (rn_wildcard n) t
    (rn_middlewares n).
Definition with_middlewares (m : list middleware) (n : route_node) : route_node :=
  mk_node (rn_kind n) (rn_name n) (rn_predicate n) (rn_statics n) (rn_params n) (rn_wildcard n)
    (rn_targets n) m.
Definition with_predicate (p : bytes -> bool) (n : route_node) : route_node :=
  mk_node (rn_kind n) (rn_name n) (Some p) (rn_statics n) (rn_params n) (rn_wildcard n)
    (rn_targets n) (rn_middlewares n).

Definition update (i : nat) (f : route_node -> route_node) (a : arena) : arena := alter f i a.

(** ** Children *)

(** [std::lower_bound] over the children, which are sorted by name: the number
    of leading children whose name is smaller. *)
Fixpoint lower_bound (a : arena) (ids : list nat) (name : bytes) : nat :=
  match ids with
  | [] => 0
  | c :: r => if bytes_ltb (name_of a c) name then S (lower_bound a r name) else 0
  end.

Definition find_static_child (a : arena) (n : nat) (name : bytes) : option nat :=
  let ids := rn_statics (node a n) in
  match ids !! lower_bound a ids name with
  | Some c => if bytes_eqb (name_of a c) name then Some c else None
  | None => None
  end.

Definition find_or_create_static_child (a : arena) (n : nat) (name : bytes) : arena * nat :=
  match find_static_child a n name with
  | Some c => (a, c)
  | None =>
      let ids := rn_statics (node a n) in
      let it := lower_bound a ids name in
      let created := length a in
      (update n (with_statics (take it ids ++ created :: drop it ids)) a ++ [node_new rk_static name],
       created)
  end.

Definition find_param_child (a : arena) (n : nat) (name : bytes) : option nat :=
  find (fun p => bytes_eqb (name_of a p) name) (rn_params (node a n)).

Definition find_or_create_param_child (a : arena) (n : nat) (name : bytes) : arena * nat :=
  match find_param_child a n name with
  | Some p => (a, p)
  | None =>
      let created := length a in
      (update n (with_params (rn_params (node a n) ++ [created])) a ++ [node_new rk_param name], created)
  end.

Definition find_or_create_wildcard_child (a : arena) (n : nat) : arena * nat :=
  match rn_wildcard (node a n) with
  | Some w => (a, w)
  | None =>
      let created := length a in
      (update n (with_wildcard created) a ++ [node_new rk_wildcard (str "*")], created)
  end.

(** [if (!path.empty() && path.front() == '/') path.remove_prefix(1)]. *)
Definition strip_slash (path : bytes) : bytes :=
  match path with c :: r => if Byte.eqb c "/" then r else path | [] => [] end.

Definition is_wildcard_segment (seg : bytes) : bool := bytes_eqb seg [] || bytes_eqb seg (str "*").
Definition is_param_segment (seg : bytes) : bool := bool_decide (head seg = Some ":"%byte).

(** The loop of [child] over the segments of the path ([Bytes.tokens]). *)
Fixpoint child_loop (a : arena) (current : nat) (segs : list bytes) : arena * nat :=
  match segs with
  | [] => (a, current)
  | seg :: r =>
      if is_wildcard_segment seg then find_or_create_wildcard_child a current
      else
        let '(a', c) := if is_param_segment seg then find_or_create_param_child a current seg
                        else find_or_create_static_child a current seg in
        child_loop a' c r
  end.

Definition child (a : arena) (n : nat) (path : bytes) : arena * nat :=
  child_loop a n (tokens "/" (strip_slash path)).

(** ** Matching *)

Definition accepts (a : arena) (p : nat) (segment : bytes) : bool :=
  match rn_predicate (node a p) with Some pred => pred segment | None => true end.

Definition deeper (st : route_state) (best : option (nat * route_state)) : bool :=
  match best with None => true | Some (_, b) => rst_depth b <? rst_depth st end.

(** The parameter loop; [rec] is the recursive call on a child. *)
Fixpoint best_param (rec : nat -> route_state -> option (option nat * route_state)) (a : arena)
    (segment : bytes) (st : route_state) (ps : list nat) (best : option (nat * route_state))
  : option (option (nat * route_state)) :=
  match ps with
  | [] => Some best
  | p :: r =>
      if accepts a p segment then
        let trial := mk_route_state (cm_set (name_of a p) segment (rst_captures st)) (rst_depth st) in
        match rec p trial with
        | None => None
        | Some (Some m, trial') =>
            best_param rec a segment st r (if deeper trial' best then Some (m, trial') else best)
        | Some (None, _) => best_param rec a segment st r best
        end
      else best_param rec a segment st r best
  end.

(** Result and final [state]; the outer option is the fuel. *)
Fixpoint route_match (fuel : nat) (a : arena) (n : nat) (state : route_state) (path0 : bytes)
  : option (option nat * route_state) :=
  match fuel with
  | O => None
  | S f =>
      let path := strip_slash path0 in
      match path with
      | [] => Some (Some n, state)
      | _ =>
          let '(segment, rest) := match find_byte "/" path with
                                  | None => (path, [])
                                  | Some slash => (take slash path, drop (S slash) path)
                                  end in
          let st := mk_route_state (rst_captures state) (rst_depth state + 1) in
          let params_or_wildcard :=
            match best_param (fun p trial => route_match f a p trial rest) a segment st
                    (rn_params (node a n)) None with
            | None => None
            | Some (Some (m, best_state)) => Some (Some m, best_state)
            | Some None =>
                match rn_wildcard (node a n) with
                | Some w => Some (Some w, mk_route_state (cm_set (name_of a w) path (rst_captures st))
                                            (rst_depth st))
                | None => Some (None, st)
                end
            end in
          match find_static_child a n segment with
          | Some c =>
              match route_match f a c st rest with
              | None => None
              | Some (Some m, trial) => Some (Some m, trial)
              | Some (None, _) => params_or_wildcard
              end
          | None => params_or_wildcard
          end
      end
  end.

(** ** Targets *)

Definition entry_is (id : http_method_id) (name : bytes) (e : method_target_entry) : bool :=
  bool_decide (mte_id e = id) && (negb (bool_decide (id = id_custom)) || bytes_eqb (mte_name e) name).

Fixpoint find_target (id : http_method_id) (name : bytes) (l : list method_target_entry)
  : option target :=
  match l with
  | [] => None
  | e :: r => if entry_is id name e then Some (mte_target e) else find_target id name r
  end.

Definition get_target (a : arena) (n : nat) (m : http_method) : option target :=
  find_target (hm_id m) (hm_name m) (rn_targets (node a n)).

Definition has_any_target (a : arena) (n : nat) : bool :=
  match rn_targets (node a n) with [] => false | _ => true end.

Fixpoint put_target (id : http_method_id) (name : bytes) (t : target) (l : list method_target_entry)
  : list method_target_entry :=
  match l with
  | [] => [mk_mte id name t]
  | e :: r => if entry_is id name e then mk_mte (mte_id e) (mte_name e) t :: r
              else e :: put_target id name t r
  end.

Definition set_target (a : arena) (n : nat) (id : http_method_id) (name : bytes) (t : target) : arena :=
  update n (fun nd => with_targets (put_target id name t (rn_targets nd)) nd) a.

(** ** The facade operations of a node *)

Definition all_methods : list http_method := [GET; HEAD; POST; PUT; DELETE; PATCH; OPTIONS].

Definition route_any (a : arena) (n : nat) (t : target) : arena :=
  fold_left (fun a m => set_target a n (hm_id m) (hm_name m) t) all_methods a.

Definition route_any_at (a : arena) (n : nat) (path : bytes) (t : target) : arena :=
  let '(a', c) := child a n path in route_any a' c t.

Definition route_method (a : arena) (n : nat) (m : http_method) (t : target) : arena :=
  set_target a n (hm_id m) (hm_name m) t.

Definition route_method_at (a : arena) (n : nat) (m : http_method) (path : bytes) (t : target) : arena :=
  let '(a', c) := child a n path in route_method a' c m t.

Definition route_param (a : arena) (n : nat) (name : bytes) (pred : bytes -> bool) : arena :=
  let '(a', c) := child a n name in update c (with_predicate pred) a'.

Definition route_prepend (a : arena) (n : nat) (m : middleware) : arena :=
  update n (fun nd => with_middlewares (m :: rn_middlewares nd) nd) a.

Definition route_append (a : arena) (n : nat) (m : middleware) : arena :=
  update n (fun nd => with_middlewares (rn_middlewares nd ++ [m]) nd) a.

(** A router's arena: the root node alone. *)
Definition arena_new : arena := [node_new rk_root []].
End Route.
Arguments route_node : clear implicits.
Arguments method_target_entry : clear implicits.
