(* ===== verification/RouteFacts.v ===== *)
(** * RouteFacts: the trie's invariant, and what matching returns

    [arena_wf] is the node invariant (children are later nodes, static
    children sorted by name, parameter names distinct); [arena_le] says that a
    later arena keeps every node's name and static edges.  Matching is
    characterised by the relation [Match]. *)

From S2P Require Import Prelude Bytes Method Route.

#[local] Open Scope Z_scope.

Section Facts.
Context {target middleware : Type}.
Abbreviation arena := (list (route_node target middleware)).
Implicit Types (a : arena).

(** ** Node access *)

Lemma length_update i f a : length (update i f a) = length a.
Proof. apply length_alter. Qed.

Lemma node_snoc_lt a x i : (i < length a)%nat -> node (a ++ [x]) i = node a i.
Proof. intros. unfold node. by rewrite lookup_app_l. Qed.

Lemma node_snoc_eq a x : node (a ++ [x]) (length a) = x.
Proof. unfold node. by rewrite list_lookup_middle. Qed.

Lemma node_update_eq a i f : (i < length a)%nat -> node (update i f a) i = f (node a i).
Proof.
  intros Hi. unfold node, update. rewrite list_lookup_alter_eq.
  destruct (lookup_lt_is_Some_2 a i Hi) as [x ->]. done.
Qed.

Lemma node_update_ne a i j f : i <> j -> node (update i f a) j = node a j.
Proof. intros. unfold node, update. by rewrite list_lookup_alter_ne. Qed.

(** An update that keeps names. *)
Definition keeps_name (f : route_node target middleware -> route_node target middleware) : Prop :=
  forall n, rn_name (f n) = rn_name n.

Lemma name_of_update a i f j : keeps_name f -> name_of (update i f a) j = name_of a j.
Proof.
  intros Hf. unfold name_of, node, update. destruct (decide (i = j)) as [<-|Hn].
  - rewrite list_lookup_alter_eq. destruct (a !! i); [apply Hf|done].
  - by rewrite list_lookup_alter_ne.
Qed.

(** ** The invariant *)

Definition name_lt a (c d : nat) : Prop := bytes_ltb (name_of a c) (name_of a d) = true.

Record node_wf a (i : nat) : Prop := mk_node_wf {
  nw_statics : forall c, c ∈ rn_statics (node a i) -> (i < c < length a)%nat;
  nw_params : forall c, c ∈ rn_params (node a i) -> (i < c < length a)%nat;
  nw_wildcard : forall c, rn_wildcard (node a i) = Some c -> (i < c < length a)%nat;
  nw_sorted : StronglySorted (name_lt a) (rn_statics (node a i));
  nw_distinct : NoDup (map (name_of a) (rn_params (node a i)));
}.

Definition arena_wf a : Prop := forall i, (i < length a)%nat -> node_wf a i.

Definition arena_le a a' : Prop :=
  (length a <= length a')%nat /\
  forall i, (i < length a)%nat -> name_of a' i = name_of a i /\
    forall c, c ∈ rn_statics (node a i) -> c ∈ rn_statics (node a' i).

#[global] Instance arena_le_PreOrder : PreOrder arena_le.
Proof.
  split.
  - intros a. split; [done|]. auto.
  - intros a b c [Hl1 H1] [Hl2 H2]. split; [lia|]. intros i Hi.
    destruct (H1 i Hi) as [En1 Hs1]. destruct (H2 i ltac:(lia)) as [En2 Hs2].
    split; [congruence|auto].
Qed.

Lemma arena_new_wf : arena_wf arena_new.
Proof.
  intros i Hi. cbn in Hi. assert (i = 0)%nat as -> by lia.
  constructor; cbn; try set_solver; constructor.
Qed.

(** ** Static children *)

Section LowerBound.
Context a (name : bytes).

Lemma lower_bound_le ids : (lower_bound a ids name <= length ids)%nat.
Proof. induction ids as [|c r IH]; cbn; [lia|]. case_if; cbn; lia. Qed.

Lemma lower_bound_take ids : Forall (fun c => bytes_ltb (name_of a c) name = true) (take (lower_bound a ids name) ids).
Proof.
  induction ids as [|c r IH]; cbn; [constructor|]. case_if; cbn; [|constructor]. by constructor.
Qed.

Lemma lower_bound_drop ids :
  StronglySorted (name_lt a) ids ->
  Forall (fun c => bytes_ltb (name_of a c) name = false) (drop (lower_bound a ids name) ids).
Proof.
  induction 1 as [|c r Hr IH Hf]; cbn; [constructor|]. case_if; cbn; [done|].
  constructor; [done|]. eapply Forall_impl; [exact Hf|]. intros d Hd. cbn in Hd.
  destruct (bytes_ltb (name_of a d) name) eqn:E; [|done].
  unfold name_lt in Hd. pose proof (bytes_ltb_trans _ _ _ Hd E). congruence.
Qed.
End LowerBound.

(** [find_static_child] is exact lookup among the sorted children. *)
Lemma find_static_child_spec a n name c :
  StronglySorted (name_lt a) (rn_statics (node a n)) ->
  find_static_child a n name = Some c <-> c ∈ rn_statics (node a n) /\ name_of a c = name.
Proof.
  intros Hs. unfold find_static_child. set (ids := rn_statics (node a n)) in *.
  set (k := lower_bound a ids name). split.
  - destruct (ids !! k) as [d|] eqn:E; [|done]. case_if; [|done]. intros [= ->].
    split; [by eapply list_elem_of_lookup_2|by apply bytes_eqb_true].
  - intros [Hin <-]. rewrite <-(take_drop k ids) in Hin. apply elem_of_app in Hin as [Hin|Hin].
    + pose proof (lower_bound_take a (name_of a c) ids) as Ht. rewrite Forall_forall in Ht.
      specialize (Ht c Hin). by rewrite bytes_ltb_irrefl in Ht.
    + pose proof (lower_bound_drop a (name_of a c) ids Hs) as Hd. fold k in Hd.
      rewrite <-(Nat.add_0_r k), <-lookup_drop.
      assert (StronglySorted (name_lt a) (drop k ids)) as Hs' by (by apply (StronglySorted_app_1_r _ (take k ids)); rewrite take_drop).
      destruct (drop k ids) as [|h r]; [by apply not_elem_of_nil in Hin|]. cbn.
      apply elem_of_cons in Hin as [->|Hin]; [by rewrite bytes_eqb_refl|].
      apply StronglySorted_inv in Hs' as [_ Hf]. rewrite Forall_forall in Hf. specialize (Hf c Hin).
      inversion Hd as [|? ? Hh _]. unfold name_lt in Hf. congruence.
Qed.

(** Inserting at the lower bound keeps the children sorted. *)
Lemma insert_sorted a ids name c :
  StronglySorted (name_lt a) ids -> (forall d, d ∈ ids -> name_of a d <> name) ->
  name_of a c = name ->
  StronglySorted (name_lt a) (take (lower_bound a ids name) ids ++ c :: drop (lower_bound a ids name) ids).
Proof.
  intros Hs Hnone Hc. set (k := lower_bound a ids name).
  pose proof (lower_bound_take a name ids) as Ht. pose proof (lower_bound_drop a name ids Hs) as Hd.
  fold k in Ht, Hd.
  assert (Forall (fun d => name_lt a c d) (drop k ids)) as Hcd.
  { rewrite Forall_forall in Hd |- *. intros d Hin. specialize (Hd d Hin). unfold name_lt. rewrite Hc.
    destruct (bytes_ltb name (name_of a d)) eqn:E; [done|]. exfalso.
    apply (Hnone d); [|by apply bytes_ltb_total].
    rewrite <-(take_drop k ids). apply elem_of_app. by right. }
  rewrite <-(take_drop k ids) in Hs.
  rewrite StronglySorted_app in Hs |- *. destruct Hs as (Hx & Hs1 & Hs2).
  split_and!; [|done|by constructor].
  intros x y Hix Hiy. rewrite Forall_forall in Ht, Hcd. specialize (Ht x Hix).
  apply elem_of_cons in Hiy as [->|Hiy]; [unfold name_lt; by rewrite Hc|].
  specialize (Hcd y Hiy). unfold name_lt in *. rewrite Hc in Hcd. by eapply bytes_ltb_trans.
Qed.

(** ** Growing the arena *)

Definition same_names a a' : Prop :=
  (length a <= length a')%nat /\ forall i, (i < length a)%nat -> name_of a' i = name_of a i.

Lemma sorted_names a a' ids :
  same_names a a' -> (forall c, c ∈ ids -> (c < length a)%nat) ->
  StronglySorted (name_lt a) ids -> StronglySorted (name_lt a') ids.
Proof.
  intros [_ Hn] Hr. induction 1 as [|c r Hs IH Hf]; constructor.
  - apply IH. intros d Hd. apply Hr. by right.
  - rewrite Forall_forall in *. intros d Hd. unfold name_lt. rewrite !Hn; [by apply Hf|..]; apply Hr; set_solver.
Qed.

Lemma map_names a a' ids :
  same_names a a' -> (forall c, c ∈ ids -> (c < length a)%nat) ->
  map (name_of a') ids = map (name_of a) ids.
Proof.
  intros [_ Hn] Hr. apply map_ext_in. intros c Hc%list_elem_of_In. apply Hn, Hr, Hc.
Qed.

Lemma lower_bound_names a a' ids name :
  same_names a a' -> (forall c, c ∈ ids -> (c < length a)%nat) ->
  lower_bound a' ids name = lower_bound a ids name.
Proof.
  intros [Hl Hn] Hr. induction ids as [|c r IH]; cbn; [done|].
  rewrite Hn, IH; [done| |apply Hr; by left]. intros d Hd. apply Hr. by right.
Qed.

(** A node whose children lists are unchanged stays well formed. *)
Lemma node_wf_transport a a' i :
  same_names a a' -> node_wf a i ->
  rn_statics (node a' i) = rn_statics (node a i) -> rn_params (node a' i) = rn_params (node a i) ->
  rn_wildcard (node a' i) = rn_wildcard (node a i) -> node_wf a' i.
Proof.
  intros Hn [Hs Hp Hw Hso Hd] Es Ep Ew. pose proof Hn as [Hl _].
  constructor; rewrite ?Es, ?Ep, ?Ew.
  - intros c Hc%Hs. lia.
  - intros c Hc%Hp. lia.
  - intros c Hc%Hw. lia.
  - apply (sorted_names a); [done| |done]. intros c Hc%Hs. lia.
  - rewrite (map_names a); [done|done|]. intros c Hc%Hp. lia.
Qed.

(** An update that leaves the children alone. *)
Lemma update_leaf_wf a n f :
  arena_wf a -> keeps_name f ->
  (forall x, rn_statics (f x) = rn_statics x /\ rn_params (f x) = rn_params x /\
             rn_wildcard (f x) = rn_wildcard x) ->
  arena_wf (update n f a) /\ arena_le a (update n f a).
Proof.
  intros Hwf Hk Hf.
  assert (forall i, rn_statics (node (update n f a) i) = rn_statics (node a i) /\
    rn_params (node (update n f a) i) = rn_params (node a i) /\
    rn_wildcard (node (update n f a) i) = rn_wildcard (node a i)) as Hsame.
  { intros i. destruct (decide (n = i)) as [<-|Hne]; [|by rewrite node_update_ne].
    destruct (Nat.lt_ge_cases n (length a)) as [Hlt|Hge]; [rewrite node_update_eq by done; apply Hf|].
    unfold node, update. rewrite list_lookup_alter_eq, lookup_ge_None_2 by done. done. }
  assert (same_names a (update n f a)) as Hn.
  { split; [by rewrite length_update|]. intros. by apply name_of_update. }
  split.
  - intros i Hi. rewrite length_update in Hi. destruct (Hsame i) as (? & ? & ?).
    apply (node_wf_transport a); auto.
  - split; [by rewrite length_update|]. intros i Hi. split; [by apply Hn|].
    intros c. by rewrite (proj1 (Hsame i)).
Qed.

Section Grow.
Context a (n : nat) (g : route_node target middleware -> route_node target middleware) (kind : route_kind) (name : bytes).
Hypothesis Hwf : arena_wf a.
Hypothesis Hn : (n < length a)%nat.
Hypothesis Hg : keeps_name g.

Let a' := update n g a ++ [node_new kind name].

Lemma grow_length : length a' = S (length a).
Proof. unfold a'. rewrite length_app, length_update. cbn. lia. Qed.

Lemma grow_new : node a' (length a) = node_new kind name.
Proof. unfold a'. rewrite <-(length_update n g a). apply node_snoc_eq. Qed.

Lemma grow_self : node a' n = g (node a n).
Proof. unfold a'. rewrite node_snoc_lt by (by rewrite length_update). by apply node_update_eq. Qed.

Lemma grow_other i : (i < length a)%nat -> i <> n -> node a' i = node a i.
Proof.
  intros Hi Hne. unfold a'. rewrite node_snoc_lt by (by rewrite length_update).
  by apply node_update_ne.
Qed.

Lemma grow_names : same_names a a'.
Proof.
  split; [rewrite grow_length; lia|]. intros i Hi. unfold name_of.
  destruct (decide (i = n)) as [->|Hne]; [rewrite grow_self; apply Hg|by rewrite grow_other].
Qed.

Lemma grow_new_name : name_of a' (length a) = name.
Proof. unfold name_of. by rewrite grow_new. Qed.

Lemma grow_wf : node_wf a' n -> arena_wf a'.
Proof.
  intros Hself i Hi. rewrite grow_length in Hi.
  destruct (decide (i = n)) as [->|Hne]; [done|].
  destruct (decide (i = length a)) as [->|Hne2].
  - constructor; rewrite grow_new; cbn; try set_solver; constructor.
  - apply (node_wf_transport a); [apply grow_names|apply Hwf; lia|..]; rewrite grow_other by lia; done.
Qed.

Lemma grow_le :
  (forall c, c ∈ rn_statics (node a n) -> c ∈ rn_statics (g (node a n))) -> arena_le a a'.
Proof.
  intros Hsub. split; [rewrite grow_length; lia|]. intros i Hi. split; [by apply grow_names|].
  intros c Hc. destruct (decide (i = n)) as [->|Hne]; [rewrite grow_self; auto|by rewrite grow_other].
Qed.
End Grow.

(** The three [find_or_create] operations keep the invariant and return a
    child of the right kind. *)
Lemma create_static_spec a n name a' c :
  arena_wf a -> (n < length a)%nat -> find_or_create_static_child a n name = (a', c) ->
  arena_wf a' /\ arena_le a a' /\ (n < c < length a')%nat /\
  c ∈ rn_statics (node a' n) /\ name_of a' c = name.
Proof.
  intros Hwf Hn. unfold find_or_create_static_child. pose proof (Hwf n Hn) as Hnw.
  destruct (find_static_child a n name) as [d|] eqn:E.
  - intros [= <- <-]. apply find_static_child_spec in E as [Hin Hname]; [|apply Hnw].
    split_and!; try done. all: by apply (nw_statics _ _ Hnw).
  - set (ids := rn_statics (node a n)). set (k := lower_bound a ids name).
    set (ids' := take k ids ++ length a :: drop k ids). intros [= <- <-].
    assert (forall d, d ∈ ids' <-> d = length a \/ d ∈ ids) as Hmem.
    { intros d. unfold ids'. rewrite <-(take_drop k ids) at 3. set_solver. }
    assert (keeps_name (with_statics ids' : route_node target middleware -> _)) as Hk by done.
    pose proof (grow_names a n (with_statics ids') rk_static name Hn Hk) as Hnm.
    pose proof (grow_length a n (with_statics ids') rk_static name) as Hl.
    pose proof (grow_self a n (with_statics ids') rk_static name Hn) as Hs.
    pose proof (grow_new_name a n (with_statics ids') rk_static name) as Hname.
    set (a' := update n (with_statics ids') a ++ [node_new rk_static name]) in *.
    assert (arena_wf a') as Hwf'.
    { apply grow_wf; try done. fold a'. constructor; rewrite Hs; cbn.
      - intros d [->|Hd%(nw_statics _ _ Hnw)]%Hmem; lia.
      - intros d Hd%(nw_params _ _ Hnw). lia.
      - intros d Hd%(nw_wildcard _ _ Hnw). lia.
      - assert (forall d, d ∈ ids -> (d < length a)%nat) as Hr by (intros d Hd%(nw_statics _ _ Hnw); lia).
        unfold ids', k. rewrite <-(lower_bound_names a a' ids name) by done. apply insert_sorted.
        + by apply (sorted_names a); [..|apply Hnw].
        + intros d Hd Hdn. rewrite (proj2 Hnm) in Hdn by auto.
          enough (find_static_child a n name = Some d) by congruence.
          by apply find_static_child_spec; [apply Hnw|].
        + done.
      - rewrite (map_names a); [apply Hnw|done|]. intros d Hd%(nw_params _ _ Hnw). lia. }
    split; [done|]. split; [|split; [|split]].
    + apply grow_le; [done|done|]. intros d Hd. apply Hmem. by right.
    + lia.
    + rewrite Hs. apply Hmem. by left.
    + done.
Qed.

Lemma create_param_spec a n name a' c :
  arena_wf a -> (n < length a)%nat -> find_or_create_param_child a n name = (a', c) ->
  arena_wf a' /\ arena_le a a' /\ (n < c < length a')%nat /\
  c ∈ rn_params (node a' n) /\ name_of a' c = name.
Proof.
  intros Hwf Hn. unfold find_or_create_param_child, find_param_child. pose proof (Hwf n Hn) as Hnw.
  destruct (find _ _) as [d|] eqn:E.
  - intros [= <- <-]. apply find_some in E as [Hin Hname].
    apply list_elem_of_In in Hin. apply bytes_eqb_true in Hname.
    split_and!; try done. all: by apply (nw_params _ _ Hnw).
  - set (ids' := rn_params (node a n) ++ [length a]). intros [= <- <-].
    assert (forall d, d ∈ rn_params (node a n) -> (d < length a)%nat) as Hr
      by (intros d Hd%(nw_params _ _ Hnw); lia).
    pose proof (grow_names a n (with_params ids') rk_param name Hn ltac:(done)) as Hnm.
    pose proof (grow_length a n (with_params ids') rk_param name) as Hl.
    pose proof (grow_self a n (with_params ids') rk_param name Hn) as Hs.
    pose proof (grow_new_name a n (with_params ids') rk_param name) as Hname.
    set (a' := update n (with_params ids') a ++ [node_new rk_param name]) in *.
    assert (arena_wf a') as Hwf'.
    { apply grow_wf; try done. fold a'. constructor; rewrite Hs; cbn.
      - intros d Hd%(nw_statics _ _ Hnw). lia.
      - intros d [Hd%(nw_params _ _ Hnw)| ->%list_elem_of_singleton]%elem_of_app; lia.
      - intros d Hd%(nw_wildcard _ _ Hnw). lia.
      - apply (sorted_names a); [done| |apply Hnw]. intros d Hd%(nw_statics _ _ Hnw). lia.
      - unfold ids'. rewrite map_app, (map_names a) by done. cbn. rewrite Hname.
        apply NoDup_app. split; [apply Hnw|]. split; [|apply NoDup_singleton].
        intros x (d & -> & Hd)%list_elem_of_fmap Hx%list_elem_of_singleton.
        apply list_elem_of_In in Hd. pose proof (find_none _ _ E d Hd) as Hf. cbn in Hf.
        by apply bytes_eqb_false in Hf. }
    split; [done|]. split; [by apply grow_le|]. split; [lia|]. split; [|done].
    rewrite Hs. apply elem_of_app. right. by apply list_elem_of_singleton.
Qed.

Lemma create_wildcard_spec a n a' c :
  arena_wf a -> (n < length a)%nat -> find_or_create_wildcard_child a n = (a', c) ->
  arena_wf a' /\ arena_le a a' /\ (n < c < length a')%nat /\ rn_wildcard (node a' n) = Some c.
Proof.
  intros Hwf Hn. unfold find_or_create_wildcard_child. pose proof (Hwf n Hn) as Hnw.
  destruct (rn_wildcard (node a n)) as [w|] eqn:E.
  - intros [= <- <-]. split_and!; try done. all: by apply (nw_wildcard _ _ Hnw).
  - intros [= <- <-].
    pose proof (grow_names a n (with_wildcard (length a)) rk_wildcard (str "*") Hn ltac:(done)) as Hnm.
    pose proof (grow_length a n (with_wildcard (length a)) rk_wildcard (str "*")) as Hl.
    pose proof (grow_self a n (with_wildcard (length a)) rk_wildcard (str "*") Hn) as Hs.
    set (a' := update n (with_wildcard (length a)) a ++ [node_new rk_wildcard (str "*")]) in *.
    assert (arena_wf a') as Hwf'.
    { apply grow_wf; try done. fold a'. constructor; rewrite Hs; cbn.
      - intros d Hd%(nw_statics _ _ Hnw). lia.
      - intros d Hd%(nw_params _ _ Hnw). lia.
      - intros d [= <-]. lia.
      - apply (sorted_names a); [done| |apply Hnw]. intros d Hd%(nw_statics _ _ Hnw). lia.
      - rewrite (map_names a); [apply Hnw|done|]. intros d Hd%(nw_params _ _ Hnw). lia. }
    split; [done|]. split; [by apply grow_le|]. split; [lia|]. by rewrite Hs.
Qed.

(** [child] keeps the invariant and returns a node of the new arena. *)
Lemma child_loop_spec segs a n a' c :
  arena_wf a -> (n < length a)%nat -> child_loop a n segs = (a', c) ->
  arena_wf a' /\ arena_le a a' /\ (c < length a')%nat.
Proof.
  revert a n. induction segs as [|seg r IH]; intros a n Hwf Hn; cbn [child_loop].
  { intros [= <- <-]. done. }
  destruct (is_wildcard_segment seg).
  { intros H. destruct (create_wildcard_spec _ _ _ _ Hwf Hn H) as (? & ? & ? & _). split_and!; try done. lia. }
  destruct (is_param_segment seg);
    [destruct (find_or_create_param_child a n seg) as [a1 c1] eqn:E;
       destruct (create_param_spec _ _ _ _ _ Hwf Hn E) as (Hwf1 & Hle1 & Hc1 & _)
    |destruct (find_or_create_static_child a n seg) as [a1 c1] eqn:E;
       destruct (create_static_spec _ _ _ _ _ Hwf Hn E) as (Hwf1 & Hle1 & Hc1 & _)];
    intros H; destruct (IH a1 c1 Hwf1 ltac:(lia) H) as (? & ? & ?);
    (split; [done|]; split; [by etrans|done]).
Qed.

(** Registering a path keeps the arena well formed and extends it. *)
Lemma child_preserves_wf a n path a' c :
  arena_wf a -> (n < length a)%nat -> child a n path = (a', c) ->
  arena_wf a' /\ arena_le a a' /\ (c < length a')%nat.
Proof. apply child_loop_spec. Qed.

(** ** Static routes are found again *)

(** A segment that names a static node. *)
Definition static_segment (seg : bytes) : Prop :=
  is_wildcard_segment seg = false /\ is_param_segment seg = false /\ ("/"%byte ∉ seg).

Fixpoint static_path a (n : nat) (segs : list bytes) (c : nat) : Prop :=
  match segs with
  | [] => c = n
  | seg :: r => exists m, m ∈ rn_statics (node a n) /\ name_of a m = seg /\ static_path a m r c
  end.

Lemma static_path_le a a' n segs c :
  arena_wf a -> arena_le a a' -> (n < length a)%nat -> static_path a n segs c -> static_path a' n segs c.
Proof.
  intros Hwf [Hl Hle]. revert n. induction segs as [|seg r IH]; intros n Hn; [done|].
  intros (m & Hm & Hname & Hp). destruct (nw_statics _ _ (Hwf n Hn) m Hm).
  exists m. split; [by apply (Hle n Hn)|]. split; [by rewrite (proj1 (Hle m ltac:(lia)))|].
  apply IH; [lia|done].
Qed.

Lemma child_static_path segs a n a' c :
  arena_wf a -> (n < length a)%nat -> Forall static_segment segs ->
  child_loop a n segs = (a', c) -> static_path a' n segs c.
Proof.
  intros Hwf Hn Hs. revert a n Hwf Hn. induction Hs as [|seg r (Hw & Hp & _) _ IH]; intros a n Hwf Hn.
  { by intros [= _ <-]. }
  cbn [child_loop]. rewrite Hw, Hp. destruct (find_or_create_static_child a n seg) as [a1 c1] eqn:E.
  destruct (create_static_spec _ _ _ _ _ Hwf Hn E) as (Hwf1 & Hle1 & Hc1 & Hin & Hname). intros H.
  destruct (child_loop_spec _ _ _ _ _ Hwf1 (proj2 Hc1) H) as (_ & [Hl Hle] & _).
  cbn [static_path]. exists c1. split; [by apply (Hle n ltac:(lia))|].
  split; [by rewrite (proj1 (Hle c1 ltac:(lia)))|]. by apply (IH a1); [|lia|].
Qed.

(** The text of a path. *)
Definition path_text (segs : list bytes) : bytes := join_with "/" segs.

Lemma static_segment_head seg : static_segment seg -> exists x r, seg = x :: r /\ x <> "/"%byte.
Proof.
  intros (Hw & _ & Hs). destruct seg as [|x r]; [done|]. exists x, r. split; [done|]. set_solver.
Qed.

Lemma path_text_cons seg segs :
  path_text (seg :: segs) = match segs with [] => seg | _ => seg ++ "/"%byte :: path_text segs end.
Proof. by destruct segs. Qed.

Lemma strip_path_text segs : Forall static_segment segs -> strip_slash (path_text segs) = path_text segs.
Proof.
  destruct 1 as [|seg segs Hs _]; [done|]. rewrite path_text_cons.
  destruct (static_segment_head seg Hs) as (x & r & -> & Hx).
  destruct segs; cbn; by rewrite (proj2 (byte_eqb_false x "/")).
Qed.

Lemma split_first seg segs :
  Forall static_segment (seg :: segs) ->
  match find_byte "/" (path_text (seg :: segs)) with
  | None => (path_text (seg :: segs), [])
  | Some slash => (take slash (path_text (seg :: segs)), drop (S slash) (path_text (seg :: segs)))
  end = (seg, path_text segs).
Proof.
  intros H. inversion H as [|? ? (_ & _ & Hs) _]; subst. rewrite path_text_cons. destruct segs as [|s r].
  - by rewrite (proj2 (find_byte_None _ _)).
  - by rewrite find_byte_app, take_app_length, drop_sep by done.
Qed.

Lemma match_static_path segs fuel a n st c :
  arena_wf a -> (n < length a)%nat -> Forall static_segment segs -> static_path a n segs c ->
  (length segs < fuel)%nat ->
  route_match fuel a n st (path_text segs) =
  Some (Some c, mk_route_state (rst_captures st) (rst_depth st + Z.of_nat (length segs))).
Proof.
  intros Hwf. revert fuel n st. induction segs as [|seg segs IH]; intros fuel n st Hn Hs Hp Hf.
  all: destruct fuel as [|f]; [cbn in Hf; lia|]; cbn [route_match].
  - cbn in Hp |- *. subst c. destruct st as [cp dp]. cbn. by rewrite Z.add_0_r.
  - rewrite (strip_path_text _ Hs). pose proof (split_first seg segs Hs) as Hsp.
    inversion Hs as [|? ? Hs1 Hs2]; subst.
    destruct (static_segment_head seg Hs1) as (x & r & Es & _).
    assert (exists y t, path_text (seg :: segs) = y :: t) as (y & t & Ept).
    { rewrite path_text_cons, Es. destruct segs; cbn; eauto. }
    rewrite Ept in Hsp |- *. rewrite Hsp. cbn [static_path] in Hp. destruct Hp as (m & Hm & Hname & Hp).
    pose proof (Hwf n Hn) as Hnw.
    rewrite (proj2 (find_static_child_spec a n seg m (nw_sorted _ _ Hnw))) by done.
    destruct (nw_statics _ _ Hnw m Hm). rewrite IH by (done || lia || cbn in Hf; lia).
    cbn [rst_captures rst_depth length]. do 3 f_equal. lia.
Qed.

(** A static path registered before is matched by its own text, whatever is
    registered later. *)
Lemma static_route_match segs a n a' a'' c st fuel :
  arena_wf a -> (n < length a)%nat -> Forall static_segment segs ->
  child a n ("/"%byte :: path_text segs) = (a', c) -> arena_le a' a'' -> arena_wf a'' ->
  (length segs < fuel)%nat ->
  route_match fuel a'' n st ("/"%byte :: path_text segs) =
  Some (Some c, mk_route_state (rst_captures st) (rst_depth st + Z.of_nat (length segs))).
Proof.
  intros Hwf Hn Hs Hc Hle Hwf'' Hf. unfold child in Hc.
  change (strip_slash ("/"%byte :: path_text segs)) with (path_text segs) in Hc.
  assert (tokens "/" (path_text segs) = segs) as Et.
  { apply tokens_join; (eapply Forall_impl; [exact Hs|]); [by intros s (_ & _ & ?)|].
    intros s Hs' ->. by destruct Hs'. }
  rewrite Et in Hc. pose proof (child_static_path _ _ _ _ _ Hwf Hn Hs Hc) as Hp.
  destruct (child_loop_spec _ _ _ _ _ Hwf Hn Hc) as (Hwf' & [Hl _] & _). pose proof Hle as [Hl' _].
  pose proof (static_path_le a' a'' n segs c Hwf' Hle ltac:(lia) Hp) as Hp'.
  rewrite <-(match_static_path segs fuel a'' n st c) by (done || lia).
  destruct fuel as [|f]; [lia|]. cbn [route_match].
  by rewrite (strip_path_text _ Hs).
Qed.

Lemma path_text_length segs : Forall static_segment segs -> (length segs <= length (path_text segs))%nat.
Proof.
  induction 1 as [|seg segs Hs _ IH]; [done|]. rewrite path_text_cons.
  destruct (static_segment_head seg Hs) as (x & r & -> & _). destruct segs; [cbn; lia|].
  rewrite length_app. cbn [length] in *. lia.
Qed.

(** ** What a match is *)

Definition first_segment (path : bytes) : bytes * bytes :=
  match find_byte "/" path with
  | None => (path, [])
  | Some slash => (take slash path, drop (S slash) path)
  end.

Definition descend (st : route_state) : route_state :=
  mk_route_state (rst_captures st) (rst_depth st + 1).

Definition capture (name value : bytes) (st : route_state) : route_state :=
  mk_route_state (cm_set name value (rst_captures st)) (rst_depth st).

(** [Match a n path st m st']: some branch of the trie leads from [n] to [m]
    along [path], turning [st] into [st']. *)
Inductive Match a : nat -> bytes -> route_state -> nat -> route_state -> Prop :=
| Match_here n path st : strip_slash path = [] -> Match a n path st n st
| Match_static n path st c m st' :
    strip_slash path <> [] -> c ∈ rn_statics (node a n) ->
    name_of a c = (first_segment (strip_slash path)).1 ->
    Match a c (first_segment (strip_slash path)).2 (descend st) m st' -> Match a n path st m st'
| Match_param n path st p m st' :
    strip_slash path <> [] -> p ∈ rn_params (node a n) ->
    accepts a p (first_segment (strip_slash path)).1 = true ->
    Match a p (first_segment (strip_slash path)).2
      (capture (name_of a p) (first_segment (strip_slash path)).1 (descend st)) m st' ->
    Match a n path st m st'
| Match_wildcard n path st w :
    strip_slash path <> [] -> rn_wildcard (node a n) = Some w ->
    Match a n path st w (capture (name_of a w) (strip_slash path) (descend st)).

Lemma strip_slash_length path : (length (strip_slash path) <= length path)%nat.
Proof. destruct path as [|c r]; cbn; [done|]. case_if; cbn; lia. Qed.

Lemma first_segment_shorter path : path <> [] -> (length (first_segment path).2 < length path)%nat.
Proof.
  intros Hp. unfold first_segment. destruct (find_byte "/" path) as [i|] eqn:E; cbn.
  - rewrite length_drop. apply find_byte_lt in E. lia.
  - destruct path; [done|]. cbn. lia.
Qed.

(** [route_match] in terms of the helpers above. *)
Lemma route_match_eq f a n st path :
  route_match (S f) a n st path =
  let p := strip_slash path in
  if bytes_eqb p [] then Some (Some n, st)
  else
    let '(seg, rest) := first_segment p in
    let rest_of :=
      match best_param (fun q trial => route_match f a q trial rest) a seg (descend st)
              (rn_params (node a n)) None with
      | None => None
      | Some (Some (m, b)) => Some (Some m, b)
      | Some None =>
          match rn_wildcard (node a n) with
          | Some w => Some (Some w, capture (name_of a w) p (descend st))
          | None => Some (None, descend st)
          end
      end in
    match find_static_child a n seg with
    | Some c => match route_match f a c (descend st) rest with
                | None => None
                | Some (Some m, trial) => Some (Some m, trial)
                | Some (None, _) => rest_of
                end
    | None => rest_of
    end.
Proof.
  cbn [route_match]. cbv zeta. destruct (strip_slash path) as [|x r]; [done|]. done.
Qed.

(** The parameter loop: it returns with the first of the deepest candidates. *)
Lemma best_param_spec rec a seg st ps best :
  (forall p, p ∈ ps -> accepts a p seg = true ->
     is_Some (rec p (capture (name_of a p) seg st))) ->
  exists r, best_param rec a seg st ps best = Some r /\
    (r = best \/ exists p m t, r = Some (m, t) /\ p ∈ ps /\ accepts a p seg = true /\
       rec p (capture (name_of a p) seg st) = Some (Some m, t)) /\
    (forall m t, best = Some (m, t) -> exists m' t', r = Some (m', t') /\ rst_depth t <= rst_depth t') /\
    (forall p m t, p ∈ ps -> accepts a p seg = true ->
       rec p (capture (name_of a p) seg st) = Some (Some m, t) ->
       exists m' t', r = Some (m', t') /\ rst_depth t <= rst_depth t').
Proof.
  revert best. induction ps as [|p ps IH]; intros best Hrec; cbn [best_param].
  { exists best. split; [done|]. split; [by left|]. split; [eauto with lia|]. set_solver. }
  fold (capture (name_of a p) seg st).
  assert (forall q, q ∈ ps -> accepts a q seg = true -> is_Some (rec q (capture (name_of a q) seg st))) as Hrec'
    by (intros q Hq; apply Hrec; by right).
  destruct (accepts a p seg) eqn:Ea.
  2:{ destruct (IH best Hrec') as (r & Er & H1 & H2 & H3). exists r. split; [done|].
      split; [|split; [done|]].
      - destruct H1 as [->|(q & m & t & ? & ? & ? & ?)]; [by left|]. right. exists q, m, t. set_solver.
      - intros q m t [->|Hq]%elem_of_cons Hacc; [congruence|]. by apply (H3 q m t). }
  destruct (Hrec p ltac:(by left) Ea) as [[[m|] t] Et]; rewrite Et.
  2:{ destruct (IH best Hrec') as (r & Er & H1 & H2 & H3). exists r. split; [done|].
      split; [|split; [done|]].
      - destruct H1 as [->|(q & m & t' & ? & ? & ? & ?)]; [by left|]. right. exists q, m, t'. set_solver.
      - intros q m t' [->|Hq]%elem_of_cons Hacc Hq'; [congruence|]. by apply (H3 q m). }
  destruct (IH (if deeper t best then Some (m, t) else best) Hrec') as (r & Er & H1 & H2 & H3).
  exists r. split; [done|]. destruct (deeper t best) eqn:Ed.
  - split; [|split].
    + right. destruct H1 as [->|(q & m' & t' & ? & ? & ? & ?)]; [exists p, m, t|exists q, m', t']; set_solver.
    + intros m0 t0 ->. cbn in Ed. apply Z.ltb_lt in Ed.
      destruct (H2 m t eq_refl) as (m' & t' & -> & ?). exists m', t'. split; [done|lia].
    + intros q m' t' [->|Hq]%elem_of_cons Hacc Hq'; [|by apply (H3 q m')].
      assert (m' = m /\ t' = t) as [-> ->] by (split; congruence). by apply (H2 m t).
  - destruct best as [[mb tb]|]; [|done]. cbn in Ed. apply Z.ltb_ge in Ed. split; [|split].
    + destruct H1 as [->|(q & m' & t' & ? & ? & ? & ?)]; [by left|]. right. exists q, m', t'. set_solver.
    + intros m0 t0 [= <- <-]. by apply (H2 mb tb).
    + intros q m' t' [->|Hq]%elem_of_cons Hacc Hq'; [|by apply (H3 q m')].
      assert (t' = t) as -> by congruence.
      destruct (H2 mb tb eq_refl) as (m2 & t2 & -> & ?). exists m2, t2. split; [done|lia].
Qed.

(** [route_match] always returns: the path length is enough fuel. *)
Lemma route_match_total fuel a n st path :
  (length path < fuel)%nat -> is_Some (route_match fuel a n st path).
Proof.
  revert n st path. induction fuel as [|f IH]; intros n st path Hf; [lia|].
  rewrite route_match_eq. cbv zeta. pose proof (strip_slash_length path).
  case_if; [by eexists|]. apply bytes_eqb_false in Heqb. pose proof (first_segment_shorter _ Heqb).
  destruct (first_segment (strip_slash path)) as [seg rest]. cbn in *.
  assert (forall q trial, is_Some (route_match f a q trial rest)) as Hrec by (intros; apply IH; lia).
  destruct (best_param_spec (fun q trial => route_match f a q trial rest) a seg (descend st)
    (rn_params (node a n)) None) as (r & -> & _); [by intros|].
  assert (is_Some (match r with
    | Some (m, b) => Some (Some m, b)
    | None => match rn_wildcard (node a n) with
              | Some w => Some (Some w, capture (name_of a w) (strip_slash path) (descend st))
              | None => Some (None, descend st) end end)) as Hr.
  { destruct r as [[? ?]|]; [by eexists|]. destruct (rn_wildcard _); by eexists. }
  destruct (find_static_child a n seg) as [c|]; [|done].
  destruct (Hrec c (descend st)) as [[[m|] t] ->]; [by eexists|done].
Qed.

Lemma best_param_from rec a seg st ps best m t :
  best_param rec a seg st ps best = Some (Some (m, t)) ->
  best = Some (m, t) \/ exists p, p ∈ ps /\ accepts a p seg = true /\
    rec p (capture (name_of a p) seg st) = Some (Some m, t).
Proof.
  revert best. induction ps as [|p ps IH]; intros best; cbn [best_param]; [intros [= ->]; by left|].
  fold (capture (name_of a p) seg st). destruct (accepts a p seg) eqn:Ea.
  - destruct (rec p (capture (name_of a p) seg st)) as [[[m0|] t0]|] eqn:Er; [| |done].
    + intros [Hb|(q & Hq & ?)]%IH; [|right; exists q; set_solver].
      destruct (deeper t0 best); [|by left]. injection Hb as -> ->. right. exists p. set_solver.
    + intros [?|(q & Hq & ?)]%IH; [by left|right; exists q; set_solver].
  - intros [?|(q & Hq & ?)]%IH; [by left|right; exists q; set_solver].
Qed.

(** A static match only pre-empts another match. *)
Lemma static_first (s : option nat) (rm : nat -> option (option nat * route_state)) m t :
  (forall c, s = Some c -> is_Some (rm c)) ->
  exists m' t', match s with
    | Some c => match rm c with
                | None => None
                | Some (Some m, trial) => Some (Some m, trial)
                | Some (None, _) => Some (Some m, t)
                end
    | None => Some (Some m, t)
    end = Some (Some m', t').
Proof.
  intros H. destruct s as [c|]; [|by eexists _, _].
  destruct (H c eq_refl) as [[[m1|] t1] ->]; by eexists _, _.
Qed.

(** C5: A node returned by route_match is one the declarative matching relation allows for the
    path (static, parameter whose predicate accepts, or wildcard steps), with exactly the
    captures and depth of that derivation. *)
Theorem route_match_sound fuel a n st path m st' :
  arena_wf a -> (n < length a)%nat ->
  route_match fuel a n st path = Some (Some m, st') -> Match a n path st m st'.
Proof.
  intros Hwf. revert n st path m st'. induction fuel as [|f IH]; intros n st path m st' Hn; [done|].
  rewrite route_match_eq. cbv zeta. case_if.
  { apply bytes_eqb_true in Heqb. intros [= <- <-]. by constructor. }
  apply bytes_eqb_false in Heqb. pose proof (Hwf n Hn) as Hnw.
  destruct (first_segment (strip_slash path)) as [seg rest] eqn:Efs.
  assert (match best_param (fun q trial => route_match f a q trial rest) a seg (descend st)
            (rn_params (node a n)) None with
    | None => None
    | Some (Some (m, b)) => Some (Some m, b)
    | Some None => match rn_wildcard (node a n) with
          | Some w => Some (Some w, capture (name_of a w) (strip_slash path) (descend st))
          | None => Some (None, descend st) end end = Some (Some m, st') -> Match a n path st m st') as Hpw.
  { destruct (best_param _ _ _ _ _ _) as [[[m0 b]|]|] eqn:Eb; [| |done].
    - intros [= <- <-]. apply best_param_from in Eb as [|(p & Hp & Ha & Hm)]; [done|].
      eapply Match_param; rewrite ?Efs; try done. cbn. apply IH in Hm; [done|].
      by apply (nw_params _ _ Hnw).
    - destruct (rn_wildcard (node a n)) as [w|] eqn:Ew; [|done]. intros [= <- <-].
      by apply Match_wildcard. }
  destruct (find_static_child a n seg) as [c|] eqn:Ec; [|done].
  apply find_static_child_spec in Ec as [Hin Hname]; [|apply Hnw].
  destruct (route_match f a c (descend st) rest) as [[[m0|] t]|] eqn:Em; [|done|done].
  intros [= <- <-]. eapply Match_static; rewrite ?Efs; try done. cbn. apply IH; [|done].
  by apply (nw_statics _ _ Hnw).
Qed.

(** C6: If the matching relation has any derivation for a path, route_match with fuel above the
    path's length returns a match: backtracking from static to parameter to wildcard branches
    misses nothing. *)
Theorem route_match_complete fuel a n st path m st' :
  arena_wf a -> (n < length a)%nat -> (length path < fuel)%nat -> Match a n path st m st' ->
  exists m' st'', route_match fuel a n st path = Some (Some m', st'').
Proof.
  intros Hwf Hn Hf HM. revert fuel Hn Hf.
  induction HM as [n path st E|n path st c m st' E Hc Hname HM IH|n path st p m st' E Hp Ha HM IH
    |n path st w E Hw]; intros fuel Hn Hf; destruct fuel as [|f]; try lia; rewrite route_match_eq; cbv zeta.
  { rewrite E. by eexists _, _. }
  all: rewrite (proj2 (bytes_eqb_false _ _) E); pose proof (Hwf n Hn) as Hnw;
    pose proof (strip_slash_length path); pose proof (first_segment_shorter _ E);
    destruct (first_segment (strip_slash path)) as [seg rest]; cbn [fst snd] in *.
  all: destruct (best_param_spec (fun q trial => route_match f a q trial rest) a seg (descend st)
      (rn_params (node a n)) None) as (r & -> & _ & _ & Hbest);
      [intros; apply route_match_total; lia|].
  - rewrite (proj2 (find_static_child_spec a n seg c (nw_sorted _ _ Hnw))) by done.
    destruct (IH f) as (m' & t & ->); [by apply (nw_statics _ _ Hnw)|lia|]. by eexists _, _.
  - destruct (IH f) as (m' & t & Hm); [by apply (nw_params _ _ Hnw)|lia|].
    destruct (Hbest p m' t Hp Ha Hm) as (m2 & t2 & -> & _).
    apply (static_first _ (fun c => route_match f a c (descend st) rest)).
    intros; apply route_match_total; lia.
  - rewrite Hw. destruct r as [[m2 t2]|]; apply (static_first _ (fun c => route_match f a c (descend st) rest));
      intros; apply route_match_total; lia.
Qed.

(** Among the parameter children that accept a segment, the match returned is at least as deep as
    every other successful candidate, when no static child of that segment matches. *)
Lemma route_match_deepest f a n st path m st' :
  arena_wf a -> (n < length a)%nat -> strip_slash path <> [] -> (length path <= f)%nat ->
  let '(seg, rest) := first_segment (strip_slash path) in
  (forall c, c ∈ rn_statics (node a n) -> name_of a c = seg ->
     exists t, route_match f a c (descend st) rest = Some (None, t)) ->
  route_match (S f) a n st path = Some (Some m, st') ->
  forall p m' t', p ∈ rn_params (node a n) -> accepts a p seg = true ->
    route_match f a p (capture (name_of a p) seg (descend st)) rest = Some (Some m', t') ->
    rst_depth t' <= rst_depth st'.
Proof.
  intros Hwf Hn E Hf. pose proof (strip_slash_length path). pose proof (first_segment_shorter _ E).
  rewrite route_match_eq. cbv zeta. rewrite (proj2 (bytes_eqb_false _ _) E).
  destruct (first_segment (strip_slash path)) as [seg rest]. cbn [fst snd] in *.
  intros Hst Hm p m' t' Hp Ha Hm'.
  destruct (best_param_spec (fun q trial => route_match f a q trial rest) a seg (descend st)
    (rn_params (node a n)) None) as (r & Er & _ & _ & Hbest); [intros; apply route_match_total; lia|].
  destruct (Hbest p m' t' Hp Ha Hm') as (m2 & t2 & -> & Hle). rewrite Er in Hm.
  destruct (find_static_child a n seg) as [c|] eqn:Ec; [|by simplify_eq].
  apply find_static_child_spec in Ec as [Hin Hname]; [|apply (Hwf n Hn)].
  destruct (Hst c Hin Hname) as [t Et]. rewrite Et in Hm. by simplify_eq.
Qed.

(** On failure the state is not restored: its depth has been incremented. *)
Lemma route_match_failure_depth f a n st path st' :
  strip_slash path <> [] -> route_match (S f) a n st path = Some (None, st') -> st' = descend st.
Proof.
  intros E. rewrite route_match_eq. cbv zeta. rewrite (proj2 (bytes_eqb_false _ _) E).
  destruct (first_segment (strip_slash path)) as [seg rest].
  destruct (best_param _ _ _ _ _ _) as [[[m0 b]|]|], (find_static_child a n seg) as [c|];
    try destruct (route_match f a c (descend st) rest) as [[[m1|] t]|]; try done;
    destruct (rn_wildcard (node a n)); try done; by intros [= <-].
Qed.

(** ** Targets *)

Definition entries_wf (l : list (method_target_entry target)) : Prop :=
  Forall (fun e => mte_id e = hm_id (http_method_of (mte_name e))) l.

Lemma entry_is_method m (e : method_target_entry target) :
  hm_wf m -> mte_id e = hm_id (http_method_of (mte_name e)) ->
  entry_is (hm_id m) (hm_name m) e = hm_eqb (http_method_of (mte_name e)) m.
Proof.
  intros Hm He. apply eq_true_iff_eq.
  rewrite (hm_id_decides _ _ (http_method_of_wf _) Hm), <-He, hm_name_of.
  unfold entry_is. rewrite andb_true_iff, bool_decide_eq_true, orb_true_iff, negb_true_iff,
    bool_decide_eq_false, bytes_eqb_true.
  split; intros [E H]; (split; [done|]); rewrite E in *; [tauto|].
  destruct (decide (hm_id m = id_custom)); [right; auto|by left].
Qed.

Lemma put_target_wf m t l :
  hm_wf m -> entries_wf l -> entries_wf (put_target (hm_id m) (hm_name m) t l).
Proof.
  intros Hm. induction 1 as [|e r He Hr IH]; cbn [put_target].
  - constructor; [|constructor]. cbn. f_equal. exact Hm.
  - case_if; constructor; done.
Qed.

Lemma hm_eqb_trans_l x m m' : hm_eqb x m = true -> hm_eqb x m' = hm_eqb m m'.
Proof. unfold hm_eqb. by intros ->%bytes_eqb_true. Qed.

Lemma find_put_target m m' t l :
  hm_wf m -> hm_wf m' -> entries_wf l ->
  find_target (hm_id m') (hm_name m') (put_target (hm_id m) (hm_name m) t l) =
  if hm_eqb m m' then Some t else find_target (hm_id m') (hm_name m') l.
Proof.
  intros Hm Hm'. induction 1 as [|e r He Hr IH]; cbn [put_target find_target].
  - rewrite entry_is_method by (try done; cbn; f_equal; exact Hm). cbn [mte_name mte_target].
    unfold hm_wf in Hm. by rewrite <-Hm.
  - rewrite (entry_is_method m e) by done. case_if; cbn [find_target mte_target].
    + rewrite !entry_is_method by done. cbn [mte_name]. rewrite (hm_eqb_trans_l _ _ m' Heqb).
      by destruct (hm_eqb m m').
    + rewrite (entry_is_method m' e) by done. rewrite IH.
      destruct (hm_eqb (http_method_of (mte_name e)) m') eqn:E2; [|done].
      destruct (hm_eqb m m') eqn:E3; [|done].
      unfold hm_eqb in *. apply bytes_eqb_true in E2, E3. apply bytes_eqb_false in Heqb. congruence.
Qed.

Lemma target_after_set a n m m' t :
  (n < length a)%nat -> hm_wf m -> hm_wf m' -> entries_wf (rn_targets (node a n)) ->
  get_target (route_method a n m t) n m' =
  (if hm_eqb m m' then Some t else get_target a n m') /\
  entries_wf (rn_targets (node (route_method a n m t) n)).
Proof.
  intros Hn Hm Hm' Hl. unfold get_target, route_method, set_target. rewrite node_update_eq by done.
  cbn. split; [by apply find_put_target|by apply put_target_wf].
Qed.

(** Setting a target changes nothing else of the trie. *)
Lemma set_target_keeps a n id name t :
  arena_wf a -> arena_wf (set_target a n id name t) /\ arena_le a (set_target a n id name t).
Proof. intros. by apply update_leaf_wf. Qed.

Lemma set_target_middlewares a n m t :
  (n < length a)%nat -> rn_middlewares (node (route_method a n m t) n) = rn_middlewares (node a n).
Proof. intros. unfold route_method, set_target. by rewrite node_update_eq. Qed.

Lemma set_target_has_any a n m t : (n < length a)%nat -> has_any_target (route_method a n m t) n = true.
Proof.
  intros. unfold has_any_target, route_method, set_target. rewrite node_update_eq by done. cbn.
  destruct (rn_targets (node a n)) as [|e r]; [done|]. cbn. by destruct (entry_is _ _ e).
Qed.

(** [any] registers the target under each of the seven methods, and under no other. *)
Lemma route_any_targets a n t m :
  (n < length a)%nat -> hm_wf m -> entries_wf (rn_targets (node a n)) ->
  get_target (route_any a n t) n m =
  if existsb (fun x => hm_eqb x m) all_methods then Some t else get_target a n m.
Proof.
  intros Hn Hm He. unfold route_any.
  assert (Forall hm_wf all_methods) as Hall by (repeat constructor).
  enough (forall ms a, (n < length a)%nat -> entries_wf (rn_targets (node a n)) -> Forall hm_wf ms ->
    get_target (fold_left (fun a x => set_target a n (hm_id x) (hm_name x) t) ms a) n m =
    if existsb (fun x => hm_eqb x m) ms then Some t else get_target a n m) as H by by apply H.
  clear a Hn He Hall. induction ms as [|x ms IH]; intros a Hn He Hall; [done|].
  inversion Hall; subst. cbn [fold_left existsb].
  destruct (target_after_set a n x m t) as [Hg He']; [done..|]. unfold route_method in Hg, He'.
  rewrite IH; [|by unfold set_target; rewrite length_update|done..].
  rewrite Hg. by destruct (hm_eqb x m), (existsb _ ms).
Qed.
End Facts.

(** ** A concrete trie: [/users/:id], [/:kind/list] and [/:any/:id/edit] *)
Definition demo_arena : list (route_node nat nat) :=
  fst (child (fst (child (fst (child arena_new 0 (str "/users/:id"))) 0 (str "/:kind/list"))) 0 (str "/:any/:id/edit")).

Lemma demo_arena_wf : arena_wf demo_arena /\ (0 < length demo_arena)%nat.
Proof.
  unfold demo_arena.
  assert (forall (a : list (route_node nat nat)) path, arena_wf a /\ (0 < length a)%nat ->
    arena_wf (fst (child a 0 path)) /\ (0 < length (fst (child a 0 path)))%nat) as Hstep.
  { intros a path [Hw Hl]. destruct (child a 0 path) as [a' c] eqn:E.
    destruct (child_preserves_wf a 0 path a' c Hw Hl E) as (? & [? _] & _). cbn. split; [done|lia]. }
  do 3 apply Hstep. split; [apply arena_new_wf|cbn; lia].
Qed.

Lemma route_match_sound_witness :
  exists m st', route_match 20 demo_arena 0 route_state_init (str "/users/7") = Some (Some m, st') /\
    cm_at (str ":id") (rst_captures st') = Some (str "7") /\
    Match demo_arena 0 (str "/users/7") route_state_init m st'.
Proof.
  destruct demo_arena_wf as [Hw Hl]. eexists _, _. split; [vm_compute; reflexivity|]. split; [reflexivity|].
  apply (route_match_sound 20 demo_arena 0 route_state_init (str "/users/7") _ _ Hw Hl). vm_compute. reflexivity.
Defined.

Lemma route_match_complete_witness :
  exists m' st'', route_match 20 demo_arena 0 route_state_init (str "/users/7") = Some (Some m', st'').
Proof.
  destruct demo_arena_wf as [Hw Hl].
  eapply (route_match_complete 20 demo_arena 0 route_state_init (str "/users/7") _ _ Hw Hl);
    [apply Nat.ltb_lt; vm_compute; reflexivity|].
  eapply (Match_static _ _ _ _ 1); [done|apply (bool_decide_unpack _); vm_compute; reflexivity|reflexivity|].
  eapply (Match_param _ _ _ _ 2); [done|apply (bool_decide_unpack _); vm_compute; reflexivity|reflexivity|].
  apply Match_here. reflexivity.
Defined.

(** [/a/b/edit] is served by the three-level route, deeper than [/:kind/list]. *)
Lemma route_match_deepest_witness :
  exists m st', route_match 21 demo_arena 0 route_state_init (str "/a/b/edit") = Some (Some m, st') /\
    rst_depth st' = 3 /\
    forall m' t', route_match 20 demo_arena 5 (capture (str ":any") (str "a") (descend route_state_init))
                    (str "b/edit") = Some (Some m', t') -> rst_depth t' <= rst_depth st'.
Proof.
  destruct demo_arena_wf as [Hw Hl]. eexists _, _. split; [vm_compute; reflexivity|]. split; [reflexivity|].
  intros m' t' H'.
  pose proof (route_match_deepest 20 demo_arena 0 route_state_init (str "/a/b/edit") 7
    (mk_route_state [(str ":any", str "a"); (str ":id", str "b")] 3) Hw Hl) as H.
  cbn iota beta in H.
  eapply H; [done|apply Nat.leb_le; reflexivity| |reflexivity| | |exact H'].
  - intros c Hc Hn. vm_compute in Hc. apply list_elem_of_singleton in Hc as ->. by vm_compute in Hn.
  - apply (bool_decide_unpack _). vm_compute. reflexivity.
  - reflexivity.
Defined.
