(* ===== verification/Group.v ===== *)
(** * Group: src/router/middleware.cpp, group_proxy.cpp and facade.hpp

    Middleware chains, and the group proxies of the registration facade.  A
    facade is a shared object, either a trie node or a proxy; a proxy records
    references to the facades touched through it, so proxies live in a heap
    beside the arena of nodes. *)

From Stdlib Require Import FunctionalExtensionality.
From S2P Require Import Prelude Bytes Method Route RouteFacts.

#[local] Open Scope Z_scope.

(** ** middleware_stack *)
Section Middleware.
Context {request response : Type}.

Definition target : Type := request -> response.
Definition next_fn : Type := request -> response.
Definition middleware : Type := request -> next_fn -> response.

Definition stack_prepend (m : middleware) (stack : list middleware) : list middleware := m :: stack.
Definition stack_append (m : middleware) (stack : list middleware) : list middleware := stack ++ [m].

(** [invoke(index, req, final_target)]. *)
Fixpoint invoke (fuel : nat) (stack : list middleware) (index : nat) (final_target : target)
    (req : request) : response :=
  match fuel, stack !! index with
  | S f, Some m => m req (fun r => invoke f stack (index + 1) final_target r)
  | _, _ => final_target req
  end.

Definition stack_handle (stack : list middleware) (final_target : target) (req : request) : response :=
  invoke (length stack) stack 0 final_target req.

(** The chain as one composed handler, outermost first. *)
Definition compose (stack : list middleware) (final_target : target) : target :=
  foldr (fun (m : middleware) (next : next_fn) (r : request) => m r next) final_target stack.

Lemma invoke_suffix pre stack final_target :
  invoke (length stack) (pre ++ stack) (length pre) final_target = compose stack final_target.
Proof.
  revert pre. induction stack as [|m r IH]; intros pre; apply functional_extensionality; intros req;
    cbn [length invoke compose foldr]; [done|].
  rewrite list_lookup_middle by done. f_equal.
  specialize (IH (pre ++ [m])). rewrite <-app_assoc, length_app in IH. exact IH.
Qed.

Lemma stack_handle_compose stack final_target req :
  stack_handle stack final_target req = compose stack final_target req.
Proof. unfold stack_handle. by rewrite (invoke_suffix [] stack). Qed.

(** Each middleware sees exactly the rest of the stack as its continuation. *)
Lemma stack_handle_nests pre m post final_target req :
  stack_handle (pre ++ m :: post) final_target req =
  stack_handle pre (fun r => m r (stack_handle post final_target)) req.
Proof.
  rewrite !stack_handle_compose. unfold compose. rewrite foldr_app. cbn [foldr].
  f_equal. apply functional_extensionality. intros r. f_equal.
  apply functional_extensionality. intros q. symmetry. apply (stack_handle_compose post).
Qed.

(** A middleware that never calls [next] cuts off everything inside it. *)
Lemma stack_handle_short_circuit pre m post final_target req resp :
  (forall r k, m r k = resp) -> pre = [] ->
  stack_handle (pre ++ m :: post) final_target req = resp.
Proof. intros Hm ->. unfold stack_handle. cbn. apply Hm. Qed.
End Middleware.

(** ** Facades *)
Section Facade.
Context {target middleware : Type}.
Abbreviation arena := (list (route_node target middleware)).

Inductive facade_ref := FRoute (n : nat) | FProxy (p : nat).

Record group_proxy := mk_proxy { gp_inner : facade_ref; gp_touched : list facade_ref }.

Record heap := mk_heap { hp_arena : arena; hp_proxies : list group_proxy }.

Definition proxy (h : heap) (p : nat) : group_proxy := default (mk_proxy (FProxy p) []) (hp_proxies h !! p).

(** [touched_.push_back(f)]. *)
Definition touch (p : nat) (f : facade_ref) (h : heap) : heap :=
  mk_heap (hp_arena h) (alter (fun g => mk_proxy (gp_inner g) (gp_touched g ++ [f])) p (hp_proxies h)).

Definition with_arena (g : arena -> arena) (h : heap) : heap := mk_heap (g (hp_arena h)) (hp_proxies h).

(** The virtual calls; [fuel] bounds the chain of proxies they go through. *)
Fixpoint resolve (fuel : nat) (h : heap) (f : facade_ref) (path : bytes) : option (heap * facade_ref) :=
  match f with
  | FRoute n => let '(a, c) := child (hp_arena h) n path in Some (mk_heap a (hp_proxies h), FRoute c)
  | FProxy p => match fuel with O => None | S k => resolve k h (gp_inner (proxy h p)) path end
  end.

Fixpoint facade_any (fuel : nat) (h : heap) (f : facade_ref) (t : target) : option heap :=
  match f with
  | FRoute n => Some (with_arena (fun a => route_any a n t) h)
  | FProxy p =>
      match fuel with
      | O => None
      | S k => let inner := gp_inner (proxy h p) in facade_any k (touch p inner h) inner t
      end
  end.

Fixpoint facade_method (fuel : nat) (h : heap) (f : facade_ref) (m : http_method) (t : target)
  : option heap :=
  match f with
  | FRoute n => Some (with_arena (fun a => route_method a n m t) h)
  | FProxy p =>
      match fuel with
      | O => None
      | S k => let inner := gp_inner (proxy h p) in facade_method k (touch p inner h) inner m t
      end
  end.

(** The path-qualified forms record the resolved node. *)
Definition facade_any_at (fuel : nat) (h : heap) (f : facade_ref) (path : bytes) (t : target)
  : option heap :=
  match f with
  | FRoute n => Some (with_arena (fun a => route_any_at a n path t) h)
  | FProxy p =>
      '(h1, r) ← resolve fuel h (gp_inner (proxy h p)) path;
      facade_any fuel (touch p r h1) r t
  end.

Definition facade_method_at (fuel : nat) (h : heap) (f : facade_ref) (m : http_method) (path : bytes)
    (t : target) : option heap :=
  match f with
  | FRoute n => Some (with_arena (fun a => route_method_at a n m path t) h)
  | FProxy p =>
      '(h1, r) ← resolve fuel h (gp_inner (proxy h p)) path;
      facade_method fuel (touch p r h1) r m t
  end.

Fixpoint facade_param (fuel : nat) (h : heap) (f : facade_ref) (name : bytes) (pred : bytes -> bool)
  : option heap :=
  match f with
  | FRoute n => Some (with_arena (fun a => route_param a n name pred) h)
  | FProxy p => match fuel with O => None | S k => facade_param k h (gp_inner (proxy h p)) name pred end
  end.

(** [prepend] (when [front]) and [append]: a proxy passes the middleware on to
    every facade it recorded. *)
Fixpoint facade_middleware (front : bool) (fuel : nat) (h : heap) (f : facade_ref) (m : middleware)
  : option heap :=
  match f with
  | FRoute n => Some (with_arena (fun a => if front then route_prepend a n m else route_append a n m) h)
  | FProxy p =>
      match fuel with
      | O => None
      | S k =>
          fold_left (fun oh g => h' ← oh; facade_middleware front k h' g m)
            (gp_touched (proxy h p)) (Some h)
      end
  end.

Definition facade_prepend := facade_middleware true.
Definition facade_append := facade_middleware false.

(** [group(body)]: a fresh proxy, the body run against it, and the proxy
    returned; a proxy also records the nested group. *)
Definition facade_group (h : heap) (f : facade_ref) (body : heap -> facade_ref -> option heap)
  : option (heap * facade_ref) :=
  let p := length (hp_proxies h) in
  let h1 := mk_heap (hp_arena h) (hp_proxies h ++ [mk_proxy f []]) in
  h2 ← body h1 (FProxy p);
  Some (match f with FRoute _ => h2 | FProxy q => touch q (FProxy p) h2 end, FProxy p).

(** ** Fan-out *)

Definition middlewares_of (h : heap) (n : nat) : list middleware := rn_middlewares (node (hp_arena h) n).

(** How many times node [n] is among the recorded facades. *)
Fixpoint touches (n : nat) (fs : list facade_ref) : nat :=
  match fs with
  | [] => 0
  | FRoute i :: r => if (i =? n)%nat then S (touches n r) else touches n r
  | FProxy _ :: r => touches n r
  end.

Definition is_route (f : facade_ref) : Prop := match f with FRoute _ => True | FProxy _ => False end.

Lemma append_route_middlewares (a : arena) i n m :
  (n < length a)%nat ->
  rn_middlewares (node (route_append a i m) n) =
  rn_middlewares (node a n) ++ (if (i =? n)%nat then [m] else []).
Proof.
  intros Hn. unfold route_append. destruct (Nat.eqb_spec i n) as [->|Hne].
  - by rewrite node_update_eq.
  - by rewrite node_update_ne, app_nil_r.
Qed.

Lemma fan_out_append k fs h m n :
  Forall is_route fs -> (n < length (hp_arena h))%nat ->
  exists h', fold_left (fun oh g => h' ← oh; facade_middleware false k h' g m) fs (Some h) = Some h' /\
    middlewares_of h' n = middlewares_of h n ++ replicate (touches n fs) m /\
    hp_proxies h' = hp_proxies h.
Proof.
  intros Hfs. revert h. induction Hfs as [|f fs Hf _ IH]; intros h Hn; cbn [fold_left touches].
  { exists h. by rewrite app_nil_r. }
  destruct f as [i|]; [|done]. cbn [mbind option_bind].
  assert (facade_middleware false k h (FRoute i) m = Some (with_arena (fun a => route_append a i m) h)) as ->
    by (by destruct k).
  destruct (IH (with_arena (fun a => route_append a i m) h)) as (h' & -> & Hm & Hp).
  { cbn. unfold route_append. by rewrite length_update. }
  exists h'. split; [done|]. split; [|done]. rewrite Hm. unfold middlewares_of. cbn [hp_arena with_arena].
  rewrite append_route_middlewares by done. rewrite <-app_assoc. by destruct (i =? n)%nat.
Qed.

(** Appending a middleware to a group adds it to every route recorded in the group, once per
    recorded registration, after its existing middlewares. *)
Lemma group_append_fans_out fuel h p m n :
  Forall is_route (gp_touched (proxy h p)) -> (n < length (hp_arena h))%nat ->
  exists h', facade_append (S fuel) h (FProxy p) m = Some h' /\
    middlewares_of h' n = middlewares_of h n ++ replicate (touches n (gp_touched (proxy h p))) m.
Proof.
  intros Hr Hn. destruct (fan_out_append fuel (gp_touched (proxy h p)) h m n Hr Hn) as (h' & E & Hm & _).
  by exists h'.
Qed.
End Facade.
Arguments heap : clear implicits.
Arguments mk_heap {target middleware} hp_arena hp_proxies.

(** ** Two consequences of recording every call *)

(** Two registrations on one path inside a group make a group middleware run
    twice for it. *)
Lemma group_duplicates_middleware {target middleware : Type} (t : target) (m : middleware) :
  let h0 := mk_heap arena_new [] in
  let body h g :=
    h1 ← facade_method_at 2 h g GET (str "/a") t; facade_method_at 2 h1 g POST (str "/a") t in
  exists h1 h2, facade_group h0 (FRoute 0) body = Some (h1, FProxy 0) /\
    facade_append 2 h1 (FProxy 0) m = Some h2 /\ middlewares_of h2 1 = [m; m].
Proof. eexists _, _. split; [reflexivity|]. split; reflexivity. Qed.

(** Two proxies that record each other. *)
Definition cyclic_proxies : list group_proxy :=
  [mk_proxy (FRoute 0) [FRoute 0; FProxy 1]; mk_proxy (FProxy 0) [FProxy 0]].

Lemma cyclic_append_diverges {target middleware : Type} fuel
    (a : list (route_node target middleware)) (m : middleware) :
  facade_append fuel (mk_heap a cyclic_proxies) (FProxy 0) m = None /\
  facade_append fuel (mk_heap a cyclic_proxies) (FProxy 1) m = None.
Proof.
  revert a. induction fuel as [|f IH]; intros a; [done|]. split.
  - change (facade_append (S f) (mk_heap a cyclic_proxies) (FProxy 0) m) with
      (h' ← facade_append f (mk_heap a cyclic_proxies) (FRoute 0) m; facade_append f h' (FProxy 1) m).
    destruct f; [done|]. cbn [facade_append facade_middleware mbind option_bind]. apply IH.
  - change (facade_append (S f) (mk_heap a cyclic_proxies) (FProxy 1) m) with
      (facade_append f (mk_heap a cyclic_proxies) (FProxy 0) m). apply IH.
Qed.

(** A registration without a path inside a nested group makes the two proxies
    record each other: a later middleware on the outer group never returns. *)
Lemma nested_group_append_diverges {target middleware : Type} (t : target) (m : middleware) :
  let h0 := mk_heap arena_new [] in
  let inner h g := facade_method 3 h g GET t in
  let outer h g := '(h', _) ← facade_group h g inner; Some h' in
  exists h1, facade_group h0 (FRoute 0) outer = Some (h1, FProxy 0) /\
    forall fuel, facade_append fuel h1 (FProxy 0) m = None.
Proof.
  exists (mk_heap (route_method arena_new 0 GET t) cyclic_proxies). split; [reflexivity|].
  intros fuel. apply cyclic_append_diverges.
Qed.

Lemma group_append_fans_out_witness :
  let h := mk_heap (target := nat) (fst (child arena_new 0 (str "/a"))) [mk_proxy (FRoute 0) [FRoute 1]] in
  exists h', facade_append 2 h (FProxy 0) 7%nat = Some h' /\ middlewares_of h' 1 = [7%nat].
Proof.
  intros h. apply (group_append_fans_out 1 h 0 7%nat 1).
  - vm_compute. repeat constructor.
  - vm_compute. lia.
Defined.
