(* ===== verification/Server.v ===== *)
(** * Server: src/server/{request,response,tag_storage}.hpp, response.cpp,
      extension.cpp and extension.hpp

    The request and response facades handed to handlers, and the registry of
    listener extensions.  A handler receives [request&] and may mutate it, so
    every handler takes and returns the request.

    [any_stream] is a [std::shared_ptr<io::stream>]: a value of some
    implementation together with its operations (the virtual table) and the
    reading contract every implementation honours.  [req.io_ctx], the event
    loop a request runs on, is not part of the model: it selects a thread and
    never a result. *)

From S2P Require Import Prelude Bytes Stream Method Header Resource Status Mime Route.

#[local] Open Scope Z_scope.

(** ** Dynamically dispatched streams *)

Record any_stream := AnyStream {
  as_type : Type;
  as_ops : Stream as_type;
  as_reads : StreamReads as_type;
  as_value : as_type;
}.

Definition any {S} `{StreamReads S} (s : S) : any_stream := AnyStream S _ _ s.

#[global] Instance any_Stream : Stream any_stream := {
  st_get_length := fun '(AnyStream _ _ _ s) => st_get_length s;
  st_can_seek := fun '(AnyStream _ _ _ s) => st_can_seek s;
  st_seek := fun off o '(AnyStream _ _ _ s) => let '(r, s') := st_seek off o s in (r, any s');
  st_read := fun n '(AnyStream _ _ _ s) => let '(out, s') := st_read n s in (out, any s');
  st_write := fun bs '(AnyStream _ _ _ s) => let '(k, s') := st_write bs s in (k, any s');
}.

#[global, refine] Instance any_StreamReads : StreamReads any_stream := {
  st_data := fun '(AnyStream _ _ _ s) => st_data s;
  st_ok := fun '(AnyStream _ _ _ s) => st_ok s;
}.
Proof.
  intros n [T ops reads s] out s' Hn Hok. cbn. destruct (st_read n s) as [o t] eqn:E.
  intros [= <- <-]. cbn. by apply (st_read_spec _ _ _ _ Hn Hok E).
Defined.

(** ** Request-scoped tags

    One optional slot per type the library itself attaches to a request. *)

Inductive file_kind := fk_not_found | fk_regular_file | fk_directory | fk_other.

Record file_info := mk_file_info { fi_kind : file_kind; fi_size : Z; fi_mtime : Z }.

(** [vpath_tag], [route_match_tag], overlay's [resolve_cache] and
    single_file's [stat_cache]; an owner is the address of an extension. *)
Record resolve_cache := mk_resolve_cache {
  rc_owner : option nat; rc_computed : bool; rc_value : option (bytes * file_info) }.

Record stat_cache := mk_stat_cache {
  sc_owner : option nat; sc_computed : bool; sc_value : option file_info }.

Record tag_storage := mk_tags {
  tag_vpath : option (list bytes);
  tag_route : option route_state;
  tag_resolve : option resolve_cache;
  tag_stat : option stat_cache;
}.

Definition tags_empty : tag_storage := mk_tags None None None None.

(** [ensure<T>()]: the existing value, or a default-constructed one. *)
Definition ensure {T} (dflt : T) (slot : option T) : T := default dflt slot.

Definition resolve_cache_default : resolve_cache := mk_resolve_cache None false None.
Definition stat_cache_default : stat_cache := mk_stat_cache None false None.

Definition tags_set_vpath (l : list bytes) (t : tag_storage) : tag_storage :=
  mk_tags (Some l) (tag_route t) (tag_resolve t) (tag_stat t).
Definition tags_set_route (s : route_state) (t : tag_storage) : tag_storage :=
  mk_tags (tag_vpath t) (Some s) (tag_resolve t) (tag_stat t).
Definition tags_set_resolve (c : resolve_cache) (t : tag_storage) : tag_storage :=
  mk_tags (tag_vpath t) (tag_route t) (Some c) (tag_stat t).
Definition tags_set_stat (c : stat_cache) (t : tag_storage) : tag_storage :=
  mk_tags (tag_vpath t) (tag_route t) (tag_resolve t) (Some c).

(** ** request and response *)

Record request (B : Type) := mk_request {
  req_resource : http_resource;
  req_headers : http_headers;
  req_body : B;
  req_hostname : bytes;
  req_tags : tag_storage;
}.
Arguments mk_request {B}.
Arguments req_resource {B}.
Arguments req_headers {B}.
Arguments req_body {B}.
Arguments req_hostname {B}.
Arguments req_tags {B}.

Definition req_method {B} (r : request B) : http_method := hr_method (req_resource r).
Definition req_path {B} (r : request B) : bytes := hr_path (req_resource r).

Definition req_with_tags {B} (t : tag_storage) (r : request B) : request B :=
  mk_request (req_resource r) (req_headers r) (req_body r) (req_hostname r) t.
Definition req_with_body {B} (b : B) (r : request B) : request B :=
  mk_request (req_resource r) (req_headers r) b (req_hostname r) (req_tags r).

(** [W] is the connection's wire: an upgrade handler takes it over, with the
    bytes already read past the request. *)
Record response (W : Type) := mk_response {
  resp_status : Z;
  resp_headers : http_headers;
  resp_body : option any_stream;
  resp_content_length : Z;
  resp_upgrade_handler : option (W -> bytes -> W);
}.
Arguments mk_response {W}.
Arguments resp_status {W}.
Arguments resp_headers {W}.
Arguments resp_body {W}.
Arguments resp_content_length {W}.
Arguments resp_upgrade_handler {W}.

Section Response.
Context {W : Type}.

Definition response_default : response W := mk_response 200 [] None 0 None.

Definition resp_set_header (name value : bytes) (r : response W) : response W :=
  mk_response (resp_status r) (headers_set name value (resp_headers r)) (resp_body r)
    (resp_content_length r) (resp_upgrade_handler r).
Definition resp_with_status (code : Z) (r : response W) : response W :=
  mk_response code (resp_headers r) (resp_body r) (resp_content_length r) (resp_upgrade_handler r).
Definition resp_without_body (r : response W) : response W :=
  mk_response (resp_status r) (resp_headers r) None (resp_content_length r) (resp_upgrade_handler r).

(** [make_response(int)]. *)
Definition make_response (status_code : Z) : response W :=
  mk_response status_code [] None 0 None.

(** [make_response(std::string, mime)]. *)
Definition make_response_text (text mime : bytes) : response W :=
  mk_response 200 (headers_set CONTENT_TYPE mime []) (Some (any (memory_stream_new text)))
    (Z.of_nat (length text)) None.

(** [make_response(stream, mime, length)]. *)
Definition make_response_stream (body : any_stream) (mime : bytes) (length : Z) : response W :=
  mk_response 200 (headers_set CONTENT_TYPE mime []) (Some body)
    (if 0 <=? length then length else st_get_length body) None.
End Response.

(** ** Extensions and their registry *)
Section Extension.
Context {B W : Type}.

Record extension := mk_extension {
  ext_priority : Z;
  ext_wants : request B -> bool * request B;
  ext_handle : request B -> response W * request B;
}.

Abbreviation registry := (list extension).

(** [std::upper_bound] over a list kept sorted by priority: the first
    position whose priority is greater. *)
Fixpoint upper_bound (p : Z) (l : registry) : nat :=
  match l with
  | [] => 0
  | e :: r => if p <? ext_priority e then 0 else S (upper_bound p r)
  end.

Definition registry_add (ext : extension) (l : registry) : registry :=
  let it := upper_bound (ext_priority ext) l in take it l ++ ext :: drop it l.

Fixpoint dispatch (l : registry) (req : request B) : option (response W) * request B :=
  match l with
  | [] => (None, req)
  | ext :: r =>
      let '(wanted, req1) := ext_wants ext req in
      if wanted then let '(resp, req2) := ext_handle ext req1 in (Some resp, req2)
      else dispatch r req1
  end.

Definition registry_of (exts : list extension) : registry :=
  fold_left (fun l e => registry_add e l) exts [].
End Extension.
Arguments extension : clear implicits.

(** ** The registry stays sorted, and stable *)
Section RegistryFacts.
Context {B W : Type}.
Abbreviation ext := (extension B W).

Definition prio_le (a b : ext) : Prop := ext_priority a <= ext_priority b.
Definition registry_sorted (l : list ext) : Prop := StronglySorted prio_le l.

Lemma registry_add_perm (e : ext) l : registry_add e l ≡ₚ e :: l.
Proof. unfold registry_add. rewrite <-Permutation_middle. by rewrite take_drop. Qed.

Lemma registry_add_cons (e x : ext) l :
  registry_add e (x :: l) =
  if ext_priority e <? ext_priority x then e :: x :: l else x :: registry_add e l.
Proof. unfold registry_add. cbn [upper_bound]. by destruct (_ <? _). Qed.

Lemma registry_add_sorted (e : ext) l : registry_sorted l -> registry_sorted (registry_add e l).
Proof.
  induction 1 as [|x l Hs IH Hx]; [repeat constructor|]. rewrite registry_add_cons. case_if.
  - assert (prio_le e x) by (unfold prio_le; lia).
    constructor; [by constructor|]. constructor; [done|].
    eapply Forall_impl; [exact Hx|]. unfold prio_le in *. intros; lia.
  - constructor; [done|]. rewrite registry_add_perm. constructor; [unfold prio_le; lia|done].
Qed.

Abbreviation of_priority p := (fun x : ext => ext_priority x = p).

Lemma filter_above p (l : list ext) :
  Forall (fun x => p < ext_priority x) l -> filter (of_priority p) l = [].
Proof. induction 1 as [|x l Hx _ IH]; [done|]. rewrite filter_cons_False by lia. done. Qed.

(** Extensions of one priority keep the order in which they were added. *)
Lemma registry_add_stable p (e : ext) l :
  registry_sorted l -> filter (of_priority p) (registry_add e l) = filter (of_priority p) (l ++ [e]).
Proof.
  induction 1 as [|x l Hs IH Hx]; [done|]. rewrite registry_add_cons. case_if.
  - destruct (decide (ext_priority e = p)) as [<-|Hp].
    + assert (filter (of_priority (ext_priority e)) (x :: l) = []) as E.
      { apply filter_above. constructor; [done|]. eapply Forall_impl; [exact Hx|].
        unfold prio_le. intros; lia. }
      rewrite filter_app, E, filter_cons_True, E by done. cbn. by rewrite decide_True.
    + rewrite filter_app, filter_cons_False by done.
      rewrite (filter_cons_False (of_priority p) e []) by done. by rewrite app_nil_r.
  - cbn [app]. rewrite !filter_cons. by rewrite IH.
Qed.

Lemma registry_of_snoc exts (e : ext) : registry_of (exts ++ [e]) = registry_add e (registry_of exts).
Proof. unfold registry_of. by rewrite fold_left_app. Qed.

Lemma registry_of_sorted (exts : list ext) : registry_sorted (registry_of exts).
Proof.
  induction exts as [|e exts IH] using rev_ind; [constructor|].
  rewrite registry_of_snoc. by apply registry_add_sorted.
Qed.

Lemma registry_of_perm (exts : list ext) : registry_of exts ≡ₚ exts.
Proof.
  induction exts as [|e exts IH] using rev_ind; [done|].
  rewrite registry_of_snoc, registry_add_perm, IH. by rewrite Permutation_app_comm.
Qed.

Lemma registry_of_stable p (exts : list ext) :
  filter (of_priority p) (registry_of exts) = filter (of_priority p) exts.
Proof.
  induction exts as [|e exts IH] using rev_ind; [done|].
  rewrite registry_of_snoc, registry_add_stable by apply registry_of_sorted.
  by rewrite !filter_app, IH.
Qed.

(** A filtered list splits where the original does. *)
Lemma filter_split {A} (P : A -> Prop) `{!forall x, Decision (P x)} (l f g : list A) x :
  filter P l = f ++ x :: g -> exists a b, l = a ++ x :: b /\ filter P a = f.
Proof.
  revert f. induction l as [|y l IH]; intros f; [by destruct f|]. rewrite filter_cons. case_decide as Hy.
  - destruct f as [|z f]; cbn; intros [= -> E]; [by exists [], l|].
    destruct (IH f E) as (a & b & -> & <-). exists (z :: a), b. by rewrite filter_cons_True.
  - intros E. destruct (IH f E) as (a & b & -> & <-). exists (y :: a), b. by rewrite filter_cons_False.
Qed.

(** Extensions whose [wants] leaves the request alone. *)
Definition wants_pure (req : request B) (e : ext) : Prop := snd (ext_wants e req) = req.

Lemma dispatch_first (l : list ext) req :
  Forall (wants_pure req) l ->
  match list_find (fun e => fst (ext_wants e req) = true) l with
  | Some (i, e) => dispatch l req = (Some (fst (ext_handle e req)), snd (ext_handle e req))
  | None => dispatch l req = (None, req)
  end.
Proof.
  induction 1 as [|e l He _ IH]; [done|]. cbn [dispatch list_find]. unfold wants_pure in He.
  destruct (ext_wants e req) as [b r] eqn:Ew. cbn in He. subst r. cbn [fst]. destruct b.
  - rewrite decide_True by done. by destruct (ext_handle e req).
  - rewrite decide_False by done. by destruct (list_find _ l) as [[i x]|].
Qed.

(** The winner of a dispatch is the accepting extension of least priority,
    the earliest added among equals. *)
Lemma registry_winner (exts : list ext) (P : ext -> Prop) `{!forall e, Decision (P e)} k e :
  list_find P (registry_of exts) = Some (k, e) ->
  exists i, exts !! i = Some e /\
    forall j e', exts !! j = Some e' -> P e' ->
      ext_priority e < ext_priority e' \/ (ext_priority e = ext_priority e' /\ (i <= j)%nat).
Proof.
  intros (Hk & He & Hpre)%list_find_Some.
  apply list_elem_of_split_length in Hk as (pre & post & Hl & ->).
  assert (forall x, x ∈ pre -> ~ P x) as Hno.
  { intros x (i & Hi)%list_elem_of_lookup. apply (Hpre i); [|by apply lookup_lt_Some in Hi].
    rewrite Hl. by apply lookup_app_l_Some. }
  pose proof (registry_of_sorted exts) as Hs. unfold registry_sorted in Hs.
  pose proof (registry_of_stable (ext_priority e) exts) as Hf.
  rewrite Hl, filter_app, filter_cons_True in Hf by done. symmetry in Hf.
  apply filter_split in Hf as (a & b & Ha & Hfa).
  exists (length a). split; [rewrite Ha; by apply list_lookup_middle|]. intros j e' Hj HP.
  assert (e' ∈ registry_of exts) as Hin.
  { rewrite registry_of_perm. by apply list_elem_of_lookup_2 in Hj. }
  rewrite Hl in Hin, Hs. apply elem_of_app in Hin as [Hin|Hin]; [by destruct (Hno e')|].
  assert (ext_priority e <= ext_priority e') as Hle.
  { apply elem_of_cons in Hin as [->|Hin]; [done|].
    apply StronglySorted_app in Hs as (_ & _ & Hs). inversion Hs as [|? ? _ Hall]; subst.
    by apply (proj1 (Forall_forall _ _) Hall). }
  destruct (Z.lt_total (ext_priority e) (ext_priority e')) as [|[Heq|]]; [by left| |lia].
  right. split; [done|]. destruct (Nat.le_gt_cases (length a) j) as [|Hlt]; [done|]. exfalso.
  rewrite Ha, lookup_app_l in Hj by done. apply list_elem_of_lookup_2 in Hj.
  apply (Hno e'); [|done].
  apply (list_elem_of_filter (of_priority (ext_priority e))). rewrite <-Hfa.
  by apply list_elem_of_filter.
Qed.

(** Dispatch over a registry built by successive add() calls runs the accepting extension with the
    least priority value, the earliest added among equals, and returns nothing exactly when
    none accepts. *)
Lemma dispatch_least_priority (exts : list ext) req :
  Forall (wants_pure req) exts ->
  match dispatch (registry_of exts) req with
  | (Some resp, req') => exists i e,
      exts !! i = Some e /\ fst (ext_wants e req) = true /\ ext_handle e req = (resp, req') /\
      forall j e', exts !! j = Some e' -> fst (ext_wants e' req) = true ->
        ext_priority e < ext_priority e' \/ (ext_priority e = ext_priority e' /\ (i <= j)%nat)
  | (None, req') => req' = req /\ Forall (fun e => fst (ext_wants e req) = false) exts
  end.
Proof.
  intros Hp. rewrite <-registry_of_perm in Hp. pose proof (dispatch_first _ _ Hp) as Hd.
  destruct (list_find _ _) as [[k e]|] eqn:E.
  - rewrite Hd. destruct (registry_winner exts _ k e E) as (i & Hi & Hmin).
    apply list_find_Some in E as (_ & He & _). exists i, e. by destruct (ext_handle e req).
  - rewrite Hd. split; [done|]. apply list_find_None in E. rewrite registry_of_perm in E.
    eapply Forall_impl; [exact E|]. intros e He. by apply not_true_is_false.
Qed.
End RegistryFacts.

(** Two extensions accept; the one of lower priority value, added last, wins. *)
Lemma dispatch_least_priority_witness :
  let answer code := fun r : request unit => (make_response (W := unit) code, r) in
  let e p b code := mk_extension p (fun r : request unit => (b, r)) (answer code) in
  let req := mk_request (mk_resource GET (str "/") (str "/") [] 1 1) [] tt (str "h") tags_empty in
  exists i x, [e 9 true 200; e 1 false 201; e 5 true 202] !! i = Some x /\
    ext_priority x = 5 /\ ext_handle x req = (make_response 202, req).
Proof.
  intros answer e req.
  pose proof (dispatch_least_priority [e 9 true 200; e 1 false 201; e 5 true 202] req) as H.
  destruct H as (i & x & Hi & _ & Hh & Hmin); [repeat constructor|]. exists i, x. split; [exact Hi|].
  pose proof (Hmin 2%nat (e 5 true 202) eq_refl eq_refl) as H2.
  destruct i as [|[|[|i]]]; cbn in Hi; [injection Hi as <-; cbn in H2; lia|injection Hi as <-; discriminate Hh| |discriminate].
  injection Hi as <-. by split.
Defined.
