(* ===== verification/VPath.v ===== *)
(** * VPath: src/server/extensions/vpath.cpp and vhost.cpp

    Mount points.  A [vpath] narrows the path its nested extensions see, by
    pushing the remainder on a request-scoped stack around the dispatch of its
    own registry; a [vhost] guards a registry by a hostname predicate.

    [Scoped] is what a mount point relies on from whatever is mounted in it:
    an extension leaves the stack of subpaths as it found it.  [vpath] and
    [vhost] provide it for themselves from their children, so it holds of any
    tree of mounts. *)

From S2P Require Import Prelude Bytes Method Header Resource Route Server.

#[local] Open Scope Z_scope.

Definition path_has_prefix (path prefix : bytes) : bool :=
  if bytes_eqb prefix [] || bytes_eqb prefix (str "/") then true
  else
    let prefix := if bool_decide (last prefix = Some "/"%byte) then removelast prefix else prefix in
    if (length path <? length prefix)%nat || negb (bytes_eqb (take (length prefix) path) prefix) then false
    else (length path =? length prefix)%nat || bool_decide (path !! length prefix = Some "/"%byte).

(** The constructor's normalisation of [base_path]. *)
Definition vpath_base (base_path : bytes) : bytes :=
  if (1 <? length base_path)%nat && bool_decide (last base_path = Some "/"%byte)
  then removelast base_path else base_path.

Section Mounts.
Context {B W : Type}.

(** The stack of remaining paths, empty when no mount was entered. *)
Definition subpaths (req : request B) : list bytes := ensure [] (tag_vpath (req_tags req)).

Definition subpath_of (req : request B) : bytes :=
  match last (subpaths req) with Some p => p | None => req_path req end.

Definition with_subpaths (l : list bytes) (req : request B) : request B :=
  req_with_tags (tags_set_vpath l (req_tags req)) req.

(** The remainder computed at the top of [vpath::handle]. *)
Definition vpath_remainder (base current : bytes) : bytes :=
  let prefix_len := Nat.min (length current) (length base) in
  match drop prefix_len current with [] => str "/" | r => r end.

Definition vpath_enter (base : bytes) (req : request B) : request B :=
  with_subpaths (subpaths req ++ [vpath_remainder base (subpath_of req)]) req.

Definition vpath_leave (req : request B) : request B :=
  with_subpaths (removelast (subpaths req)) req.

(** [on_handle] is the hook for subclasses; [vpath]'s own returns nothing. *)
Abbreviation hook := (request B -> option (response W) * request B).

Definition vpath_on_handle : hook := fun req => (None, req).

Definition vpath_wants (base : bytes) (req : request B) : bool * request B :=
  (path_has_prefix (subpath_of req) base, req).

Definition vpath_handle (base : bytes) (registry : list (extension B W)) (on_handle : hook)
    (req : request B) : response W * request B :=
  let req := vpath_enter base req in
  let '(nested, req) := dispatch registry req in
  let '(result, req) :=
    match nested with
    | Some r => (Some r, req)
    | None => on_handle req
    end in
  (match result with Some r => r | None => make_response 404 end, vpath_leave req).

Definition vpath (base_path : bytes) (prio : Z) (registry : list (extension B W)) (on_handle : hook)
  : extension B W :=
  mk_extension prio (vpath_wants (vpath_base base_path))
    (vpath_handle (vpath_base base_path) registry on_handle).

(** [vhost]; an empty [std::function] is [None]. *)
Definition vhost (predicate : option (bytes -> bool)) (prio : Z) (registry : list (extension B W))
  : extension B W :=
  mk_extension prio
    (fun req => (match predicate with Some p => p (req_hostname req) | None => false end, req))
    (fun req =>
       let '(nested, req) := dispatch registry req in
       (match nested with Some r => r | None => make_response 404 end, req)).

(** [vhost_for(exact_hostname)]. *)
Definition vhost_for (hostname : bytes) : list (extension B W) -> extension B W :=
  vhost (Some (fun h => bytes_eqb h hostname)) 2147483648.

(** ** The stack discipline *)

Class Scoped (e : extension B W) : Prop := {
  wants_scoped : forall req, subpaths (snd (ext_wants e req)) = subpaths req;
  handle_scoped : forall req, subpaths (snd (ext_handle e req)) = subpaths req;
}.

Definition hook_scoped (h : hook) : Prop := forall req, subpaths (snd (h req)) = subpaths req.

Lemma dispatch_scoped l req : Forall Scoped l -> subpaths (snd (dispatch l req)) = subpaths req.
Proof.
  intros Hl. revert req. induction Hl as [|e l [Hw Hh] _ IH]; intros req; [done|]. cbn [dispatch].
  specialize (Hw req). destruct (ext_wants e req) as [b r]. cbn in Hw. destruct b.
  - specialize (Hh r). destruct (ext_handle e r). cbn in *. congruence.
  - by rewrite IH.
Qed.

Lemma subpaths_with l req : subpaths (with_subpaths l req) = l.
Proof. done. Qed.

Lemma removelast_snoc {A} (l : list A) x : removelast (l ++ [x]) = l.
Proof. apply removelast_last. Qed.

Lemma vpath_Scoped base prio l h : Forall Scoped l -> hook_scoped h -> Scoped (vpath base prio l h).
Proof.
  intros Hl Hh. split; [done|]. intros req. cbn [ext_handle vpath]. unfold vpath_handle.
  set (req1 := vpath_enter (vpath_base base) req).
  pose proof (dispatch_scoped l req1 Hl) as Hd. destruct (dispatch l req1) as [[r|] req2]; cbn in Hd.
  - cbn [snd]. unfold vpath_leave. rewrite subpaths_with, Hd. apply removelast_snoc.
  - specialize (Hh req2). destruct (h req2) as [o req3]. cbn [snd] in *. unfold vpath_leave.
    rewrite subpaths_with, Hh, Hd. apply removelast_snoc.
Qed.

Lemma vhost_Scoped p prio l : Forall Scoped l -> Scoped (vhost p prio l).
Proof.
  intros Hl. split; [done|]. intros req. cbn [ext_handle vhost].
  pose proof (dispatch_scoped l req Hl) as Hd. by destruct (dispatch l req) as [[r|] req2].
Qed.

Lemma registry_add_Scoped e l : Scoped e -> Forall Scoped l -> Forall Scoped (registry_add e l).
Proof. intros He Hl. rewrite registry_add_perm. by constructor. Qed.

(** The trees of mounts over given leaves. *)
Inductive mounted (leaf : extension B W -> Prop) : extension B W -> Prop :=
| Mounted_leaf e : leaf e -> mounted leaf e
| Mounted_vpath base prio exts :
    Forall (mounted leaf) exts -> mounted leaf (vpath base prio (registry_of exts) vpath_on_handle)
| Mounted_vhost p prio exts :
    Forall (mounted leaf) exts -> mounted leaf (vhost p prio (registry_of exts)).

(** In any tree of path and host mounts over scope-respecting leaves, wants and handle leave the
    request's subpath stack as they found it. *)
Lemma mounts_balanced e req :
  mounted Scoped e ->
  subpaths (snd (ext_wants e req)) = subpaths req /\ subpaths (snd (ext_handle e req)) = subpaths req.
Proof.
  intros He. enough (Scoped e) as [Hw Hh] by (split; [apply Hw|apply Hh]). revert e He.
  fix IH 2. intros e [e' Hl|base prio exts Hl|p prio exts Hl]; [done| |].
  all: assert (Forall Scoped (registry_of exts)) as Hs
    by (rewrite registry_of_perm; clear -IH Hl; induction Hl; constructor; auto).
  - by apply vpath_Scoped.
  - by apply vhost_Scoped.
Qed.
End Mounts.

(** ** Prefixes *)

(** A mount path as it is written: ["/a"], ["/a/b"], not ["/"]. *)
Definition mount_wf (base : bytes) : Prop :=
  head base = Some "/"%byte /\ (1 < length base)%nat /\ last base <> Some "/"%byte.

Lemma mount_wf_app a b : mount_wf a -> mount_wf b -> mount_wf (a ++ b).
Proof.
  intros (Ha & La & Ta) (Hb & Lb & Tb). split_and!; [by destruct a|rewrite length_app; lia|].
  rewrite last_app. destruct (last b) eqn:E; [done|]. by apply last_None in E as ->.
Qed.

(** A well-formed mount owns its own path and everything below it. *)
Lemma path_has_prefix_spec path base :
  mount_wf base ->
  path_has_prefix path base = true <-> path = base \/ exists r, path = base ++ "/"%byte :: r.
Proof.
  intros (Hh & Hl & Ht). unfold path_has_prefix.
  destruct base as [|c base]; [done|]. destruct base as [|d base]; [cbn in Hl; lia|].
  set (p := c :: d :: base) in *. change (bytes_eqb p [] || bytes_eqb p (str "/"))
    with (false || bytes_eqb p (str "/")). rewrite (proj2 (bytes_eqb_false p (str "/"))) by done.
  cbn [orb]. rewrite bool_decide_eq_false_2 by done. split.
  - case_if; [done|]. intros Hor. bool_to_prop. apply bytes_eqb_true in H0.
    assert (path = p ++ drop (length p) path) as E by (rewrite <-H0 at 1; by rewrite take_drop).
    apply orb_true_iff in Hor as [Hlen|Hsl]; bool_to_prop.
    + left. rewrite E. rewrite drop_ge by lia. by rewrite app_nil_r.
    + right. exists (drop (S (length p)) path). rewrite E at 1. f_equal. by apply drop_S.
  - intros [->|[r ->]].
    + rewrite Nat.ltb_irrefl, firstn_all, bytes_eqb_refl. cbn. by rewrite Nat.eqb_refl.
    + rewrite take_app_length, bytes_eqb_refl, length_app.
      destruct (Nat.ltb_spec (length p + length ("/"%byte :: r)) (length p)); [lia|]. cbn [orb negb].
      rewrite list_lookup_middle by done. rewrite bool_decide_eq_true_2 by done. apply orb_true_r.
Qed.

Lemma vpath_remainder_spec base path :
  path_has_prefix path base = true -> mount_wf base ->
  vpath_remainder base path = (if bytes_eqb path base then str "/" else drop (length base) path) /\
  path = base ++ (if bytes_eqb path base then [] else vpath_remainder base path) /\
  head (vpath_remainder base path) = Some "/"%byte.
Proof.
  intros Hp Hb. apply path_has_prefix_spec in Hp as [->|[r ->]]; [| |done]; unfold vpath_remainder.
  - rewrite bytes_eqb_refl, Nat.min_id, drop_ge, app_nil_r by done. done.
  - rewrite (proj2 (bytes_eqb_false _ _)).
    2:{ intros E. apply (f_equal length) in E. rewrite length_app in E. cbn in E. lia. }
    rewrite length_app, Nat.min_r, drop_app_length by lia. done.
Qed.

Lemma vpath_base_wf base : mount_wf base -> vpath_base base = base.
Proof.
  intros (_ & _ & Ht). unfold vpath_base. rewrite bool_decide_eq_false_2 by done.
  by rewrite andb_false_r.
Qed.

(** A trailing slash is dropped: ["/a/"] and ["/a"] are the same mount. *)
Lemma vpath_base_slash base : mount_wf base -> vpath_base (base ++ ["/"%byte]) = base.
Proof.
  intros (_ & Hl & _). unfold vpath_base. rewrite length_app, last_snoc.
  rewrite bool_decide_eq_true_2 by done. destruct (Nat.ltb_spec 1 (length base + length ["/"%byte])); [|lia].
  apply removelast_last.
Qed.

(** Below a mount, a second mount matches exactly the paths of the combined
    prefix, and leaves the same remainder. *)
Lemma nested_prefix a b p :
  mount_wf a -> mount_wf b ->
  path_has_prefix p (a ++ b) = path_has_prefix p a && path_has_prefix (vpath_remainder a p) b.
Proof.
  intros Ha Hb. pose proof (mount_wf_app _ _ Ha Hb) as Hab. pose proof Hb as (Hbh & Hbl & _).
  apply eq_true_iff_eq. rewrite andb_true_iff, path_has_prefix_spec by done.
  assert (forall q, head q = Some "/"%byte -> path_has_prefix (a ++ q) a = true /\
    vpath_remainder a (a ++ q) = q) as Hq.
  { intros q Hh. destruct q as [|c q]; [done|]. injection Hh as ->.
    assert (path_has_prefix (a ++ "/"%byte :: q) a = true) as Hp
      by (apply path_has_prefix_spec; [done|]; right; by exists q).
    split; [done|]. destruct (vpath_remainder_spec a _ Hp Ha) as (-> & _).
    rewrite (proj2 (bytes_eqb_false _ _)), drop_app_length; [done|].
    intros E. apply (f_equal length) in E. rewrite length_app in E. cbn in E. lia. }
  split.
  - intros [->|[r ->]].
    + destruct (Hq b Hbh) as [-> ->]. split; [done|]. apply path_has_prefix_spec; [done|by left].
    + rewrite <-app_assoc. destruct (Hq (b ++ "/"%byte :: r)) as [-> ->]; [by destruct b|].
      split; [done|]. apply path_has_prefix_spec; [done|]. right. by exists r.
  - intros [Hp Hr]. destruct (vpath_remainder_spec a p Hp Ha) as (Er & Ep & _).
    apply path_has_prefix_spec in Hr; [|done]. destruct (bytes_eqb p a).
    + rewrite Er in Hr. change (str "/") with ["/"%byte] in Hr.
      destruct Hr as [E|[r E]]; apply (f_equal length) in E; rewrite ?length_app in E; cbn in E; lia.
    + destruct Hr as [E|[r E]]; rewrite E in Ep; rewrite Ep; [by left|].
      right. exists r. by rewrite app_assoc.
Qed.

Lemma nested_remainder a b p :
  mount_wf a -> mount_wf b -> path_has_prefix p (a ++ b) = true ->
  vpath_remainder b (vpath_remainder a p) = vpath_remainder (a ++ b) p.
Proof.
  intros Ha Hb Hp. pose proof Hb as (_ & Hbl & _).
  apply path_has_prefix_spec in Hp; [|by apply mount_wf_app].
  assert (vpath_remainder a p = drop (length a) p) as ->.
  { unfold vpath_remainder. destruct Hp as [->|[r ->]]; rewrite !length_app, Nat.min_r by lia.
    - rewrite drop_app_length. by destruct b; [cbn in Hbl; lia|].
    - rewrite <-app_assoc, drop_app_length. by destruct b. }
  unfold vpath_remainder. destruct Hp as [->|[r ->]].
  - by rewrite drop_app_length, !Nat.min_id, !drop_ge by done.
  - rewrite <-app_assoc, drop_app_length, app_assoc, !length_app, !Nat.min_r by lia.
    rewrite drop_app_length, <-(length_app a b), drop_app_length. done.
Qed.

Section Nested.
Context {B W : Type}.

Lemma subpath_enter base (req : request B) :
  subpath_of (vpath_enter base req) = vpath_remainder base (subpath_of req).
Proof. unfold vpath_enter. unfold subpath_of at 1. by rewrite subpaths_with, last_snoc. Qed.

(** Mounting b inside a accepts the same requests as mounting their concatenation, and handlers
    below see the same remaining path. *)
Lemma vpath_nested_mount a b prio prio' (l l' : list (extension B W)) h h' (req : request B) :
  mount_wf a -> mount_wf b ->
  fst (ext_wants (vpath (a ++ b) prio l h) req) =
    fst (ext_wants (vpath a prio l h) req) &&
    fst (ext_wants (vpath b prio' l' h') (vpath_enter a req)) /\
  (fst (ext_wants (vpath (a ++ b) prio l h) req) = true ->
   subpath_of (vpath_enter b (vpath_enter a req)) = subpath_of (vpath_enter (a ++ b) req)).
Proof.
  intros Ha Hb. pose proof (mount_wf_app _ _ Ha Hb) as Hab.
  cbn [ext_wants vpath vpath_wants fst]. rewrite !vpath_base_wf, !subpath_enter by done.
  split; [by apply nested_prefix|by apply nested_remainder].
Qed.
End Nested.

Lemma vpath_nested_mount_witness :
  let req := mk_request (mk_resource GET (str "/api/v1/users") (str "/api/v1/users") [] 1 1)
               [] tt (str "host") tags_empty in
  subpath_of (vpath_enter (str "/v1") (vpath_enter (str "/api") req)) =
  subpath_of (vpath_enter (str "/api/v1") req).
Proof.
  intros req. destruct (vpath_nested_mount (W := unit) (str "/api") (str "/v1") 0 0 [] []
    vpath_on_handle vpath_on_handle req) as [_ H];
    [split_and!; [done|vm_compute; lia|done]..|].
  apply H. vm_compute. reflexivity.
Defined.

(** A mount at ["/"] strips the leading slash itself, so that nothing mounted
    inside it by a well-formed path is ever reached. *)
Lemma root_mount_hides_nested c (r base : bytes) :
  c <> "/"%byte -> mount_wf base ->
  path_has_prefix (vpath_remainder (vpath_base (str "/")) ("/"%byte :: c :: r)) base = false.
Proof.
  intros Hc Hb. apply not_true_is_false. rewrite path_has_prefix_spec by done.
  change (vpath_remainder (vpath_base (str "/")) ("/"%byte :: c :: r)) with (c :: r).
  destruct Hb as (Hh & _). destruct base as [|x base]; [done|]. injection Hh as ->.
  by intros [[= -> _]|[t [= -> _]]].
Qed.

Lemma mounts_balanced_witness :
  let leaf := mk_extension 0 (fun r : request unit => (true, r)) (fun r => (make_response (W := unit) 200, r)) in
  let req := mk_request (mk_resource GET (str "/api/x") (str "/api/x") [] 1 1) [] tt (str "h") tags_empty in
  let site := vpath (str "/") 0 (registry_of [vpath (str "/api") 0 (registry_of [leaf]) vpath_on_handle])
                vpath_on_handle in
  subpaths (snd (ext_handle site req)) = subpaths req.
Proof.
  intros leaf req site. apply (mounts_balanced site req).
  apply Mounted_vpath, Forall_singleton, Mounted_vpath, Forall_singleton, Mounted_leaf. by split.
Defined.
