(* ===== verification/Router.v ===== *)
(** * Router: src/router/router.cpp and router.hpp

    The router is a [vpath] whose [on_handle] matches the remaining path
    against a trie of routes and runs the matched node's middleware chain
    around its target.  Its facade forwards every call to the root node of the
    trie, node 0 of the arena. *)

From S2P Require Import Prelude Bytes Method Header Resource Route RouteFacts Group Server VPath.

#[local] Open Scope Z_scope.

Section Router.
Context {B W : Type}.

(** A target answers a request; both it and a middleware may mutate it. *)
Abbreviation handled := (response W * request B)%type.
Abbreviation rtarget := (@target (request B) handled).
Abbreviation rmiddleware := (@middleware (request B) handled).
Abbreviation arena := (list (route_node rtarget rmiddleware)).

Implicit Types (a : arena).

Definition root : nat := 0.

(** ** The facade: every call goes to the root *)
Definition router_new : arena := arena_new.
Definition router_any (a : arena) (t : rtarget) : arena := route_any a root t.
Definition router_any_at (a : arena) (path : bytes) (t : rtarget) : arena := route_any_at a root path t.
Definition router_method (a : arena) (m : http_method) (t : rtarget) : arena := route_method a root m t.
Definition router_method_at (a : arena) (m : http_method) (path : bytes) (t : rtarget) : arena :=
  route_method_at a root m path t.
Definition router_param (a : arena) (name : bytes) (pred : bytes -> bool) : arena :=
  route_param a root name pred.
Definition router_prepend (a : arena) (m : rmiddleware) : arena := route_prepend a root m.
Definition router_append (a : arena) (m : rmiddleware) : arena := route_append a root m.
Definition router_group (h : heap rtarget rmiddleware)
    (body : heap rtarget rmiddleware -> facade_ref -> option (heap rtarget rmiddleware)) :=
  facade_group h (FRoute root) body.
Definition router_resolve (a : arena) (path : bytes) : arena * nat := child a root path.

(** ** Dispatch *)

Definition route_of (req : request B) : route_state :=
  match tag_route (req_tags req) with Some s => s | None => route_state_init end.

Definition with_route (s : route_state) (req : request B) : request B :=
  req_with_tags (tags_set_route s (req_tags req)) req.

(** One level of matching consumes at least one byte of the path, so its
    length is enough fuel ([route_match_total]). *)
Definition router_on_handle (a : arena) (req : request B) : option (response W) * request B :=
  let path := subpath_of req in
  match route_match (S (length path)) a root route_state_init path with
  | Some (Some matched, state) =>
      let req := with_route state req in
      match get_target a matched (req_method req) with
      | None =>
          if has_any_target a matched then (Some (make_response 405), req) else (None, req)
      | Some t =>
          let '(resp, req) := stack_handle (rn_middlewares (node a matched)) t req in (Some resp, req)
      end
  | _ => (None, req)
  end.

Definition router (mount_path : bytes) (prio : Z) (registry : list (extension B W)) (a : arena)
  : extension B W :=
  vpath mount_path prio registry (router_on_handle a).

(** ** Facts *)

(** Handlers that respect the stack of subpaths make the router [Scoped]. *)
Lemma compose_scoped ms (t : rtarget) req :
  (forall r, subpaths (snd (t r)) = subpaths r) ->
  Forall (fun m : rmiddleware => forall r next,
    (forall q, subpaths (snd (next q)) = subpaths q) -> subpaths (snd (m r next)) = subpaths r) ms ->
  subpaths (snd (compose ms t req)) = subpaths req.
Proof.
  intros Ht Hms. revert req. induction Hms as [|m ms Hm _ IH]; intros req; [apply Ht|].
  cbn [compose foldr]. by apply Hm.
Qed.

Definition handlers_scoped (a : arena) : Prop :=
  forall n m t, get_target a n m = Some t ->
    (forall r, subpaths (snd (t r)) = subpaths r) /\
    Forall (fun mw : rmiddleware => forall r next,
      (forall q, subpaths (snd (next q)) = subpaths q) -> subpaths (snd (mw r next)) = subpaths r)
      (rn_middlewares (node a n)).

Lemma router_Scoped mount prio l a :
  Forall Scoped l -> handlers_scoped a -> Scoped (router mount prio l a).
Proof.
  intros Hl Ha. apply vpath_Scoped; [done|]. intros req. unfold router_on_handle.
  destruct (route_match _ _ _ _ _) as [[[n|] st]|]; try done.
  destruct (get_target a n _) as [t|] eqn:E; [|by destruct (has_any_target a n)].
  rewrite stack_handle_compose. destruct (Ha _ _ _ E) as [Ht Hm].
  pose proof (compose_scoped _ _ (with_route st req) Ht Hm) as Hc.
  destruct (compose _ _ _) as [resp r]. exact Hc.
Qed.

(** A registered static route is found by its own path. *)
Lemma router_matches segs (a : arena) m (t : rtarget) (a1 : arena) c :
  arena_wf a -> (0 < length a)%nat -> Forall static_segment segs ->
  child a root ("/"%byte :: path_text segs) = (a1, c) ->
  route_match (S (length ("/"%byte :: path_text segs))) (route_method a1 c m t) root route_state_init
    ("/"%byte :: path_text segs) =
  Some (Some c, mk_route_state [] (Z.of_nat (length segs))).
Proof.
  intros Hwf Ha Hs Hc. destruct (child_loop_spec _ _ _ _ _ Hwf Ha Hc) as (Hwf1 & Hle & Hc1).
  destruct (set_target_keeps a1 c (hm_id m) (hm_name m) t Hwf1) as [Hwf2 Hle2].
  pose proof (path_text_length segs Hs). by rewrite (static_route_match segs a root a1 _ c) by (done || cbn; lia).
Qed.

(** After method(m, path, target) on a router, a request for that static path runs the registered
    target under the node's middlewares when its method is m, any earlier target for another
    method, and 405 when there is none; the route tag is recorded. *)
Lemma router_serves_registered segs (a : arena) m (t : rtarget) (a1 : arena) c (req : request B) :
  arena_wf a -> (0 < length a)%nat -> Forall static_segment segs -> hm_wf m -> hm_wf (req_method req) ->
  child a root ("/"%byte :: path_text segs) = (a1, c) -> entries_wf (rn_targets (node a1 c)) ->
  subpath_of req = "/"%byte :: path_text segs ->
  let a' := router_method_at a m ("/"%byte :: path_text segs) t in
  let req' := with_route (mk_route_state [] (Z.of_nat (length segs))) req in
  router_on_handle a' req =
    match (if hm_eqb m (req_method req) then Some t else get_target a1 c (req_method req)) with
    | Some t' => let '(resp, r) := compose (rn_middlewares (node a1 c)) t' req' in (Some resp, r)
    | None => (Some (make_response 405), req')
    end.
Proof.
  intros Hwf Ha Hs Hm Hr Hc He Hp a' req'.
  assert (a' = route_method a1 c m t) as ->
    by (unfold a', router_method_at, route_method_at; by rewrite Hc).
  destruct (child_loop_spec _ _ _ _ _ Hwf Ha Hc) as (Hwf1 & _ & Hc1).
  unfold router_on_handle. rewrite Hp, (router_matches segs a m t a1 c) by done.
  change (req_method (with_route _ req)) with (req_method req).
  destruct (target_after_set a1 c m (req_method req) t Hc1 Hm Hr He) as [-> _].
  rewrite (set_target_middlewares a1 c m t Hc1).
  destruct (hm_eqb m (req_method req)); [|destruct (get_target a1 c (req_method req)) as [t'|]].
  1,2: by rewrite stack_handle_compose.
  by rewrite (set_target_has_any a1 c m t Hc1).
Qed.
End Router.

(** The witness: [GET /users/all] on a fresh router. *)
Lemma router_serves_registered_witness :
  let req := mk_request (mk_resource GET (str "/users/all") (str "/users/all") [] 1 1)
               [] tt (str "host") tags_empty in
  let t := (fun r => (make_response_text (W := unit) (str "hi") (str "text/plain"), r)) in
  fst (router_on_handle (router_method_at router_new GET (str "/users/all") t) req) =
  Some (make_response_text (str "hi") (str "text/plain")).
Proof.
  intros req t. set (ac := child (router_new (B := unit) (W := unit)) root (str "/users/all")).
  pose proof (router_serves_registered [str "users"; str "all"] router_new GET t (fst ac) (snd ac) req) as H.
  change ("/"%byte :: path_text [str "users"; str "all"]) with (str "/users/all") in H.
  cbv zeta in H. rewrite H; [reflexivity|apply arena_new_wf|cbn; lia| |done|done|by apply surjective_pairing| |done].
  - repeat (apply Forall_cons; split); [split_and!; [done|done|by apply (bool_decide_unpack _)]..|constructor].
  - vm_compute. constructor.
Defined.
