(* ===== verification/StaticContent.v ===== *)
(** * StaticContent: src/server/extensions/static_content.cpp

    What static file serving shares: entity tags, the qualification of request
    paths, and the conditional-GET and byte-range engine.  [selected] says which
    bytes a range is, and [ranges_served_exactly] that these are served.  Arithmetic on a
    length that leaves [std::int64_t] is undefined behaviour; the operations
    that can reach it return [None] there. *)

From S2P Require Import Prelude Bytes Stream Method Header Resource Status Date Mime Server.

#[local] Open Scope Z_scope.

(** [snprintf] of the two numbers as [unsigned long long] in hexadecimal; at
    most 38 characters, so the 48-byte buffer never truncates. *)
Definition make_etag (mtime size : Z) : bytes :=
  DQUOTE :: str "nh-" ++ to_hex mtime ++ str "-" ++ to_hex size ++ [DQUOTE].

(** ** Path qualification *)

(** The loop over the segments; [None] is the rejected traversal. *)
Fixpoint qualify_loop (stack segs : list bytes) : option (list bytes) :=
  match segs with
  | [] => Some stack
  | seg :: r =>
      if bytes_eqb seg (str "..") then
        match stack with [] => None | _ => qualify_loop (removelast stack) r end
      else if negb (bytes_eqb seg []) && negb (bytes_eqb seg (str ".")) then qualify_loop (stack ++ [seg]) r
      else qualify_loop stack r
  end.

(** The output loop: a separator before every segment but the first. *)
Definition join_segments (stack : list bytes) : bytes :=
  fold_left (fun out s => (match out with [] => out | _ => out ++ str "/" end) ++ s) stack [].

Definition qualify_relative_path (path : bytes) : option bytes :=
  stack ← qualify_loop [] (split_on "/" path); Some (join_segments stack).

(** ** Entity-tag lists *)

Definition is_space (c : byte) : bool := Byte.eqb c SP.

Definition etag_list_contains (l etag : bytes) : bool :=
  existsb (fun tok => bytes_eqb (trim_back is_space (trim_front is_space tok)) etag) (tokens "," l).

(** ** Ranges *)

Record range_request := mk_range {
  rr_present : bool;
  rr_satisfiable : bool;
  rr_begin : Z;
  rr_end : Z;
}.

Definition range_default : range_request := mk_range false true 0 0.
Definition range_unsatisfiable : range_request := mk_range true false 0 0.

(** The final test of the bounds. *)
Definition range_check (begin_ end_ content_size : Z) : range_request :=
  mk_range true
    (negb ((begin_ <? 0) || (end_ <? begin_) || (content_size <=? begin_))) begin_ end_.

(** ["bytes=-N"]. *)
Definition suffix_range (end_s : bytes) (content_size : Z) : option range_request :=
  match end_s with
  | [] => Some range_unsatisfiable
  | _ =>
      match parse_i64 0 end_s with
      | NumOverflow => None
      | NumBad => Some range_unsatisfiable
      | Num suffix_len =>
          if suffix_len <=? 0 then Some range_unsatisfiable
          else Some (range_check (Z.max 0 (content_size - suffix_len)) (content_size - 1) content_size)
      end
  end.

(** ["bytes=A-"] and ["bytes=A-B"]. *)
Definition from_range (start_s end_s : bytes) (content_size : Z) : option range_request :=
  match parse_i64 0 start_s with
  | NumOverflow => None
  | NumBad => Some range_unsatisfiable
  | Num begin_ =>
      match end_s with
      | [] => Some (range_check begin_ (Z.min (content_size - 1) (content_size - 1)) content_size)
      | _ =>
          match parse_i64 0 end_s with
          | NumOverflow => None
          | NumBad => Some range_unsatisfiable
          | Num end_ => Some (range_check begin_ (Z.min end_ (content_size - 1)) content_size)
          end
      end
  end.

Definition parse_range_header (range_value : option bytes) (content_size : Z) : option range_request :=
  match range_value with
  | None => Some range_default
  | Some value =>
      if content_size <=? 0 then Some range_default
      else if negb (bytes_eqb (take 6 value) (str "bytes=")) then Some range_default
      else
        let v := drop 6 value in
        let v := match find_byte "," v with Some comma => take comma v | None => v end in
        match find_byte "-" v with
        | None => Some range_default
        | Some dash =>
            let start_s := take dash v in
            let end_s := drop (S dash) v in
            match start_s with
            | [] => suffix_range end_s content_size
            | _ => from_range start_s end_s content_size
            end
        end
  end.

(** ** The conditional engine *)
Section Serve.
Context {B W S : Type} `{StreamReads S}.

Definition is_method (m : http_method) (req : request B) : bool := hm_eqb (req_method req) m.

Definition cache_control (req : request B) : bytes :=
  if headers_isset AUTHORIZATION (req_headers req)
  then str "private, must-revalidate" else str "public, must-revalidate".

(** The [finalize] lambda. *)
Definition finalize (req : request B) (mtime : Z) (etag : bytes) (r : response W) : response W :=
  let r := resp_set_header ACCEPT_RANGES (str "bytes") r in
  let r := resp_set_header ETAG etag r in
  let r := resp_set_header LAST_MODIFIED (format_http_date mtime) r in
  let r := resp_set_header CACHE_CONTROL (cache_control req) r in
  if is_method HEAD req then resp_without_body r else r.

(** [If-Match] fails. *)
Definition if_match_fails (req : request B) (etag : bytes) : bool :=
  match headers_get IF_MATCH (req_headers req) with
  | Some v => negb (bytes_eqb v (str "*")) && negb (etag_list_contains v etag)
  | None => false
  end.

(** [If-None-Match], and [If-Modified-Since] only without it. *)
Inductive validity := Fresh | NotModified | Precondition.

Definition revalidate (req : request B) (mtime : Z) (etag : bytes) : validity :=
  match headers_get IF_NONE_MATCH (req_headers req) with
  | Some inm =>
      if bytes_eqb inm (str "*") || etag_list_contains inm etag then
        if is_method GET req || is_method HEAD req then NotModified else Precondition
      else Fresh
  | None =>
      match headers_get IF_MODIFIED_SINCE (req_headers req) with
      | Some ims =>
          let since := parse_http_date ims in
          if negb (since =? -1) && (mtime <=? since) then NotModified else Fresh
      | None => Fresh
      end
  end.

Definition if_range_ok (req : request B) (mtime : Z) (etag : bytes) : bool :=
  match headers_get IF_RANGE (req_headers req) with
  | Some ifr =>
      if bool_decide (head ifr = Some DQUOTE) then bytes_eqb ifr etag
      else let d := parse_http_date ifr in negb (d =? -1) && (mtime <=? d)
  | None => true
  end.

(** The range in use: the [Range] header when [If-Range] allows it. *)
Definition range_in_use (req : request B) (mtime : Z) (etag : bytes) : option bytes :=
  match headers_get RANGE (req_headers req) with
  | Some v => if if_range_ok req mtime etag then Some v else None
  | None => None
  end.

Definition unsatisfiable_response (size : Z) : response W :=
  resp_set_header CONTENT_RANGE (str "bytes */" ++ to_string size) (make_response 416).

Definition ranged_response (content : S) (rr : range_request) (size : Z) (mime : bytes) : response W :=
  let ranged := any (range_stream_new content (rr_begin rr) (rr_end rr + 1)) in
  let r := make_response_stream ranged mime (rr_end rr - rr_begin rr + 1) in
  resp_set_header CONTENT_RANGE
    (str "bytes " ++ to_string (rr_begin rr) ++ str "-" ++ to_string (rr_end rr) ++ str "/" ++ to_string size)
    (resp_with_status 206 r).

Definition serve_stream_conditionally (req : request B) (content : S) (size mtime : Z)
    (mime etag : bytes) : option (response W) :=
  if if_match_fails req etag then Some (finalize req mtime etag (make_response 412))
  else
    match revalidate req mtime etag with
    | Precondition => Some (finalize req mtime etag (make_response 412))
    | NotModified => Some (finalize req mtime etag (make_response 304))
    | Fresh =>
        match range_in_use req mtime etag with
        | Some v =>
            rr ← parse_range_header (Some v) size;
            Some (finalize req mtime etag
                    (if rr_satisfiable rr then ranged_response content rr size mime
                     else unsatisfiable_response size))
        | None => Some (finalize req mtime etag (make_response_stream (any content) mime size))
        end
    end.
End Serve.

(** ** Entity tags identify the file state *)

Lemma hex_digit_value d : 0 <= d < 16 -> b2z (hex_digit d) = if d <? 10 then 48 + d else 87 + d.
Proof. intros. unfold hex_digit. case_if; apply b2z_z2b_small; lia. Qed.

Lemma hex_digit_inj d e : 0 <= d < 16 -> 0 <= e < 16 -> hex_digit d = hex_digit e -> d = e.
Proof.
  intros Hd He Heq. apply (f_equal b2z) in Heq. rewrite !hex_digit_value in Heq by done.
  destruct (Z.ltb_spec d 10), (Z.ltb_spec e 10); lia.
Qed.

Lemma map_hex_inj ds es :
  Forall (fun d => 0 <= d < 16) ds -> Forall (fun d => 0 <= d < 16) es ->
  map hex_digit ds = map hex_digit es -> ds = es.
Proof.
  intros Hd. revert es. induction Hd as [|d ds Hd _ IH]; intros [|e es] He; try done. cbn.
  apply Forall_cons in He as [He1 He2]. intros [= E1 E2]. apply hex_digit_inj in E1; [|done..]. f_equal; auto.
Qed.

Lemma to_hex_inj v w : uwrap 64 v <> uwrap 64 w -> to_hex v <> to_hex w.
Proof.
  intros Hne E. apply Hne. unfold to_hex in E. apply map_hex_inj in E; [|by apply digits_range..].
  rewrite <-(digits_eval 16 (uwrap 64 v)), <-(digits_eval 16 (uwrap 64 w)), E
    by (try lia; apply uwrap_range; lia). done.
Qed.

Lemma to_hex_no c v : (forall d, 0 <= d < 16 -> hex_digit d <> c) -> c ∉ to_hex v.
Proof.
  intros Hc. unfold to_hex. pose proof (digits_range 16 (uwrap 64 v) ltac:(lia)) as Hr.
  induction Hr as [|d ds Hd _ IH]; [apply not_elem_of_nil|]. cbn. apply not_elem_of_cons.
  split; [|done]. intros E. by apply (Hc d Hd).
Qed.

Lemma uwrap_inj_i64 v w :
  - 2 ^ 63 <= v < 2 ^ 63 -> - 2 ^ 63 <= w < 2 ^ 63 -> uwrap 64 v = uwrap 64 w -> v = w.
Proof.
  unfold uwrap. intros Hv Hw E. pose proof (Z.div_mod v (2 ^ 64) ltac:(lia)).
  pose proof (Z.div_mod w (2 ^ 64) ltac:(lia)). rewrite E in *. nia.
Qed.

(** Splitting at the first occurrence of a separator absent from both heads. *)
Lemma app_sep_inj (c : byte) a b r s : c ∉ a -> c ∉ b -> a ++ c :: r = b ++ c :: s -> a = b /\ r = s.
Proof.
  revert b. induction a as [|x a IH]; intros [|y b] Ha Hb; cbn.
  - by intros [= ->].
  - intros [= -> _]. destruct Hb. by left.
  - intros [= -> _]. destruct Ha. by left.
  - intros [= -> E]. apply not_elem_of_cons in Ha as [_ Ha], Hb as [_ Hb].
    by destruct (IH b Ha Hb E) as [-> ->].
Qed.

(** Two 64-bit (mtime, size) pairs with the same entity tag are equal. *)
Lemma make_etag_injective mtime size mtime' size' :
  - 2 ^ 63 <= mtime < 2 ^ 63 -> - 2 ^ 63 <= size < 2 ^ 63 ->
  - 2 ^ 63 <= mtime' < 2 ^ 63 -> - 2 ^ 63 <= size' < 2 ^ 63 ->
  make_etag mtime size = make_etag mtime' size' -> mtime = mtime' /\ size = size'.
Proof.
  intros Hm Hs Hm' Hs' E. unfold make_etag in E. injection E as E.
  change (str "-") with ["-"%byte] in E. cbn [app] in E.
  assert (forall v, "-"%byte ∉ to_hex v) as Hdash.
  { intros v. apply to_hex_no. intros d Hd Eq. apply (f_equal b2z) in Eq.
    rewrite hex_digit_value in Eq by done. change (b2z "-") with 45 in Eq.
    destruct (Z.ltb_spec d 10); lia. }
  apply app_sep_inj in E as [E1 E2]; [|done..]. apply app_inj_tail in E2 as [E2 _].
  split; apply uwrap_inj_i64; try done; apply dec_stable; intros Hne; by apply to_hex_inj in Hne.
Qed.

Lemma make_etag_injective_witness : 5 = 5 /\ 1024 = 1024.
Proof. apply make_etag_injective; [lia..|reflexivity]. Defined.

(** ** Qualified paths stay below the root *)

(** A segment that names an entry of its directory. *)
Definition plain_segment (seg : bytes) : Prop :=
  seg <> [] /\ seg <> str "." /\ seg <> str ".." /\ ("/"%byte ∉ seg).

Lemma snoc_match {A R} (l : list A) x (n s : R) : match l ++ [x] with [] => n | _ => s end = s.
Proof. by destruct l. Qed.

Lemma qualify_loop_plain stack segs res :
  Forall plain_segment stack -> Forall (fun s => "/"%byte ∉ s) segs ->
  qualify_loop stack segs = Some res -> Forall plain_segment res.
Proof.
  intros Hst Hs. revert stack Hst. induction Hs as [|seg segs Hseg _ IH]; intros stack Hst; cbn.
  { by intros [= <-]. }
  case_if.
  - destruct stack as [|x stack] using rev_ind; [done|]. clear IHstack.
    rewrite snoc_match, removelast_last. apply IH. by apply Forall_app in Hst as [? _].
  - apply bytes_eqb_false in Heqb. case_if; [|by apply IH]. bool_to_prop. apply IH.
    apply Forall_app. split; [done|]. apply Forall_singleton.
    split_and!; [by apply bytes_eqb_false|by apply bytes_eqb_false|done|done].
Qed.

Lemma join_segments_join stack : Forall (fun s => s <> []) stack -> join_segments stack = join_with "/" stack.
Proof.
  intros Hs. unfold join_segments. destruct Hs as [|s stack Hs1 Hs]; [done|]. cbn [fold_left app].
  revert s Hs1. induction Hs as [|t stack Ht _ IH]; intros s Hs1; [done|]. cbn [fold_left].
  rewrite IH. 2:{ destruct s; [done|]. destruct t; done. }
  cbn [join_with]. change (str "/") with ["/"%byte]. destruct s as [|x s]; [done|].
  destruct stack; by rewrite <-!app_assoc.
Qed.

Lemma qualify_loop_id stack segs :
  Forall plain_segment segs -> qualify_loop stack segs = Some (stack ++ segs).
Proof.
  intros Hs. revert stack. induction Hs as [|seg segs (H0 & H1 & H2 & _) _ IH]; intros stack; cbn.
  { by rewrite app_nil_r. }
  apply bytes_eqb_false in H0, H1, H2. rewrite H0, H1, H2. cbn. by rewrite IH, <-app_assoc.
Qed.

Lemma plain_split segs : Forall plain_segment segs ->
  qualify_loop [] (split_on "/" (join_with "/" segs)) = Some segs.
Proof.
  intros Hs. destruct segs as [|s r]; [done|]. rewrite split_join; [|eapply Forall_impl; [exact Hs|]; by intros t (_ & _ & _ & ?)|done].
  by rewrite qualify_loop_id.
Qed.

Lemma qualify_segments path q :
  qualify_relative_path path = Some q ->
  exists segs, Forall plain_segment segs /\ q = join_with "/" segs.
Proof.
  unfold qualify_relative_path. destruct (qualify_loop [] (split_on "/" path)) as [segs|] eqn:E; [|done].
  intros [= <-]. assert (Forall plain_segment segs) as Hs.
  { eapply qualify_loop_plain; [constructor|apply split_on_no_sep|exact E]. }
  exists segs. split; [done|]. apply join_segments_join. eapply Forall_impl; [exact Hs|]. by intros s [? _].
Qed.

(** A path accepted by qualify_relative_path is a join of plain segments, none of them empty, dot
    or dot-dot, and qualifying it again changes nothing. *)
Lemma qualify_confined path q :
  qualify_relative_path path = Some q ->
  (exists segs, Forall plain_segment segs /\ q = join_with "/" segs) /\
  qualify_relative_path q = Some q.
Proof.
  intros (segs & Hs & ->)%qualify_segments. split; [by exists segs|].
  unfold qualify_relative_path. rewrite plain_split by done. cbn. rewrite join_segments_join; [done|].
  eapply Forall_impl; [exact Hs|]. by intros s [? _].
Qed.

Lemma qualify_confined_witness :
  qualify_relative_path (str "/a/./b/../c//d") = Some (str "a/c/d") /\
  qualify_relative_path (str "a/c/d") = Some (str "a/c/d").
Proof.
  split; [reflexivity|]. by apply (qualify_confined (str "/a/./b/../c//d") (str "a/c/d")).
Defined.

(** How far a walk along the segments is below (or above) its start. *)
Definition segment_depth (seg : bytes) : Z :=
  if bytes_eqb seg (str "..") then -1
  else if bytes_eqb seg [] || bytes_eqb seg (str ".") then 0 else 1.

Definition walk_depth (segs : list bytes) : Z := foldr (fun s d => segment_depth s + d) 0 segs.

Lemma qualify_loop_None stack segs :
  qualify_loop stack segs = None <->
  exists k, Z.of_nat (length stack) + walk_depth (take k segs) < 0.
Proof.
  revert stack. induction segs as [|seg segs IH]; intros stack; cbn [qualify_loop].
  { split; [done|]. intros [k Hk]. rewrite take_nil in Hk. cbn in Hk. lia. }
  assert (forall st : list bytes, Z.of_nat (length st) = Z.of_nat (length stack) + segment_depth seg ->
    (exists k, Z.of_nat (length st) + walk_depth (take k segs) < 0) <->
    (exists k, Z.of_nat (length stack) + walk_depth (take k (seg :: segs)) < 0)) as Hstep.
  { intros st Hst. split; intros [k Hk].
    - exists (S k). cbn [take walk_depth foldr]. fold (walk_depth (take k segs)). lia.
    - destruct k as [|k]; [cbn in Hk; lia|]. exists k. cbn [take walk_depth foldr] in Hk.
      fold (walk_depth (take k segs)) in Hk. lia. }
  unfold segment_depth in Hstep. destruct (bytes_eqb seg (str "..")) eqn:E1.
  - destruct stack as [|x st _] using rev_ind.
    + split; [|done]. intros _. exists 1%nat. cbn [take walk_depth foldr length]. unfold segment_depth. rewrite E1. by rewrite take_0.
    + rewrite snoc_match, removelast_last, IH. apply Hstep. rewrite length_app. cbn. lia.
  - destruct (bytes_eqb seg []) eqn:E2, (bytes_eqb seg (str ".")) eqn:E3; cbn [negb andb orb] in *;
      rewrite IH; apply Hstep; rewrite ?length_app; cbn; lia.
Qed.

(** qualify_relative_path rejects a path exactly when some prefix of its segments climbs above the
    root. *)
Lemma qualify_rejects_escape path :
  qualify_relative_path path = None <-> exists k, walk_depth (take k (split_on "/" path)) < 0.
Proof.
  unfold qualify_relative_path. pose proof (qualify_loop_None [] (split_on "/" path)) as H.
  cbn [length Z.of_nat] in H. setoid_rewrite Z.add_0_l in H. rewrite <-H.
  by destruct (qualify_loop [] (split_on "/" path)).
Qed.

(** ** Ranges *)

Lemma range_check_bounds b e size :
  e <= size - 1 -> rr_satisfiable (range_check b e size) = true -> 0 <= b <= e /\ e < size.
Proof. cbn. intros He Hs. bool_to_prop. lia. Qed.

(** A range reported present and satisfiable lies inside the representation: 0 <= begin <= end <
    size. *)
Lemma parse_range_bounds range_value size rr :
  parse_range_header range_value size = Some rr -> rr_present rr = true -> rr_satisfiable rr = true ->
  0 <= rr_begin rr <= rr_end rr /\ rr_end rr < size.
Proof.
  unfold parse_range_header. destruct range_value as [value|]; [|by intros [= <-]].
  case_if; [by intros [= <-]|]. case_if; [by intros [= <-]|]. cbv zeta.
  destruct (find_byte "-" _) as [dash|]; [|by intros [= <-]].
  destruct (take dash _) as [|x s].
  - unfold suffix_range. destruct (drop _ _) as [|y t]; [by intros [= <-]|].
    destruct (parse_i64 0 (y :: t)) as [| |n]; [by intros [= <-]|done|].
    case_if; intros [= <-]; [done|]. intros _ Hs. apply range_check_bounds in Hs; [done|lia].
  - unfold from_range. destruct (parse_i64 0 (x :: s)) as [| |b]; [by intros [= <-]|done|].
    destruct (drop _ _) as [|y t].
    + intros [= <-] _ Hs. apply range_check_bounds in Hs; [done|lia].
    + destruct (parse_i64 0 (y :: t)) as [| |e]; [by intros [= <-]|done|].
      intros [= <-] _ Hs. apply range_check_bounds in Hs; [done|lia].
Qed.

Lemma parse_range_bounds_witness :
  exists rr, parse_range_header (Some (str "bytes=100-199")) 1000 = Some rr /\
    0 <= rr_begin rr <= rr_end rr /\ rr_end rr < 1000.
Proof.
  exists (mk_range true true 100 199). split; [reflexivity|].
  by apply (parse_range_bounds (Some (str "bytes=100-199")) 1000 (mk_range true true 100 199)).
Defined.

(** The text between the unit and the end of the value. *)
Lemma parse_range_text spec size :
  0 < size -> ","%byte ∉ spec ->
  parse_range_header (Some (str "bytes=" ++ spec)) size =
  match find_byte "-" spec with
  | None => Some range_default
  | Some dash =>
      match take dash spec with
      | [] => suffix_range (drop (S dash) spec) size
      | start_s => from_range start_s (drop (S dash) spec) size
      end
  end.
Proof.
  intros Hs Hc. unfold parse_range_header. destruct (Z.leb_spec size 0); [lia|].
  change (take 6 (str "bytes=" ++ spec)) with (take 0 spec ++ str "bytes="). cbn [take app].
  rewrite bytes_eqb_refl. cbn [negb]. change (drop 6 (str "bytes=" ++ spec)) with spec. cbv zeta.
  rewrite (proj2 (find_byte_None "," spec) Hc).
  by destruct (find_byte "-" spec) as [d|]; [destruct (take d spec)|].
Qed.

Lemma digits_no c v : 0 <= v -> is_digit c = false -> c ∉ to_string v.
Proof.
  intros Hv Hc Hin. pose proof (to_string_all_digits v Hv) as Hd. rewrite Forall_forall in Hd.
  specialize (Hd c Hin). cbn in Hd. congruence.
Qed.

Lemma to_string_cons v : 0 <= v -> exists x s, to_string v = x :: s.
Proof. intros Hv. pose proof (to_string_nonempty v Hv). destruct (to_string v) as [|x s]; [done|]. by exists x, s. Qed.

(** The three range forms, first-last, first- and -suffix, and the range each denotes. *)
Lemma parse_range_forms size first last_ :
  0 < size <= i64_max -> 0 <= first <= i64_max -> 0 <= last_ <= i64_max ->
  parse_range_header (Some (str "bytes=" ++ to_string first ++ str "-" ++ to_string last_)) size =
    Some (range_check first (Z.min last_ (size - 1)) size) /\
  parse_range_header (Some (str "bytes=" ++ to_string first ++ str "-")) size =
    Some (range_check first (size - 1) size) /\
  (0 < last_ -> parse_range_header (Some (str "bytes=-" ++ to_string last_)) size =
    Some (mk_range true true (Z.max 0 (size - last_)) (size - 1))).
Proof.
  intros Hs Hf Hl. change (str "-") with ["-"%byte]. change (str "bytes=-") with (str "bytes=" ++ ["-"%byte]).
  assert (forall v, 0 <= v -> "-"%byte ∉ to_string v) as Hd by (intros; by apply digits_no).
  assert (forall v, 0 <= v -> ","%byte ∉ to_string v) as Hc by (intros; by apply digits_no).
  rewrite <-(app_assoc (str "bytes=")). destruct (to_string_cons first ltac:(lia)) as (x & s & Ef).
  destruct (to_string_cons last_ ltac:(lia)) as (y & t & El). split_and!.
  - rewrite parse_range_text by (try lia; solve_notin; apply Hc; lia). cbn [app].
    rewrite find_byte_app, take_app_length, drop_sep by (apply Hd; lia). unfold from_range. rewrite Ef, El.
    by rewrite <-Ef, <-El, !parse_i64_to_string by done.
  - rewrite parse_range_text by (try lia; solve_notin; apply Hc; lia).
    rewrite find_byte_app, take_app_length, drop_sep by (apply Hd; lia). rewrite Ef. cbv beta iota.
    rewrite <-Ef. unfold from_range. rewrite parse_i64_to_string by done. by rewrite Z.min_id.
  - intros Hl0. rewrite parse_range_text by (try lia; cbn [app]; solve_notin; apply Hc; lia).
    cbn [app find_byte]. rewrite byte_eqb_refl. cbn [take drop]. unfold suffix_range.
    rewrite drop_0, El, <-El, parse_i64_to_string by done. destruct (Z.leb_spec last_ 0); [lia|].
    unfold range_check. do 2 f_equal. destruct (Z.ltb_spec (Z.max 0 (size - last_)) 0); [lia|].
    destruct (Z.ltb_spec (size - 1) (Z.max 0 (size - last_))); [lia|].
    destruct (Z.leb_spec size (Z.max 0 (size - last_))); [lia|]. done.
Qed.

Lemma parse_range_forms_witness :
  parse_range_header (Some (str "bytes=500-")) 1000 = Some (range_check 500 999 1000).
Proof. apply (parse_range_forms 1000 500 0); unfold i64_max; lia. Defined.

(** ** Serving *)
Section ServeFacts.
Context {B W S : Type} `{StreamSeeks S}.

(** [finalize] keeps the status, the length, and every header it does not own. *)
Lemma finalize_get req mtime etag (r : response W) name :
  header_name_equals ACCEPT_RANGES name = false -> header_name_equals ETAG name = false ->
  header_name_equals LAST_MODIFIED name = false -> header_name_equals CACHE_CONTROL name = false ->
  headers_get name (resp_headers (finalize (B := B) req mtime etag r)) = headers_get name (resp_headers r).
Proof.
  intros H1' H2' H3' H4'. unfold finalize. case_if; cbn [resp_without_body resp_set_header resp_headers];
    by rewrite !headers_get_after_set, H1', H2', H3', H4'.
Qed.

Lemma finalize_etag req mtime etag (r : response W) :
  headers_get ETAG (resp_headers (finalize (B := B) req mtime etag r)) = Some etag.
Proof.
  unfold finalize. case_if; cbn [resp_without_body resp_set_header resp_headers];
    rewrite !headers_get_after_set; reflexivity.
Qed.

Lemma finalize_body req mtime etag (r : response W) :
  is_method HEAD req = false -> resp_body (finalize (B := B) req mtime etag r) = resp_body r.
Proof. unfold finalize. by intros ->. Qed.

Lemma finalize_status req mtime etag (r : response W) :
  resp_status (finalize (B := B) req mtime etag r) = resp_status r /\
  resp_content_length (finalize (B := B) req mtime etag r) = resp_content_length r.
Proof. unfold finalize. by case_if. Qed.

(** A satisfiable single-range request is answered 206 with Content-Range and a body stream
    holding exactly the requested slice of the content, whose length is the announced one. *)
Lemma serve_range_slice (req : request B) (content : S) size mtime mime etag v rr :
  st_ok content -> size = Z.of_nat (length (st_content content)) ->
  if_match_fails req etag = false -> revalidate req mtime etag = Fresh -> is_method HEAD req = false ->
  range_in_use req mtime etag = Some v -> parse_range_header (Some v) size = Some rr ->
  0 <= rr_begin rr <= rr_end rr -> rr_end rr < size -> rr_satisfiable rr = true ->
  exists (r : response W) b,
    serve_stream_conditionally req content size mtime mime etag = Some r /\
    resp_status r = 206 /\ resp_content_length r = rr_end rr - rr_begin rr + 1 /\
    resp_body r = Some b /\ st_ok b /\
    st_data b = take (Z.to_nat (rr_end rr - rr_begin rr + 1)) (drop (Z.to_nat (rr_begin rr)) (st_content content)) /\
    Z.of_nat (length (st_data b)) = resp_content_length r /\
    headers_get CONTENT_RANGE (resp_headers r) = Some (str "bytes " ++ to_string (rr_begin rr) ++ str "-" ++
      to_string (rr_end rr) ++ str "/" ++ to_string size).
Proof.
  intros Hok Hsz Him Hrv Hh Hru Hpr Hb He Hsat. unfold serve_stream_conditionally.
  rewrite Him, Hrv, Hru, Hpr. cbn [mbind option_bind]. rewrite Hsat.
  destruct (range_new_seekable content (rr_begin rr) (rr_end rr + 1) Hok) as [Hok' Hd]; [lia..|].
  replace (Z.to_nat (rr_end rr + 1) - Z.to_nat (rr_begin rr))%nat
    with (Z.to_nat (rr_end rr - rr_begin rr + 1)) in Hd by lia.
  eexists _, _. split; [done|]. rewrite finalize_body by done.
  destruct (finalize_status req mtime etag (ranged_response content rr size mime)) as [-> ->].
  assert (resp_content_length (ranged_response (W := W) content rr size mime) = rr_end rr - rr_begin rr + 1) as ->.
  { cbn. destruct (Z.leb_spec 0 (rr_end rr - rr_begin rr + 1)); [done|lia]. }
  split; [done|]. split; [done|]. split; [reflexivity|]. split; [done|]. split; [done|]. split.
  - change (st_data (any ?x)) with (st_data x). rewrite Hd, length_take, length_drop. lia.
  - rewrite finalize_get by reflexivity. unfold ranged_response. cbn [resp_set_header resp_headers].
    by rewrite headers_get_after_set, name_eq_refl.
Qed.
(** *** Requests for a part *)

(** The three forms of a range, how they are written, and the first and the last
    byte each selects of a content of [size] bytes. *)
Inductive byte_range := RFirstLast (first last : Z) | RFrom (first : Z) | RSuffix (n : Z).

Definition range_text (r : byte_range) : bytes :=
  str "bytes=" ++
  match r with
  | RFirstLast a b => to_string a ++ str "-" ++ to_string b
  | RFrom a => to_string a ++ str "-"
  | RSuffix n => str "-" ++ to_string n
  end.

Definition range_fits (r : byte_range) : Prop :=
  match r with
  | RFirstLast a b => 0 <= a <= i64_max /\ 0 <= b <= i64_max
  | RFrom a | RSuffix a => 0 <= a <= i64_max
  end.

Definition selected (size : Z) (r : byte_range) : option (Z * Z) :=
  let '(b, e) := match r with
                 | RFirstLast a b => (a, Z.min b (size - 1))
                 | RFrom a => (a, size - 1)
                 | RSuffix n => (Z.max 0 (size - n), size - 1)
                 end in
  if b <=? e then Some (b, e) else None.

Lemma range_check_selects b e size :
  0 <= b -> e < size ->
  range_check b e size = mk_range true (bool_decide (b <= e)) b e.
Proof.
  intros Hb He. unfold range_check. f_equal. destruct (Z.ltb_spec b 0), (Z.ltb_spec e b), (Z.leb_spec size b);
    cbn [orb negb]; symmetry; first [apply bool_decide_eq_true_2; lia|apply bool_decide_eq_false_2; lia].
Qed.

Lemma parse_range_selects size r :
  0 < size <= i64_max -> range_fits r ->
  exists rr, parse_range_header (Some (range_text r)) size = Some rr /\
    (if rr_satisfiable rr then selected size r = Some (rr_begin rr, rr_end rr) else selected size r = None).
Proof.
  intros Hs Hr.
  assert (forall b e, 0 <= b -> e < size -> rr_satisfiable (range_check b e size) = (b <=? e)) as Hc.
  { intros b e Hb He. rewrite range_check_selects by done. cbn.
    destruct (Z.leb_spec b e); [by apply bool_decide_eq_true_2|apply bool_decide_eq_false_2; lia]. }
  destruct r as [a b|a|n]; unfold range_text, selected; cbn [range_fits] in Hr.
  - destruct (parse_range_forms size a b) as (E & _); [lia..|]. eexists. split; [exact E|].
    rewrite Hc by lia. by destruct (a <=? Z.min b (size - 1)).
  - destruct (parse_range_forms size a 0) as (_ & E & _); [unfold i64_max in *; lia..|]. eexists. split; [exact E|].
    rewrite Hc by lia. by destruct (a <=? size - 1).
  - destruct (Z.eq_dec n 0) as [->|Hn].
    + eexists. split; [rewrite parse_range_text by (lia || (vm_compute; set_solver)); reflexivity|].
      cbn. destruct (Z.leb_spec (Z.max 0 (size - 0)) (size - 1)); [lia|done].
    + destruct (parse_range_forms size 0 n) as (_ & _ & E); [unfold i64_max in *; lia..|].
      eexists. split; [apply E; lia|]. cbn. destruct (Z.leb_spec (Z.max 0 (size - n)) (size - 1)); [done|lia].
Qed.

Lemma selected_bounds size r b e : 0 < size -> range_fits r -> selected size r = Some (b, e) -> 0 <= b <= e /\ e < size.
Proof.
  intros Hs Hr. unfold selected. destruct r as [x y|x|n]; cbn [range_fits] in Hr;
    (match goal with |- (if ?b <=? ?e then _ else _) = _ -> _ => destruct (Z.leb_spec b e) end; intros [= <- <-]; lia).
Qed.

(** C39: A request other than HEAD with one byte range (first-last, first- or -suffix, numbers
    below 2^63), to which no precondition answers and whose If-Range allows it, is answered
    over non-empty content exactly: when the range selects bytes, 206 with a body stream of
    exactly those bytes of the content, their number as length and their positions in
    Content-Range; when it selects none, 416 without a body and with the size in
    Content-Range. *)
Theorem ranges_served_exactly (req : request B) (content : S) size mtime mime etag r :
  st_ok content -> size = Z.of_nat (length (st_content content)) -> 0 < size <= i64_max ->
  if_match_fails req etag = false -> revalidate req mtime etag = Fresh -> is_method HEAD req = false ->
  headers_get RANGE (req_headers req) = Some (range_text r) -> range_fits r -> if_range_ok req mtime etag = true ->
  exists resp : response W,
    serve_stream_conditionally req content size mtime mime etag = Some resp /\
    match selected size r with
    | Some (b, e) => exists body, resp_status resp = 206 /\ resp_body resp = Some body /\ st_ok body /\
        st_data body = take (Z.to_nat (e - b + 1)) (drop (Z.to_nat b) (st_content content)) /\
        resp_content_length resp = e - b + 1 /\ Z.of_nat (length (st_data body)) = e - b + 1 /\
        headers_get CONTENT_RANGE (resp_headers resp) =
          Some (str "bytes " ++ to_string b ++ str "-" ++ to_string e ++ str "/" ++ to_string size)
    | None => resp_status resp = 416 /\ resp_body resp = None /\
        headers_get CONTENT_RANGE (resp_headers resp) = Some (str "bytes */" ++ to_string size)
    end.
Proof.
  intros Hok Hsz Hs Him Hrv Hh Hg Hfit Hir.
  destruct (parse_range_selects size r Hs Hfit) as (rr & Hpr & Hsel).
  assert (range_in_use req mtime etag = Some (range_text r)) as Hru by (unfold range_in_use; by rewrite Hg, Hir).
  destruct (rr_satisfiable rr) eqn:Hsat; rewrite Hsel.
  - assert (0 <= rr_begin rr <= rr_end rr /\ rr_end rr < size) as [Hb He]
      by (apply (selected_bounds size r); [lia|done|done]).
    destruct (serve_range_slice req content size mtime mime etag _ rr Hok Hsz Him Hrv Hh Hru Hpr Hb He Hsat)
      as (resp & body & ? & ? & Hl & ? & ? & ? & Hd & ?).
    exists resp. split; [done|]. exists body. by rewrite Hd, Hl.
  - unfold serve_stream_conditionally. rewrite Him, Hrv, Hru, Hpr. cbn [mbind option_bind]. rewrite Hsat.
    eexists. split; [done|]. rewrite finalize_body by done.
    destruct (finalize_status req mtime etag (unsatisfiable_response (W := W) size)) as [-> _].
    split; [done|]. split; [done|]. rewrite finalize_get by reflexivity. unfold unsatisfiable_response.
    cbn [resp_set_header resp_headers]. by rewrite headers_get_after_set, name_eq_refl.
Qed.
End ServeFacts.

(** A request for bytes 2 to 4 of a seven-byte file. *)
Definition range_example : request unit :=
  mk_request (mk_resource GET (str "/f") (str "/f") [] 1 1)
    [mk_header (str "Range") (str "bytes=2-4")] tt (str "host") tags_empty.

Lemma serve_range_slice_witness :
  exists (r : response unit) b,
    serve_stream_conditionally range_example (memory_stream_new (str "abcdefg")) 7 1000 (str "text/plain")
      (make_etag 1000 7) = Some r /\
    resp_status r = 206 /\ resp_body r = Some b /\ st_data b = str "cde".
Proof.
  destruct (serve_range_slice (W := unit) range_example (memory_stream_new (str "abcdefg")) 7 1000
    (str "text/plain") (make_etag 1000 7) (str "bytes=2-4") (mk_range true true 2 4))
    as (r & b & Hs & Hst & _ & Hb & _ & Hd & _); try reflexivity; try (cbn; lia).
  { apply Nat.le_0_l. }
  exists r, b. split; [exact Hs|]. split; [exact Hst|]. split; [exact Hb|]. rewrite Hd. reflexivity.
Defined.

(** A request for a range of the same file. *)
Definition range_of (v : bytes) : request unit :=
  mk_request (mk_resource GET (str "/f") (str "/f") [] 1 1) [mk_header (str "Range") v] tt (str "host") tags_empty.

Lemma ranges_served_exactly_witness :
  exists resp : response unit,
    serve_stream_conditionally (range_of (range_text (RSuffix 3))) (memory_stream_new (str "abcdefg")) 7 1000
      (str "text/plain") (make_etag 1000 7) = Some resp /\
    exists body, resp_status resp = 206 /\ resp_body resp = Some body /\ st_data body = str "efg".
Proof.
  destruct (ranges_served_exactly (W := unit) (range_of (range_text (RSuffix 3))) (memory_stream_new (str "abcdefg")) 7
    1000 (str "text/plain") (make_etag 1000 7) (RSuffix 3)) as (resp & Hs & body & H1 & H2 & _ & H3 & _);
    try reflexivity; try (unfold range_fits, i64_max; lia).
  { apply Nat.le_0_l. }
  exists resp. split; [exact Hs|]. exists body. split; [exact H1|]. split; [exact H2|]. rewrite H3. reflexivity.
Defined.

(** ** HEAD is GET without the body *)
Section Head.
Context {B W S : Type} `{StreamReads S}.

Definition with_method (m : http_method) (req : request B) : request B :=
  let r := req_resource req in
  mk_request (mk_resource m (hr_path r) (hr_raw_path r) (hr_query r) (hr_major r) (hr_minor r))
    (req_headers req) (req_body req) (req_hostname req) (req_tags req).

Lemma finalize_head req mtime etag (r : response W) :
  finalize (with_method HEAD req) mtime etag r = resp_without_body (finalize (with_method GET req) mtime etag r).
Proof. reflexivity. Qed.

Lemma revalidate_head (req : request B) mtime etag :
  revalidate (with_method HEAD req) mtime etag = revalidate (with_method GET req) mtime etag.
Proof. reflexivity. Qed.

(** HEAD is answered with the status, headers and content length of GET on every branch (412, 304,
    416, 206, 200), without the body. *)
Lemma serve_head_is_get (req : request B) (content : S) size mtime mime etag :
  serve_stream_conditionally (W := W) (with_method HEAD req) content size mtime mime etag =
  resp_without_body <$> serve_stream_conditionally (with_method GET req) content size mtime mime etag.
Proof.
  unfold serve_stream_conditionally.
  change (if_match_fails (with_method HEAD req) etag) with (if_match_fails (with_method GET req) etag).
  rewrite revalidate_head.
  change (range_in_use (with_method HEAD req) mtime etag) with (range_in_use (with_method GET req) mtime etag).
  destruct (if_match_fails _ _); [by rewrite finalize_head|].
  destruct (revalidate _ _ _); try by rewrite finalize_head.
  destruct (range_in_use _ _ _) as [v|]; [|by rewrite finalize_head].
  destruct (parse_range_header (Some v) size) as [rr|]; [|done]. cbn. by rewrite finalize_head.
Qed.

(** A [Range] header whose unit is not ["bytes"] is to be ignored; the engine
    does not look at [present] and answers 206 with one byte. *)
Lemma unknown_range_unit_served (req : request B) (content : S) size mtime mime etag v :
  if_match_fails req etag = false -> revalidate req mtime etag = Fresh ->
  range_in_use req mtime etag = Some v -> take 6 v <> str "bytes=" ->
  exists r : response W, serve_stream_conditionally req content size mtime mime etag = Some r /\
    resp_status r = 206 /\ resp_content_length r = 1.
Proof.
  intros Him Hrv Hru Hv. unfold serve_stream_conditionally. rewrite Him, Hrv, Hru.
  assert (parse_range_header (Some v) size = Some range_default) as ->.
  { unfold parse_range_header. case_if; [done|]. by rewrite (proj2 (bytes_eqb_false _ _) Hv). }
  eexists. split; [reflexivity|].
  destruct (finalize_status (W := W) req mtime etag (ranged_response content range_default size mime)) as [E1 E2].
  cbn [rr_satisfiable range_default]. rewrite E1, E2. done.
Qed.
End Head.
