(* ===== verification/FileExtensions.v ===== *)
(** * FileExtensions: src/server/extensions/overlay.cpp and single_file.cpp

    The two static-file extensions.  [stat_file] and the opening of a file are
    the operating system's (platform::stat_file, io::file_stream::open); they
    are parameters here.  [self] is the address of the extension object, which
    guards the request-scoped caches. *)

From S2P Require Import Prelude Bytes Stream Method Header Resource Mime Server VPath StaticContent.

#[local] Open Scope Z_scope.

Section Files.
Context {B W F : Type} `{StreamReads F}.
Context (open_file : bytes -> Z -> option F).

(** Only GET and HEAD are served. *)
Definition get_or_head (req : request B) : bool := is_method GET req || is_method HEAD req.

(** ** overlay *)
Section Overlay.
Context (self : nat) (base_dir index_file : bytes).

(** The constructor drops a trailing slash. *)
Definition overlay_base (dir : bytes) : bytes :=
  if (1 <? length dir)%nat && bool_decide (last dir = Some "/"%byte) then removelast dir else dir.

Definition overlay_fs_path (qualified : bytes) : bytes :=
  match qualified with [] => base_dir | _ => base_dir ++ str "/" ++ qualified end.

Definition overlay_index_path (fs_path : bytes) : bytes :=
  (match fs_path with
   | [] => []
   | _ => if bool_decide (last fs_path = Some "/"%byte) then fs_path else fs_path ++ str "/"
   end) ++ index_file.

(** What [resolve] computes when the cache does not answer. *)
Definition overlay_lookup (stat_file : bytes -> file_info) (req : request B) : option (bytes * file_info) :=
  match qualify_relative_path (subpath_of req) with
  | None => None
  | Some qualified =>
      let fs_path := overlay_fs_path qualified in
      let info := stat_file fs_path in
      let '(fs_path, info) :=
        match fi_kind info with
        | fk_directory =>
            let index_path := overlay_index_path fs_path in (index_path, stat_file index_path)
        | _ => (fs_path, info)
        end in
      match fi_kind info with fk_regular_file => Some (fs_path, info) | _ => None end
  end.

Definition overlay_resolve (stat_file : bytes -> file_info) (req : request B)
  : option (bytes * file_info) * request B :=
  let cache := ensure resolve_cache_default (tag_resolve (req_tags req)) in
  let put c := req_with_tags (tags_set_resolve c (req_tags req)) req in
  if rc_computed cache && bool_decide (rc_owner cache = Some self) then (rc_value cache, put cache)
  else
    let value := overlay_lookup stat_file req in
    (value, put (mk_resolve_cache (Some self) true value)).

Definition overlay_wants (stat_file : bytes -> file_info) (req : request B) : bool * request B :=
  if negb (get_or_head req) then (false, req)
  else
    match qualify_relative_path (subpath_of req) with
    | None => (true, req)
    | Some _ =>
        let '(v, req) := overlay_resolve stat_file req in
        (match v with Some _ => true | None => false end, req)
    end.

(** [None] is the undefined arithmetic of an oversized [Range]. *)
Definition overlay_handle (stat_file : bytes -> file_info) (req : request B)
  : option (response W) * request B :=
  match qualify_relative_path (subpath_of req) with
  | None => (Some (make_response 403), req)
  | Some _ =>
      let '(resolved, req) := overlay_resolve stat_file req in
      match resolved with
      | None => (Some (make_response 404), req)
      | Some (fs_path, info) =>
          match open_file fs_path (fi_size info) with
          | None => (Some (make_response 404), req)
          | Some file =>
              (serve_stream_conditionally req file (fi_size info) (fi_mtime info)
                 (mime_type_from_extension fs_path) (make_etag (fi_mtime info) (fi_size info)), req)
          end
      end
  end.
End Overlay.

(** ** single_file *)
Section SingleFile.
Context (self : nat) (path : bytes) (mime_override : option bytes).

Definition single_file_stat (stat_file : bytes -> file_info) (req : request B)
  : option file_info * request B :=
  let cache := ensure stat_cache_default (tag_stat (req_tags req)) in
  let put c := req_with_tags (tags_set_stat c (req_tags req)) req in
  if sc_computed cache && bool_decide (sc_owner cache = Some self) then (sc_value cache, put cache)
  else
    let info := stat_file path in
    let value := match fi_kind info with fk_regular_file => Some info | _ => None end in
    (value, put (mk_stat_cache (Some self) true value)).

Definition single_file_wants (stat_file : bytes -> file_info) (req : request B) : bool * request B :=
  if negb (get_or_head req) then (false, req)
  else
    let '(v, req) := single_file_stat stat_file req in
    (match v with Some _ => true | None => false end, req).

Definition single_file_handle (stat_file : bytes -> file_info) (req : request B)
  : option (response W) * request B :=
  let '(info, req) := single_file_stat stat_file req in
  match info with
  | None => (Some (make_response 404), req)
  | Some info =>
      match open_file path (fi_size info) with
      | None => (Some (make_response 404), req)
      | Some file =>
          let mime := match mime_override with Some m => m | None => mime_type_from_extension path end in
          (serve_stream_conditionally req file (fi_size info) (fi_mtime info) mime
             (make_etag (fi_mtime info) (fi_size info)), req)
      end
  end.
End SingleFile.

(** ** What reaches the file system *)

(** The caches another extension left behind do not answer. *)
Definition not_cached (self : nat) (req : request B) : Prop :=
  forall c, tag_resolve (req_tags req) = Some c -> rc_computed c = true -> rc_owner c <> Some self.

Lemma overlay_resolve_fresh self base index stat req :
  not_cached self req ->
  overlay_resolve self base index stat req =
  (overlay_lookup base index stat req,
   req_with_tags (tags_set_resolve (mk_resolve_cache (Some self) true (overlay_lookup base index stat req))
                    (req_tags req)) req).
Proof.
  intros Hn. unfold overlay_resolve. cbv zeta. case_if; [|done]. bool_to_prop.
  unfold not_cached in Hn. destruct (tag_resolve (req_tags req)) as [c|]; [|done]. cbn in *.
  by destruct (Hn c eq_refl).
Qed.

(** A path below the base directory: plain segments, perhaps the index file. *)
Definition confined (base index : bytes) (segs : list bytes) (p : bytes) : Prop :=
  Forall plain_segment segs /\
  (p = overlay_fs_path base (join_with "/" segs) \/
   p = overlay_index_path index (overlay_fs_path base (join_with "/" segs))).

(** What a lookup of the path [sub] may answer. *)
Definition lookup_of (base index : bytes) (stat : bytes -> file_info) (sub : bytes) (v : option (bytes * file_info)) : Prop :=
  forall p info, v = Some (p, info) ->
    info = stat p /\ fi_kind info = fk_regular_file /\
    exists segs, qualify_relative_path sub = Some (join_with "/" segs) /\ confined base index segs p.

Lemma lookup_confined base index stat req :
  lookup_of base index stat (subpath_of req) (overlay_lookup base index stat req).
Proof.
  intros p info. unfold overlay_lookup. destruct (qualify_relative_path (subpath_of req)) as [q|] eqn:E; [|done].
  apply qualify_segments in E as (segs & Hs & ->). unfold confined. intros Hl.
  assert (info = stat p /\ fi_kind info = fk_regular_file /\
    (p = overlay_fs_path base (join_with "/" segs) \/ p = overlay_index_path index (overlay_fs_path base (join_with "/" segs))))
    as (? & ? & ?); [|by eauto 10].
  revert Hl. destruct (fi_kind (stat (overlay_fs_path base (join_with "/" segs)))) eqn:Ek; cbv zeta; rewrite ?Ek; try done.
  - intros [= <- <-]. auto.
  - destruct (fi_kind (stat (overlay_index_path _ _))) eqn:Ek2; try done. intros [= <- <-]. auto.
Qed.

(** *** The life of a request

    What may happen to a request before [handle]: [wants] and [handle] of this
    extension, on whatever the file system reports then; and the other parts of
    the program, which leave this extension's cache alone or replace it by their
    own (they may change anything else, the mounted path too).  [asked] are the
    file system's states so far, with the path looked up in each. *)
Inductive overlay_life (self : nat) (base index : bytes) : list ((bytes -> file_info) * bytes) -> request B -> Prop :=
| ol_new req : not_cached self req -> overlay_life self base index [] req
| ol_wants asked stat req : overlay_life self base index asked req ->
    overlay_life self base index ((stat, subpath_of req) :: asked) (overlay_wants self base index stat req).2
| ol_handle asked stat req : overlay_life self base index asked req ->
    overlay_life self base index ((stat, subpath_of req) :: asked) (overlay_handle self base index stat req).2
| ol_elsewhere asked req req' : overlay_life self base index asked req ->
    tag_resolve (req_tags req') = tag_resolve (req_tags req) \/ not_cached self req' ->
    overlay_life self base index asked req'.

(** What the cache of this extension holds was looked up for it. *)
Definition cache_sound (self : nat) (base index : bytes) (asked : list ((bytes -> file_info) * bytes)) (req : request B) : Prop :=
  forall c, tag_resolve (req_tags req) = Some c -> rc_computed c = true -> rc_owner c = Some self ->
    exists stat sub, (stat, sub) ∈ asked /\ lookup_of base index stat sub (rc_value c).

Lemma resolve_sound self base index asked stat req v req' :
  cache_sound self base index asked req -> overlay_resolve self base index stat req = (v, req') ->
  cache_sound self base index ((stat, subpath_of req) :: asked) req' /\
  exists stat0 sub, (stat0, sub) ∈ (stat, subpath_of req) :: asked /\ lookup_of base index stat0 sub v.
Proof.
  intros Hc. unfold overlay_resolve. cbv zeta. destruct (rc_computed _ && _) eqn:Hb; intros [= <- <-].
  - apply andb_true_iff in Hb as [Hcomp Hown%bool_decide_eq_true].
    destruct (tag_resolve (req_tags req)) as [c|] eqn:Et; [|done]. cbn [ensure] in *.
    destruct (Hc c Et Hcomp Hown) as (stat0 & sub & Hin & Hl).
    assert ((stat0, sub) ∈ (stat, subpath_of req) :: asked) by by right.
    split; [|by exists stat0, sub]. intros c' [= <-] _ _. by exists stat0, sub.
  - assert (exists stat0 sub, (stat0, sub) ∈ (stat, subpath_of req) :: asked /\
      lookup_of base index stat0 sub (overlay_lookup base index stat req)) as H1
      by (exists stat, (subpath_of req); split; [by left|apply lookup_confined]).
    split; [|done]. intros c [= <-] _ _. exact H1.
Qed.

Lemma cache_sound_more self base index asked x req :
  cache_sound self base index asked req -> cache_sound self base index (x :: asked) req.
Proof. intros Hc c E1 E2 E3. destruct (Hc c E1 E2 E3) as (st & sub & ? & ?). exists st, sub. by split; [right|]. Qed.

Lemma wants_sound self base index asked stat req :
  cache_sound self base index asked req ->
  cache_sound self base index ((stat, subpath_of req) :: asked) (overlay_wants self base index stat req).2.
Proof.
  intros Hc. unfold overlay_wants. destruct (negb (get_or_head req)); [by apply cache_sound_more|].
  destruct (qualify_relative_path _); [|by apply cache_sound_more].
  destruct (overlay_resolve self base index stat req) as [v req'] eqn:Er. by apply (resolve_sound _ _ _ _ _ _ _ _ Hc Er).
Qed.

Lemma handle_sound self base index asked stat req :
  cache_sound self base index asked req ->
  cache_sound self base index ((stat, subpath_of req) :: asked) (overlay_handle self base index stat req).2.
Proof.
  intros Hc. unfold overlay_handle. destruct (qualify_relative_path _); [|by apply cache_sound_more].
  destruct (overlay_resolve self base index stat req) as [[[p info]|] req'] eqn:Er;
    [destruct (open_file p (fi_size info))|]; by apply (resolve_sound _ _ _ _ _ _ _ _ Hc Er).
Qed.

Lemma life_sound self base index asked req :
  overlay_life self base index asked req -> cache_sound self base index asked req.
Proof.
  induction 1 as [req Hn|asked stat req _ IH|asked stat req _ IH|asked req req' _ IH [E|Hn]].
  - intros c E1 E2 E3. by destruct (Hn c E1 E2).
  - by apply wants_sound.
  - by apply handle_sound.
  - intros c. rewrite E. apply IH.
  - intros c E1 E2 E3. by destruct (Hn c E1 E2).
Qed.

(** C25: Every response of the overlay, to a request on which any sequence of its own wants() and
    handle() calls was made before (the metadata cache they fill included) and whatever the
    other parts of the program did to it, is 403 exactly when the path escapes, and otherwise
    404 or the content of a regular file whose path is the base directory followed by the
    plain segments (no empty, dot or dot-dot segment) of a path that was looked up for this
    request, possibly with the index file appended; its size and time are those the file
    system reported then. *)
Theorem overlay_serves_below_base self base index asked stat (req : request B) resp req' :
  overlay_life self base index asked req -> overlay_handle self base index stat req = (resp, req') ->
  resp = Some (make_response 403) /\ qualify_relative_path (subpath_of req) = None \/
  qualify_relative_path (subpath_of req) <> None /\
  (resp = Some (make_response 404) \/
   exists stat0 sub segs p file,
    (stat0, sub) ∈ (stat, subpath_of req) :: asked /\
    qualify_relative_path sub = Some (join_with "/" segs) /\ confined base index segs p /\
    fi_kind (stat0 p) = fk_regular_file /\ open_file p (fi_size (stat0 p)) = Some file /\
    resp = serve_stream_conditionally req' file (fi_size (stat0 p)) (fi_mtime (stat0 p))
             (mime_type_from_extension p) (make_etag (fi_mtime (stat0 p)) (fi_size (stat0 p)))).
Proof.
  intros Hc%life_sound. unfold overlay_handle. destruct (qualify_relative_path (subpath_of req)) as [q|] eqn:Eq.
  2:{ intros [= <- <-]. by left. }
  intros Hh. right. split; [done|]. revert Hh.
  destruct (overlay_resolve self base index stat req) as [v req1] eqn:Er.
  destruct (resolve_sound _ _ _ _ _ _ _ _ Hc Er) as (_ & stat0 & sub & Hin & Hl).
  destruct v as [[p info]|]; [|intros [= <- <-]; auto].
  destruct (Hl p info eq_refl) as (-> & Hk & segs & Hsub & Hp).
  destruct (open_file p (fi_size (stat0 p))) as [file|] eqn:Eo; intros [= <- <-]; [|auto].
  right. by exists stat0, sub, segs, p, file.
Qed.

(** After wants() on the same request, handle() does not consult the file system's metadata again:
    its answer is the same for any later stat results. *)
Lemma overlay_handle_reuses_wants self base index stat stat' (req req1 : request B) wanted :
  not_cached self req -> get_or_head req = true ->
  overlay_wants self base index stat req = (wanted, req1) ->
  overlay_handle self base index stat' req1 = overlay_handle self base index stat req1.
Proof.
  intros Hn Hm. unfold overlay_wants. rewrite Hm. cbn [negb].
  destruct (qualify_relative_path (subpath_of req)) as [q|] eqn:Eq.
  - rewrite overlay_resolve_fresh by done. intros [= _ <-]. unfold overlay_handle.
    change (subpath_of (req_with_tags _ req)) with (subpath_of req). rewrite Eq.
    unfold overlay_resolve. cbn. by rewrite bool_decide_eq_true_2.
  - intros [= _ <-]. unfold overlay_handle. by rewrite Eq.
Qed.

(** Both extensions leave the stack of mounted paths alone. *)
Lemma overlay_scoped self base index stat (req : request B) :
  subpaths (snd (overlay_wants self base index stat req)) = subpaths req /\
  subpaths (snd (overlay_handle self base index stat req)) = subpaths req.
Proof.
  unfold overlay_wants, overlay_handle, overlay_resolve. cbv zeta.
  split; repeat (case_match; simplify_eq; try done).
Qed.

Lemma single_file_scoped self path mime stat (req : request B) :
  subpaths (snd (single_file_wants self path stat req)) = subpaths req /\
  subpaths (snd (single_file_handle self path mime stat req)) = subpaths req.
Proof.
  unfold single_file_wants, single_file_handle, single_file_stat. cbv zeta.
  split; repeat (case_match; simplify_eq; try done).
Qed.
End Files.

(** ** An example file system: one file under the served directory *)

Definition example_stat (p : bytes) : file_info :=
  if bytes_eqb p (str "www/a.txt") then mk_file_info fk_regular_file 3 1000
  else mk_file_info fk_not_found 0 0.

Definition example_open (p : bytes) (size : Z) : option memory_stream :=
  if bytes_eqb p (str "www/a.txt") then Some (memory_stream_new (str "abc")) else None.

Definition example_request (path : bytes) : request unit :=
  mk_request (mk_resource GET path path [] 1 1) [] tt (str "host") tags_empty.

(** The way a request takes: [wants], which fills the cache, and then [handle]. *)
Lemma overlay_serves_below_base_witness :
  exists segs p file, confined (str "www") (str "index.html") segs p /\
    qualify_relative_path (subpath_of (example_request (str "/x/../a.txt"))) = Some (join_with "/" segs) /\
    fi_kind (example_stat p) = fk_regular_file /\ example_open p (fi_size (example_stat p)) = Some file.
Proof.
  set (req := example_request (str "/x/../a.txt")).
  set (req1 := (overlay_wants 1 (str "www") (str "index.html") example_stat req).2).
  set (res := overlay_handle (W := unit) example_open 1 (str "www") (str "index.html") example_stat req1).
  destruct (overlay_serves_below_base (W := unit) example_open 1 (str "www") (str "index.html")
    [(example_stat, subpath_of req)] example_stat req1 (fst res) (snd res))
    as [[E _]|[_ [E|(stat0 & sub & segs & p & file & H1 & H2 & H3 & H4 & H5 & _)]]];
    [apply ol_wants, ol_new; intros c E; discriminate E|apply surjective_pairing|discriminate E|discriminate E|].
  assert (stat0 = example_stat /\ sub = subpath_of req) as [-> ->]
    by (revert H1; rewrite !elem_of_cons, elem_of_nil; intros [[= -> ->]|[[= -> ->]|[]]]; by split).
  by exists segs, p, file.
Defined.

Lemma overlay_handle_reuses_wants_witness :
  let req := example_request (str "/a.txt") in
  let req1 := snd (overlay_wants 1 (str "www") (str "index.html") example_stat req) in
  overlay_handle (W := unit) example_open 1 (str "www") (str "index.html")
    (fun _ => mk_file_info fk_not_found 0 0) req1 =
  overlay_handle example_open 1 (str "www") (str "index.html") example_stat req1.
Proof.
  intros req req1.
  apply (overlay_handle_reuses_wants example_open 1 (str "www") (str "index.html") example_stat
    (fun _ => mk_file_info fk_not_found 0 0) req req1 true); [intros c E; discriminate E|reflexivity..].
Defined.
