(* ===== verification/WebsocketEndpoint.v ===== *)
(** * WebsocketEndpoint: src/server/extensions/websocket_endpoint.cpp

    The handshake extension: it claims an upgrade request for its path,
    answers 101 with the accept key, and its upgrade handler hands the wire,
    with the bytes already buffered, to a WebSocket connection. *)

From S2P Require Import Prelude Bytes Stream Feeder Method Header Resource Server VPath Handshake WsConnection.

#[local] Open Scope Z_scope.

(** [contains_token_ci]: the token is given in lower case. *)
Definition contains_token_ci (value token : bytes) : bool :=
  match find_sub token (to_lower value) with Some _ => true | None => false end.

Section Endpoint.
Context {B W : Type} `{Stream W}.

(** [on_connect] owns the connection until it is done with it. *)
Context (path : bytes) (on_connect : ws_connection W -> W) (prio : Z).

Definition websocket_wants (req : request B) : bool * request B :=
  (if negb (hm_eqb (req_method req) GET) || negb (bytes_eqb (req_path req) path) then false
   else
     match headers_get UPGRADE (req_headers req), headers_get CONNECTION (req_headers req) with
     | Some upgrade, Some connection =>
         contains_token_ci upgrade (str "websocket") && contains_token_ci connection (str "upgrade")
     | _, _ => false
     end, req).

Definition websocket_handle (req : request B) : response W * request B :=
  match headers_get SEC_WEBSOCKET_KEY (req_headers req) with
  | None => (make_response 400, req)
  | Some key =>
      let r : response W := resp_with_status 101 response_default in
      let r := resp_set_header UPGRADE (str "websocket") r in
      let r := resp_set_header CONNECTION (str "Upgrade") r in
      let r := resp_set_header SEC_WEBSOCKET_ACCEPT (compute_accept_key key) r in
      (mk_response (resp_status r) (resp_headers r) (resp_body r) (resp_content_length r)
         (Some (fun wire leftover => on_connect (ws_new wire leftover))), req)
  end.

Definition websocket_endpoint : extension B W := mk_extension prio websocket_wants websocket_handle.

#[global] Instance websocket_Scoped : Scoped websocket_endpoint.
Proof.
  split; [done|]. intros req. cbn. unfold websocket_handle.
  by destruct (headers_get SEC_WEBSOCKET_KEY (req_headers req)).
Qed.

(** A request with a key is answered 101 with the accept value of RFC 6455 and upgrade headers,
    and the upgrade handler starts the WebSocket connection on the wire with the bytes already
    buffered. *)
Lemma websocket_handshake (req : request B) key :
  headers_get SEC_WEBSOCKET_KEY (req_headers req) = Some key ->
  exists r, ext_handle websocket_endpoint req = (r, req) /\ resp_status r = 101 /\
    headers_get SEC_WEBSOCKET_ACCEPT (resp_headers r) = Some (base64_encode (Sha1.sha1 (key ++ magic_guid))) /\
    headers_get UPGRADE (resp_headers r) = Some (str "websocket") /\
    headers_get CONNECTION (resp_headers r) = Some (str "Upgrade") /\
    exists h, resp_upgrade_handler r = Some h /\
      forall wire leftover, h wire leftover = on_connect (ws_new wire leftover).
Proof.
  intros Hk. eexists. split; [cbn; unfold websocket_handle; rewrite Hk; reflexivity|].
  cbn [resp_status resp_headers resp_upgrade_handler]. split; [done|].
  unfold resp_with_status, response_default. cbn [resp_set_header resp_headers].
  rewrite !headers_get_after_set. split_and!; try reflexivity. eexists. split; reflexivity.
Qed.
End Endpoint.

Lemma websocket_handshake_witness :
  let req := mk_request (mk_resource GET (str "/ws") (str "/ws") [] 1 1)
    [mk_header (str "sec-websocket-key") (str "dGhlIHNhbXBsZSBub25jZQ==")] tt (str "host") tags_empty in
  exists r, ext_handle (websocket_endpoint (str "/ws") (fun c : ws_connection wire => fd_source (ws_feed c)) 0) req
            = (r, req) /\ resp_status r = 101.
Proof.
  intros req.
  destruct (websocket_handshake (str "/ws") (fun c : ws_connection wire => fd_source (ws_feed c)) 0 req
    (str "dGhlIHNhbXBsZSBub25jZQ==") eq_refl) as (r & H1 & H2 & _).
  by exists r.
Defined.
