(* ===== verification/Connection.v ===== *)
(** * Connection: src/server/connection.cpp and connection.hpp

    One HTTP/1.1 connection: the read-dispatch-write loop.  The body of a
    request is a stream over the connection's own read buffer and wire
    ([buffered_wire_stream] holds references to both), so what a handler reads
    of it is gone from the connection: after the handler the connection's
    buffer and wire are those inside the body stream.

    [std::time(nullptr)] is [clock k] for the [k]-th response.  [fuel] bounds
    every loop that waits for the peer; [None] is its exhaustion. *)

From S2P Require Import Prelude Bytes Stream Feeder Method Header Resource Status Date Chunked Http1Io Server.

#[local] Open Scope Z_scope.

(** The part of [params] a connection reads. *)
Record params := mk_params {
  p_max_header_size : nat;
  p_max_request_line_size : nat;
  p_server_header_value : bytes;
}.

Definition params_default : params :=
  mk_params (Z.to_nat (16 * 1024)) (Z.to_nat (8 * 1024)) (str "nhttp/2.0").

Definition extract_hostname (headers : http_headers) : bytes :=
  match headers_get HOST headers with
  | None => []
  | Some v =>
      if bool_decide (head v = Some "["%byte) then
        match find_byte "]" v with Some close => take (S close) v | None => v end
      else
        match find_byte ":" v with Some colon => take colon v | None => v end
  end.

Definition wants_keep_alive (resource : http_resource) (headers : http_headers) : bool :=
  match headers_get CONNECTION headers with
  | Some conn =>
      if header_value_contains_token conn (str "close") then false
      else if header_value_contains_token conn (str "keep-alive") then true
      else 1 <=? hr_minor resource
  | None => 1 <=? hr_minor resource
  end.

Section Connection.
Context {W : Type} `{Stream W}.
Context (p : params) (clock : nat -> Z).

(** ** State *)
Record connection := mk_conn {
  cn_wire : W;
  cn_buffer : bytes;
  cn_upgraded : bool;
  cn_responses : nat;
}.

Definition connection_new (w : W) (initial_buffer : bytes) : connection :=
  mk_conn w initial_buffer false 0.

(** ** Reading *)

Fixpoint read_request_line (fuel : nat) (buffer : bytes) (w : W)
  : option (option http_resource * bytes * W) :=
  match resource_try_parse buffer with
  | Parsed r consumed => Some (Some r, drop consumed buffer, w)
  | Malformed => Some (None, buffer, w)
  | NeedMore =>
      match fuel with
      | O => None
      | S f =>
          if (p_max_request_line_size p <? length buffer)%nat then Some (None, buffer, w)
          else
            let '(chunk, w') := st_read chunk_size w in
            match chunk with
            | [] => Some (None, buffer, w')
            | _ => read_request_line f (buffer ++ chunk) w'
            end
      end
  end.

(** The body stream's operations, by dynamic dispatch. *)
Definition body_read (fuel n : nat) (b : body_stream W) : bytes * body_stream W :=
  match b with
  | BodyChunked c =>
      let '(out, c') := @st_read _ (chunked_Stream fuel) n c in (out, BodyChunked c')
  | BodyLength r => let '(out, r') := st_read n r in (out, BodyLength r')
  | BodyNone m => let '(out, m') := st_read n m in (out, BodyNone m')
  end.

(** [while (co_await req.body->read(scratch, sizeof(scratch)) != 0)]. *)
Fixpoint drain_body (fuel k : nat) (b : body_stream W) : option (body_stream W) :=
  match k with
  | O => None
  | S k' =>
      let '(out, b') := body_read fuel chunk_size b in
      match out with [] => Some b' | _ => drain_body fuel k' b' end
  end.

(** The connection's buffer and wire, held by reference inside the body. *)
Definition body_source (b : body_stream W) : option (buffered_wire W) :=
  match b with
  | BodyChunked c => Some (fd_source (ck_feed c))
  | BodyLength r => Some (rs_inner r)
  | BodyNone _ => None
  end.

Definition after_body (b : body_stream W) (buffer : bytes) (w : W) : bytes * W :=
  match body_source b with Some s => (bw_leftover s, bw_wire s) | None => (buffer, w) end.

(** ** Writing *)

Abbreviation conn_request := (request (body_stream W)).
Abbreviation conn_response := (response W).
(** A handler mutates its request and what the program's handlers share (the
    objects their closures refer to, of type [X]), or throws ([None]). *)
Context {X : Type}.
Abbreviation handler := (X -> conn_request -> option (conn_response * conn_request * X)).

Definition use_chunked (resp : conn_response) : bool :=
  match resp_body resp with Some _ => resp_content_length resp <? 0 | None => false end.

(** The headers [write_response] adds. *)
Definition final_headers (now : Z) (resp : conn_response) (keep_alive : bool) : http_headers :=
  let h := resp_headers resp in
  let h := if negb (bytes_eqb (p_server_header_value p) []) && negb (headers_isset SERVER h)
           then headers_set SERVER (p_server_header_value p) h else h in
  let h := headers_set DATE (format_http_date now) h in
  let h := headers_set CONNECTION (if keep_alive then str "keep-alive" else str "close") h in
  if use_chunked resp then headers_set TRANSFER_ENCODING (str "chunked") h
  else headers_set CONTENT_LENGTH (to_string (Z.max 0 (resp_content_length resp))) h.

Definition response_head (status : Z) (headers : http_headers) : bytes :=
  write_status_line status 1 ++ headers_write headers ++ CRLF.

Definition write_response (fuel : nat) (c : connection) (resp : conn_response) (keep_alive : bool)
  : option connection :=
  match resp_upgrade_handler resp with
  | Some h =>
      w ← write_all fuel (cn_wire c) (response_head (resp_status resp) (resp_headers resp));
      Some (mk_conn (h w (cn_buffer c)) [] true (S (cn_responses c)))
  | None =>
      let headers := final_headers (clock (cn_responses c)) resp keep_alive in
      w ← write_all fuel (cn_wire c) (response_head (resp_status resp) headers);
      w ← match resp_body resp with
          | None => Some w
          | Some body =>
              '(w, _) ← write_message_body fuel w body
                          (if use_chunked resp then -1 else resp_content_length resp);
              Some w
          end;
      Some (mk_conn w (cn_buffer c) (cn_upgraded c) (S (cn_responses c)))
  end.

(** ** The loop *)

(** [RunThrown]: the handler's exception leaves [run]; the connection is given
    as it was when the handler was called, since what the handler had read of
    the body by then is lost with it, and so is what it had changed of [X].  [RunUndefined]: a Content-Length beyond
    [std::int64_t]. *)
Inductive run_result := RunDone (c : connection) | RunThrown (c : connection) | RunUndefined.

Definition with_io (buffer : bytes) (w : W) (c : connection) : connection :=
  mk_conn w buffer (cn_upgraded c) (cn_responses c).

Definition reject (fuel : nat) (x : X) (c : connection) : option (run_result * X) :=
  c' ← write_response fuel c (make_response 400) false; Some (RunDone c', x).

Fixpoint run (fuel : nat) (h : option handler) (x : X) (c : connection) : option (run_result * X) :=
  match fuel with
  | O => None
  | S f =>
      '(line, buffer, w) ← read_request_line f (cn_buffer c) (cn_wire c);
      match line with
      | None => Some (RunDone (with_io buffer w c), x)
      | Some resource =>
          '(ok, headers, buffer, w) ← read_headers f (p_max_header_size p) buffer w [];
          if negb ok then reject f x (with_io buffer w c)
          else
            match make_body_stream buffer w headers with
            | BodyNull => reject f x (with_io buffer w c)
            | BodyOverflow => Some (RunUndefined, x)
            | Body body =>
                let req := mk_request resource headers body (extract_hostname headers) tags_empty in
                match (match h with Some handle => handle x req | None => Some (make_response 501, req, x) end) with
                | None => Some (RunThrown (with_io buffer w c), x)
                | Some (resp, req, x) =>
                    body ← drain_body f f (req_body req);
                    let '(buffer, w) := after_body body buffer w in
                    let keep_alive := wants_keep_alive (req_resource req) (req_headers req) in
                    c' ← write_response f (with_io buffer w c) resp keep_alive;
                    if cn_upgraded c' || negb keep_alive then Some (RunDone c', x) else run f h x c'
                end
            end
      end
  end.
End Connection.
Arguments connection : clear implicits.
Arguments run_result : clear implicits.
