(* ===== verification/ConnectionFacts.v ===== *)
(** * ConnectionFacts: the HTTP/1.1 loop serves pipelined requests in order

    A connection whose peer sends well-formed requests back to back answers
    each of them, in order, whatever the segmentation of the incoming bytes and
    the partial writes of the wire: every handler sees exactly its own body,
    and a request's bytes are never mistaken for the next one's. *)

From S2P Require Import Prelude Bytes Stream Feeder UrlEncode Method Header Resource Status Chunked Http1Io Server Connection.

#[local] Open Scope Z_scope.

Section Facts.
Context {W : Type} `{StreamDuplex W}.
Context (p : params) (clock : nat -> Z).

(** ** Reading leaves what was written alone *)

Lemma fill_line_out fuel maxsz buffer (w : W) ok b' w' :
  fill_line fuel maxsz buffer w = Some (ok, b', w') -> st_written w' = st_written w.
Proof.
  revert buffer w. induction fuel as [|f IH]; intros buffer w; cbn [fill_line];
    destruct (find_byte LF buffer); try done; try by intros [= _ _ <-].
  case_if; [by intros [= _ _ <-]|]. destruct (st_read chunk_size w) as [chunk w1] eqn:E.
  apply st_read_written in E. destruct chunk; [by intros [= _ _ <-]|]. intros ->%IH. done.
Qed.

Lemma read_headers_out fuel maxsz buffer (w : W) out ok hs b' w' :
  read_headers fuel maxsz buffer w out = Some (ok, hs, b', w') -> st_written w' = st_written w.
Proof.
  revert buffer w out. induction fuel as [|f IH]; intros buffer w out; cbn [read_headers]; [done|].
  destruct (fill_line f maxsz buffer w) as [[[[] b1] w1]|] eqn:E; [| |done]; apply fill_line_out in E.
  - destruct (cut_line b1) as [[[|x l] k]|]; [by intros [= _ _ _ <-]| |by intros [= _ _ _ <-]].
    destruct (header_try_parse b1); [by intros [= _ _ _ <-]..|]. intros ->%IH. done.
  - by intros [= _ _ _ <-].
Qed.

(** ** The request line *)
Lemma read_request_line_spec fuel buffer (w : W) i r consumed :
  st_ok w -> (length (st_data w) < fuel)%nat ->
  find_byte LF (buffer ++ st_data w) = Some i -> (i <= p_max_request_line_size p)%nat ->
  resource_try_parse (buffer ++ st_data w) = Parsed r consumed ->
  exists buffer' w', read_request_line p fuel buffer w = Some (Some r, buffer', w') /\ st_ok w' /\
    buffer' ++ st_data w' = drop consumed (buffer ++ st_data w) /\
    (length (st_data w') <= length (st_data w))%nat /\ st_written w' = st_written w.
Proof.
  revert buffer w. induction fuel as [|f IH]; intros buffer w Hok Hf Hi Hm Hp; [lia|].
  cbn [read_request_line]. destruct (decide (LF ∈ buffer)) as [Hin|Hnin].
  - assert (resource_try_parse buffer = Parsed r consumed) as E.
    { rewrite <-Hp. symmetry. apply resource_try_parse_extend. by intros ?%resource_need_more. }
    rewrite E. exists (drop consumed buffer), w. split; [done|]. split; [done|].
    apply resource_try_parse_consumed in E. by rewrite drop_app_le by lia.
  - rewrite (proj2 (resource_need_more buffer) Hnin).
    assert (length buffer <= i)%nat as Hle by by eapply find_byte_beyond.
    destruct (Nat.ltb_spec (p_max_request_line_size p) (length buffer)); [lia|].
    destruct (st_read chunk_size w) as [chunk w'] eqn:Hr.
    pose proof (read_empty_iff _ _ _ _ Hok chunk_size_pos Hr) as Hemp.
    destruct (st_read_spec _ _ _ _ chunk_size_pos Hok Hr) as (Hok' & Hd & _ & _).
    apply st_read_written in Hr. destruct chunk as [|x chunk].
    { destruct Hemp as [Hemp _]. rewrite Hemp, app_nil_r in Hi by done.
      apply find_byte_None in Hnin. congruence. }
    rewrite Hd in Hi, Hf, Hp |- *. rewrite length_app in Hf |- *. cbn [length] in Hf |- *.
    rewrite app_assoc in Hi, Hp |- *.
    destruct (IH (buffer ++ x :: chunk) w') as (b' & w'' & -> & ? & ? & ? & ?); try done; [lia|].
    exists b', w''. split_and!; try done; [lia|congruence].
Qed.

(** ** Bodies *)

Definition body_ok (b : body_stream W) : Prop :=
  match b with
  | BodyChunked c => ck_ok c
  | BodyLength r => st_ok r
  | BodyNone m => st_ok m
  end.

(** The bytes of the body still to be read. *)
Definition body_data (b : body_stream W) : bytes :=
  match b with
  | BodyChunked c => (ck_spec c).1
  | BodyLength r => st_data r
  | BodyNone m => st_data m
  end.

(** The bytes of the connection beyond what the body stream consumed, and the
    wire underneath. *)
Definition window_source (r : range_stream (buffered_wire W)) : buffered_wire W :=
  rs_inner (ensure_positioned r).

(** [b'] is [b] after reading some of it and nothing else. *)
Definition advances (b b' : body_stream W) : Prop :=
  body_ok b' /\ exists d, body_data b = d ++ body_data b' /\
  match b, b' with
  | BodyChunked c, BodyChunked c' => (ck_spec c).2 = (ck_spec c').2
  | BodyLength r, BodyLength r' =>
      st_data (window_source r) = d ++ st_data (window_source r') /\
      st_written (bw_wire (window_source r')) = st_written (bw_wire (window_source r))
  | BodyNone m, BodyNone m' => True
  | _, _ => False
  end.

Lemma advances_refl b : body_ok b -> advances b b.
Proof. intros Hb. split; [done|]. exists []. by destruct b. Qed.

Lemma advances_trans b1 b2 b3 : advances b1 b2 -> advances b2 b3 -> advances b1 b3.
Proof.
  intros (_ & d & Hd & Hx) (Hok & e & He & Hy). split; [done|]. exists (d ++ e).
  rewrite Hd, He, <-app_assoc. split; [done|]. destruct b1, b2, b3; try done.
  - congruence.
  - destruct Hx as [Hs1 Hw1], Hy as [Hs2 Hw2]. by rewrite Hs1, Hs2, <-app_assoc, Hw2, Hw1.
Qed.

Lemma bw_read_out n (s : buffered_wire W) out s' :
  bw_read n s = (out, s') -> st_written (bw_wire s') = st_written (bw_wire s).
Proof.
  unfold bw_read. destruct (bw_leftover s) as [|x l]; [|by intros [= _ <-]].
  destruct (st_read n (bw_wire s)) as [o w] eqn:E. apply st_read_written in E. by intros [= _ <-].
Qed.

Lemma rs_read_out n (r : range_stream (buffered_wire W)) out r' :
  rs_read n r = (out, r') ->
  st_written (bw_wire (window_source r')) = st_written (bw_wire (window_source r)).
Proof.
  unfold rs_read, window_source. destruct (rs_clamp _ _) as [k|].
  - destruct (st_read k _) as [o i] eqn:E. intros [= _ <-]. by apply bw_read_out in E.
  - intros [= _ <-]. by rewrite ensure_positioned_idem.
Qed.

(** A window or an empty body: every read of it advances it, and returns
    nothing only at its end. *)
Definition plain_body (b : body_stream W) : Prop :=
  match b with BodyChunked _ => False | _ => True end.

Lemma body_read_advances fuel n b out b' :
  (0 < n)%nat -> plain_body b -> body_ok b -> body_read fuel n b = (out, b') ->
  advances b b' /\ plain_body b' /\ body_data b = out ++ body_data b' /\ (out = [] <-> body_data b = []).
Proof.
  intros Hn Hp Hok. destruct b as [c|r|m]; [done| |]; cbn [body_read body_ok body_data] in *.
  - destruct (st_read n r) as [o r'] eqn:Hr. intros [= <- <-].
    pose proof (read_empty_iff _ _ _ _ Hok Hn Hr) as He.
    destruct (rs_read_inner n r _ _ Hn Hok Hr) as (Hok' & Hi & Hd & _ & _).
    split; [|done]. split; [done|]. exists o. split; [done|]. split; [done|]. by apply (rs_read_out n r o).
  - destruct (st_read n m) as [o m'] eqn:Hr. intros [= <- <-].
    pose proof (read_empty_iff _ _ _ _ Hok Hn Hr) as He.
    destruct (st_read_spec _ _ _ _ Hn Hok Hr) as (Hok' & Hd & _ & _).
    split; [|done]. split; [done|]. by exists o.
Qed.

Lemma drain_body_spec fuel k b :
  plain_body b -> body_ok b -> (length (body_data b) < k)%nat ->
  exists b', drain_body fuel k b = Some b' /\ advances b b' /\ plain_body b' /\ body_data b' = [].
Proof.
  revert b. induction k as [|k IH]; intros b Hp Hok Hk; [lia|]. cbn [drain_body].
  destruct (body_read fuel chunk_size b) as [out b1] eqn:E.
  destruct (body_read_advances _ _ _ _ _ chunk_size_pos Hp Hok E) as (Ha & Hp1 & Hd & He).
  destruct out as [|x out].
  - exists b1. split; [done|]. split; [done|]. split; [done|]. destruct He as [He _].
    specialize (He eq_refl). by rewrite Hd in He.
  - destruct (IH b1) as (b' & -> & Ha' & Hp' & Hd'); [done|apply Ha|rewrite Hd in Hk; cbn in Hk; solve_len|].
    exists b'. split; [done|]. split; [by eapply advances_trans|done].
Qed.

(** A window is positioned by its first read. *)
Lemma drain_positioned fuel k (r : range_stream (buffered_wire W)) b' :
  drain_body fuel k (BodyLength r) = Some b' -> exists r', b' = BodyLength r' /\ rs_positioned r' = true.
Proof.
  revert r. induction k as [|k IH]; intros r; cbn [drain_body]; [done|]. cbn [body_read].
  destruct (st_read chunk_size r) as [out r1] eqn:E. destruct out; [|apply IH].
  intros [= <-]. exists r1. split; [done|]. cbn in E. unfold rs_read in E.
  assert (rs_positioned (ensure_positioned r) = true) as Hp
    by (unfold ensure_positioned; by destruct (rs_positioned r) eqn:?).
  destruct (rs_clamp _ _); [destruct (st_read _ _)|]; by simplify_eq.
Qed.

(** ** A request on the wire *)

Record http_message := mk_msg {
  msg_method : bytes;
  msg_target : bytes;
  msg_minor : Z;
  msg_headers : http_headers;
  msg_body : bytes;
}.

Definition msg_line (m : http_message) : bytes := request_line (msg_method m) (msg_target m) 1 (msg_minor m).

Definition msg_text (m : http_message) : bytes :=
  msg_line m ++ CRLF ++ headers_write (msg_headers m) ++ CRLF ++ msg_body m.

Definition msg_resource (m : http_message) : http_resource :=
  mk_resource (http_method_of (msg_method m)) (url_decode (split_target (msg_target m)).1)
    (split_target (msg_target m)).1 (split_target (msg_target m)).2 1 (msg_minor m).

(** The body is announced by its length, or absent. *)
Definition msg_framed (hs : http_headers) (body : bytes) : Prop :=
  headers_get TRANSFER_ENCODING hs = None /\
  match headers_get CONTENT_LENGTH hs with
  | Some v => v = to_string (Z.of_nat (length body)) /\ Z.of_nat (length body) <= i64_max
  | None => body = []
  end.

Definition msg_wf (m : http_message) : Prop :=
  (SP ∉ msg_method m) /\ (LF ∉ msg_method m) /\ (SP ∉ msg_target m) /\ (LF ∉ msg_target m) /\
  0 <= msg_minor m < 10 /\ (S (length (msg_line m)) <= p_max_request_line_size p)%nat /\
  Forall header_wf (msg_headers m) /\
  Forall (fun h => length (header_line h) <= p_max_header_size p)%nat (msg_headers m) /\
  (1 <= p_max_header_size p)%nat /\ msg_framed (msg_headers m) (msg_body m).

Definition msg_keep_alive (m : http_message) : bool := wants_keep_alive (msg_resource m) (msg_headers m).

Lemma headers_write_length hs : (length hs <= length (headers_write hs))%nat.
Proof.
  induction hs as [|h r IH]; cbn; [done|]. rewrite length_app. unfold header_line.
  rewrite !length_app. change (length CRLF) with 2%nat. lia.
Qed.

(** The framing decision on such a request, and what the connection holds
    once the body is drained. *)
Lemma body_of_message hs body buffer (w : W) rest :
  st_ok w -> msg_framed hs body -> buffer ++ st_data w = body ++ rest ->
  exists b, make_body_stream buffer w hs = Body b /\ plain_body b /\ body_ok b /\ body_data b = body /\
    forall fuel k b1 b2, advances b b1 -> drain_body fuel k b1 = Some b2 -> advances b1 b2 ->
      body_data b2 = [] ->
      st_ok (snd (after_body b2 buffer w)) /\
      fst (after_body b2 buffer w) ++ st_data (snd (after_body b2 buffer w)) = rest /\
      st_written (snd (after_body b2 buffer w)) = st_written w.
Proof.
  intros Hok [Hte Hcl] Hraw. unfold make_body_stream. rewrite Hte.
  destruct (headers_get CONTENT_LENGTH hs) as [v|].
  - destruct Hcl as [-> Hmax]. rewrite parse_i64_to_string by lia.
    destruct (range_new_unseekable (mk_bw buffer w) (Z.of_nat (length body)))
      as (Hokr & Hdata & Hin); [done|done|done|lia|].
    eexists. split; [done|]. split; [done|]. split; [done|]. split.
    { cbn [body_data]. rewrite Hdata. cbn [st_data bw_StreamReads]. unfold bw_raw. cbn.
      by rewrite Hraw, Nat2Z.id, take_app_length. }
    intros fuel k b1 b2 Ha Hdr Ha2 Hnil. pose proof (advances_trans _ _ _ Ha Ha2) as (Hok2 & d & Hd & Hsame).
    destruct b1 as [|r1|]; [by destruct Ha as (_ & ? & _ & [])| |by destruct Ha as (_ & ? & _ & [])].
    destruct (drain_positioned _ _ _ _ Hdr) as (r2 & -> & Hpos). destruct Hsame as [Hs Hw].
    rewrite Hnil, app_nil_r in Hd. unfold window_source in Hs, Hw. rewrite Hin in Hs, Hw.
    unfold ensure_positioned in Hs, Hw. rewrite Hpos in Hs, Hw. cbn in Hw.
    cbn [after_body body_source fst snd]. cbn [body_ok] in Hok2. cbn in Hok2. unfold rs_ok, ensure_positioned in Hok2.
    rewrite Hpos in Hok2. split; [done|]. split; [|done].
    cbn [body_data] in Hd. rewrite Hdata in Hd. cbn [st_data bw_StreamReads] in Hd, Hs. unfold bw_raw in Hd, Hs.
    cbn [bw_leftover bw_wire] in Hd, Hs. rewrite Hraw in Hs, Hd. rewrite Nat2Z.id, take_app_length in Hd.
    subst d. by apply app_inv_head in Hs.
  - subst body. eexists. split; [done|]. split; [done|]. split; [apply Nat.le_0_l|]. split; [done|].
    intros fuel k b1 b2 Ha _ Ha2 _. pose proof (advances_trans _ _ _ Ha Ha2) as (_ & d & _ & Hsame).
    destruct b2; [done..|]. done.
Qed.

(** The whole request is read, up to its body. *)
Lemma read_message m buffer (w : W) rest fuel :
  msg_wf m -> st_ok w -> buffer ++ st_data w = msg_text m ++ rest ->
  (2 * length (buffer ++ st_data w) + 2 < fuel)%nat ->
  exists b1 w1 b2 w2, read_request_line p fuel buffer w = Some (Some (msg_resource m), b1, w1) /\
    read_headers fuel (p_max_header_size p) b1 w1 [] = Some (true, msg_headers m, b2, w2) /\
    st_ok w2 /\ b2 ++ st_data w2 = msg_body m ++ rest /\ st_written w2 = st_written w.
Proof.
  intros (Hm1 & Hm2 & Ht1 & Ht2 & Hmin & Hlen & Hwf & Hhl & Hh1 & _) Hok Hraw Hf.
  unfold msg_text in Hraw. rewrite <-!app_assoc in Hraw.
  assert (LF ∉ msg_line m) as Hlf by (apply request_line_no_lf; done || lia).
  pose proof (request_line_parses (msg_method m) (msg_target m) 1 (msg_minor m)
    (headers_write (msg_headers m) ++ CRLF ++ msg_body m ++ rest) Hm1 Hm2 Ht1 Ht2 ltac:(lia) Hmin) as Hp.
  fold (msg_line m) in Hp. change (mk_resource _ _ _ _ 1 (msg_minor m)) with (msg_resource m) in Hp.
  rewrite <-Hraw in Hp.
  assert (find_byte LF (buffer ++ st_data w) = Some (S (length (msg_line m)))) as Hi.
  { rewrite Hraw. unfold CRLF. change (msg_line m ++ [CR; LF] ++ ?t) with (msg_line m ++ [CR] ++ LF :: t).
    rewrite app_assoc, find_byte_app, length_app by solve_notin. f_equal. cbn. lia. }
  rewrite length_app in Hf.
  destruct (read_request_line_spec fuel buffer w _ _ _ Hok ltac:(lia) Hi Hlen Hp)
    as (b1 & w1 & E1 & Hok1 & Hr1 & Hl1 & Hw1).
  assert (b1 ++ st_data w1 = headers_write (msg_headers m) ++ CRLF ++ msg_body m ++ rest) as Hr1'.
  { rewrite Hr1, Hraw. replace (length (msg_line m) + 2)%nat with (length (msg_line m ++ CRLF))
      by (rewrite length_app; done). rewrite app_assoc, drop_app_length. done. }
  pose proof (headers_write_length (msg_headers m)) as Hhw.
  assert (length (headers_write (msg_headers m)) <= length buffer + length (st_data w))%nat as Hhw2.
  { apply (f_equal length) in Hraw. rewrite !length_app in Hraw. lia. }
  destruct (read_headers_block (msg_headers m) fuel (p_max_header_size p) b1 w1 [] _ Hok1 Hwf Hhl Hh1 Hr1')
    as (b2 & w2 & E2 & Hok2 & Hr2); [lia|].
  exists b1, w1, b2, w2. split_and!; try done. apply read_headers_out in E2. congruence.
Qed.

(** ** Writing leaves the incoming bytes alone *)

Lemma write_body_chunked_data {B} `{Stream B} fuel (w : W) (b : B) w' b' :
  st_ok w -> write_body_chunked fuel w b = Some (w', b') -> st_ok w' /\ st_data w' = st_data w.
Proof.
  revert w b. induction fuel as [|f IH]; intros w b Hok; cbn [write_body_chunked]; [done|].
  destruct (st_read chunk_size b) as [[|x buf] b1].
  - destruct (write_all f w _) as [w1|] eqn:E; [|done]. intros [= <- _]. by apply write_all_data in E.
  - destruct (write_all f w _) as [w1|] eqn:E1; [|done]. apply write_all_data in E1 as [Hok1 Hd1]; [|done].
    cbn [mbind option_bind]. destruct (write_all f w1 _) as [w2|] eqn:E2; [|done].
    apply write_all_data in E2 as [Hok2 Hd2]; [|done].
    cbn [mbind option_bind]. destruct (write_all f w2 _) as [w3|] eqn:E3; [|done].
    apply write_all_data in E3 as [Hok3 Hd3]; [|done]. cbn [mbind option_bind]. rewrite <-Hd1, <-Hd2, <-Hd3.
    by apply IH.
Qed.

Lemma write_body_plain_data {B} `{Stream B} fuel (w : W) (b : B) n w' b' :
  st_ok w -> write_body_plain fuel w b n = Some (w', b') -> st_ok w' /\ st_data w' = st_data w.
Proof.
  revert w b n. induction fuel as [|f IH]; intros w b n Hok; cbn [write_body_plain]; case_if; try done;
    try (by intros [= <- _]).
  destruct (st_read _ b) as [[|x buf] b1]; [by intros [= <- _]|].
  destruct (write_all f w _) as [w1|] eqn:E; [|done]. apply write_all_data in E as [Hok1 Hd1]; [|done].
  cbn [mbind option_bind]. rewrite <-Hd1. by apply IH.
Qed.

(** ** Answers *)

(** What a handler's response says, its body read out. *)
Record answer := mk_answer {
  an_status : Z;
  an_headers : http_headers;
  an_body : option bytes;
  an_length : Z;
}.

Definition answer_response (a : answer) : response W :=
  mk_response (an_status a) (an_headers a) ((fun d => any (memory_stream_new d)) <$> an_body a) (an_length a) None.

Definition answers (r : response W) (a : answer) : Prop :=
  resp_upgrade_handler r = None /\ resp_status r = an_status a /\ resp_headers r = an_headers a /\
  resp_content_length r = an_length a /\
  match resp_body r, an_body a with
  | None, None => True
  | Some b, Some d => st_ok b /\ st_data b = d
  | _, _ => False
  end.

Definition answer_head (now : Z) (a : answer) (keep : bool) : bytes :=
  response_head (an_status a) (final_headers p now (answer_response a) keep).

(** The bytes of one response: its head, then the body plainly up to the
    announced length, or chunked so that decoding gives it back. *)
Definition answer_text (now : Z) (a : answer) (keep : bool) (text : bytes) : Prop :=
  exists payload, text = answer_head now a keep ++ payload /\
  match an_body a with
  | None => payload = []
  | Some d =>
      if an_length a <? 0 then forall rest, dechunk (payload ++ rest) = (d, rest)
      else payload = take (Z.to_nat (an_length a)) d
  end.

Definition answer_cost (now : Z) (a : answer) (keep : bool) : nat :=
  length (answer_head now a keep) + length (default [] (an_body a)) + chunk_size + 33.

Lemma final_headers_answer now (r : response W) a keep :
  answers r a -> final_headers p now r keep = final_headers p now (answer_response a) keep.
Proof.
  intros (_ & _ & Hh & Hl & Hb). unfold final_headers, use_chunked. rewrite Hh, Hl. cbn.
  destruct (resp_body r), (an_body a); done.
Qed.

Lemma write_answer_body fuel (w : W) (r : response W) a :
  answers r a -> st_ok w -> (length (default [] (an_body a)) + chunk_size + 33 <= fuel)%nat ->
  exists w' payload,
    match resp_body r with
    | None => Some w
    | Some body => '(w, _) ← write_message_body fuel w body
                      (if use_chunked r then -1 else resp_content_length r); Some w
    end = Some w' /\ st_ok w' /\ st_data w' = st_data w /\ st_written w' = st_written w ++ payload /\
    match an_body a with
    | None => payload = []
    | Some d =>
        if an_length a <? 0 then forall rest, dechunk (payload ++ rest) = (d, rest)
        else payload = take (Z.to_nat (an_length a)) d
    end.
Proof.
  intros (_ & _ & _ & Hl & Hb) Hok Hf. unfold use_chunked.
  destruct (resp_body r) as [b|], (an_body a) as [d|]; try done.
  2:{ exists w, []. by rewrite app_nil_r. }
  destruct Hb as [Hokb <-]. rewrite Hl. unfold write_message_body. change (default [] (Some (st_data b))) with (st_data b) in Hf.
  destruct (Z.ltb_spec (an_length a) 0) as [Hneg|Hpos].
  - change (-1 <? 0) with true. cbn iota.
    destruct (write_body_chunked_spec fuel w b Hokb ltac:(lia)) as (w' & b' & cs & E & Hwr & Hc & Hcs).
    rewrite E. destruct (write_body_chunked_data _ _ _ _ _ Hok E) as [Hok' Hd'].
    exists w', (encode_chunks cs ++ chunked_body_terminator). split_and!; try done.
    intros rest. rewrite <-app_assoc, dechunk_encode by done. by rewrite Hc.
  - destruct (Z.ltb_spec (an_length a) 0); [lia|].
    destruct (write_body_plain_spec fuel w b (an_length a) Hokb ltac:(lia)) as (w' & b' & E & Hwr).
    rewrite E. destruct (write_body_plain_data _ _ _ _ _ _ Hok E) as [Hok' Hd'].
    by exists w', (take (Z.to_nat (an_length a)) (st_data b)).
Qed.

Lemma write_response_spec fuel (c : connection W) (r : response W) a keep :
  answers r a -> st_ok (cn_wire c) -> (answer_cost (clock (cn_responses c)) a keep <= fuel)%nat ->
  exists w' text,
    write_response p clock fuel c r keep =
      Some (mk_conn w' (cn_buffer c) (cn_upgraded c) (S (cn_responses c))) /\
    st_ok w' /\ st_data w' = st_data (cn_wire c) /\ st_written w' = st_written (cn_wire c) ++ text /\
    answer_text (clock (cn_responses c)) a keep text.
Proof.
  intros Ha Hok Hf. unfold write_response, answer_cost in *. pose proof Ha as (Hup & Hst & _).
  rewrite Hup. cbv zeta. rewrite (final_headers_answer _ r a keep Ha), Hst.
  fold (answer_head (clock (cn_responses c)) a keep). set (head := answer_head _ a keep) in *.
  destruct (write_all_spec fuel (cn_wire c) head) as (w1 & E1 & Hw1); [lia|]. rewrite E1.
  cbn [mbind option_bind]. destruct (write_all_data _ _ _ _ Hok E1) as [Hok1 Hd1].
  destruct (write_answer_body fuel w1 r a Ha Hok1) as (w2 & payload & -> & Hok2 & Hd2 & Hw2 & Hp); [lia|].
  exists w2, (head ++ payload). split; [done|]. rewrite Hd2, Hd1, Hw2, Hw1, <-app_assoc.
  split_and!; try done. by exists payload.
Qed.

(** ** One exchange, and all of them *)

(** The request the connection makes of a message. *)
Definition request_of (m : http_message) (req : request (body_stream W)) : Prop :=
  req_resource req = msg_resource m /\ req_headers req = msg_headers m /\ req_tags req = tags_empty /\
  req_hostname req = extract_hostname (msg_headers m) /\
  plain_body (req_body req) /\ body_ok (req_body req) /\ body_data (req_body req) = msg_body m.

Section Exchange.
Context {X : Type}.
Context (h : X -> request (body_stream W) -> option (response W * request (body_stream W) * X)).
Context (spec : X -> http_resource -> http_headers -> bytes -> option (answer * X)).

Definition msg_answer (x : X) (m : http_message) : option (answer * X) :=
  spec x (msg_resource m) (msg_headers m) (msg_body m).

(** What the connection needs of a handler on a message: it answers as [spec]
    says from the request's contents and what the handlers share, reading any
    part of the body and nothing beyond it, or throws where [spec] is [None]. *)
Definition serves (m : http_message) : Prop :=
  forall x req, request_of m req ->
  match msg_answer x m with
  | Some (a, x') => exists r req', h x req = Some (r, req', x') /\ answers r a /\
      req_resource req' = req_resource req /\ req_headers req' = req_headers req /\
      advances (req_body req) (req_body req')
  | None => h x req = None
  end.

Definition conn_raw (c : connection W) : bytes := cn_buffer c ++ st_data (cn_wire c).

Lemma run_step m a rest (x x' : X) (c : connection W) fuel :
  serves m -> msg_wf m -> msg_answer x m = Some (a, x') ->
  st_ok (cn_wire c) -> cn_upgraded c = false -> conn_raw c = msg_text m ++ rest ->
  (2 * length (conn_raw c) + 2 < fuel)%nat ->
  (answer_cost (clock (cn_responses c)) a (msg_keep_alive m) <= fuel)%nat ->
  exists c' text,
    run p clock (S fuel) (Some h) x c =
      (if msg_keep_alive m then run p clock fuel (Some h) x' c' else Some (RunDone c', x')) /\
    st_ok (cn_wire c') /\ cn_upgraded c' = false /\ cn_responses c' = S (cn_responses c) /\
    conn_raw c' = rest /\ st_written (cn_wire c') = st_written (cn_wire c) ++ text /\
    answer_text (clock (cn_responses c)) a (msg_keep_alive m) text.
Proof.
  intros Hserves Hwf Hans Hok Hup Hraw Hf Hcost. cbn [run].
  destruct (read_message m (cn_buffer c) (cn_wire c) rest fuel Hwf Hok Hraw Hf)
    as (b1 & w1 & b2 & w2 & -> & E2 & Hok2 & Hr2 & Hw2).
  cbn [mbind option_bind]. rewrite E2. cbn [mbind option_bind negb].
  assert (msg_framed (msg_headers m) (msg_body m)) as Hfr by apply Hwf.
  destruct (body_of_message _ _ _ _ _ Hok2 Hfr Hr2) as (b & -> & Hpb & Hbok & Hbd & Hafter).
  set (req := mk_request _ _ _ _ _).
  pose proof (Hserves x req ltac:(by split_and!)) as Hs. rewrite Hans in Hs.
  destruct Hs as (r & req' & -> & Ha & Hres & Hhs & Hadv). cbn in Hres, Hhs, Hadv.
  assert (length (body_data (req_body req')) < fuel)%nat as Hlb.
  { destruct Hadv as (_ & d & Hd & _). apply (f_equal length) in Hd, Hraw. rewrite Hbd in Hd.
    rewrite length_app in Hd. unfold msg_text in Hraw. rewrite !length_app in Hraw. unfold conn_raw in *. lia. }
  assert (plain_body (req_body req')) as Hpb'.
  { destruct Hadv as (_ & d & _ & Hm). by destruct b, (req_body req'). }
  destruct (drain_body_spec fuel fuel _ Hpb' (proj1 Hadv) Hlb) as (b' & Edr & Hadv' & _ & Hnil).
  rewrite Edr. cbn [mbind option_bind].
  destruct (Hafter _ _ _ _ Hadv Edr Hadv' Hnil) as (Hokw & Hraww & Hww).
  destruct (after_body b' b2 w2) as [buf w3]. cbn [fst snd] in *. rewrite Hres, Hhs.
  change (wants_keep_alive (msg_resource m) (msg_headers m)) with (msg_keep_alive m).
  destruct (write_response_spec fuel (with_io buf w3 c) r a (msg_keep_alive m))
    as (w4 & text & -> & Hok4 & Hd4 & Hw4 & Htext); [done..|].
  cbn [mbind option_bind]. cbn in *.
  exists (mk_conn w4 buf (cn_upgraded c) (S (cn_responses c))), text. cbn. rewrite Hup. split.
  { by destruct (msg_keep_alive m). }
  split_and!; try done.
  - unfold conn_raw. cbn. by rewrite Hd4.
  - by rewrite Hw4, Hww, Hw2.
Qed.

(** A handler that throws ends the loop before anything is written. *)
Lemma run_throw m rest (x : X) (c : connection W) fuel :
  serves m -> msg_wf m -> msg_answer x m = None -> st_ok (cn_wire c) -> conn_raw c = msg_text m ++ rest ->
  (2 * length (conn_raw c) + 2 < fuel)%nat ->
  exists c', run p clock (S fuel) (Some h) x c = Some (RunThrown c', x) /\
    st_written (cn_wire c') = st_written (cn_wire c) /\ cn_responses c' = cn_responses c.
Proof.
  intros Hserves Hwf Hans Hok Hraw Hf. cbn [run].
  destruct (read_message m (cn_buffer c) (cn_wire c) rest fuel Hwf Hok Hraw Hf)
    as (b1 & w1 & b2 & w2 & -> & E2 & Hok2 & Hr2 & Hw2).
  cbn [mbind option_bind]. rewrite E2. cbn [mbind option_bind negb].
  assert (msg_framed (msg_headers m) (msg_body m)) as Hfr by apply Hwf.
  destruct (body_of_message _ _ _ _ _ Hok2 Hfr Hr2) as (b & -> & Hpb & Hbok & Hbd & _).
  set (req := mk_request _ _ _ _ _).
  pose proof (Hserves x req ltac:(by split_and!)) as Hs. rewrite Hans in Hs. rewrite Hs. by eexists.
Qed.

(** At the end of the input the loop returns. *)
Lemma run_end (x : X) (c : connection W) fuel :
  st_ok (cn_wire c) -> conn_raw c = [] -> (1 <= fuel)%nat ->
  exists c', run p clock (S fuel) (Some h) x c = Some (RunDone c', x) /\
    st_written (cn_wire c') = st_written (cn_wire c) /\ cn_responses c' = cn_responses c.
Proof.
  intros Hok Hraw Hf. unfold conn_raw in Hraw. apply app_eq_nil in Hraw as [Hb Hd].
  destruct fuel as [|f]; [lia|]. cbn [run]. rewrite Hb.
  change (read_request_line p (S f) [] (cn_wire c)) with
    (let '(chunk, w') := st_read chunk_size (cn_wire c) in
     match chunk with [] => Some (None, [] : bytes, w') | _ => read_request_line p f ([] ++ chunk) w' end).
  destruct (st_read chunk_size (cn_wire c)) as [chunk w'] eqn:E.
  pose proof (read_empty_iff _ _ _ _ Hok chunk_size_pos E) as He. apply st_read_written in E.
  rewrite (proj2 He Hd). cbn [mbind option_bind]. exists (with_io [] w' c). by rewrite <-E.
Qed.

(** The answers of the connection: up to the first message that does not keep
    it alive, or the one before its handler throws; what the handlers then
    share, and whether one threw. *)
Fixpoint exchange (x : X) (ms : list http_message) : list (http_message * answer) * X * bool :=
  match ms with
  | [] => ([], x, false)
  | m :: r =>
      match msg_answer x m with
      | Some (a, x') =>
          if msg_keep_alive m then let '(l, x'', thrown) := exchange x' r in ((m, a) :: l, x'', thrown)
          else ([(m, a)], x', false)
      | None => ([], x, true)
      end
  end.

Definition run_end_of (thrown : bool) (c : connection W) : run_result W :=
  if thrown then RunThrown c else RunDone c.

(** The text of the responses numbered from [k]. *)
Fixpoint responses_text (k : nat) (l : list (http_message * answer)) (text : bytes) : Prop :=
  match l with
  | [] => text = []
  | (m, a) :: r => exists t rest, text = t ++ rest /\
      answer_text (clock k) a (msg_keep_alive m) t /\ responses_text (S k) r rest
  end.

(** The whole loop: a pipelined sequence of well-formed length-framed requests is answered in
    order, each by the handler's response in full, until the first that ends keep-alive or
    whose handler throws; that one gets no byte of an answer. *)
Lemma run_pipelined ms (x : X) (c : connection W) fuel :
  Forall serves ms -> Forall msg_wf ms -> st_ok (cn_wire c) -> cn_upgraded c = false ->
  conn_raw c = concat (map msg_text ms) ->
  (2 * length (conn_raw c) + 3 + length ms < fuel)%nat ->
  (forall m a k, (m, a) ∈ (exchange x ms).1.1 ->
     (answer_cost (clock k) a (msg_keep_alive m) + length ms < fuel)%nat) ->
  let '(l, x', thrown) := exchange x ms in
  exists c' text, run p clock fuel (Some h) x c = Some (run_end_of thrown c', x') /\
    st_written (cn_wire c') = st_written (cn_wire c) ++ text /\
    responses_text (cn_responses c) l text.
Proof.
  intros Hserves Hwf. revert x c fuel Hserves.
  induction Hwf as [|m ms Hm _ IH]; intros x c fuel Hserves Hok Hup Hraw Hf Hcost; cbn [exchange].
  - destruct fuel as [|[|f]]; [cbn in Hf; lia..|].
    destruct (run_end x c (S f) Hok Hraw ltac:(lia)) as (c' & -> & Hw & _).
    exists c', []. by rewrite Hw, app_nil_r.
  - destruct fuel as [|f]; [lia|]. cbn [map concat length] in *. inversion_clear Hserves as [|? ? Hsm Hsms].
    destruct (msg_answer x m) as [[a x1]|] eqn:Ea.
    2:{ destruct (run_throw m _ x c f Hsm Hm Ea Hok Hraw ltac:(lia)) as (c' & -> & Hw & _).
        exists c', []. by rewrite Hw, app_nil_r. }
    destruct (run_step m a _ x x1 c f Hsm Hm Ea Hok Hup Hraw ltac:(lia)) as
      (c1 & t & Hr & Hok1 & Hup1 & Hk1 & Hraw1 & Hw1 & Ht).
    { specialize (Hcost m a (cn_responses c)). cbn [exchange] in Hcost. rewrite Ea in Hcost.
      enough ((m, a) ∈ (if msg_keep_alive m then let '(l, x'', thrown) := exchange x1 ms in ((m, a) :: l, x'', thrown)
                       else ([(m, a)], x1, false)).1.1) as Hin by (specialize (Hcost Hin); lia).
      destruct (msg_keep_alive m); [destruct (exchange x1 ms) as [[l x2] thrown]|]; by left. }
    rewrite Hr. cbn [exchange] in Hcost. rewrite Ea in Hcost. destruct (msg_keep_alive m) eqn:Ek.
    + specialize (IH x1 c1 f Hsms Hok1 Hup1 Hraw1). destruct (exchange x1 ms) as [[l x2] thrown].
      destruct IH as (c' & text & -> & Hw & Htx).
      { rewrite Hraw, length_app in Hf. rewrite Hraw1. lia. }
      { intros m' a' k Hin. specialize (Hcost m' a' k ltac:(by right)). lia. }
      exists c', (t ++ text). split; [done|]. rewrite Hw, Hw1, <-app_assoc. split; [done|].
      cbn [responses_text]. exists t, text. by rewrite <-Hk1, Ek.
    + exists c1, t. split; [done|]. split; [done|]. exists t, []. by rewrite app_nil_r, Ek.
Qed.
End Exchange.
End Facts.

(** ** Two pipelined requests, cut into segments in the middle *)

(** A handler that numbers its answers and throws on ["/fail"]. *)
Definition hello_handler {W} (n : Z) (req : request (body_stream W)) : option (response W * request (body_stream W) * Z) :=
  if bytes_eqb (req_path req) (str "/fail") then None
  else Some (make_response_text (str "hello " ++ to_string n) (str "text/plain"), req, n + 1).

Definition hello_answer (n : Z) (r : http_resource) (_ : http_headers) (_ : bytes) : option (answer * Z) :=
  if bytes_eqb (hr_path r) (str "/fail") then None
  else
    let t := str "hello " ++ to_string n in
    Some (mk_answer 200 [mk_header CONTENT_TYPE (str "text/plain")] (Some t) (Z.of_nat (length t)), n + 1).

Lemma hello_serves {W} `{StreamDuplex W} m : serves (W := W) hello_handler hello_answer m.
Proof.
  intros x req (Hr & _ & _ & _ & _ & Hok & _). unfold msg_answer, hello_answer, hello_handler, req_path. rewrite Hr.
  case_if; [done|]. eexists _, _.
  split; [reflexivity|]. split; [|split; [done|split; [done|by apply advances_refl]]].
  split_and!; try done. split; [apply Nat.le_0_l|done].
Qed.

Definition post_message : http_message :=
  mk_msg (str "POST") (str "/a") 1 [mk_header (str "Content-Length") (str "3")] (str "xyz").
Definition get_message : http_message := mk_msg (str "GET") (str "/b?q=1") 1 [] [].

Definition example_conn : connection wire :=
  let text := msg_text post_message ++ msg_text get_message in
  connection_new (mk_wire [take 7 text; drop 7 text] [] [1%nat]) [].

Lemma example_messages_wf : Forall (msg_wf params_default) [post_message; get_message].
Proof.
  assert (forall a b, (a <=? b)%Z = true -> (Z.to_nat a <= Z.to_nat b)%nat) as Hle.
  { intros a b Hab. apply Z.leb_le in Hab. lia. }
  repeat (apply Forall_cons; split); [| |constructor].
  all: split_and!; try (by apply (bool_decide_unpack _)); try lia; try reflexivity.
  all: try (apply (Hle (Z.of_nat _)); reflexivity).
  all: try (cbn; lia).
Qed.

Lemma example_cost {W} m a (k : nat) :
  (m, a) ∈ (exchange hello_answer 7 [post_message; get_message]).1.1 ->
  (answer_cost (W := W) params_default 0 a (msg_keep_alive m) +
     length [post_message; get_message] < Z.to_nat 9000)%nat.
Proof.
  intros Hm. unfold answer_cost. rewrite chunk_size_eq.
  assert (length (answer_head (W := W) params_default 0 a (msg_keep_alive m)) = 144%nat /\
          length (default [] (an_body a)) = 7%nat) as [-> ->].
  { change (exchange hello_answer 7 [post_message; get_message]).1.1 with
      (map (fun mn => (mn.1, (default (mk_answer 0 [] None 0, 0) (hello_answer mn.2 (msg_resource mn.1) [] [])).1))
         [(post_message, 7); (get_message, 8)]) in Hm.
    by repeat (apply elem_of_cons in Hm as [[= -> ->]|Hm]); [| |by apply elem_of_nil in Hm]. }
  cbn [length]. lia.
Qed.
