(* ===== verification/ReverseProxy.v ===== *)
(** * ReverseProxy: src/server/extensions/reverse_proxy.cpp

    The proxy is a [vpath] whose [on_handle] relays the request to one of its
    upstreams, chosen round-robin, and relays the response back.  Opening the
    connection to the upstream (socket, TLS) is a parameter, as is the raw
    splice of an upgraded connection, two detached tasks that [Splice] models. *)

From S2P Require Import Prelude Bytes OrdMap Stream Feeder UrlEncode QueryString Method Header Resource Status.
From S2P Require Import Chunked Http1Io Server VPath Connection ConnectionFacts.

#[local] Open Scope Z_scope.

(** ** Headers *)

Definition hop_by_hop : list bytes :=
  [str "Connection"; str "Keep-Alive"; str "Proxy-Authenticate"; str "Proxy-Authorization";
   str "TE"; str "Trailer"; str "Transfer-Encoding"; str "Upgrade"].

Definition is_hop_by_hop (name : bytes) : bool := existsb (fun h => header_name_equals name h) hop_by_hop.

#[global] Arguments is_hop_by_hop : simpl never.

Definition copy_relayable_headers (from to : http_headers) : http_headers :=
  fold_left (fun acc h => if is_hop_by_hop (h_name h) then acc else headers_add (h_name h) (h_value h) acc)
    from to.

Definition wants_upgrade (headers : http_headers) : bool :=
  if negb (headers_isset UPGRADE headers) then false
  else match headers_get CONNECTION headers with
       | Some conn => header_value_contains_token conn (str "upgrade")
       | None => false
       end.

(** ** The request target *)

Definition target_path (path : bytes) : bytes :=
  match path with
  | [] => str "/"
  | c :: _ => if Byte.eqb c "/" then path else "/"%byte :: path
  end.

Fixpoint target_query (first : bool) (query : http_query_string) : bytes :=
  match query with
  | [] => []
  | (key, value) :: r =>
      (if first then "?"%byte else "&"%byte) :: url_encode key ++ "="%byte :: url_encode value
      ++ target_query false r
  end.

Definition build_request_target (path : bytes) (query : http_query_string) : bytes :=
  target_path path ++ target_query true query.

(** ** The upstream *)

(** [next_upstream_.fetch_add(1) % upstreams_.size()] on a [std::size_t]. *)
Definition pick_upstream {U} (upstreams : list U) (next : Z) : option U * Z :=
  (upstreams !! Z.to_nat (next mod Z.of_nat (length upstreams)), uwrap 64 (next + 1)).

(** The content length of the relayed request: -1 is chunked; [None] is
    undefined arithmetic. *)
Definition relayed_length (headers : http_headers) : option Z :=
  match headers_get CONTENT_LENGTH headers with
  | Some cl =>
      match parse_i64 0 cl with NumBad => Some (-1) | NumOverflow => None | Num v => Some v end
  | None => Some (-1)
  end.

Section Proxy.
Context {W : Type} {U : Type} `{StreamReads U}.
Context (upstream : Type) (address_text : upstream -> bytes).
Context (open_upstream : upstream -> option U).
Context (splice : U -> bytes -> W -> bytes -> W).
Context {B : Type} `{Stream B}.

Definition has_body (headers : http_headers) : bool :=
  headers_isset CONTENT_LENGTH headers || headers_isset TRANSFER_ENCODING headers.

Definition forwarded_headers (up : upstream) (req : request B) : http_headers :=
  let h := copy_relayable_headers (req_headers req) [] in
  let h := headers_set HOST (address_text up) h in
  let h := headers_add (str "X-Forwarded-For")
             (match req_hostname req with [] => str "unknown" | n => n end) h in
  let h := headers_add (str "X-Forwarded-Host") (req_hostname req) h in
  let h := headers_add (str "X-Forwarded-Proto") (str "http") h in
  match headers_get UPGRADE (req_headers req) with
  | Some v =>
      if wants_upgrade (req_headers req)
      then headers_set UPGRADE v (headers_set CONNECTION (str "Upgrade") h)
      else headers_set CONNECTION (str "close") h
  | None => headers_set CONNECTION (str "close") h
  end.

Definition body_headers (headers : http_headers) (length : Z) (h : http_headers) : http_headers :=
  if has_body headers then
    if 0 <=? length then headers_set CONTENT_LENGTH (to_string length) h
    else headers_set TRANSFER_ENCODING (str "chunked") h
  else h.

Definition request_head (up : upstream) (req : request B) (length : Z) : bytes :=
  hm_name (req_method req) ++ [SP] ++ build_request_target (subpath_of req) (hr_query (req_resource req))
  ++ str " HTTP/1.1" ++ CRLF
  ++ headers_write (body_headers (req_headers req) length (forwarded_headers up req)) ++ CRLF.

(** The loop around [http_status::try_parse]; the inner [None] is the 502. *)
Fixpoint read_status (fuel : nat) (leftover : bytes) (w : U) : option (option status_line * bytes * U) :=
  match status_try_parse leftover with
  | Parsed s consumed => Some (Some s, drop consumed leftover, w)
  | Malformed => Some (None, leftover, w)
  | NeedMore =>
      match fuel with
      | O => None
      | S f =>
          let '(chunk, w') := st_read chunk_size w in
          match chunk with
          | [] => Some (None, leftover, w')
          | _ => read_status f (leftover ++ chunk) w'
          end
      end
  end.

(** The response body as a stream of its own. *)
Definition body_any (fuel : nat) (b : body_stream U) : any_stream :=
  match b with
  | BodyChunked c => AnyStream _ (chunked_Stream fuel) (chunked_StreamReads fuel) c
  | BodyLength r => any r
  | BodyNone m => any m
  end.

(** The length given to the response; [None] is undefined arithmetic. *)
Definition response_length (headers : http_headers) : option Z :=
  match headers_get CONTENT_LENGTH headers with
  | Some _ => relayed_length headers
  | None => Some (if headers_isset TRANSFER_ENCODING headers then -1 else 0)
  end.

(** The response built from a read status line and header block. *)
Definition relay_response (fuel : nat) (upgrade : bool) (status : Z) (headers : http_headers)
    (leftover : bytes) (w : U) : option (response W) :=
  let copied := copy_relayable_headers headers [] in
  if upgrade && (status =? 101) then
    let h := headers_set CONNECTION (str "Upgrade") copied in
    let h := match headers_get UPGRADE headers with Some v => headers_set UPGRADE v h | None => h end in
    Some (mk_response status h None 0 (Some (splice w leftover)))
  else
    match make_body_stream leftover w headers with
    | BodyNull => Some (make_response 502)
    | BodyOverflow => None
    | Body b =>
        length ← response_length headers;
        Some (mk_response status copied (Some (body_any fuel b)) length None)
    end.

(** The request is relayed: head, then the body framed as announced. *)
Definition relay_request (fuel : nat) (up : upstream) (req : request B) (w : U) : option (U * request B) :=
  length ← (if has_body (req_headers req) then relayed_length (req_headers req) else Some (-1));
  w ← write_all fuel w (request_head up req length);
  if has_body (req_headers req) then
    '(w, b) ← write_message_body fuel w (req_body req) length;
    Some (w, req_with_body b req)
  else Some (w, req).

(** The upstream's status line and headers; an inner [None] is the 502. *)
Definition read_upstream (fuel : nat) (w : U)
  : option (option (status_line * http_headers * bytes) * U) :=
  let '(chunk, w) := st_read chunk_size w in
  match chunk with
  | [] => Some (None, w)
  | _ =>
      '(status, leftover, w) ← read_status fuel chunk w;
      match status with
      | None => Some (None, w)
      | Some s =>
          '(ok, headers, leftover, w) ← read_headers fuel (Z.to_nat (64 * 1024)) leftover w [];
          Some ((if ok : bool then Some (s, headers, leftover) else None), w)
      end
  end.

(** Fuel exhaustion and undefined arithmetic are both [None]; an inner [None]
    is [std::nullopt]. *)
Definition proxy_on_handle (fuel : nat) (upstreams : list upstream) (next : Z) (req : request B)
  : option (option (response W) * request B * Z) :=
  match upstreams with
  | [] => Some (None, req, next)
  | _ =>
      let '(picked, next) := pick_upstream upstreams next in
      up ← picked;
      match open_upstream up with
      | None => Some (Some (make_response 502), req, next)
      | Some w =>
          '(w, req) ← relay_request fuel up req w;
          '(upstream_head, w) ← read_upstream fuel w;
          match upstream_head with
          | None => Some (Some (make_response 502), req, next)
          | Some (s, headers, leftover) =>
              resp ← relay_response fuel (wants_upgrade (req_headers req)) (sl_code s) headers leftover w;
              Some (Some resp, req, next)
          end
      end
  end.
End Proxy.

(** ** Relayed headers *)

Lemma copy_relayable_filter from to :
  copy_relayable_headers from to =
  to ++ List.filter (fun h => negb (is_hop_by_hop (h_name h))) from.
Proof.
  unfold copy_relayable_headers. revert to. induction from as [|h r IH]; intros to; cbn.
  { by rewrite app_nil_r. }
  rewrite IH. destruct (is_hop_by_hop (h_name h)); cbn; [done|].
  unfold headers_add. rewrite <-app_assoc. by destruct h.
Qed.

Lemma is_hop_by_hop_eq a b : header_name_equals a b = true -> is_hop_by_hop a = is_hop_by_hop b.
Proof.
  intros E. unfold is_hop_by_hop. induction hop_by_hop as [|x l IH]; [done|]. cbn. rewrite IH.
  fold (name_eq a b) in E. by rewrite E.
Qed.

(** The relayed headers hold, for every name, all the values of the source in order, or none when
    the name is hop-by-hop. *)
Lemma relay_drops_hop_by_hop from name :
  headers_get_all name (copy_relayable_headers from []) =
  if is_hop_by_hop name then [] else headers_get_all name from.
Proof.
  rewrite copy_relayable_filter. cbn [app]. unfold headers_get_all.
  induction from as [|h r IH]; cbn; [by case_if|].
  destruct (header_name_equals (h_name h) name) eqn:E.
  - rewrite (is_hop_by_hop_eq _ _ E) in *. destruct (is_hop_by_hop name) eqn:Eh; cbn; [done|].
    rewrite E. cbn. by rewrite IH.
  - destruct (is_hop_by_hop (h_name h)); cbn; [done|]. by rewrite E.
Qed.

(** ** Targets *)

Lemma target_query_print q :
  target_query true q = match q with [] => [] | _ => "?"%byte :: qs_print q end.
Proof.
  destruct q as [|[k v] q]; [done|]. cbn [target_query]. f_equal. unfold qs_print. cbn [map].
  assert (forall q e, e ++ target_query false q = join_with "&" (e :: map qs_entry q)) as H.
  { clear. induction q as [|[k v] q IH]; intros e; cbn [target_query map]; [apply app_nil_r|].
    change (join_with "&" (e :: qs_entry (k, v) :: map qs_entry q))
      with (e ++ "&"%byte :: join_with "&" (qs_entry (k, v) :: map qs_entry q)).
    rewrite <-IH. unfold qs_entry. cbn [fst snd]. by rewrite <-app_assoc. }
  rewrite <-H. unfold qs_entry. cbn [fst snd]. by rewrite <-app_assoc.
Qed.

(** The request target rebuilt for the upstream splits back into the same path and query map when
    the path has no question mark. *)
Lemma request_target_roundtrip path query :
  head path = Some "/"%byte -> "?"%byte ∉ path -> om_wf query ->
  split_target (build_request_target path query) = (path, query).
Proof.
  intros Hh Hp Hq. unfold build_request_target. rewrite target_query_print.
  assert (target_path path = path) as ->.
  { destruct path as [|c r]; [done|]. injection Hh as ->. done. }
  unfold split_target. destruct query as [|e q].
  - rewrite app_nil_r, (proj2 (find_byte_None _ _)) by done. done.
  - rewrite find_byte_app, take_app_length, drop_sep by done.
    rewrite qs_parse_print_list. f_equal. by apply om_insert_all_sorted.
Qed.

Lemma request_target_roundtrip_witness :
  split_target (build_request_target (str "/a") [(str "k", str "v w"); (str "z", [])]) =
  (str "/a", [(str "k", str "v w"); (str "z", [])]).
Proof.
  apply request_target_roundtrip; [reflexivity|by apply (bool_decide_unpack _)|].
  change [(str "k", str "v w"); (str "z", [])] with (om_insert_all true [] [(str "k", str "v w"); (str "z", [])]).
  apply om_insert_all_wf, om_wf_nil.
Defined.

(** The path is relayed decoded: one that held an encoded space splits the
    relayed request line in the wrong place. *)
Lemma decoded_path_breaks_request_line :
  resource_try_parse (str "GET " ++ build_request_target (url_decode (str "/a%20b")) [] ++ str " HTTP/1.1" ++ CRLF)
  = Malformed.
Proof. reflexivity. Qed.

(** ** Round robin *)

Fixpoint picks {U} (upstreams : list U) (n : nat) (next : Z) : list (option U) :=
  match n with
  | O => []
  | S k => let '(u, next') := pick_upstream upstreams next in u :: picks upstreams k next'
  end.

Lemma picks_spec {U} (us : list U) n next :
  us <> [] -> 0 <= next -> next + Z.of_nat n <= 2 ^ 64 ->
  forall i, (i < n)%nat ->
    picks us n next !! i = Some (us !! Z.to_nat ((next + Z.of_nat i) mod Z.of_nat (length us))).
Proof.
  intros Hne. revert next. induction n as [|n IH]; intros next H0 Hb i Hi; [lia|]. cbn [picks pick_upstream].
  destruct i as [|i]; cbn.
  - by rewrite Z.add_0_r.
  - destruct (decide (n = 0)%nat) as [->|]; [lia|]. rewrite uwrap_small by lia.
    rewrite IH by lia. do 4 f_equal. lia.
Qed.

(** Over as many consecutive picks as there are upstreams, every upstream is chosen, as long as
    the counter does not wrap. *)
Lemma round_robin_fair {U} (us : list U) next i :
  us <> [] -> 0 <= next -> next + Z.of_nat (length us) <= 2 ^ 64 -> (i < length us)%nat ->
  exists j, (j < length us)%nat /\ picks us (length us) next !! j = Some (us !! i).
Proof.
  intros Hne H0 Hb Hi. set (n := Z.of_nat (length us)) in *.
  assert (0 < n) as Hn by lia. exists (Z.to_nat ((Z.of_nat i - next) mod n)).
  pose proof (Z.mod_pos_bound (Z.of_nat i - next) n Hn) as Hm. split; [lia|].
  rewrite picks_spec by (done || lia). fold n. rewrite Z2Nat.id by lia.
  rewrite Zplus_mod_idemp_r. replace (next + (Z.of_nat i - next)) with (Z.of_nat i) by lia.
  rewrite Z.mod_small by lia. by rewrite Nat2Z.id.
Qed.

Lemma round_robin_fair_witness :
  exists j, (j < 3)%nat /\ picks [str "a"; str "b"; str "c"] 3 7 !! j = Some (Some (str "c")).
Proof. apply (round_robin_fair [str "a"; str "b"; str "c"] 7 2); [done|lia|cbn; lia|cbn; lia]. Defined.

(** ** The relayed response *)
Section Relay.
Context {W : Type} {U : Type} `{StreamDuplex U}.
Context (upstream : Type) (address_text : upstream -> bytes).
Context (open_upstream : upstream -> option U).
Context (splice : U -> bytes -> W -> bytes -> W).
Context {B : Type} `{Stream B}.

Lemma read_status_spec fuel leftover (w : U) s consumed :
  st_ok w -> (length (st_data w) < fuel)%nat ->
  status_try_parse (leftover ++ st_data w) = Parsed s consumed ->
  exists l' w', read_status fuel leftover w = Some (Some s, l', w') /\ st_ok w' /\
    l' ++ st_data w' = drop consumed (leftover ++ st_data w) /\
    (length (st_data w') <= length (st_data w))%nat.
Proof.
  revert leftover w. induction fuel as [|f IH]; intros l w Hok Hf Hp; [lia|]. cbn [read_status].
  destruct (decide (LF ∈ l)) as [Hin|Hnin].
  - assert (status_try_parse l = Parsed s consumed) as E.
    { rewrite <-Hp. symmetry. apply status_try_parse_extend. by intros ?%status_need_more. }
    rewrite E. exists (drop consumed l), w. split; [done|]. split; [done|].
    apply status_consumed in E. by rewrite drop_app_le by lia.
  - rewrite (proj2 (status_need_more l) Hnin).
    destruct (st_read chunk_size w) as [chunk w'] eqn:Hr.
    pose proof (read_empty_iff _ _ _ _ Hok chunk_size_pos Hr) as Hemp.
    destruct (st_read_spec _ _ _ _ chunk_size_pos Hok Hr) as (Hok' & Hd & _ & _).
    destruct chunk as [|x chunk].
    { destruct Hemp as [Hemp _]. rewrite Hemp, app_nil_r in Hp by done.
      apply status_need_more in Hnin. congruence. }
    rewrite Hd in Hf, Hp |- *. rewrite length_app in Hf |- *. cbn [length] in Hf |- *.
    rewrite app_assoc in Hp |- *.
    destruct (IH (l ++ x :: chunk) w') as (l' & w'' & -> & ? & ? & ?); [done|lia|done|].
    exists l', w''. split_and!; try done. lia.
Qed.

Lemma read_upstream_spec fuel (w : U) code hs rest :
  st_ok w -> 100 <= code <= 999 -> Forall header_wf hs ->
  Forall (fun h => length (header_line h) <= Z.to_nat (64 * 1024))%nat hs ->
  st_data w = write_status_line code 1 ++ headers_write hs ++ CRLF ++ rest ->
  (2 * length (st_data w) + 2 < fuel)%nat ->
  exists leftover w', read_upstream fuel w = Some (Some (mk_status_line code 1 1, hs, leftover), w') /\
    st_ok w' /\ leftover ++ st_data w' = rest.
Proof.
  intros Hok Hc Hwf Hlen Hd Hf. unfold read_upstream.
  destruct (st_read chunk_size w) as [chunk w1] eqn:Hr.
  destruct (st_read_spec _ _ _ _ chunk_size_pos Hok Hr) as (Hok1 & Hd1 & _ & Hne).
  pose proof (status_line_parses code 1 (headers_write hs ++ CRLF ++ rest) Hc ltac:(lia)) as Hp.
  rewrite <-Hd, Hd1 in Hp.
  assert (chunk <> []) as Hch. { apply Hne. rewrite Hd. by rewrite write_status_line_text by lia. }
  assert (length (st_data w) = length chunk + length (st_data w1))%nat as Hl by (rewrite Hd1; apply length_app).
  assert (length hs <= length (st_data w))%nat as Hhs.
  { pose proof (headers_write_length hs). rewrite Hd, !length_app. lia. }
  destruct (read_status_spec fuel chunk w1 _ _ Hok1 ltac:(lia) Hp) as (l2 & w2 & E2 & Hok2 & Hr2 & Hl2).
  destruct chunk as [|x chunk]; [done|]. rewrite E2. cbn [mbind option_bind].
  rewrite <-Hd1, Hd, drop_app_length in Hr2.
  destruct (read_headers_block hs fuel (Z.to_nat (64 * 1024)) l2 w2 [] rest Hok2 Hwf Hlen ltac:(lia) Hr2)
    as (l3 & w3 & -> & Hok3 & Hr3); [lia|].
  cbn [mbind option_bind]. by exists l3, w3.
Qed.

Lemma response_length_framed hs body : msg_framed hs body -> response_length hs = Some (Z.of_nat (length body)).
Proof.
  intros [Hte Hcl]. unfold response_length, relayed_length.
  assert (headers_isset TRANSFER_ENCODING hs = false) as ->.
  { apply not_true_is_false. rewrite headers_isset_get, Hte. by intros []. }
  destruct (headers_get CONTENT_LENGTH hs) as [v|]; [|by subst].
  destruct Hcl as [-> Hmax]. by rewrite parse_i64_to_string by lia.
Qed.

(** C36: For a plain request and an upstream answering with a well-framed response, the proxy
    returns the upstream's status, its end-to-end headers and a body stream of exactly the
    announced bytes, and advances the round-robin counter by one. *)
Theorem proxy_relays_response fuel us next up (w : U) (req : request B) code hs body rest :
  us !! Z.to_nat (next mod Z.of_nat (length us)) = Some up -> open_upstream up = Some w ->
  has_body (req_headers req) = false -> wants_upgrade (req_headers req) = false ->
  st_ok w -> 100 <= code <= 999 -> Forall header_wf hs ->
  Forall (fun h => length (header_line h) <= Z.to_nat (64 * 1024))%nat hs -> msg_framed hs body ->
  st_data w = write_status_line code 1 ++ headers_write hs ++ CRLF ++ body ++ rest ->
  (2 * length (st_data w) + 2 < fuel)%nat ->
  (length (request_head upstream address_text up req (-1)) <= fuel)%nat ->
  exists (resp : response W) b,
    proxy_on_handle upstream address_text open_upstream splice fuel us next req =
      Some (Some resp, req, uwrap 64 (next + 1)) /\
    resp_status resp = code /\ resp_headers resp = copy_relayable_headers hs [] /\
    resp_content_length resp = Z.of_nat (length body) /\
    resp_body resp = Some b /\ st_ok b /\ st_data b = body.
Proof.
  intros Hpick Hopen Hnb Hup Hok Hc Hwf Hlen Hfr Hd Hf Hfh.
  unfold proxy_on_handle. destruct us as [|u us]; [done|]. unfold pick_upstream. rewrite Hpick.
  cbn [mbind option_bind]. rewrite Hopen. unfold relay_request. rewrite Hnb. cbn [mbind option_bind].
  destruct (write_all_spec fuel w (request_head upstream address_text up req (-1)) Hfh) as (w1 & E1 & _).
  rewrite E1. cbn [mbind option_bind]. destruct (write_all_data _ _ _ _ Hok E1) as [Hok1 Hd1].
  destruct (read_upstream_spec fuel w1 code hs (body ++ rest)) as (lo & w2 & -> & Hok2 & Hr2);
    try done; try (by rewrite Hd1).
  cbn [mbind option_bind sl_code]. unfold relay_response. rewrite Hup. cbn [andb].
  destruct (body_of_message hs body lo w2 rest Hok2 Hfr Hr2) as (b & -> & Hpb & Hbok & Hbd & _).
  rewrite (response_length_framed _ _ Hfr). cbn [mbind option_bind].
  eexists _, _. split; [done|]. split_and!; try done; by destruct b.
Qed.
End Relay.

(** The witness: a fixed upstream answering ["200"] with three bytes. *)
Definition upstream_wire : wire :=
  mk_wire [write_status_line 200 1 ++ headers_write [mk_header CONTENT_LENGTH (str "3")] ++ CRLF ++ str "abc"]
    [] [].

Definition proxy_request : request memory_stream :=
  mk_request (mk_resource GET (str "/x") (str "/x") [] 1 1) [] (memory_stream_new []) (str "host") tags_empty.

Definition proxy_address (_ : unit) : bytes := str "10.0.0.1:80".

Lemma proxy_relays_response_witness :
  exists (resp : response wire) b,
    proxy_on_handle unit proxy_address (fun _ => Some upstream_wire) (fun _ _ w _ => w)
      (Z.to_nat 1000) [tt] 5 proxy_request = Some (Some resp, proxy_request, uwrap 64 6) /\
    resp_status resp = 200 /\ resp_body resp = Some b /\ st_data b = str "abc".
Proof.
  destruct (proxy_relays_response (W := wire) unit proxy_address (fun _ => Some upstream_wire)
    (fun _ _ w _ => w) (Z.to_nat 1000) [tt] 5 tt upstream_wire proxy_request
    200 [mk_header CONTENT_LENGTH (str "3")] (str "abc") [])
    as (resp & b & Hr & Hs & _ & _ & Hb & _ & Hd); try reflexivity; try done; try lia.
  - apply Forall_singleton. by apply (bool_decide_unpack _).
  - apply Forall_singleton. change (length (header_line _)) with 19%nat. lia.
  - replace (length (st_data upstream_wire)) with 41%nat by reflexivity. lia.
  - replace (length _) with 129%nat by reflexivity. lia.
  - by exists resp, b.
Defined.
