(* ===== verification/Multipart.v ===== *)
(** * Multipart: src/protocol/http_multipart.cpp

    The streaming multipart/form-data reader: parts delimited by a boundary
    marker, headers parsed line by line, the body handed out without buffering
    more than a marker's length of look-ahead.  It keeps a [feeder], like the
    chunked decoder; its behaviour is a function of the unconsumed bytes. *)

From S2P Require Import Prelude Bytes OrdMap Stream Feeder Header Mime.

#[local] Open Scope Z_scope.

(** ** multipart_part *)

Definition disposition_param (key : bytes) (headers : http_headers) : option bytes :=
  disposition ← headers_get CONTENT_DISPOSITION headers;
  om_find key (parse_header_parameters disposition).

Definition part_name := disposition_param (str "name").
Definition part_filename := disposition_param (str "filename").

(** ** multipart_reader *)
Section Multipart.
Context {S : Type} `{Stream S}.

Record multipart_reader := mk_multipart {
  mp_feed : feeder S;
  mp_marker : bytes;
  mp_finished : bool;
  mp_active : bool;
}.

(** The synthetic leading CRLF makes the first delimiter like the others. *)
Definition multipart_new (source : S) (boundary : bytes) : multipart_reader :=
  mk_multipart (mk_feeder source CRLF false) (CRLF ++ str "--" ++ boundary) false false.

Definition mp_with (r : multipart_reader) (d : feeder S) (active : bool) : multipart_reader :=
  mk_multipart d (mp_marker r) (mp_finished r) active.

Definition mp_finish (r : multipart_reader) (d : feeder S) : multipart_reader :=
  mk_multipart d (mp_marker r) true (mp_active r).

(** [delimiter_pos_], [None] when the source ends before a delimiter. *)
Fixpoint ensure_delimiter_or_eof (fuel : nat) (marker : bytes) (d : feeder S)
  : option (option nat * feeder S) :=
  match fuel with
  | O => None
  | Datatypes.S f =>
      match find_sub marker (fd_buffer d) with
      | Some pos => Some (Some pos, d)
      | None => if fd_eof d then Some (None, d) else ensure_delimiter_or_eof f marker (fill_more d).2
      end
  end.

(** The loop of [read_part_body]; the flag is [part_active_] afterwards. *)
Fixpoint part_body_loop (fuel n : nat) (marker : bytes) (d : feeder S)
  : option (bytes * bool * feeder S) :=
  match fuel with
  | O => None
  | Datatypes.S f =>
      let copy k := Some (take k (fd_buffer d), true, fd_with_buffer d (drop k (fd_buffer d))) in
      match find_sub marker (fd_buffer d) with
      | Some pos =>
          let to_copy := Nat.min n pos in
          if (0 <? to_copy)%nat then copy to_copy else Some ([], false, d)
      | None =>
          let safe := (length (fd_buffer d) - (length marker - 1))%nat in
          if (length marker <? length (fd_buffer d))%nat && (0 <? Nat.min n safe)%nat
          then copy (Nat.min n safe)
          else if fd_eof d then
            let to_copy := Nat.min n (length (fd_buffer d)) in
            if (0 <? to_copy)%nat then copy to_copy else Some ([], false, d)
          else part_body_loop f n marker (fill_more d).2
      end
  end.

Definition read_part_body (fuel n : nat) (r : multipart_reader) : option (bytes * multipart_reader) :=
  if negb (mp_active r) then Some ([], r)
  else
    '(out, active, d) ← part_body_loop fuel n (mp_marker r) (mp_feed r);
    Some (out, mp_with r d active).

(** [while (part_active_) if (read_part_body(scratch, 512) == 0) break]. *)
Fixpoint drain_part (fuel k : nat) (r : multipart_reader) : option multipart_reader :=
  if negb (mp_active r) then Some r
  else
    match k with
    | O => None
    | Datatypes.S k' =>
        '(out, r') ← read_part_body fuel (Z.to_nat 512) r;
        match out with [] => Some r' | _ => drain_part fuel k' r' end
    end.

(** The header lines up to the blank one; lines that do not parse are skipped. *)
Fixpoint read_part_headers (fuel k : nat) (d : feeder S) (acc : http_headers)
  : option (option http_headers * feeder S) :=
  match k with
  | O => None
  | Datatypes.S k' =>
      '(line, d) ← read_line fuel d;
      match line with
      | None => Some (None, d)
      | Some [] => Some (Some acc, d)
      | Some line =>
          let acc := match header_try_parse (line ++ [LF]) with
                     | Parsed h _ => headers_add (h_name h) (h_value h) acc
                     | _ => acc
                     end in
          read_part_headers fuel k' d acc
      end
  end.

Definition next_part (fuel : nat) (r : multipart_reader)
  : option (option http_headers * multipart_reader) :=
  if mp_finished r then Some (None, r)
  else
    r ← drain_part fuel fuel r;
    '(pos, d) ← ensure_delimiter_or_eof fuel (mp_marker r) (mp_feed r);
    match pos with
    | None => Some (None, mp_finish r d)
    | Some pos =>
        let d := fd_with_buffer d (drop (pos + length (mp_marker r)) (fd_buffer d)) in
        d ← fill_until fuel 2 d;
        if (length (fd_buffer d) <? 2)%nat || bytes_eqb (take 2 (fd_buffer d)) (str "--")
        then Some (None, mp_finish r d)
        else
          '(headers, d) ← read_part_headers fuel fuel (fd_with_buffer d (drop 2 (fd_buffer d))) [];
          match headers with
          | None => Some (None, mp_finish r d)
          | Some headers => Some (Some headers, mp_with r d true)
          end
    end.

(** [multipart_part_stream]: the current part as an [io::stream]. *)
Definition part_Stream (fuel : nat) : Stream multipart_reader := {|
  st_get_length := fun _ => -1;
  st_can_seek := fun _ => false;
  st_seek := fun _ _ r => (-1, r);
  st_read := fun n r => default ([], r) (read_part_body fuel n r);
  st_write := fun _ r => (0%nat, r);
|}.

(** How a client reads a part: to its end, or by reads of these sizes. *)
Inductive part_plan := ReadAll | ReadSome (sizes : list nat).

Fixpoint part_reads (fuel : nat) (sizes : list nat) (r : multipart_reader) : list bytes * multipart_reader :=
  match sizes with
  | [] => ([], r)
  | n :: ss =>
      let '(out, r) := @st_read _ (part_Stream fuel) n r in
      let '(outs, r) := part_reads fuel ss r in
      (out :: outs, r)
  end.

Definition read_part (fuel : nat) (plan : part_plan) (r : multipart_reader) : option (list bytes * multipart_reader) :=
  match plan with
  | ReadAll => '(body, r) ← @read_all _ (part_Stream fuel) fuel r []; Some ([body], r)
  | ReadSome sizes => Some (part_reads fuel sizes r)
  end.

(** A client loop: it looks at a part's headers to decide how to read it. *)
Fixpoint read_parts_by (plan : http_headers -> part_plan) (fuel k : nat) (r : multipart_reader)
  : option (list (http_headers * list bytes)) :=
  match k with
  | O => None
  | Datatypes.S k' =>
      '(headers, r) ← next_part fuel r;
      match headers with
      | None => Some []
      | Some headers =>
          '(outs, r) ← read_part fuel (plan headers) r;
          rest ← read_parts_by plan fuel k' r;
          Some ((headers, outs) :: rest)
      end
  end.

(** Every part with its body. *)
Definition read_parts (fuel k : nat) (r : multipart_reader) : option (list (http_headers * bytes)) :=
  map (fun p => (p.1, concat p.2)) <$> read_parts_by (fun _ => ReadAll) fuel k r.
End Multipart.
Arguments multipart_reader S : clear implicits.

(** ** First occurrences *)

Lemma is_prefix_app pat s t : is_prefix pat s = true -> is_prefix pat (s ++ t) = true.
Proof. rewrite !is_prefix_spec. intros [r ->]. exists (r ++ t). by rewrite app_assoc. Qed.

Lemma is_prefix_short pat s t :
  (length pat <= length s)%nat -> is_prefix pat (s ++ t) = is_prefix pat s.
Proof.
  intros Hl. apply eq_true_iff_eq. split; [|apply is_prefix_app]. rewrite !is_prefix_spec.
  intros [r Hr]. exists (drop (length pat) s).
  apply (f_equal (take (length pat))) in Hr. rewrite take_app_length, take_app_le in Hr by done.
  rewrite <-Hr at 1. by rewrite take_drop.
Qed.

Lemma find_sub_length pat s i : find_sub pat s = Some i -> (i + length pat <= length s)%nat.
Proof. intros (p & r & -> & <-)%find_sub_Some. rewrite !length_app. lia. Qed.

Lemma find_sub_extend pat s t i : find_sub pat s = Some i -> find_sub pat (s ++ t) = Some i.
Proof.
  revert i. induction s as [|x s IH]; intros i Hi; pose proof (find_sub_length _ _ _ Hi) as Hl.
  - cbn in Hl. destruct pat; [|cbn in Hl; lia]. cbn in Hi |- *. by destruct t.
  - cbn [find_sub app] in Hi |- *. change (x :: s ++ t) with ((x :: s) ++ t).
    rewrite is_prefix_short by lia. destruct (is_prefix pat (x :: s)); [done|].
    apply fmap_Some in Hi as (j & Hj & ->). by rewrite (IH j Hj).
Qed.

Lemma find_sub_drop pat s i k : find_sub pat s = Some i -> (k <= i)%nat -> find_sub pat (drop k s) = Some (i - k)%nat.
Proof.
  revert i k. induction s as [|x s IH]; intros i k Hi Hk.
  - pose proof (find_sub_length _ _ _ Hi) as Hl. cbn in Hl. assert (i = 0 /\ k = 0)%nat as [-> ->] by lia. done.
  - destruct k as [|k]; [by rewrite Nat.sub_0_r|]. cbn [find_sub drop] in *.
    destruct (is_prefix pat (x :: s)); [injection Hi as <-; lia|].
    apply fmap_Some in Hi as (j & Hj & ->). change (S j - S k)%nat with (j - k)%nat. apply IH; [done|lia].
Qed.

Lemma find_sub_drop_None pat s k : find_sub pat s = None -> find_sub pat (drop k s) = None.
Proof.
  revert k. induction s as [|x s IH]; intros k Hn; [by rewrite drop_nil|].
  destruct k as [|k]; [done|]. cbn [find_sub drop] in *. destruct (is_prefix pat (x :: s)); [done|].
  apply fmap_None in Hn. auto.
Qed.

(** A marker completed by later bytes starts in the last [length pat - 1]. *)
Lemma find_sub_beyond pat s t i :
  find_sub pat s = None -> find_sub pat (s ++ t) = Some i -> (length s < i + length pat)%nat.
Proof.
  intros Hn Hi. destruct (Nat.lt_ge_cases (length s) (i + length pat)) as [|Hge]; [done|]. exfalso.
  apply find_sub_Some in Hi as (p & r & Hs & Hp).
  pose proof (find_sub_None _ _ Hn i ltac:(lia)) as Hf.
  assert (drop i (s ++ t) = pat ++ r) as Hd by (by rewrite Hs, <-Hp, drop_app_length).
  rewrite drop_app_le in Hd by lia.
  rewrite <-(is_prefix_short _ _ t) in Hf by (rewrite length_drop; lia).
  rewrite Hd in Hf. assert (is_prefix pat (pat ++ r) = true) by (apply is_prefix_spec; eauto). congruence.
Qed.

(** ** What the reader delivers *)

(** The current part's remaining body, and everything from the next marker. *)
Definition part_split (marker raw : bytes) : bytes * bytes :=
  match find_sub marker raw with Some i => (take i raw, drop i raw) | None => (raw, []) end.

Lemma part_split_advance marker raw k :
  (k <= length (part_split marker raw).1)%nat ->
  part_split marker raw =
  (take k raw ++ (part_split marker (drop k raw)).1, (part_split marker (drop k raw)).2).
Proof.
  unfold part_split. destruct (find_sub marker raw) as [i|] eqn:E; cbn [fst]; intros Hk.
  - pose proof (find_sub_length _ _ _ E). rewrite length_take in Hk.
    rewrite (find_sub_drop _ _ i k E) by lia. cbn [fst snd]. rewrite drop_drop.
    replace (k + (i - k))%nat with i by lia. f_equal.
    rewrite <-(take_drop k (take i raw)) at 1. rewrite take_take, skipn_firstn_comm.
    by replace (Nat.min k i) with k by lia.
  - rewrite (find_sub_drop_None _ _ k E). cbn. by rewrite take_drop.
Qed.

Section Reader.
Context {S : Type} `{StreamReads S}.
Context (marker : bytes).
Hypothesis Hmarker : marker <> [].

(** One read of the current part: [out] is the next of its bytes, and empty at
    its end, or when no byte was asked for; then the part becomes inactive. *)
Definition delivers (n : nat) (d : feeder S) (out : bytes) (active : bool) (d' : feeder S) : Prop :=
  fd_ok d' /\ out = take (length out) (fd_raw d) /\ fd_raw d' = drop (length out) (fd_raw d) /\
  (length out <= length (part_split marker (fd_raw d)).1)%nat /\
  (out = [] <-> n = 0%nat \/ (part_split marker (fd_raw d)).1 = []) /\ active = negb (bytes_eqb out []) /\
  (length out <= n)%nat.

Lemma delivers_copy n (d : feeder S) k :
  fd_ok d -> (0 < k <= length (fd_buffer d))%nat -> (k <= n)%nat ->
  (k <= length (part_split marker (fd_raw d)).1)%nat ->
  delivers n d (take k (fd_buffer d)) true (fd_with_buffer d (drop k (fd_buffer d))).
Proof.
  intros Hok Hk Hkn Hks. unfold delivers.
  assert (length (take k (fd_buffer d)) = k) as El by (rewrite length_take; lia).
  assert (take k (fd_buffer d) <> []) as Hne by (intros E; rewrite E in El; cbn in El; lia).
  rewrite El, fd_raw_with_buffer. unfold fd_raw at 1 2. rewrite take_app_le, drop_app_le by lia.
  split_and!; try done.
  - split; [done|]. intros [->|E]; [lia|]. rewrite E in Hks. cbn in Hks. lia.
  - by rewrite (proj2 (bytes_eqb_false _ _) Hne).
Qed.

Lemma delivers_end n (d : feeder S) :
  fd_ok d -> n = 0%nat \/ (part_split marker (fd_raw d)).1 = [] -> delivers n d [] false d.
Proof. intros Hok E. unfold delivers. split_and!; try done; cbn; lia. Qed.

(** Bytes further than a marker from the end of the buffer are the part's. *)
Lemma safe_prefix (d : feeder S) :
  find_sub marker (fd_buffer d) = None -> (length marker <= length (fd_buffer d))%nat ->
  (length (fd_buffer d) - (length marker - 1) <= length (part_split marker (fd_raw d)).1)%nat.
Proof.
  intros E Hl. unfold part_split. destruct (find_sub marker (fd_raw d)) as [i|] eqn:Ei; cbn [fst].
  - pose proof (find_sub_length _ _ _ Ei). rewrite length_take.
    unfold fd_raw in Ei. pose proof (find_sub_beyond _ _ _ _ E Ei). lia.
  - unfold fd_raw. rewrite length_app. lia.
Qed.

Lemma part_body_loop_spec fuel n (d : feeder S) :
  fd_ok d -> (fd_steps d < fuel)%nat ->
  exists out active d', part_body_loop fuel n marker d = Some (out, active, d') /\ delivers n d out active d'.
Proof.
  revert d. induction fuel as [|f IH]; intros d Hok Hf; [lia|]. cbn [part_body_loop].
  assert (0 < length marker)%nat as Hml by (destruct marker; [done|cbn; lia]).
  destruct (find_sub marker (fd_buffer d)) as [pos|] eqn:E; cbv zeta.
  - pose proof (find_sub_length _ _ _ E) as Hl.
    assert (length (part_split marker (fd_raw d)).1 = pos) as Hlen.
    { unfold part_split, fd_raw. rewrite (find_sub_extend _ _ _ _ E). cbn. rewrite length_take, length_app. lia. }
    destruct (Nat.ltb_spec 0 (Nat.min n pos)); eexists _, _, _; (split; [done|]).
    + apply delivers_copy; [done|lia..].
    + apply delivers_end; [done|]. rewrite <-length_zero_iff_nil. lia.
  - case_if; bool_to_prop.
    { eexists _, _, _. split; [done|]. pose proof (safe_prefix d E ltac:(lia)). apply delivers_copy; [done|lia..]. }
    destruct (fd_eof d) eqn:Eof.
    + assert (fd_raw d = fd_buffer d) as Er by (unfold fd_raw; rewrite (proj2 Hok Eof); apply app_nil_r).
      assert ((part_split marker (fd_raw d)).1 = fd_buffer d) as Ep by (unfold part_split; by rewrite Er, E).
      destruct (Nat.ltb_spec 0 (Nat.min n (length (fd_buffer d)))); eexists _, _, _; (split; [done|]).
      * apply delivers_copy; [done|lia..|rewrite Ep; lia].
      * apply delivers_end; [done|]. rewrite Ep, <-length_zero_iff_nil. lia.
    + destruct (fill_more_spec d Hok Eof) as (Hok' & Hraw & Hst & _).
      destruct (IH _ Hok' ltac:(lia)) as (out & act & d' & Hl & Hd). exists out, act, d'. split; [done|].
      unfold delivers in *. by rewrite <-Hraw.
Qed.

Lemma part_split_app raw : (part_split marker raw).1 ++ (part_split marker raw).2 = raw.
Proof. unfold part_split. destruct (find_sub marker raw); cbn; [apply take_drop|apply app_nil_r]. Qed.

Lemma part_split_nil raw : (part_split marker raw).1 = [] -> (part_split marker raw).2 = raw.
Proof. intros E. rewrite <-(part_split_app raw) at 2. by rewrite E. Qed.

Lemma find_sub_here t : find_sub marker (marker ++ t) = Some 0%nat.
Proof.
  assert (is_prefix marker (marker ++ t) = true) as E by (apply is_prefix_spec; eauto).
  destruct (marker ++ t); cbn [find_sub]; by rewrite E.
Qed.

(** The reader's invariant, and its unconsumed bytes. *)
Definition mp_raw (r : multipart_reader S) : bytes := fd_raw (mp_feed r).
Definition mp_ok (r : multipart_reader S) : Prop := fd_ok (mp_feed r) /\ mp_marker r = marker.

Lemma read_part_body_spec fuel n (r : multipart_reader S) :
  mp_ok r -> mp_active r = true -> (length (mp_raw r) + 2 <= fuel)%nat ->
  exists out r', read_part_body fuel n r = Some (out, r') /\ mp_ok r' /\ mp_finished r' = mp_finished r /\
    mp_active r' = negb (bytes_eqb out []) /\
    (part_split marker (mp_raw r)).1 = out ++ (part_split marker (mp_raw r')).1 /\
    (part_split marker (mp_raw r)).2 = (part_split marker (mp_raw r')).2 /\
    (out = [] <-> n = 0%nat \/ (part_split marker (mp_raw r)).1 = []) /\
    mp_raw r = out ++ mp_raw r' /\ (length out <= n)%nat.
Proof.
  intros [Hok Hm] Ha Hf. unfold read_part_body. rewrite Ha, Hm. cbn [negb].
  unfold mp_raw in *. pose proof (fd_steps_raw (mp_feed r)).
  destruct (part_body_loop_spec fuel n (mp_feed r) Hok ltac:(lia))
    as (out & act & d' & -> & Hok' & Ho & Hr & Hl & He & Hact & Hln).
  cbn [mbind option_bind]. exists out, (mp_with r d' act). split; [done|]. cbn [mp_feed mp_with].
  rewrite (part_split_advance marker _ _ Hl), <-Ho, <-Hr. cbn [fst snd].
  split_and!; try done.
  - rewrite (part_split_advance marker _ _ Hl), <-Ho, <-Hr in He. exact He.
  - rewrite Hr. rewrite Ho at 1. by rewrite take_drop.
Qed.

(** Everything from the next marker: what is left once the part is skipped. *)
Definition mp_next (r : multipart_reader S) : bytes := (part_split marker (mp_raw r)).2.

Lemma mp_next_length (r : multipart_reader S) : (length (mp_next r) <= length (mp_raw r))%nat.
Proof. unfold mp_next. rewrite <-(part_split_app (mp_raw r)) at 2. rewrite length_app. lia. Qed.

(** A marker that comes next is found where the text before it ends. *)
Lemma mp_next_found (r : multipart_reader S) rest :
  mp_next r = marker ++ rest -> exists i, find_sub marker (mp_raw r) = Some i /\ drop i (mp_raw r) = marker ++ rest.
Proof.
  unfold mp_next, part_split. destruct (find_sub marker (mp_raw r)) as [i|]; cbn; intros E; [by exists i|].
  by destruct marker.
Qed.

Lemma drain_part_spec fuel k (r : multipart_reader S) :
  mp_ok r -> (length (mp_raw r) + 2 <= fuel)%nat -> (length (mp_raw r) < k)%nat ->
  exists r', drain_part fuel k r = Some r' /\ mp_ok r' /\ mp_finished r' = mp_finished r /\
    mp_next r' = mp_next r /\ (length (mp_raw r') <= length (mp_raw r))%nat.
Proof.
  revert r. induction k as [|k IH]; intros r Hok Hf Hk; [lia|]. cbn [drain_part].
  destruct (mp_active r) eqn:Ha; cbn [negb]; [|by exists r].
  destruct (read_part_body_spec fuel (Z.to_nat 512) r Hok Ha Hf)
    as (out & r1 & -> & Hok1 & Hfin & Ha1 & H1s & H2s & He & Hraw & _). cbn [mbind option_bind].
  assert (length (mp_raw r) = length out + length (mp_raw r1))%nat by (by rewrite Hraw, length_app).
  destruct out as [|x out]; [exists r1; split_and!; [done..|lia]|]. cbn [length] in *.
  destruct (IH r1 Hok1 ltac:(lia) ltac:(lia)) as (r' & -> & ? & ? & ? & ?).
  exists r'. unfold mp_next in *. split_and!; [done|done|congruence|congruence|lia].
Qed.

(** ** A part as a stream *)

(** What is left of the current part. *)
Definition part_data (r : multipart_reader S) : bytes :=
  if mp_active r then (part_split marker (mp_raw r)).1 else [].

Definition part_fits (fuel : nat) (r : multipart_reader S) : Prop :=
  mp_ok r /\ (length (mp_raw r) + 2 <= fuel)%nat.

(** A read leaves what follows the part, and the rest of the reader, alone. *)
Definition beside_part (r r' : multipart_reader S) : Prop :=
  mp_finished r' = mp_finished r /\ mp_next r' = mp_next r /\ (length (mp_raw r') <= length (mp_raw r))%nat.

Lemma beside_part_trans (r r1 r2 : multipart_reader S) : beside_part r r1 -> beside_part r1 r2 -> beside_part r r2.
Proof. intros (? & ? & ?) (? & ? & ?). split_and!; [congruence|congruence|lia]. Qed.

(** A read of no bytes ends the part; any other one delivers what comes next. *)
Lemma part_read_spec fuel n (r : multipart_reader S) :
  part_fits fuel r ->
  exists out r' rest, @st_read _ (part_Stream fuel) n r = (out, r') /\ part_fits fuel r' /\ beside_part r r' /\
    part_data r = out ++ rest /\ part_data r' = (if (n =? 0)%nat then [] else rest) /\ (length out <= n)%nat /\
    (out = [] <-> n = 0%nat \/ part_data r = []).
Proof.
  intros [Hok Hf]. unfold part_data. cbn [st_read part_Stream].
  destruct (mp_active r) eqn:Ha.
  2:{ exists [], r, []. unfold read_part_body. rewrite Ha. cbn. split_and!; try done; [by case_if|lia|tauto]. }
  destruct (read_part_body_spec fuel n r Hok Ha Hf)
    as (out & r1 & -> & Hok1 & Hfin & Ha1 & H1s & H2s & He & Hraw & Hl). cbn [default].
  exists out, r1, (part_split marker (mp_raw r1)).1. split; [done|].
  assert (length (mp_raw r1) <= length (mp_raw r))%nat by (rewrite Hraw, length_app; lia).
  split; [split; [done|lia]|]. rewrite Ha1. split_and!; try done.
  destruct out as [|x out]; cbn [bytes_eqb negb].
  - destruct (Nat.eqb_spec n 0); [done|]. destruct (proj1 He eq_refl) as [|E]; [done|]. by rewrite H1s in E.
  - cbn [length] in Hl. destruct (Nat.eqb_spec n 0); [lia|done].
Qed.

Lemma part_read_all_spec fuel k (r : multipart_reader S) acc :
  part_fits fuel r -> (length (part_data r) < k)%nat ->
  exists r', @read_all _ (part_Stream fuel) k r acc = Some (acc ++ part_data r, r') /\
    part_fits fuel r' /\ beside_part r r'.
Proof.
  revert r acc. induction k as [|k IH]; intros r acc Hfit Hk; [lia|]. cbn [read_all].
  destruct (part_read_spec fuel chunk_size r Hfit) as (out & r1 & rest & -> & Hfit1 & Hb & Hd & Hr & _ & He).
  pose proof chunk_size_pos. destruct (Nat.eqb_spec chunk_size 0); [lia|]. subst rest.
  destruct out as [|x out].
  - exists r1. destruct (proj1 He eq_refl) as [|E]; [lia|]. by rewrite E, app_nil_r.
  - rewrite Hd in Hk. rewrite length_app in Hk. cbn in Hk.
    destruct (IH r1 (acc ++ x :: out) Hfit1 ltac:(lia)) as (r' & -> & Hfit' & Hb'). exists r'.
    rewrite Hd, <-app_assoc. split_and!; [done|done|by eapply beside_part_trans].
Qed.

(** The same streams under the contract every stream keeps. *)
#[refine] Instance part_StreamReads (fuel : nat) : @StreamReads _ (part_Stream fuel) := {|
  st_data := part_data;
  st_ok := part_fits fuel;
|}.
Proof.
  intros n r out r' Hn Hfit Hr. destruct (part_read_spec fuel n r Hfit) as (o & r1 & rest & E & ? & _ & ? & Hrest & ? & He).
  rewrite E in Hr. injection Hr as <- <-. destruct (Nat.eqb_spec n 0); [lia|]. subst rest.
  split_and!; try done. clear -He n0. intuition lia.
Defined.

(** Reads of the given sizes: consecutive pieces of the body, none larger than
    asked for and none empty before the end; a read of no bytes ends the part,
    and the reads after it get nothing. *)
Fixpoint pieces_of (sizes : list nat) (body : bytes) (outs : list bytes) : Prop :=
  match sizes, outs with
  | [], [] => True
  | n :: ss, o :: os => exists rest, body = o ++ rest /\ (length o <= n)%nat /\ (o = [] <-> n = 0%nat \/ body = []) /\
      pieces_of ss (if (n =? 0)%nat then [] else rest) os
  | _, _ => False
  end.

Definition reads_plan (plan : part_plan) (body : bytes) (outs : list bytes) : Prop :=
  match plan with ReadAll => outs = [body] | ReadSome sizes => pieces_of sizes body outs end.

Lemma part_reads_spec fuel sizes (r : multipart_reader S) :
  part_fits fuel r ->
  exists outs r', part_reads fuel sizes r = (outs, r') /\ part_fits fuel r' /\ beside_part r r' /\
    pieces_of sizes (part_data r) outs.
Proof.
  revert r. induction sizes as [|n ss IH]; intros r Hfit; cbn [part_reads].
  { exists [], r. split_and!; [done|done|by split_and!|done]. }
  destruct (part_read_spec fuel n r Hfit) as (out & r1 & rest & -> & Hfit1 & Hb & Hd & Hr & Hl & He).
  destruct (IH r1 Hfit1) as (outs & r' & -> & Hfit' & Hb' & Hp). exists (out :: outs), r'.
  rewrite Hr in Hp. split_and!; [done|done|by eapply beside_part_trans|by exists rest].
Qed.

Lemma read_part_spec fuel plan (r : multipart_reader S) :
  part_fits fuel r ->
  exists outs r', read_part fuel plan r = Some (outs, r') /\ part_fits fuel r' /\ beside_part r r' /\
    reads_plan plan (part_data r) outs.
Proof.
  intros Hfit. destruct plan as [|sizes]; cbn [read_part].
  - destruct (part_read_all_spec fuel fuel r [] Hfit) as (r' & -> & ? & ?).
    { destruct Hfit as [_ Hl]. unfold part_data. destruct (mp_active r); [|cbn; lia].
      rewrite <-(part_split_app (mp_raw r)), length_app in Hl. lia. }
    by exists [part_data r], r'.
  - destruct (part_reads_spec fuel sizes r Hfit) as (outs & r' & -> & ? & ? & ?). by exists outs, r'.
Qed.

Lemma ensure_delimiter_spec fuel (d : feeder S) i :
  fd_ok d -> (fd_steps d < fuel)%nat -> find_sub marker (fd_raw d) = Some i ->
  exists d', ensure_delimiter_or_eof fuel marker d = Some (Some i, d') /\ fd_ok d' /\ fd_raw d' = fd_raw d /\
    (i + length marker <= length (fd_buffer d'))%nat.
Proof.
  revert d. induction fuel as [|f IH]; intros d Hok Hf Hi; [lia|]. cbn [ensure_delimiter_or_eof].
  destruct (find_sub marker (fd_buffer d)) as [pos|] eqn:E.
  - pose proof (find_sub_extend _ _ (st_data (fd_source d)) _ E) as E'. fold (fd_raw d) in E'.
    rewrite Hi in E'. injection E' as <-. exists d. split_and!; try done. by apply find_sub_length in E.
  - destruct (fd_eof d) eqn:Eof.
    + unfold fd_raw in Hi. rewrite (proj2 Hok Eof), app_nil_r in Hi. congruence.
    + destruct (fill_more_spec d Hok Eof) as (Hok' & Hraw & Hst & _). rewrite <-Hraw in Hi |- *.
      apply IH; [done|lia|done].
Qed.

(** ** Header blocks of a part *)

(** A header that survives the extra line end: its value ends in no CR. *)
Definition part_header_wf (h : http_header) : Prop := header_wf h /\ last (h_value h) <> Some CR.

Lemma header_parse_lf h :
  part_header_wf h ->
  exists n, header_try_parse ((h_name h ++ ":"%byte :: SP :: h_value h) ++ [LF]) = Parsed h n.
Proof.
  intros [Hwf Hcr]. pose proof (header_line_no_lf h Hwf) as Hlf.
  assert (last (h_name h ++ ":"%byte :: SP :: h_value h) <> Some CR) as Hl.
  { rewrite last_app_cons, last_cons_cons. destruct (h_value h) as [|x v] using rev_ind; [done|].
    clear IHv. rewrite app_comm_cons, last_snoc. by rewrite last_snoc in Hcr. }
  pose proof (header_parse_line h [] Hwf) as Hp. unfold header_try_parse in Hp |- *.
  rewrite header_line_split, cut_line_crlf in Hp by done. rewrite cut_line_lf by done.
  destruct (find_byte ":" _) as [[|j]|]; try done. injection Hp as Hh _. eexists. by rewrite Hh.
Qed.

Lemma read_part_headers_spec hs fuel k (d : feeder S) acc rest :
  Forall part_header_wf hs -> fd_ok d -> fd_raw d = headers_write hs ++ CRLF ++ rest ->
  (length (fd_raw d) + 2 <= fuel)%nat -> (length hs < k)%nat ->
  exists d', read_part_headers fuel k d acc = Some (Some (acc ++ hs), d') /\ fd_ok d' /\ fd_raw d' = rest.
Proof.
  intros Hwf. revert k d acc. induction Hwf as [|h hs Hh _ IH]; intros k d acc Hok Hraw Hf Hk.
  all: destruct k as [|k]; [lia|]; cbn [read_part_headers].
  all: pose proof (fd_steps_raw d); destruct (read_line_spec fuel d Hok ltac:(lia)) as (d1 & Hok1 & Hl).
  - cbn [headers_write app] in Hraw. rewrite Hraw in Hl.
    change (cut_line (CRLF ++ rest)) with (Some ([] : bytes, 2%nat)) in Hl. destruct Hl as [-> Hr1].
    exists d1. by rewrite app_nil_r.
  - cbn [headers_write] in Hraw. rewrite <-app_assoc in Hraw. pose proof Hh as [Hhw _].
    rewrite Hraw, header_line_split, cut_line_crlf in Hl by by apply header_line_no_lf.
    destruct Hl as [-> Hr1]. cbn [mbind option_bind].
    destruct (header_parse_lf h Hh) as [n Hp].
    destruct (h_name h ++ ":"%byte :: SP :: h_value h) as [|x l] eqn:El; [by destruct (h_name h)|]. rewrite <-El in *.
    rewrite Hp.
    replace (length (h_name h ++ ":"%byte :: SP :: h_value h) + 2)%nat
      with (length ((h_name h ++ ":"%byte :: SP :: h_value h) ++ CRLF)) in Hr1 by (by rewrite length_app).
    rewrite (app_assoc _ CRLF), drop_app_length in Hr1.
    destruct (IH k d1 (headers_add (h_name h) (h_value h) acc) Hok1 Hr1) as (d' & -> & ? & ?).
    { rewrite Hr1. rewrite Hraw, length_app in Hf. lia. }
    { cbn in Hk. lia. }
    exists d'. unfold headers_add. rewrite <-app_assoc. by destruct h.
Qed.

(** The text of a part after its marker. *)
Definition part_text (p : http_headers * bytes) : bytes := CRLF ++ headers_write p.1 ++ CRLF ++ p.2.

Lemma fd_raw_drop (d : feeder S) k :
  (k <= length (fd_buffer d))%nat -> fd_raw (fd_with_buffer d (drop k (fd_buffer d))) = drop k (fd_raw d).
Proof. intros Hk. rewrite fd_raw_with_buffer. unfold fd_raw. by rewrite drop_app_le. Qed.

(** The marker is found and consumed, and two more bytes are buffered. *)
Lemma next_delimiter fuel (r : multipart_reader S) rest :
  mp_ok r -> mp_finished r = false -> mp_next r = marker ++ rest ->
  (length (mp_raw r) + 3 <= fuel)%nat -> (2 <= length rest)%nat ->
  exists r1 d, mp_ok r1 /\ mp_finished r1 = false /\ fd_ok d /\ fd_raw d = rest /\ (2 <= length (fd_buffer d))%nat /\
    next_part fuel r =
      if bytes_eqb (take 2 rest) (str "--") then Some (None, mp_finish r1 d)
      else
        '(headers, d) ← read_part_headers fuel fuel (fd_with_buffer d (drop 2 (fd_buffer d))) [];
        match headers with
        | None => Some (None, mp_finish r1 d)
        | Some headers => Some (Some headers, mp_with r1 d true)
        end.
Proof.
  intros Hok Hfin Hrest Hf H2. unfold next_part. rewrite Hfin.
  destruct (drain_part_spec fuel fuel r Hok ltac:(lia) ltac:(lia)) as (r1 & -> & [Hok1 Hm1] & Hfin1 & Hnext & Hle).
  cbn [mbind option_bind]. rewrite Hm1.
  destruct (mp_next_found r1 rest ltac:(congruence)) as (i & Hi & Hdrop).
  unfold mp_raw in *. pose proof (fd_steps_raw (mp_feed r1)).
  destruct (ensure_delimiter_spec fuel (mp_feed r1) i Hok1 ltac:(lia) Hi) as (d & -> & Hokd & Hrawd & Hlb).
  cbn [mbind option_bind]. set (d1 := fd_with_buffer d _).
  assert (fd_raw d1 = rest) as Hr1.
  { unfold d1. by rewrite fd_raw_drop, Hrawd, <-drop_drop, Hdrop, drop_app_length by lia. }
  assert (fd_ok d1) as Hok1d by done.
  assert (fd_steps d1 <= length (fd_raw d) + 1)%nat as Hs1 by (pose proof (fd_steps_raw d); done).
  rewrite Hrawd in Hs1. destruct (fill_until_spec fuel 2 d1 Hok1d ltac:(lia)) as (d2 & -> & Hok2 & Hraw2 & Hc).
  cbn [mbind option_bind].
  assert (2 <= length (fd_buffer d2))%nat as Hl2.
  { destruct Hc as [|[Hc _]]; [done|]. rewrite <-Hc, Hraw2, Hr1. done. }
  exists r1, d2. rewrite Hraw2. split_and!; try done; [congruence|].
  destruct (Nat.ltb_spec (length (fd_buffer d2)) 2); [lia|]. cbn [orb].
  rewrite <-Hr1, <-Hraw2. unfold fd_raw. by rewrite take_app_le by lia.
Qed.

Lemma next_part_spec fuel (r : multipart_reader S) p rest :
  mp_ok r -> mp_finished r = false -> Forall part_header_wf p.1 ->
  mp_next r = marker ++ part_text p ++ rest -> (length (mp_raw r) + 3 <= fuel)%nat ->
  exists r', next_part fuel r = Some (Some p.1, r') /\ mp_ok r' /\ mp_finished r' = false /\
    mp_active r' = true /\ mp_raw r' = p.2 ++ rest /\ (length (mp_raw r') <= length (mp_raw r))%nat.
Proof.
  intros Hok Hfin Hwf Hrest Hf.
  assert (length (part_text p ++ rest) <= length (mp_raw r))%nat as Hlr.
  { pose proof (mp_next_length r) as Hn. rewrite Hrest, (length_app marker) in Hn. lia. }
  destruct (next_delimiter fuel r _ Hok Hfin Hrest Hf) as (r1 & d & Hok1 & Hfin1 & Hokd & Hrawd & Hl2 & ->).
  { unfold part_text, CRLF. cbn. lia. }
  change (bytes_eqb (take 2 (part_text p ++ rest)) (str "--")) with false. cbn iota.
  assert (fd_raw (fd_with_buffer d (drop 2 (fd_buffer d))) = headers_write p.1 ++ CRLF ++ p.2 ++ rest) as Hr2.
  { rewrite fd_raw_drop, Hrawd by done. unfold part_text. rewrite <-!app_assoc. done. }
  destruct (read_part_headers_spec p.1 fuel fuel _ [] _ Hwf (fd_with_buffer_ok _ _ Hokd) Hr2)
    as (d' & -> & Hokd' & Hraw').
  { rewrite fd_raw_drop, Hrawd, length_drop by done. lia. }
  { unfold part_text in Hlr. rewrite !length_app in Hlr.
    assert (length p.1 <= length (headers_write p.1))%nat; [|lia].
    clear. induction p.1 as [|h hs IH]; cbn; [done|]. rewrite length_app. unfold header_line.
    rewrite !length_app. change (length CRLF) with 2%nat. lia. }
  cbn [mbind option_bind]. eexists. split; [done|]. split; [split; [done|apply Hok1]|].
  split_and!; [done|done|done|]. change (length (fd_raw d') <= length (mp_raw r))%nat. rewrite Hraw'.
  unfold part_text in Hlr. rewrite !length_app in Hlr. rewrite length_app. lia.
Qed.

Lemma next_part_end fuel (r : multipart_reader S) epilogue :
  mp_ok r -> mp_finished r = false -> mp_next r = marker ++ str "--" ++ epilogue ->
  (length (mp_raw r) + 3 <= fuel)%nat ->
  exists r', next_part fuel r = Some (None, r') /\ mp_finished r' = true.
Proof.
  intros Hok Hfin Hrest Hf.
  destruct (next_delimiter fuel r _ Hok Hfin Hrest Hf) as (r1 & d & _ & _ & _ & _ & _ & ->).
  { rewrite length_app. change (length (str "--")) with 2%nat. lia. }
  change (bytes_eqb (take 2 (str "--" ++ epilogue)) (str "--")) with true. cbn iota.
  eexists. by split.
Qed.

(** The whole body after the synthetic CRLF. *)
Fixpoint parts_text (ps : list (http_headers * bytes)) (epilogue : bytes) : bytes :=
  match ps with
  | [] => marker ++ str "--" ++ epilogue
  | p :: r => marker ++ part_text p ++ parts_text r epilogue
  end.

(** A part the format can carry: no marker begins inside its body. *)
Definition part_wf (p : http_headers * bytes) : Prop :=
  Forall part_header_wf p.1 /\ find_sub marker (p.2 ++ marker) = Some (length p.2).

Lemma parts_text_marker ps epilogue : exists t, parts_text ps epilogue = marker ++ t.
Proof. destruct ps; cbn; eauto. Qed.

Lemma parts_length ps epilogue : (length ps < length (parts_text ps epilogue))%nat.
Proof.
  induction ps as [|p ps IH]; cbn [parts_text length]; rewrite !length_app.
  - change (length (str "--")) with 2%nat. lia.
  - unfold part_text. rewrite !length_app. change (length CRLF) with 2%nat. lia.
Qed.

(** What the client gets of one part. *)
Definition part_result (plan : http_headers -> part_plan) (p : http_headers * bytes) (got : http_headers * list bytes) : Prop :=
  got.1 = p.1 /\ reads_plan (plan p.1) p.2 got.2.

Lemma read_parts_by_spec plan ps epilogue fuel k (r : multipart_reader S) :
  Forall part_wf ps ->
  mp_ok r -> mp_finished r = false -> mp_next r = parts_text ps epilogue ->
  (length (mp_raw r) + 3 <= fuel)%nat -> (length ps < k)%nat ->
  exists got, read_parts_by plan fuel k r = Some got /\ Forall2 (part_result plan) ps got.
Proof.
  intros Hps. revert k r. induction Hps as [|p ps [Hh Hb] Hps IH]; intros k r Hok Hfin Hrest Hf Hk.
  all: destruct k as [|k]; [lia|]; cbn [read_parts_by parts_text] in *.
  - destruct (next_part_end fuel r epilogue Hok Hfin Hrest Hf) as (r' & -> & _). by exists [].
  - destruct (next_part_spec fuel r p _ Hok Hfin Hh Hrest Hf) as (r1 & -> & Hok1 & Hfin1 & Ha1 & Hraw1 & Hle).
    cbn [mbind option_bind].
    assert (part_split marker (mp_raw r1) = (p.2, parts_text ps epilogue)) as Hsp.
    { rewrite Hraw1. destruct (parts_text_marker ps epilogue) as [t ->]. unfold part_split.
      rewrite app_assoc, (find_sub_extend _ _ t _ Hb), <-app_assoc.
      by rewrite take_app_length, drop_app_length. }
    destruct (read_part_spec fuel (plan p.1) r1) as (outs & r2 & -> & [Hok2 _] & (Hfin2 & Hrest2 & Hle2) & Hpl).
    { by split; [|lia]. }
    unfold part_data, mp_next in *. rewrite Ha1, Hsp in *. cbn [fst snd] in *.
    cbn [length] in Hk. destruct (IH k r2 Hok2 ltac:(congruence) Hrest2 ltac:(lia) ltac:(lia)) as (got & E & Hg).
    cbn [mbind option_bind]. rewrite E. cbn [mbind option_bind]. exists ((p.1, outs) :: got). split; [done|].
    by constructor.
Qed.

Lemma read_parts_spec ps epilogue fuel k (r : multipart_reader S) :
  Forall part_wf ps ->
  mp_ok r -> mp_finished r = false -> mp_next r = parts_text ps epilogue ->
  (length (mp_raw r) + 3 <= fuel)%nat -> (length ps < k)%nat ->
  read_parts fuel k r = Some ps.
Proof.
  intros Hps Hok Hfin Hrest Hf Hk. unfold read_parts.
  destruct (read_parts_by_spec (fun _ => ReadAll) ps epilogue fuel k r) as (got & -> & Hg); try done.
  cbn [fmap option_fmap option_map]. f_equal. clear -Hg.
  induction Hg as [|[h b] [h' outs] ps got [E1 E2] _ IH]; [done|]. cbn in E1, E2 |- *. rewrite IH, E1, E2. cbn. by rewrite app_nil_r.
Qed.
End Reader.

Definition multipart_marker (boundary : bytes) : bytes := CRLF ++ str "--" ++ boundary.

(** The body a client sends: the same text without the synthetic CRLF. *)
Definition multipart_text (boundary : bytes) (ps : list (http_headers * bytes)) (epilogue : bytes) : bytes :=
  drop 2 (parts_text (multipart_marker boundary) ps epilogue).

(** A fresh reader over such a body is before the first part. *)
Lemma multipart_start {S} `{StreamReads S} (source : S) boundary ps epilogue fuel :
  st_ok source -> st_data source = multipart_text boundary ps epilogue -> (length (st_data source) + 5 <= fuel)%nat ->
  let r := multipart_new source boundary in
  let m := multipart_marker boundary in
  mp_ok m r /\ mp_finished r = false /\ mp_next m r = parts_text m ps epilogue /\
  (length (mp_raw r) + 3 <= fuel)%nat /\ (length ps < fuel)%nat.
Proof.
  intros Hok Hd Hf. cbv zeta. set (m := multipart_marker boundary).
  assert (parts_text m ps epilogue = CRLF ++ st_data source) as Ht.
  { rewrite Hd. unfold multipart_text. fold m. destruct (parts_text_marker m ps epilogue) as [t ->]. done. }
  pose proof (parts_length m ps epilogue) as Hl. rewrite Ht in Hl |- *. cbn [length app CRLF] in Hl.
  assert (mp_raw (multipart_new source boundary) = CRLF ++ st_data source) as Hraw by done.
  split_and!; try done; [|rewrite Hraw; cbn; lia|lia].
  unfold mp_next, part_split. rewrite Hraw, <-Ht. destruct (parts_text_marker m ps epilogue) as [t ->].
  by rewrite find_sub_here.
Qed.

(** C15: A client that reads a multipart body of well-formed parts (no delimiter inside a body)
    one by one, deciding by a part's headers whether to read its stream to the end, by reads
    of any sizes, in part, or not at all, gets every part's headers exactly and of each body
    exactly what its reads ask for: the whole body, or consecutive pieces none larger than
    asked for and none empty before the end; a read of zero bytes ends the part, and the reads
    after it get nothing; for every segmentation of the source, and up to the closing
    boundary. *)
Theorem multipart_client_reads {S} `{StreamReads S} (plan : http_headers -> part_plan) (source : S) boundary ps epilogue fuel :
  st_ok source -> Forall (part_wf (multipart_marker boundary)) ps ->
  st_data source = multipart_text boundary ps epilogue ->
  (length (st_data source) + 5 <= fuel)%nat ->
  exists got, read_parts_by plan fuel fuel (multipart_new source boundary) = Some got /\ Forall2 (part_result plan) ps got.
Proof.
  intros Hok Hps Hd Hf. destruct (multipart_start source boundary ps epilogue fuel Hok Hd Hf) as (? & ? & ? & ? & ?).
  by apply (read_parts_by_spec (multipart_marker boundary) ltac:(done) plan ps epilogue).
Qed.

Definition demo_parts : list (http_headers * bytes) :=
  [([mk_header (str "Content-Disposition") (str "form-data; name=a")], str "1"); ([], CRLF ++ str "--b")].

Lemma demo_parts_wf : Forall (part_wf (multipart_marker (str "bnd"))) demo_parts.
Proof.
  assert (forall h, header_wf h -> last (h_value h) <> Some CR -> part_header_wf h) as Hw by done.
  repeat (apply Forall_cons; split); [split; [|reflexivity]..|constructor]; [|constructor].
  apply Forall_singleton, Hw; [by apply (bool_decide_unpack _)|done].
Qed.

(** The first part is read to its end; of the second, one read of at most two bytes, a read of
    none, which ends it, and one more. *)
Lemma multipart_client_reads_witness :
  let plan hs := match part_name hs with Some _ => ReadAll | None => ReadSome [2; 0; 1]%nat end in
  exists got, read_parts_by plan (Z.to_nat 200) (Z.to_nat 200)
    (multipart_new (mk_wire [multipart_text (str "bnd") demo_parts (str "end")] [] []) (str "bnd")) = Some got /\
    Forall2 (part_result plan) demo_parts got.
Proof.
  intros plan. apply (multipart_client_reads plan _ (str "bnd") demo_parts (str "end")).
  - exact I.
  - apply demo_parts_wf.
  - cbn. by rewrite app_nil_r.
  - apply Nat.leb_le. reflexivity.
Defined.

(** Reading a multipart body part by part recovers every part's headers and body bytes exactly,
    for every segmentation of the source, and stops at the closing boundary. *)
Lemma multipart_roundtrip {S} `{StreamReads S} (source : S) boundary ps epilogue fuel :
  st_ok source -> Forall (part_wf (multipart_marker boundary)) ps ->
  st_data source = multipart_text boundary ps epilogue ->
  (length (st_data source) + 5 <= fuel)%nat ->
  read_parts fuel fuel (multipart_new source boundary) = Some ps.
Proof.
  intros Hok Hps Hd Hf. destruct (multipart_start source boundary ps epilogue fuel Hok Hd Hf) as (? & ? & ? & ? & ?).
  by apply (read_parts_spec (multipart_marker boundary) ltac:(done) ps epilogue).
Qed.

(** A stream of a part that is not current any more reads from the part that is. *)
Example old_part_stream_reads_next :
  let fuel := Z.to_nat 200 in
  ('(_, r1) ← next_part fuel (multipart_new (mk_wire [multipart_text (str "bnd") demo_parts (str "end")] [] []) (str "bnd"));
   '(_, r2) ← next_part fuel r1;
   Some (@st_read _ (part_Stream fuel) 4 r1).1 ≫= fun first => Some (first, (@st_read _ (part_Stream fuel) 4 r2).1)) =
  Some (str "1", CRLF ++ str "--").
Proof. vm_compute. reflexivity. Qed.

(** A read of no bytes ends the part: what it had left is skipped. *)
Example empty_read_ends_part :
  read_parts_by (fun _ => ReadSome [0; 1]%nat) (Z.to_nat 200) (Z.to_nat 200)
    (multipart_new (mk_wire [multipart_text (str "bnd") demo_parts (str "end")] [] []) (str "bnd")) =
  Some [([mk_header (str "Content-Disposition") (str "form-data; name=a")], [[]; []]); ([], [[]; []])].
Proof. vm_compute. reflexivity. Qed.
