(* ===== verification/ConnectionH2.v ===== *)
(** * ConnectionH2: src/server/connection_h2.cpp and connection_h2.hpp

    One HTTP/2 connection.  The frame-dispatch loop and one detached coroutine
    per stream run on one event loop and interleave at every [co_await] that
    may suspend: a wire read, a wire write, the writer lock, the handler, the
    read of a body, a closed flow-control window.  A coroutine is a [task]: the
    point at which it is suspended with its local variables.  [step t] runs
    task [t] from one such point to the next; [reach] closes it over every
    schedule, with the frames whose write was completed as its trace.

    A [std::shared_ptr<h2_stream>] is an index into a heap of streams, so that
    a coroutine keeps its stream after the table [streams_] has lost it.  A
    [coroutine_handle] kept in a wait slot is the task's number.  Task 0 is
    the coroutine of [run]. *)

From S2P Require Import Prelude Bytes Stream Feeder Method Header Resource QueryString UrlEncode Server.
From S2P Require Import Frame Hpack.

#[local] Open Scope Z_scope.

(** ** Streams *)

Record h2_stream := mk_h2_stream {
  hs_id : Z;
  hs_resource : http_resource;
  hs_headers : http_headers;
  hs_hostname : bytes;
  hs_header_block : bytes;
  hs_body_buffer : bytes;
  hs_end_headers : bool;
  hs_end_stream : bool;
  hs_malformed : bool;
  hs_send_window : Z;
  hs_window_waiter : option nat;
}.

Definition h2_stream_new (id send_window : Z) (block : bytes) (end_stream : bool) : h2_stream :=
  mk_h2_stream id http_resource_default [] [] block [] false end_stream false send_window None.

Definition hs_with_resource (r : http_resource) (st : h2_stream) : h2_stream :=
  mk_h2_stream (hs_id st) r (hs_headers st) (hs_hostname st) (hs_header_block st) (hs_body_buffer st)
    (hs_end_headers st) (hs_end_stream st) (hs_malformed st) (hs_send_window st) (hs_window_waiter st).
Definition hs_with_headers (h : http_headers) (st : h2_stream) : h2_stream :=
  mk_h2_stream (hs_id st) (hs_resource st) h (hs_hostname st) (hs_header_block st) (hs_body_buffer st)
    (hs_end_headers st) (hs_end_stream st) (hs_malformed st) (hs_send_window st) (hs_window_waiter st).
Definition hs_with_hostname (h : bytes) (st : h2_stream) : h2_stream :=
  mk_h2_stream (hs_id st) (hs_resource st) (hs_headers st) h (hs_header_block st) (hs_body_buffer st)
    (hs_end_headers st) (hs_end_stream st) (hs_malformed st) (hs_send_window st) (hs_window_waiter st).
Definition hs_append_block (b : bytes) (st : h2_stream) : h2_stream :=
  mk_h2_stream (hs_id st) (hs_resource st) (hs_headers st) (hs_hostname st) (hs_header_block st ++ b)
    (hs_body_buffer st) (hs_end_headers st) (hs_end_stream st) (hs_malformed st) (hs_send_window st)
    (hs_window_waiter st).
Definition hs_append_body (b : bytes) (st : h2_stream) : h2_stream :=
  mk_h2_stream (hs_id st) (hs_resource st) (hs_headers st) (hs_hostname st) (hs_header_block st)
    (hs_body_buffer st ++ b) (hs_end_headers st) (hs_end_stream st) (hs_malformed st) (hs_send_window st)
    (hs_window_waiter st).
Definition hs_set_end_headers (st : h2_stream) : h2_stream :=
  mk_h2_stream (hs_id st) (hs_resource st) (hs_headers st) (hs_hostname st) (hs_header_block st)
    (hs_body_buffer st) true (hs_end_stream st) (hs_malformed st) (hs_send_window st) (hs_window_waiter st).
Definition hs_set_end_stream (st : h2_stream) : h2_stream :=
  mk_h2_stream (hs_id st) (hs_resource st) (hs_headers st) (hs_hostname st) (hs_header_block st)
    (hs_body_buffer st) (hs_end_headers st) true (hs_malformed st) (hs_send_window st) (hs_window_waiter st).
Definition hs_set_malformed (st : h2_stream) : h2_stream :=
  mk_h2_stream (hs_id st) (hs_resource st) (hs_headers st) (hs_hostname st) (hs_header_block st)
    (hs_body_buffer st) (hs_end_headers st) (hs_end_stream st) true (hs_send_window st) (hs_window_waiter st).
Definition hs_with_window (w : Z) (st : h2_stream) : h2_stream :=
  mk_h2_stream (hs_id st) (hs_resource st) (hs_headers st) (hs_hostname st) (hs_header_block st)
    (hs_body_buffer st) (hs_end_headers st) (hs_end_stream st) (hs_malformed st) w (hs_window_waiter st).
Definition hs_with_waiter (w : option nat) (st : h2_stream) : h2_stream :=
  mk_h2_stream (hs_id st) (hs_resource st) (hs_headers st) (hs_hostname st) (hs_header_block st)
    (hs_body_buffer st) (hs_end_headers st) (hs_end_stream st) (hs_malformed st) (hs_send_window st) w.

(** ** Frames to send *)

Record out_frame := mk_out {
  of_type : frame_type;
  of_flags : Z;
  of_stream : Z;
  of_payload : bytes;
}.

(** The bytes [send_frame] writes. *)
Definition out_bytes (f : out_frame) : bytes :=
  frame_header_write (mk_frame_header (uwrap 32 (Z.of_nat (length (of_payload f)))) (of_type f)
    (of_flags f) (of_stream f)) ++ of_payload f.

#[global] Arguments out_bytes : simpl never.

Definition settings_frame : out_frame := mk_out ft_settings 0 0 [].
Definition settings_ack_frame : out_frame := mk_out ft_settings flag_ack 0 [].
Definition ping_ack_frame (payload : bytes) : out_frame := mk_out ft_ping flag_ack 0 payload.
Definition goaway_frame (highest error : Z) : out_frame :=
  mk_out ft_goaway 0 0 (write_goaway_payload highest error []).
Definition window_update_frame (id increment : Z) : out_frame :=
  mk_out ft_window_update 0 id (write_window_update_payload increment).
Definition data_frame (id : Z) (payload : bytes) : out_frame := mk_out ft_data 0 id payload.
Definition end_frame (id : Z) : out_frame := mk_out ft_data flag_end_stream id [].

(** ** Response headers *)

Definition h2_forbidden : list bytes :=
  [str "Connection"; str "Keep-Alive"; str "Proxy-Connection"; str "Transfer-Encoding"; str "Upgrade"].

Definition is_h2_forbidden_header (name : bytes) : bool :=
  existsb (fun f => header_name_equals name f) h2_forbidden.

Definition response_fields {W} (resp : response W) : header_list :=
  mk_field (str ":status") (to_string (resp_status resp)) ::
  map (fun h => mk_field (to_lower (h_name h)) (h_value h))
    (base.filter (fun h => is_h2_forbidden_header (h_name h) = false) (resp_headers resp)).

(** ** Request headers *)

(** One field of a decoded header block. *)
Definition apply_field (st : h2_stream) (f : header_field) : h2_stream :=
  let r := hs_resource st in
  if bytes_eqb (hf_name f) (str ":method") then
    hs_with_resource (mk_resource (http_method_of (hf_value f)) (hr_path r) (hr_raw_path r) (hr_query r)
                        (hr_major r) (hr_minor r)) st
  else if bytes_eqb (hf_name f) (str ":authority") then hs_with_hostname (hf_value f) st
  else if bytes_eqb (hf_name f) (str ":path") then
    let '(raw_path, query) := split_target (hf_value f) in
    hs_with_resource (mk_resource (hr_method r) (url_decode raw_path) raw_path query (hr_major r) (hr_minor r)) st
  else if bytes_eqb (hf_name f) (str ":scheme") then st
  else if bool_decide (head (hf_name f) = Some ":"%byte) then st
  else hs_with_headers (headers_add (hf_name f) (hf_value f) (hs_headers st)) st.

Definition set_version_2 (st : h2_stream) : h2_stream :=
  let r := hs_resource st in
  hs_with_resource (mk_resource (hr_method r) (hr_path r) (hr_raw_path r) (hr_query r) 2 0) st.

(** [finish_header_block].  Every field takes at least one byte, so the
    block's length is enough fuel for the decoder. *)
Definition finish_header_block (d : hpack_decoder) (st : h2_stream) : hpack_decoder * h2_stream :=
  match hpack_decode (length (hs_header_block st)) (hs_header_block st) d [] with
  | Some (true, d', fields) => (d', set_version_2 (fold_left apply_field fields st))
  | Some (false, d', _) => (d', hs_set_malformed st)
  | None => (d, hs_set_malformed st)
  end.

(** ** Coroutines *)

(** What a coroutine does after [co_await send_frame(...)]. *)
Inductive cont :=
| KLoop                                    (** [run]: the next frame *)
| KStop                                    (** [run]: after GOAWAY *)
| KData2 (fh : frame_header) (obj : nat)   (** [handle_data]: the connection's WINDOW_UPDATE *)
| KDataEnd (fh : frame_header) (obj : nat) (** [handle_data]: the END_STREAM test *)
| KBody (obj : nat) (body : any_stream) (remaining : Z)
| KSent (obj : nat) (allowed : Z) (rest : bytes) (body : any_stream) (remaining : Z)
| KFinish (obj : nat).                     (** [dispatch_stream]: the response is written *)

(** [TChunk]'s [rest] is the part of [buf] not sent yet and its [remaining]
    already counts [buf] as read. *)
Inductive task :=
| TPreface
| THeader
| TPayload (fh : frame_header)
| TStart (obj : nat)
| THandle (obj : nat) (req : request memory_stream)
| TBody (obj : nat) (body : any_stream) (remaining : Z)
| TChunk (obj : nat) (rest : bytes) (body : any_stream) (remaining : Z)
| TWindowWait (obj : nat) (rest : bytes) (body : any_stream) (remaining : Z)
| TLock (f : out_frame) (k : cont)
| TLockWait (f : out_frame) (k : cont)
| TWrite (f : out_frame) (rest : bytes) (k : cont)
| TResume (k : cont)
| TDone (obj : option nat).

Section H2.
Context {W : Type} `{Stream W}.

Record conn_h2 := mk_h2 {
  h2_feed : feeder W;                (** [wire_], [read_buffer_] *)
  h2_hpack : hpack_decoder;
  h2_locked : bool;                  (** [write_lock_] *)
  h2_waiters : list nat;
  h2_heap : list h2_stream;
  h2_streams : gmap Z nat;
  h2_highest_stream_id : Z;
  h2_last_header_stream_id : Z;
  h2_expecting_continuation : bool;
  h2_send_window : Z;                (** [connection_send_window_] *)
  h2_peer_initial_window_size : Z;
  h2_peer_max_frame_size : Z;
  h2_tasks : list task;
}.

Definition max_request_body_size : Z := 16 * 1024 * 1024.

Definition connection_h2_new (wire : W) (preface_leftover : bytes) : conn_h2 :=
  mk_h2 (mk_feeder wire preface_leftover false) (hpack_decoder_new 4096) false [] [] ∅ 0 0 false
    65535 65535 16384 [TPreface].

Definition with_feed (d : feeder W) (s : conn_h2) : conn_h2 :=
  mk_h2 d (h2_hpack s) (h2_locked s) (h2_waiters s) (h2_heap s) (h2_streams s) (h2_highest_stream_id s)
    (h2_last_header_stream_id s) (h2_expecting_continuation s) (h2_send_window s)
    (h2_peer_initial_window_size s) (h2_peer_max_frame_size s) (h2_tasks s).
Definition with_lock (locked : bool) (waiters : list nat) (s : conn_h2) : conn_h2 :=
  mk_h2 (h2_feed s) (h2_hpack s) locked waiters (h2_heap s) (h2_streams s) (h2_highest_stream_id s)
    (h2_last_header_stream_id s) (h2_expecting_continuation s) (h2_send_window s)
    (h2_peer_initial_window_size s) (h2_peer_max_frame_size s) (h2_tasks s).
Definition with_heap (heap : list h2_stream) (s : conn_h2) : conn_h2 :=
  mk_h2 (h2_feed s) (h2_hpack s) (h2_locked s) (h2_waiters s) heap (h2_streams s) (h2_highest_stream_id s)
    (h2_last_header_stream_id s) (h2_expecting_continuation s) (h2_send_window s)
    (h2_peer_initial_window_size s) (h2_peer_max_frame_size s) (h2_tasks s).
Definition with_streams (streams : gmap Z nat) (s : conn_h2) : conn_h2 :=
  mk_h2 (h2_feed s) (h2_hpack s) (h2_locked s) (h2_waiters s) (h2_heap s) streams (h2_highest_stream_id s)
    (h2_last_header_stream_id s) (h2_expecting_continuation s) (h2_send_window s)
    (h2_peer_initial_window_size s) (h2_peer_max_frame_size s) (h2_tasks s).
Definition with_expecting (expecting : bool) (last_id : Z) (s : conn_h2) : conn_h2 :=
  mk_h2 (h2_feed s) (h2_hpack s) (h2_locked s) (h2_waiters s) (h2_heap s) (h2_streams s)
    (h2_highest_stream_id s) last_id expecting (h2_send_window s)
    (h2_peer_initial_window_size s) (h2_peer_max_frame_size s) (h2_tasks s).
Definition with_highest (id : Z) (s : conn_h2) : conn_h2 :=
  mk_h2 (h2_feed s) (h2_hpack s) (h2_locked s) (h2_waiters s) (h2_heap s) (h2_streams s) id
    (h2_last_header_stream_id s) (h2_expecting_continuation s) (h2_send_window s)
    (h2_peer_initial_window_size s) (h2_peer_max_frame_size s) (h2_tasks s).
Definition with_hpack (d : hpack_decoder) (s : conn_h2) : conn_h2 :=
  mk_h2 (h2_feed s) d (h2_locked s) (h2_waiters s) (h2_heap s) (h2_streams s) (h2_highest_stream_id s)
    (h2_last_header_stream_id s) (h2_expecting_continuation s) (h2_send_window s)
    (h2_peer_initial_window_size s) (h2_peer_max_frame_size s) (h2_tasks s).
Definition with_send_window (w : Z) (s : conn_h2) : conn_h2 :=
  mk_h2 (h2_feed s) (h2_hpack s) (h2_locked s) (h2_waiters s) (h2_heap s) (h2_streams s)
    (h2_highest_stream_id s) (h2_last_header_stream_id s) (h2_expecting_continuation s) w
    (h2_peer_initial_window_size s) (h2_peer_max_frame_size s) (h2_tasks s).
Definition with_peer (initial_window max_frame : Z) (s : conn_h2) : conn_h2 :=
  mk_h2 (h2_feed s) (h2_hpack s) (h2_locked s) (h2_waiters s) (h2_heap s) (h2_streams s)
    (h2_highest_stream_id s) (h2_last_header_stream_id s) (h2_expecting_continuation s) (h2_send_window s)
    initial_window max_frame (h2_tasks s).
Definition with_tasks (tasks : list task) (s : conn_h2) : conn_h2 :=
  mk_h2 (h2_feed s) (h2_hpack s) (h2_locked s) (h2_waiters s) (h2_heap s) (h2_streams s)
    (h2_highest_stream_id s) (h2_last_header_stream_id s) (h2_expecting_continuation s) (h2_send_window s)
    (h2_peer_initial_window_size s) (h2_peer_max_frame_size s) tasks.

Definition set_task (t : nat) (k : task) (s : conn_h2) : conn_h2 := with_tasks (<[t := k]> (h2_tasks s)) s.

(** The stream a pointer refers to, and an assignment through it. *)
Definition stream_at (s : conn_h2) (obj : nat) : h2_stream :=
  default (h2_stream_new 0 0 [] false) (h2_heap s !! obj).
Definition update_stream (obj : nat) (g : h2_stream -> h2_stream) (s : conn_h2) : conn_h2 :=
  with_heap (alter g obj (h2_heap s)) s.

(** [dispatch_stream(stream)]: a detached coroutine starts. *)
Definition dispatch_stream (obj : nat) (s : conn_h2) : conn_h2 :=
  with_tasks (h2_tasks s ++ [TStart obj]) s.

(** [streams_.erase(id)]. *)
Definition erase_stream (id : Z) (s : conn_h2) : conn_h2 := with_streams (delete id (h2_streams s)) s.

(** ** Frame handlers of [run]

    [None] is [return false]; every guard of a handler precedes its effects.
    Otherwise the state and what [run] does next. *)

Definition has_flag (fh : frame_header) (flag : Z) : bool := negb (Z.land (fh_flags fh) flag =? 0).

Definition apply_setting (s : conn_h2) (p : settings_param) : conn_h2 :=
  if sp_id p =? settings_initial_window_size then with_peer (sp_value p) (h2_peer_max_frame_size s) s
  else if sp_id p =? settings_max_frame_size then
    with_peer (h2_peer_initial_window_size s)
      (if sp_value p =? 0 then h2_peer_max_frame_size s else sp_value p) s
  else s.

Definition handle_settings (fh : frame_header) (payload : bytes) (s : conn_h2) : option (conn_h2 * task) :=
  if negb (fh_stream_id fh =? 0) then None
  else if has_flag fh flag_ack then Some (s, THeader)
  else
    parsed ← parse_settings_payload payload;
    Some (fold_left apply_setting parsed s, TLock settings_ack_frame KLoop).

Definition handle_ping (fh : frame_header) (payload : bytes) (s : conn_h2) : option (conn_h2 * task) :=
  if negb (fh_stream_id fh =? 0) || negb (length payload =? 8)%nat then None
  else if has_flag fh flag_ack then Some (s, THeader)
  else Some (s, TLock (ping_ack_frame payload) KLoop).

(** The end of a header block, in [handle_headers] and [handle_continuation]. *)
Definition complete_headers (obj : nat) (s : conn_h2) : conn_h2 :=
  let '(d, st) := finish_header_block (h2_hpack s) (stream_at s obj) in
  let s1 := update_stream obj (fun _ => hs_set_end_headers st) (with_hpack d s) in
  if hs_end_stream st || hs_malformed st then dispatch_stream obj s1 else s1.

Definition handle_headers (fh : frame_header) (payload : bytes) (s : conn_h2) : option (conn_h2 * task) :=
  if (fh_stream_id fh =? 0) || h2_expecting_continuation s then None
  else
    '(len0, off0) ← strip_padding payload (has_flag fh flag_padded);
    '(content_len, content_offset) ←
      (if has_flag fh flag_priority then
         if (len0 <? 5)%nat then None else Some ((len0 - 5)%nat, (off0 + 5)%nat)
       else Some (len0, off0));
    let block := take content_len (drop content_offset payload) in
    let obj := length (h2_heap s) in
    let s1 := with_heap (h2_heap s ++ [h2_stream_new (fh_stream_id fh) (h2_peer_initial_window_size s) block
                                         (has_flag fh flag_end_stream)]) s in
    let s2 := with_highest (Z.max (h2_highest_stream_id s) (fh_stream_id fh))
                (with_streams (<[fh_stream_id fh := obj]> (h2_streams s1)) s1) in
    Some (if has_flag fh flag_end_headers then complete_headers obj s2
          else with_expecting true (fh_stream_id fh) s2, THeader).

Definition handle_continuation (fh : frame_header) (payload : bytes) (s : conn_h2)
  : option (conn_h2 * task) :=
  if negb (h2_expecting_continuation s) || negb (fh_stream_id fh =? h2_last_header_stream_id s) then None
  else
    obj ← h2_streams s !! fh_stream_id fh;
    let s1 := update_stream obj (hs_append_block payload) s in
    Some (if has_flag fh flag_end_headers
          then complete_headers obj (with_expecting false (h2_last_header_stream_id s1) s1)
          else s1, THeader).

(** The tail of [handle_data]. *)
Definition data_end (fh : frame_header) (obj : nat) (s : conn_h2) : conn_h2 :=
  if has_flag fh flag_end_stream then
    let s1 := update_stream obj hs_set_end_stream s in
    if hs_end_headers (stream_at s1 obj) then dispatch_stream obj s1 else s1
  else s.

Definition handle_data (fh : frame_header) (payload : bytes) (s : conn_h2) : option (conn_h2 * task) :=
  match h2_streams s !! fh_stream_id fh with
  | None => Some (s, THeader)
  | Some obj =>
      '(content_len, content_offset) ← strip_padding payload (has_flag fh flag_padded);
      if max_request_body_size <?
           Z.of_nat (length (hs_body_buffer (stream_at s obj))) + Z.of_nat content_len then None
      else
        let s1 := update_stream obj (hs_append_body (take content_len (drop content_offset payload))) s in
        if 0 <? fh_length fh
        then Some (s1, TLock (window_update_frame (fh_stream_id fh) (fh_length fh)) (KData2 fh obj))
        else Some (data_end fh obj s1, THeader)
  end.

(** [handle.resume()] of a coroutine waiting for a window. *)
Definition wake (s : conn_h2) (t : nat) : conn_h2 :=
  match h2_tasks s !! t with
  | Some (TWindowWait obj rest body remaining) => set_task t (TChunk obj rest body remaining) s
  | _ => s
  end.

(** The loop over [streams_]: who is resumed, and the slots cleared. *)
Definition wakeable (s : conn_h2) (obj : nat) : option nat :=
  if 0 <? hs_send_window (stream_at s obj) then hs_window_waiter (stream_at s obj) else None.

Definition clear_waiter (s : conn_h2) (obj : nat) : conn_h2 := update_stream obj (hs_with_waiter None) s.

Definition wake_all (s : conn_h2) : conn_h2 :=
  let objs := base.filter (fun obj => is_Some (wakeable s obj)) (map snd (map_to_list (h2_streams s))) in
  fold_left wake (omap (wakeable s) objs) (fold_left clear_waiter objs s).

Definition handle_window_update (fh : frame_header) (payload : bytes) (s : conn_h2)
  : option (conn_h2 * task) :=
  increment ← parse_window_update_payload payload;
  if increment =? 0 then None
  else if fh_stream_id fh =? 0 then Some (wake_all (with_send_window (h2_send_window s + increment) s), THeader)
  else
    match h2_streams s !! fh_stream_id fh with
    | None => Some (s, THeader)
    | Some obj =>
        let s1 := update_stream obj (fun st => hs_with_window (hs_send_window st + increment) st) s in
        match hs_window_waiter (stream_at s1 obj) with
        | None => Some (s1, THeader)
        | Some t => Some (wake (clear_waiter s1 obj) t, THeader)
        end
    end.

(** The [switch] of [run]. *)
Definition on_frame (t : nat) (fh : frame_header) (payload : bytes) (s : conn_h2) : conn_h2 :=
  let finish o :=
    match o with
    | Some (s', k) => set_task t k s'
    | None => set_task t (TLock (goaway_frame (h2_highest_stream_id s) err_protocol_error) KStop) s
    end in
  match fh_type fh with
  | ft_settings => finish (handle_settings fh payload s)
  | ft_headers => finish (handle_headers fh payload s)
  | ft_continuation => finish (handle_continuation fh payload s)
  | ft_data => finish (handle_data fh payload s)
  | ft_window_update => finish (handle_window_update fh payload s)
  | ft_rst_stream => set_task t THeader (erase_stream (fh_stream_id fh) s)
  | ft_ping => finish (handle_ping fh payload s)
  | ft_goaway => set_task t (TDone None) s
  | _ => set_task t THeader s
  end.

(** ** Responses *)

Context (handler : option (request memory_stream -> option (response W * request memory_stream))).

(** [write_response] up to the HEADERS frame. *)
Definition write_response (obj : nat) (resp0 : response W) (s : conn_h2) : task :=
  let resp := match resp_upgrade_handler resp0 with Some _ => make_response 501 | None => resp0 end in
  let id := hs_id (stream_at s obj) in
  let block := hpack_encode (response_fields resp) in
  match resp_body resp with
  | Some body =>
      if resp_content_length resp =? 0
      then TLock (mk_out ft_headers (Z.lor flag_end_headers flag_end_stream) id block) (KFinish obj)
      else TLock (mk_out ft_headers flag_end_headers id block) (KBody obj body (resp_content_length resp))
  | None => TLock (mk_out ft_headers (Z.lor flag_end_headers flag_end_stream) id block) (KFinish obj)
  end.

(** The request a stream's handler gets. *)
Definition h2_request (st : h2_stream) : request memory_stream :=
  mk_request (hs_resource st) (hs_headers st) (memory_stream_new (hs_body_buffer st)) (hs_hostname st)
    tags_empty.

(** [dispatch_stream] up to the handler; the stream's headers are moved out. *)
Definition start_stream (t obj : nat) (s : conn_h2) : conn_h2 :=
  let st := stream_at s obj in
  if hs_malformed st then set_task t (write_response obj (make_response 400) s) s
  else
    set_task t (THandle obj (h2_request st)) (update_stream obj (hs_with_headers []) s).

(** The end of [dispatch_stream], also after an exception. *)
Definition finish_stream (t obj : nat) (s : conn_h2) : conn_h2 :=
  set_task t (TDone (Some obj)) (erase_stream (hs_id (stream_at s obj)) s).

Definition run_handler (t obj : nat) (req : request memory_stream) (s : conn_h2) : conn_h2 :=
  match handler with
  | None => set_task t (write_response obj (make_response 501) s) s
  | Some h =>
      match h req with
      | Some (resp, _) => set_task t (write_response obj resp s) s
      | None => finish_stream t obj s
      end
  end.

(** [char buf[16384]] of [write_data_frames]. *)
Definition data_chunk : Z := 16384.

Definition end_body (t obj : nat) (s : conn_h2) : conn_h2 :=
  set_task t (TLock (end_frame (hs_id (stream_at s obj))) (KFinish obj)) s.

(** The outer loop: one read of the body. *)
Definition read_body (t obj : nat) (body : any_stream) (remaining : Z) (s : conn_h2) : conn_h2 :=
  if remaining =? 0 then end_body t obj s
  else
    let want := if 0 <=? remaining then Z.min remaining data_chunk else data_chunk in
    let '(buf, body') := st_read (Z.to_nat want) body in
    match buf with
    | [] => end_body t obj s
    | _ => set_task t (TChunk obj buf body'
             (if 0 <=? remaining then remaining - Z.of_nat (length buf) else remaining)) s
    end.

(** What may be sent now of [rest]. *)
Definition allowed_now (s : conn_h2) (obj : nat) (rest : bytes) : Z :=
  Z.min (Z.min (hs_send_window (stream_at s obj)) (h2_send_window s))
        (Z.min (h2_peer_max_frame_size s) (Z.of_nat (length rest))).

Definition window_open (s : conn_h2) (obj : nat) : bool :=
  (0 <? hs_send_window (stream_at s obj)) && (0 <? h2_send_window s).

(** The inner loop: wait for both windows, then send what they allow. *)
Definition send_chunk (t obj : nat) (rest : bytes) (body : any_stream) (remaining : Z) (s : conn_h2) : conn_h2 :=
  match rest with
  | [] => set_task t (TBody obj body remaining) s
  | _ =>
      if negb (window_open s obj)
      then set_task t (TWindowWait obj rest body remaining) (update_stream obj (hs_with_waiter (Some t)) s)
      else
        let allowed := allowed_now s obj rest in
        let n := Z.to_nat allowed in
        set_task t (TLock (data_frame (hs_id (stream_at s obj)) (take n rest))
                      (KSent obj allowed (drop n rest) body remaining)) s
  end.

(** ** The writer lock *)

(** [co_await write_lock_.lock()]. *)
Definition lock (t : nat) (f : out_frame) (k : cont) (s : conn_h2) : conn_h2 :=
  if h2_locked s then set_task t (TLockWait f k) (with_lock true (h2_waiters s ++ [t]) s)
  else set_task t (TWrite f (out_bytes f) k) (with_lock true (h2_waiters s) s).

(** [write_lock_.unlock()]: the lock passes to the first waiter. *)
Definition unlock (s : conn_h2) : conn_h2 :=
  match h2_waiters s with
  | [] => with_lock false [] s
  | h :: ws =>
      let s1 := with_lock (h2_locked s) ws s in
      match h2_tasks s !! h with
      | Some (TLockWait f k) => set_task h (TWrite f (out_bytes f) k) s1
      | _ => s1
      end
  end.

(** One [wire_->write]. *)
Definition write_some (t : nat) (f : out_frame) (rest : bytes) (k : cont) (s : conn_h2) : conn_h2 :=
  let d := h2_feed s in
  let '(n, w) := st_write rest (fd_source d) in
  set_task t (TWrite f (drop n rest) k) (with_feed (mk_feeder w (fd_buffer d) (fd_eof d)) s).

(** ** Steps *)

(** [read_exact] into a buffer of [n] bytes: one more read, or what follows it. *)
Definition need (t n : nat) (s : conn_h2) (after : bytes -> conn_h2 -> conn_h2) : conn_h2 :=
  let d := h2_feed s in
  if (length (fd_buffer d) <? n)%nat then
    let '(more, d') := fill_more d in
    if more then with_feed d' s else set_task t (TDone None) (with_feed d' s)
  else after (take n (fd_buffer d)) (with_feed (fd_with_buffer d (drop n (fd_buffer d))) s).

Definition on_preface (t : nat) (got : bytes) (s : conn_h2) : conn_h2 :=
  if bytes_eqb got client_preface then set_task t (TLock settings_frame KLoop) s
  else set_task t (TDone None) s.

Definition on_header (t : nat) (got : bytes) (s : conn_h2) : conn_h2 :=
  match frame_header_parse got with
  | Some fh => if 16 * 1024 * 1024 <? fh_length fh then set_task t (TDone None) s else set_task t (TPayload fh) s
  | None => set_task t (TDone None) s
  end.

Definition after_send (t : nat) (k : cont) (s : conn_h2) : conn_h2 :=
  match k with
  | KLoop => set_task t THeader s
  | KStop => set_task t (TDone None) s
  | KData2 fh obj => set_task t (TLock (window_update_frame 0 (fh_length fh)) (KDataEnd fh obj)) s
  | KDataEnd fh obj => set_task t THeader (data_end fh obj s)
  | KBody obj body remaining => set_task t (TBody obj body remaining) s
  | KSent obj allowed rest body remaining =>
      set_task t (TChunk obj rest body remaining)
        (update_stream obj (fun st => hs_with_window (hs_send_window st - allowed) st)
           (with_send_window (h2_send_window s - allowed) s))
  | KFinish obj => finish_stream t obj s
  end.

(** [None]: the task is suspended until another resumes it, or has ended. *)
Definition step (t : nat) (s : conn_h2) : option (conn_h2 * list (nat * out_frame)) :=
  k ← h2_tasks s !! t;
  match k with
  | TPreface => Some (need t (length client_preface) s (on_preface t), [])
  | THeader => Some (need t fh_wire_size s (on_header t), [])
  | TPayload fh => Some (need t (Z.to_nat (fh_length fh)) s (on_frame t fh), [])
  | TStart obj => Some (start_stream t obj s, [])
  | THandle obj req => Some (run_handler t obj req s, [])
  | TBody obj body remaining => Some (read_body t obj body remaining s, [])
  | TChunk obj rest body remaining => Some (send_chunk t obj rest body remaining s, [])
  | TLock f k => Some (lock t f k s, [])
  | TWrite f [] k => Some (set_task t (TResume k) (unlock s), [(t, f)])
  | TWrite f rest k => Some (write_some t f rest k s, [])
  | TResume k => Some (after_send t k s, [])
  | TWindowWait _ _ _ _ | TLockWait _ _ | TDone _ => None
  end.

(** Running a schedule: the state after it and the frames completed. *)
Fixpoint run_schedule (ts : list nat) (s : conn_h2) : option (conn_h2 * list (nat * out_frame)) :=
  match ts with
  | [] => Some (s, [])
  | t :: r =>
      '(s1, l1) ← step t s;
      '(s2, l2) ← run_schedule r s1;
      Some (s2, l1 ++ l2)
  end.

Inductive reach (s0 : conn_h2) : list (nat * out_frame) -> conn_h2 -> Prop :=
| reach_refl : reach s0 [] s0
| reach_step tr s t s' l : reach s0 tr s -> step t s = Some (s', l) -> reach s0 (tr ++ l) s'.
End H2.
Arguments conn_h2 W : clear implicits.
