(* ===== verification/ConnectionH2Facts.v ===== *)
(** * ConnectionH2Facts: invariants of an HTTP/2 connection over every schedule

    - the writer lock: one holder, no lost waiter, frames never interleave on
      the wire;
    - flow control: a registered stream that waits has a closed window, and a
      stream dispatched once never has more data in flight than its window. *)

From S2P Require Import Prelude Bytes Stream Feeder Method Header Resource QueryString UrlEncode Server.
From S2P Require Import Frame Hpack ConnectionH2.

#[local] Open Scope Z_scope.

Section Facts.
Context {W : Type} `{StreamDuplex W}.
Context (handler : option (request memory_stream -> option (response W * request memory_stream))).

Abbreviation conn := (conn_h2 W).

Definition h2_written (s : conn) : bytes := st_written (fd_source (h2_feed s)).

(** ** What a step does to the other tasks

    It may resume a coroutine that waits for a window and start new ones; it
    leaves the lock and the output alone. *)

Definition woken (k k' : task) : Prop :=
  exists obj rest body remaining,
    k = TWindowWait obj rest body remaining /\ k' = TChunk obj rest body remaining.

Record env (s s' : conn) : Prop := mk_env {
  env_locked : h2_locked s' = h2_locked s;
  env_waiters : h2_waiters s' = h2_waiters s;
  env_written : h2_written s' = h2_written s;
  env_tasks : forall t k, h2_tasks s !! t = Some k ->
    exists k', h2_tasks s' !! t = Some k' /\ (k' = k \/ woken k k');
  env_new : forall t k, h2_tasks s !! t = None -> h2_tasks s' !! t = Some k -> exists obj, k = TStart obj;
}.

#[global] Instance env_PreOrder : PreOrder env.
Proof.
  split.
  - intros s. split; try done; [eauto|]. intros t k E1 E2. congruence.
  - intros a b c [L1 A1 W1 T1 N1] [L2 A2 W2 T2 N2]. split; [congruence..| |].
    + intros t k Hk. destruct (T1 t k Hk) as (k1 & Hk1 & Hc1). destruct (T2 t k1 Hk1) as (k2 & Hk2 & Hc2).
      exists k2. split; [done|]. destruct Hc1 as [->|Hc1]; [done|]. right.
      destruct Hc1 as (o & r & b0 & m & -> & ->).
      destruct Hc2 as [->|(? & ? & ? & ? & ? & _)]; [|done]. by repeat eexists.
    + intros t k Ha Hc. destruct (h2_tasks b !! t) as [k1|] eqn:Eb; [|by apply (N2 t)].
      destruct (N1 t k1 Ha Eb) as [obj ->]. destruct (T2 t _ Eb) as (k2 & Hk2 & Hcase).
      rewrite Hc in Hk2. injection Hk2 as <-.
      destruct Hcase as [->|(? & ? & ? & ? & ? & _)]; [by exists obj|done].
Qed.

(** Updates that touch no task. *)
Lemma env_same (s s' : conn) :
  h2_locked s' = h2_locked s -> h2_waiters s' = h2_waiters s -> h2_written s' = h2_written s ->
  h2_tasks s' = h2_tasks s -> env s s'.
Proof. intros ? ? ? Ht. split; try done; rewrite Ht; [eauto|]. intros t k E1 E2. congruence. Qed.

Lemma env_dispatch obj (s : conn) : env s (dispatch_stream obj s).
Proof.
  split; try done; cbn; intros t k Hk.
  - exists k. split; [by apply lookup_app_l_Some|by left].
  - intros [?|[_ Hl]]%lookup_app_Some; [congruence|]. exists obj.
    destruct (t - length (h2_tasks s))%nat; [by injection Hl as <-|done].
Qed.

Lemma env_wake (s : conn) t : env s (wake s t).
Proof.
  unfold wake. destruct (h2_tasks s !! t) as [k|] eqn:E; [|done]. destruct k; try done.
  split; try done; cbn; intros u k Hk.
  - destruct (decide (u = t)) as [->|Hne].
    + rewrite list_lookup_insert_eq by by apply lookup_lt_Some in E. eexists. split; [done|].
      right. rewrite E in Hk. injection Hk as <-. by repeat eexists.
    + rewrite list_lookup_insert_ne by done. eauto.
  - destruct (decide (u = t)) as [->|Hne]; [congruence|]. rewrite list_lookup_insert_ne by done. congruence.
Qed.

Lemma env_fold {A} (f : conn -> A -> conn) l (s : conn) :
  (forall s a, env s (f s a)) -> env s (fold_left f l s).
Proof.
  intros Hf. revert s. induction l as [|a l IH]; intros s; [done|]. cbn. etrans; [apply Hf|apply IH].
Qed.

Lemma env_read (d : feeder W) (s : conn) b : fill_more (h2_feed s) = (b, d) -> env s (with_feed d s).
Proof.
  intros Hb. apply env_same; try done. unfold h2_written. cbn.
  unfold fill_more in Hb. destruct (fd_eof (h2_feed s)); [by injection Hb as _ <-|].
  destruct (st_read chunk_size (fd_source (h2_feed s))) as [c src] eqn:E.
  apply st_read_written in E. destruct c; by injection Hb as _ <-.
Qed.

Ltac env_tac := by apply env_same.

(** ** The handlers *)

Lemma env_complete_headers obj (s : conn) : env s (complete_headers obj s).
Proof.
  unfold complete_headers. destruct (finish_header_block _ _) as [d st].
  destruct (hs_end_stream st || hs_malformed st); [|env_tac]. etrans; [|apply env_dispatch]. env_tac.
Qed.

Lemma env_data_end fh obj (s : conn) : env s (data_end fh obj s).
Proof.
  unfold data_end. destruct (has_flag fh flag_end_stream); [|done].
  destruct (hs_end_headers _); [|env_tac]. etrans; [|apply env_dispatch]. env_tac.
Qed.

Lemma env_wake_all (s : conn) : env s (wake_all s).
Proof.
  unfold wake_all. etrans; [|apply env_fold, env_wake]. apply env_fold. intros. env_tac.
Qed.

Lemma env_apply_settings ps (s : conn) : env s (fold_left apply_setting ps s).
Proof.
  apply env_fold. intros s1 p. unfold apply_setting.
  destruct (sp_id p =? _); [env_tac|]. destruct (sp_id p =? _); [env_tac|done].
Qed.

(** The reader's next point after a frame. *)
Definition reader_next (k : task) : Prop :=
  match k with THeader | TLock _ KLoop | TLock _ KStop | TLock _ (KData2 _ _) | TDone None => True | _ => False end.

Lemma handle_settings_env fh payload (s s' : conn) k :
  handle_settings fh payload s = Some (s', k) -> env s s' /\ reader_next k.
Proof.
  unfold handle_settings. intros E. destruct (negb _); [done|]. destruct (has_flag _ _).
  - by injection E as <- <-.
  - destruct (parse_settings_payload payload) as [ps|]; [|done]. injection E as <- <-.
    split; [apply env_apply_settings|done].
Qed.

Lemma handle_ping_env fh payload (s s' : conn) k :
  handle_ping fh payload s = Some (s', k) -> env s s' /\ reader_next k.
Proof.
  unfold handle_ping. intros E. destruct (_ || _); [done|].
  destruct (has_flag _ _); by injection E as <- <-.
Qed.

Lemma handle_headers_env fh payload (s s' : conn) k :
  handle_headers fh payload s = Some (s', k) -> env s s' /\ reader_next k.
Proof.
  unfold handle_headers. intros E. destruct (_ || _); [done|].
  destruct (strip_padding _ _) as [[len0 off0]|]; [|done]. cbn [mbind option_bind] in E.
  destruct (if has_flag fh flag_priority then _ else _) as [[len off]|]; [|done].
  cbn [mbind option_bind] in E. destruct (has_flag fh flag_end_headers); injection E as <- <-; (split; [|done]).
  - etrans; [|apply env_complete_headers]. env_tac.
  - env_tac.
Qed.

Lemma handle_continuation_env fh payload (s s' : conn) k :
  handle_continuation fh payload s = Some (s', k) -> env s s' /\ reader_next k.
Proof.
  unfold handle_continuation. intros E. destruct (_ || _); [done|].
  destruct (h2_streams s !! fh_stream_id fh) as [obj|]; [|done]. cbn [mbind option_bind] in E.
  destruct (has_flag fh flag_end_headers); injection E as <- <-; (split; [|done]).
  - etrans; [|apply env_complete_headers]. env_tac.
  - env_tac.
Qed.

Lemma handle_data_env fh payload (s s' : conn) k :
  handle_data fh payload s = Some (s', k) -> env s s' /\ reader_next k.
Proof.
  unfold handle_data. intros E. destruct (h2_streams s !! fh_stream_id fh) as [obj|].
  2:{ by injection E as <- <-. }
  destruct (strip_padding _ _) as [[len off]|]; [|done]. cbn [mbind option_bind] in E.
  destruct (max_request_body_size <? _); [done|].
  destruct (0 <? fh_length fh); injection E as <- <-; (split; [|done]).
  - env_tac.
  - etrans; [|apply env_data_end]. env_tac.
Qed.

Lemma handle_window_update_env fh payload (s s' : conn) k :
  handle_window_update fh payload s = Some (s', k) -> env s s' /\ reader_next k.
Proof.
  unfold handle_window_update. intros E. destruct (parse_window_update_payload payload) as [inc|]; [|done].
  cbn [mbind option_bind] in E. destruct (inc =? 0); [done|]. destruct (fh_stream_id fh =? 0).
  - injection E as <- <-. split; [|done]. etrans; [|apply env_wake_all]. env_tac.
  - destruct (h2_streams s !! fh_stream_id fh) as [obj|]; [|by injection E as <- <-].
    destruct (hs_window_waiter _) as [u|]; injection E as <- <-; (split; [|done]).
    + etrans; [|apply env_wake]. env_tac.
    + env_tac.
Qed.

(** ** The shape of a step *)

Definition lock_view (k : task) : option task :=
  match k with TLockWait _ _ | TWrite _ _ _ => Some k | _ => None end.

(** A step that leaves the lock alone: the stepping task moves to [k'] after
    changes to the rest of the state. *)
Definition local_step (t : nat) (s s' : conn) (P : task -> Prop) : Prop :=
  exists s1 k', env s s1 /\ s' = set_task t k' s1 /\ P k'.

(** The stream a coroutine answers; none for the coroutine of [run]. *)
Definition cont_obj (k : cont) : option nat :=
  match k with
  | KBody obj _ _ | KSent obj _ _ _ _ | KFinish obj => Some obj
  | KLoop | KStop | KData2 _ _ | KDataEnd _ _ => None
  end.

Definition task_obj (k : task) : option nat :=
  match k with
  | TStart obj | THandle obj _ | TBody obj _ _ | TChunk obj _ _ _ | TWindowWait obj _ _ _ => Some obj
  | TLock _ c | TLockWait _ c | TWrite _ _ c | TResume c => cont_obj c
  | TDone o => o
  | TPreface | THeader | TPayload _ => None
  end.

(** Where a task without the lock may go: it keeps its stream. *)
Definition next_of (k k' : task) : Prop := lock_view k' = None /\ task_obj k' = task_obj k.

Lemma reader_next_of k k' : task_obj k = None -> reader_next k' -> next_of k k'.
Proof. intros Hk. unfold next_of. rewrite Hk. destruct k' as [| | | | | | | |f [| | | | | |]| | | |[|]]; done. Qed.

Lemma local_set t k (s : conn) (P : task -> Prop) : P k -> local_step t s (set_task t k s) P.
Proof. intros. by exists s, k. Qed.

Lemma local_after t k (s s1 : conn) (P : task -> Prop) :
  env s s1 -> P k -> local_step t s (set_task t k s1) P.
Proof. intros. by exists s1, k. Qed.

Lemma on_frame_local t fh payload (s : conn) : local_step t s (on_frame t fh payload s) reader_next.
Proof.
  unfold on_frame. destruct (fh_type fh); try (by apply local_set);
    [| |by apply local_after; [env_tac|]| | | |].
  all: match goal with
       | |- context [match ?o with Some _ => _ | None => _ end] =>
           destruct o as [[s1 k]|] eqn:E; [|by apply local_set]
       end.
  all: first [apply handle_settings_env in E|apply handle_headers_env in E|apply handle_continuation_env in E|
    apply handle_data_env in E|apply handle_window_update_env in E|apply handle_ping_env in E].
  all: destruct E; by apply local_after.
Qed.

Lemma set_task_id t k (s : conn) : h2_tasks s !! t = Some k -> set_task t k s = s.
Proof. intros E. unfold set_task. rewrite list_insert_id by done. by destruct s. Qed.

Lemma need_local t n (s : conn) after k (P : task -> Prop) :
  h2_tasks s !! t = Some k -> P k -> P (TDone None) ->
  (forall got s1, env s s1 -> local_step t s1 (after got s1) P) ->
  local_step t s (need t n s after) P.
Proof.
  intros Hk HP Hd Ha. unfold need. destruct (_ <? n)%nat.
  - destruct (fill_more (h2_feed s)) as [more d] eqn:E. pose proof (env_read d s more E) as He.
    destruct more; [|by apply local_after]. exists (with_feed d s), k. split_and!; [done| |done].
    by rewrite set_task_id.
  - destruct (Ha (take n (fd_buffer (h2_feed s)))
      (with_feed (fd_with_buffer (h2_feed s) (drop n (fd_buffer (h2_feed s)))) s)) as (s1 & k' & He & -> & HPk).
    { env_tac. }
    apply local_after; [|done]. etrans; [|exact He]. env_tac.
Qed.

Lemma write_response_next obj (resp : response W) (s : conn) :
  exists f k, write_response obj resp s = TLock f k /\
    (k = KFinish obj \/ exists body n, k = KBody obj body n).
Proof.
  unfold write_response. destruct (resp_body _); [destruct (_ =? 0)|]; eauto 8.
Qed.

Lemma write_response_local t k obj (resp : response W) (s : conn) :
  task_obj k = Some obj -> local_step t s (set_task t (write_response obj resp s) s) (next_of k).
Proof.
  intros Hk. destruct (write_response_next obj resp s) as (f & c & -> & Hc). apply local_set.
  split; [done|]. rewrite Hk. by destruct Hc as [->|(body & n & ->)].
Qed.

Lemma after_send_local t k (s : conn) : local_step t s (after_send t k s) (next_of (TResume k)).
Proof.
  unfold after_send, finish_stream. destruct k; try (by apply local_set); (apply local_after; [|done]).
  - apply env_data_end.
  - env_tac.
  - env_tac.
Qed.

(** The steps of the coroutine of one stream. *)
Lemma stream_local t k (s s' : conn) l :
  h2_tasks s !! t = Some k -> step handler t s = Some (s', l) ->
  match k with TStart _ | THandle _ _ | TBody _ _ _ | TChunk _ _ _ _ => True | _ => False end ->
  l = [] /\ local_step t s s' (next_of k).
Proof.
  intros Hk Hs Hc. unfold step in Hs. rewrite Hk in Hs. cbn [mbind option_bind] in Hs.
  destruct k; try done; injection Hs as <- <-; (split; [done|]).
  - unfold start_stream. destruct (hs_malformed _); [by apply write_response_local|].
    apply local_after; [env_tac|done].
  - unfold run_handler. destruct handler as [h|]; [|by apply write_response_local].
    destruct (h req) as [[resp r]|]; [by apply write_response_local|]. apply local_after; [env_tac|done].
  - unfold read_body. destruct (remaining =? 0); [by apply local_set|].
    destruct (st_read _ body) as [[|b buf] body']; by apply local_set.
  - unfold send_chunk. destruct rest; [by apply local_set|].
    destruct (negb (window_open s obj)); [|by apply local_set]. apply local_after; [env_tac|done].
Qed.

Lemma step_cases t (s s' : conn) l :
  step handler t s = Some (s', l) ->
  exists k, h2_tasks s !! t = Some k /\
    match k with
    | TLock f c => l = [] /\ s' = lock t f c s
    | TWrite f [] c => l = [(t, f)] /\ s' = set_task t (TResume c) (unlock s)
    | TWrite f rest c => l = [] /\ s' = write_some t f rest c s
    | TLockWait _ _ => False
    | _ => l = [] /\ local_step t s s' (next_of k)
    end.
Proof.
  intros Hs. destruct (h2_tasks s !! t) as [k|] eqn:Hk; [|unfold step in Hs; by rewrite Hk in Hs].
  exists k. split; [done|]. destruct k; try (by apply (stream_local _ _ _ _ _ Hk Hs)).
  all: unfold step in Hs; rewrite Hk in Hs; cbn [mbind option_bind] in Hs; try done.
  all: try (injection Hs as <- <-; split; [done|]); try done.
  - eapply need_local; [done..|]. intros got s1 _. unfold on_preface.
    destruct (bytes_eqb _ _); by apply local_set.
  - eapply need_local; [done..|]. intros got s1 _. unfold on_header.
    destruct (frame_header_parse got); [destruct (_ <? _)|]; by apply local_set.
  - eapply need_local; [done..|]. intros got s1 _.
    destruct (on_frame_local t fh got s1) as (s2 & k' & ? & ? & ?). exists s2, k'. split_and!; try done.
    by apply reader_next_of.
  - destruct rest; by injection Hs as <- <-.
  - apply after_send_local.
Qed.

(** ** The writer lock *)

Definition frames_bytes (tr : list (nat * out_frame)) : bytes := concat (map (fun e => out_bytes e.2) tr).

(** Either nobody holds the lock and the output is the completed frames, or
    exactly one task does and its frame is written up to [done]. *)
Record lock_inv (w0 : bytes) (tr : list (nat * out_frame)) (s : conn) : Prop := mk_lock_inv {
  li_waiting : forall t, t ∈ h2_waiters s <-> exists f k, h2_tasks s !! t = Some (TLockWait f k);
  li_nodup : NoDup (h2_waiters s);
  li_holder :
    if h2_locked s then
      exists t f done rest k, h2_tasks s !! t = Some (TWrite f rest k) /\ out_bytes f = done ++ rest /\
        h2_written s = w0 ++ frames_bytes tr ++ done /\
        forall t' f' rest' k', h2_tasks s !! t' = Some (TWrite f' rest' k') -> t' = t
    else
      h2_waiters s = [] /\ h2_written s = w0 ++ frames_bytes tr /\
      forall t f rest k, h2_tasks s !! t <> Some (TWrite f rest k);
}.

Lemma local_view t k (s s' : conn) u v :
  h2_tasks s !! t = Some k -> lock_view k = None -> local_step t s s' (next_of k) ->
  lock_view v = Some v -> h2_tasks s' !! u = Some v <-> h2_tasks s !! u = Some v.
Proof.
  intros Hk Hkv (s1 & k' & He & -> & [Hk' _]) Hv. cbn.
  destruct (env_tasks _ _ He t k Hk) as (k1 & Hk1 & _).
  destruct (decide (u = t)) as [->|Hne].
  { rewrite list_lookup_insert_eq by by apply lookup_lt_Some in Hk1. rewrite Hk.
    split; intros [= ->]; congruence. }
  rewrite list_lookup_insert_ne by done. split; intros Hu.
  - destruct (h2_tasks s !! u) as [v0|] eqn:E0.
    + destruct (env_tasks _ _ He u v0 E0) as (v1 & E1 & Hc). rewrite Hu in E1. injection E1 as <-.
      destruct Hc as [->|(? & ? & ? & ? & _ & ->)]; done.
    + by destruct (env_new _ _ He u v E0 Hu) as [obj ->].
  - destruct (env_tasks _ _ He u v Hu) as (v1 & -> & Hc).
    by destruct Hc as [->|(? & ? & ? & ? & -> & _)].
Qed.

Lemma lock_inv_local w0 tr t k (s s' : conn) :
  h2_tasks s !! t = Some k -> lock_view k = None -> local_step t s s' (next_of k) ->
  lock_inv w0 tr s -> lock_inv w0 tr s'.
Proof.
  intros Hk Hkv Hl [Hw Hn Hh].
  pose proof (fun u v => local_view t k s s' u v Hk Hkv Hl) as Hv.
  destruct Hl as (s1 & k' & He & -> & _). destruct He as [EL EA EW _ _].
  assert (h2_waiters (set_task t k' s1) = h2_waiters s) as EA' by done.
  assert (h2_locked (set_task t k' s1) = h2_locked s) as EL' by done.
  assert (h2_written (set_task t k' s1) = h2_written s) as EW' by done.
  split; rewrite ?EA', ?EL', ?EW'.
  - intros u. rewrite Hw. split; intros (f & c & Hf); exists f, c; by apply Hv.
  - done.
  - destruct (h2_locked s).
    + destruct Hh as (u & f & dn & rest & c & Hu & Hb & Hwr & Huniq). exists u, f, dn, rest, c.
      split_and!; try done; [by apply Hv|]. intros t' f' r' c' Ht'. eapply Huniq. by apply Hv in Ht'.
    + destruct Hh as (HA & HW & Hno). split_and!; try done. intros u f r c Hu. apply Hv in Hu; [|done].
      by eapply Hno.
Qed.

Lemma frames_bytes_snoc tr t f : frames_bytes (tr ++ [(t, f)]) = frames_bytes tr ++ out_bytes f.
Proof. unfold frames_bytes. rewrite map_app, concat_app. cbn. by rewrite app_nil_r. Qed.

Lemma insert_here {A} (l : list A) t k k' : l !! t = Some k -> <[t := k']> l !! t = Some k'.
Proof. intros E. by rewrite list_lookup_insert_eq by by apply lookup_lt_Some in E. Qed.

Lemma lock_inv_lock w0 tr t f c (s : conn) :
  h2_tasks s !! t = Some (TLock f c) -> lock_inv w0 tr s -> lock_inv w0 tr (lock t f c s).
Proof.
  intros Hk [Hw Hn Hh]. unfold lock. destruct (h2_locked s) eqn:EL; split; cbn [with_lock h2_waiters h2_locked].
  - intros u. cbn. rewrite elem_of_app, Hw, list_elem_of_singleton.
    destruct (decide (u = t)) as [->|Hne].
    + rewrite list_lookup_insert_eq by by apply lookup_lt_Some in Hk. naive_solver.
    + rewrite list_lookup_insert_ne by done. naive_solver.
  - apply NoDup_app. split_and!; [done| |apply NoDup_singleton].
    intros u Hu ->%list_elem_of_singleton. apply Hw in Hu as (f' & c' & Hu). congruence.
  - destruct Hh as (u & f' & dn & rest & c' & Hu & Hb & Hwr & Huniq).
    assert (u <> t) as Hne by congruence. exists u, f', dn, rest, c'. cbn.
    rewrite list_lookup_insert_ne by done. split_and!; try done. intros t' f2 r2 c2.
    destruct (decide (t' = t)) as [->|]; [|rewrite list_lookup_insert_ne by done; apply Huniq].
    by rewrite list_lookup_insert_eq by by apply lookup_lt_Some in Hk.
  - intros u. cbn. rewrite Hw. destruct (decide (u = t)) as [->|Hne].
    + rewrite list_lookup_insert_eq by by apply lookup_lt_Some in Hk. naive_solver.
    + by rewrite list_lookup_insert_ne.
  - done.
  - destruct Hh as (HA & HW & Hno). exists t, f, [], (out_bytes f), c. cbn.
    rewrite list_lookup_insert_eq by by apply lookup_lt_Some in Hk.
    split_and!; [done|done|by rewrite app_nil_r|]. intros t' f2 r2 c2.
    destruct (decide (t' = t)) as [->|]; [done|]. rewrite list_lookup_insert_ne by done.
    intros Ht'. by apply Hno in Ht'.
Qed.

Lemma lock_inv_write w0 tr t f rest c (s : conn) :
  h2_tasks s !! t = Some (TWrite f rest c) -> lock_inv w0 tr s -> lock_inv w0 tr (write_some t f rest c s).
Proof.
  intros Hk [Hw Hn Hh]. unfold write_some. destruct (st_write rest _) as [n w] eqn:E.
  apply st_write_spec in E as (_ & _ & E).
  split; cbn [with_feed set_task with_tasks h2_waiters h2_locked h2_tasks].
  - intros u. rewrite Hw. destruct (decide (u = t)) as [->|Hne].
    + rewrite list_lookup_insert_eq by by apply lookup_lt_Some in Hk. naive_solver.
    + by rewrite list_lookup_insert_ne.
  - done.
  - destruct (h2_locked s); [|by destruct Hh as (_ & _ & Hno); apply Hno in Hk].
    destruct Hh as (u & f' & dn & r' & c' & Hu & Hb & Hwr & Huniq).
    assert (t = u) as -> by by eapply Huniq. rewrite Hu in Hk. injection Hk as -> -> ->.
    exists u, f, (dn ++ take n rest), (drop n rest), c.
    rewrite list_lookup_insert_eq by by apply lookup_lt_Some in Hu. split_and!.
    + done.
    + by rewrite <-app_assoc, take_drop.
    + unfold h2_written. cbn. rewrite E. unfold h2_written in Hwr. rewrite Hwr. by rewrite <-!app_assoc.
    + intros t' f2 r2 c2. destruct (decide (t' = u)) as [->|]; [done|].
      rewrite list_lookup_insert_ne by done. apply Huniq.
Qed.

Lemma lock_inv_unlock w0 tr t f c (s : conn) :
  h2_tasks s !! t = Some (TWrite f [] c) -> lock_inv w0 tr s ->
  lock_inv w0 (tr ++ [(t, f)]) (set_task t (TResume c) (unlock s)).
Proof.
  intros Hk [Hw Hn Hh].
  destruct (h2_locked s) eqn:EL; [|by destruct Hh as (_ & _ & Hno); apply Hno in Hk].
  destruct Hh as (u & f0 & dn & r0 & c0 & Hu & Hb & Hwr & Huniq).
  assert (t = u) as -> by by eapply Huniq. rewrite Hu in Hk. injection Hk as -> -> ->.
  rewrite app_nil_r in Hb. subst dn. unfold unlock.
  destruct (h2_waiters s) as [|h ws] eqn:EA.
  - split; cbn; [|apply NoDup_nil_2|].
    + intros x. split; [by intros ?%not_elem_of_nil|]. intros (f1 & c1 & Hx).
      apply Hw. destruct (decide (x = u)) as [->|]; [by rewrite (insert_here _ _ _ _ Hu) in Hx|].
      rewrite list_lookup_insert_ne in Hx by done. eauto.
    + split_and!; [done|by rewrite frames_bytes_snoc|]. intros x f1 r1 c1.
      destruct (decide (x = u)) as [->|Hx]; [by rewrite (insert_here _ _ _ _ Hu)|].
      rewrite list_lookup_insert_ne by done. intros Hx'. by apply Huniq in Hx'.
  - destruct (proj1 (Hw h)) as (f1 & c1 & Hh1); [by left|]. rewrite Hh1.
    assert (h <> u) as Hne by congruence. apply NoDup_cons in Hn as [Hh2 Hn].
    assert (forall x, x <> u -> x <> h -> <[u:=TResume c]> (<[h:=TWrite f1 (out_bytes f1) c1]> (h2_tasks s)) !! x
      = h2_tasks s !! x) as Hother by (intros; by rewrite !list_lookup_insert_ne by done).
    assert (<[u:=TResume c]> (<[h:=TWrite f1 (out_bytes f1) c1]> (h2_tasks s)) !! u = Some (TResume c)) as Hgu.
    { apply list_lookup_insert_eq. rewrite length_insert. by apply lookup_lt_Some in Hu. }
    assert (<[u:=TResume c]> (<[h:=TWrite f1 (out_bytes f1) c1]> (h2_tasks s)) !! h
      = Some (TWrite f1 (out_bytes f1) c1)) as Hgh.
    { rewrite list_lookup_insert_ne by done. apply list_lookup_insert_eq. by apply lookup_lt_Some in Hh1. }
    split; cbn; [| done|].
    + intros x. destruct (decide (x = u)) as [->|Hxu]; [|destruct (decide (x = h)) as [->|Hxh]].
      * rewrite Hgu. split; [|naive_solver]. intros Hin.
        destruct (proj1 (Hw u)) as (? & ? & ?); [by right|]. congruence.
      * rewrite Hgh. split; [done|naive_solver].
      * rewrite Hother, <-Hw by done. set_solver.
    + rewrite EL. exists h, f1, [], (out_bytes f1), c1. split_and!; [done|done| |].
      * rewrite app_nil_r, frames_bytes_snoc. exact Hwr.
      * intros x f2 r2 c2. destruct (decide (x = u)) as [->|Hxu]; [by rewrite Hgu|].
        destruct (decide (x = h)) as [->|Hxh]; [done|]. rewrite Hother by done.
        intros Hx'. by apply Huniq in Hx'.
Qed.

Lemma lock_inv_step w0 tr t (s s' : conn) l :
  step handler t s = Some (s', l) -> lock_inv w0 tr s -> lock_inv w0 (tr ++ l) s'.
Proof.
  intros Hs Hi. destruct (step_cases _ _ _ _ Hs) as (k & Hk & Hc).
  destruct k as [ | | | | | | | |f c|f c|f [|b rest] c| |]; try destruct Hc as [-> Hc]; try done.
  all: rewrite ?app_nil_r; subst.
  all: try (by eapply lock_inv_local).
  - by apply lock_inv_lock.
  - by apply lock_inv_unlock.
  - by apply lock_inv_write.
Qed.

Lemma lock_inv_new (w : W) leftover : lock_inv (st_written w) [] (connection_h2_new w leftover).
Proof.
  split; cbn; [|apply NoDup_nil_2|].
  - intros t. split; [by intros ?%not_elem_of_nil|]. intros (f & k & Ht). by destruct t.
  - split_and!; [done|by rewrite app_nil_r|]. intros [|t] f r k Ht; done.
Qed.

Lemma lock_inv_reach (w : W) leftover tr s :
  reach handler (connection_h2_new w leftover) tr s -> lock_inv (st_written w) tr s.
Proof.
  intros Hr. induction Hr as [|tr s t s' l _ IH Hs]; [apply lock_inv_new|]. by eapply lock_inv_step.
Qed.

(** C7: Under every interleaving, the bytes on the wire are the completed frames one after the
    other followed by a prefix of at most one further frame: the writer lock has exactly one
    holder while it is taken, none while it is free, and the coroutines suspended on it are
    exactly its queue. *)
Theorem h2_frames_never_interleave (w : W) leftover tr s :
  reach handler (connection_h2_new w leftover) tr s ->
  exists part, h2_written s = st_written w ++ frames_bytes tr ++ part /\
    (h2_locked s = false -> part = [] /\ h2_waiters s = []) /\
    (h2_locked s = true -> exists t f rest k,
       h2_tasks s !! t = Some (TWrite f rest k) /\ out_bytes f = part ++ rest /\
       forall t' f' rest' k', h2_tasks s !! t' = Some (TWrite f' rest' k') -> t' = t) /\
    forall t, (exists f k, h2_tasks s !! t = Some (TLockWait f k)) <-> t ∈ h2_waiters s.
Proof.
  intros Hr. destruct (lock_inv_reach _ _ _ _ Hr) as [Hw _ Hh]. destruct (h2_locked s).
  - destruct Hh as (t & f & dn & rest & k & Ht & Hb & Hwr & Hu). exists dn. split_and!; [done|done| |].
    + intros _. by exists t, f, rest, k.
    + intros u. by rewrite Hw.
  - destruct Hh as (HA & HW & Hno). exists []. rewrite app_nil_r. split_and!; [done|done|done|].
    intros u. by rewrite Hw.
Qed.

(** ** Flow control *)

Definition send_window_of (s : conn) (obj : nat) : Z := hs_send_window (stream_at s obj).

(** A registered stream that waits is one whose window is closed. *)
Definition waiters_closed (s : conn) : Prop := forall id obj t,
  h2_streams s !! id = Some obj -> hs_window_waiter (stream_at s obj) = Some t -> window_open s obj = false.

Definition peer_ok (s : conn) : Prop := 0 <= h2_peer_initial_window_size s /\ 0 < h2_peer_max_frame_size s.

(** What the frame handlers may do to the windows. *)
Record flow (s s' : conn) : Prop := mk_flow {
  fl_window : forall obj, send_window_of s obj <= send_window_of s' obj;
  fl_peer : peer_ok s -> peer_ok s';
  fl_closed : peer_ok s -> waiters_closed s -> waiters_closed s';
}.

#[global] Instance flow_PreOrder : PreOrder flow.
Proof.
  split; [by split|]. intros a b c [W1 P1 C1] [W2 P2 C2]. split; [|auto..].
  intros obj. specialize (W1 obj). specialize (W2 obj). lia.
Qed.

(** Only the heap, the table and the windows matter. *)
Lemma flow_same (s s' : conn) :
  h2_heap s' = h2_heap s -> h2_streams s' = h2_streams s -> h2_send_window s' = h2_send_window s ->
  (peer_ok s -> peer_ok s') -> flow s s'.
Proof.
  intros Hh Hs Hw Hp. split; [|done|].
  - intros obj. unfold send_window_of, stream_at. by rewrite Hh.
  - intros _ Hc id obj t. unfold window_open, stream_at. rewrite Hh, Hs, Hw. apply Hc.
Qed.

Lemma stream_at_update_eq obj g (s : conn) :
  (obj < length (h2_heap s))%nat -> stream_at (update_stream obj g s) obj = g (stream_at s obj).
Proof.
  intros Hl. unfold stream_at. cbn. rewrite list_lookup_alter_eq.
  destruct (lookup_lt_is_Some_2 _ _ Hl) as [x ->]. done.
Qed.

Lemma stream_at_update_ne obj obj' g (s : conn) :
  obj <> obj' -> stream_at (update_stream obj g s) obj' = stream_at s obj'.
Proof. intros Hne. unfold stream_at. cbn. by rewrite list_lookup_alter_ne. Qed.

Lemma stream_at_update_out obj obj' g (s : conn) :
  (length (h2_heap s) <= obj)%nat -> stream_at (update_stream obj g s) obj' = stream_at s obj'.
Proof.
  intros Hl. destruct (decide (obj = obj')) as [->|]; [|by apply stream_at_update_ne].
  unfold stream_at. cbn. by rewrite list_lookup_alter_eq, lookup_ge_None_2.
Qed.

(** A predicate on the stream behind [obj'] that [g] preserves. *)
Lemma stream_at_update_ind (P : h2_stream -> Prop) obj obj' g (s : conn) :
  P (stream_at s obj') -> (obj' = obj -> P (stream_at s obj) -> P (g (stream_at s obj))) ->
  P (stream_at (update_stream obj g s) obj').
Proof.
  intros Hp Hg. destruct (decide (obj' = obj)) as [->|Hne].
  - destruct (decide (obj < length (h2_heap s))%nat).
    + rewrite stream_at_update_eq by done. auto.
    + rewrite stream_at_update_out by lia. done.
  - by rewrite stream_at_update_ne.
Qed.

(** Updates that touch neither the window nor the waiter. *)
Lemma update_keeps_window obj obj' g (s : conn) :
  hs_send_window (g (stream_at s obj)) = send_window_of s obj ->
  hs_window_waiter (g (stream_at s obj)) = hs_window_waiter (stream_at s obj) ->
  send_window_of (update_stream obj g s) obj' = send_window_of s obj' /\
  hs_window_waiter (stream_at (update_stream obj g s) obj') = hs_window_waiter (stream_at s obj').
Proof.
  intros H1' H2'. unfold send_window_of.
  apply (stream_at_update_ind (fun st => hs_send_window st = hs_send_window (stream_at s obj') /\
    hs_window_waiter st = hs_window_waiter (stream_at s obj'))); [done|]. by intros ->.
Qed.

Lemma flow_update obj g (s : conn) :
  hs_send_window (g (stream_at s obj)) = send_window_of s obj ->
  hs_window_waiter (g (stream_at s obj)) = hs_window_waiter (stream_at s obj) ->
  flow s (update_stream obj g s).
Proof.
  intros H1' H2'. pose proof (fun o => update_keeps_window obj o g s H1' H2') as Hk. split; [|done|].
  - intros o. destruct (Hk o) as [-> _]. lia.
  - intros _ Hc id o t Hid Hw. destruct (Hk o) as [E1 E2]. rewrite E2 in Hw.
    specialize (Hc id o t Hid Hw). unfold window_open in *. unfold send_window_of in E1. by rewrite E1.
Qed.

Lemma finish_header_block_window d st :
  hs_send_window (finish_header_block d st).2 = hs_send_window st /\
  hs_window_waiter (finish_header_block d st).2 = hs_window_waiter st.
Proof.
  assert (forall fields st0, hs_send_window (fold_left apply_field fields st0) = hs_send_window st0 /\
    hs_window_waiter (fold_left apply_field fields st0) = hs_window_waiter st0) as Hf.
  { intros fields. induction fields as [|f fields IH]; intros st0; [done|]. cbn [fold_left].
    destruct (IH (apply_field st0 f)) as [-> ->]. unfold apply_field.
    repeat (case_match; try done). }
  unfold finish_header_block. destruct (hpack_decode _ _ _ _) as [[[[|] d'] fields]|]; [apply Hf|done..].
Qed.

Lemma flow_complete_headers obj (s : conn) : flow s (complete_headers obj s).
Proof.
  unfold complete_headers. pose proof (finish_header_block_window (h2_hpack s) (stream_at s obj)) as [H1' H2'].
  destruct (finish_header_block _ _) as [d st]. cbn [snd] in *.
  transitivity (with_hpack d s); [by apply flow_same|].
  set (s1 := update_stream obj _ _).
  assert (flow (with_hpack d s) s1) as Hf by (by apply flow_update).
  destruct (hs_end_stream st || hs_malformed st); [|done]. etrans; [exact Hf|]. by apply flow_same.
Qed.

Lemma flow_data_end fh obj (s : conn) : flow s (data_end fh obj s).
Proof.
  unfold data_end. destruct (has_flag fh flag_end_stream); [|done].
  assert (flow s (update_stream obj hs_set_end_stream s)) as Hf by by apply flow_update.
  destruct (hs_end_headers _); [|done]. etrans; [exact Hf|]. by apply flow_same.
Qed.

Lemma read_u32_range p v : read_u32 p = Some v -> 0 <= v.
Proof.
  destruct p as [|a [|b [|c [|d p]]]]; try done. cbn -[Z.lor]. intros [= <-]. rewrite join_bytes.
  pose proof (b2z_range a). pose proof (b2z_range b). pose proof (b2z_range c). pose proof (b2z_range d). lia.
Qed.

Lemma parse_settings_range n data out ps :
  Forall (fun p => 0 <= sp_value p) out -> parse_settings_loop n data out = Some ps ->
  Forall (fun p => 0 <= sp_value p) ps.
Proof.
  revert data out. induction n as [|n IH]; intros data out Ho; cbn [parse_settings_loop].
  { by intros [= <-]. }
  destruct (read_u16 data) as [id|]; [|done]. cbn [mbind option_bind].
  destruct (read_u32 (drop 2 data)) as [v|] eqn:E; [|done]. cbn [mbind option_bind].
  apply IH, Forall_app. split; [done|]. apply Forall_singleton. cbn. by eapply read_u32_range.
Qed.

Lemma flow_settings ps (s : conn) :
  Forall (fun p => 0 <= sp_value p) ps -> flow s (fold_left apply_setting ps s).
Proof.
  intros Hps. revert s. induction Hps as [|p ps Hp _ IH]; intros s; [done|]. cbn [fold_left].
  etrans; [|apply IH]. unfold apply_setting. destruct (sp_id p =? _); [|destruct (sp_id p =? _); [|done]].
  - apply flow_same; try done. intros [? ?]. split; cbn; [done|done].
  - apply flow_same; try done. intros [? ?]. split; cbn; [done|]. destruct (Z.eqb_spec (sp_value p) 0); lia.
Qed.

Lemma flow_new_stream id st (s : conn) :
  0 <= hs_send_window st -> hs_window_waiter st = None ->
  flow s (with_streams (<[id := length (h2_heap s)]> (h2_streams s)) (with_heap (h2_heap s ++ [st]) s)).
Proof.
  intros Hw Hn. set (s' := with_streams _ _).
  assert (forall o, stream_at s' o = if (o =? length (h2_heap s))%nat then st else stream_at s o) as Hat.
  { intros o. unfold stream_at. cbn. destruct (Nat.eqb_spec o (length (h2_heap s))) as [->|Hne].
    - by rewrite list_lookup_middle.
    - destruct (decide (o < length (h2_heap s))%nat); [by rewrite lookup_app_l|].
      rewrite (lookup_ge_None_2 (h2_heap s ++ _)) by (rewrite length_app; cbn; lia).
      by rewrite lookup_ge_None_2 by lia. }
  split; [|done|].
  - intros o. unfold send_window_of. rewrite Hat. destruct (Nat.eqb_spec o (length (h2_heap s))) as [->|]; [|lia].
    unfold stream_at. by rewrite lookup_ge_None_2 by done.
  - intros _ Hc id' o t Hid. unfold window_open. rewrite Hat.
    destruct (Nat.eqb_spec o (length (h2_heap s))) as [->|Hne]; [congruence|].
    change (h2_streams s' !! id') with (<[id:=length (h2_heap s)]> (h2_streams s) !! id') in Hid.
    apply lookup_insert_Some in Hid as [[_ ?]|[_ Hid]]; [congruence|]. by apply (Hc id').
Qed.

Lemma flow_headers fh payload (s s' : conn) k :
  peer_ok s -> handle_headers fh payload s = Some (s', k) -> flow s s'.
Proof.
  unfold handle_headers. intros [Hp _] E. destruct (_ || _); [done|].
  destruct (strip_padding _ _) as [[len0 off0]|]; [|done]. cbn [mbind option_bind] in E.
  destruct (if has_flag fh flag_priority then _ else _) as [[len off]|]; [|done].
  cbn [mbind option_bind] in E.
  pose proof (flow_new_stream (fh_stream_id fh) (h2_stream_new (fh_stream_id fh) (h2_peer_initial_window_size s)
    (take len (drop off payload)) (has_flag fh flag_end_stream)) s Hp eq_refl) as Hf.
  destruct (has_flag fh flag_end_headers); injection E as <- <-.
  - etrans; [|apply flow_complete_headers]. etrans; [exact Hf|]. by apply flow_same.
  - etrans; [exact Hf|]. by apply flow_same.
Qed.

Lemma flow_continuation fh payload (s s' : conn) k :
  handle_continuation fh payload s = Some (s', k) -> flow s s'.
Proof.
  unfold handle_continuation. intros E. destruct (_ || _); [done|].
  destruct (h2_streams s !! fh_stream_id fh) as [obj|]; [|done]. cbn [mbind option_bind] in E.
  assert (flow s (update_stream obj (hs_append_block payload) s)) as Hf by by apply flow_update.
  destruct (has_flag fh flag_end_headers); injection E as <- <-; [|done].
  etrans; [|apply flow_complete_headers]. etrans; [exact Hf|]. by apply flow_same.
Qed.

Lemma flow_data fh payload (s s' : conn) k : handle_data fh payload s = Some (s', k) -> flow s s'.
Proof.
  unfold handle_data. intros E. destruct (h2_streams s !! fh_stream_id fh) as [obj|].
  2:{ by injection E as <- <-. }
  destruct (strip_padding _ _) as [[len off]|]; [|done]. cbn [mbind option_bind] in E.
  destruct (max_request_body_size <? _); [done|].
  assert (flow s (update_stream obj (hs_append_body (take len (drop off payload))) s)) as Hf by by apply flow_update.
  destruct (0 <? fh_length fh); injection E as <- <-; [done|]. etrans; [exact Hf|apply flow_data_end].
Qed.

(** Resuming tasks changes no window. *)
Lemma wake_flow_same (s : conn) t :
  h2_heap (wake s t) = h2_heap s /\ h2_streams (wake s t) = h2_streams s /\
  h2_send_window (wake s t) = h2_send_window s /\ (peer_ok s -> peer_ok (wake s t)).
Proof. unfold wake. by destruct (h2_tasks s !! t) as [[]|]. Qed.

Lemma wake_list_same l (s : conn) :
  h2_heap (fold_left wake l s) = h2_heap s /\ h2_streams (fold_left wake l s) = h2_streams s /\
  h2_send_window (fold_left wake l s) = h2_send_window s /\ (peer_ok s -> peer_ok (fold_left wake l s)).
Proof.
  revert s. induction l as [|t l IH]; intros s; [done|]. cbn [fold_left].
  destruct (IH (wake s t)) as (-> & -> & -> & Hp). destruct (wake_flow_same s t) as (-> & -> & -> & Hp').
  split_and!; auto.
Qed.

(** Clearing the slots of [objs]. *)
Lemma clear_list objs (s : conn) :
  h2_streams (fold_left clear_waiter objs s) = h2_streams s /\
  h2_send_window (fold_left clear_waiter objs s) = h2_send_window s /\
  (peer_ok s -> peer_ok (fold_left clear_waiter objs s)) /\
  forall o, send_window_of (fold_left clear_waiter objs s) o = send_window_of s o /\
    (forall t, hs_window_waiter (stream_at (fold_left clear_waiter objs s) o) = Some t ->
       hs_window_waiter (stream_at s o) = Some t /\ o ∉ objs).
Proof.
  revert s. induction objs as [|x objs IH]; intros s; cbn [fold_left].
  { split_and!; try done. intros o. split; [done|]. intros t Ht. split; [done|]. apply not_elem_of_nil. }
  destruct (IH (clear_waiter s x)) as (-> & -> & Hp & Ho). split_and!; try done.
  intros o. destruct (Ho o) as [-> Hw]. unfold clear_waiter, send_window_of. split.
  - by apply (stream_at_update_ind (fun st => hs_send_window st = hs_send_window (stream_at s o))); [|intros ->].
  - intros t Ht. destruct (Hw t Ht) as [Hc Hn]. unfold clear_waiter in Hc.
    destruct (decide (o = x)) as [->|Hne].
    + destruct (decide (x < length (h2_heap s))%nat).
      * by rewrite stream_at_update_eq in Hc.
      * unfold stream_at in Hc. cbn in Hc. by rewrite list_lookup_alter_eq, lookup_ge_None_2 in Hc by lia.
    + rewrite stream_at_update_ne in Hc by done. split; [done|]. by apply not_elem_of_cons.
Qed.

Lemma flow_wake_all inc (s : conn) :
  0 <= inc -> flow s (wake_all (with_send_window (h2_send_window s + inc) s)).
Proof.
  intros Hi. set (s1 := with_send_window _ s). unfold wake_all.
  set (objs := base.filter _ _). set (ts := omap _ _).
  destruct (wake_list_same ts (fold_left clear_waiter objs s1)) as (Eh & Es & Ew & Hp).
  destruct (clear_list objs s1) as (Cs & Cw & Cp & Co). split.
  - intros o. unfold send_window_of, stream_at. rewrite Eh. destruct (Co o) as [E _].
    unfold send_window_of, stream_at in E. by rewrite E.
  - intros Hok. by apply Hp, Cp.
  - intros _ Hc id o t. rewrite Es, Cs. unfold window_open, stream_at. rewrite Eh, Ew, Cw. intros Hid Ht.
    destruct (Co o) as [E Hw]. unfold send_window_of, stream_at in E. rewrite E.
    destruct (Hw t Ht) as [Ht' Hn].
    destruct (Z.ltb_spec 0 (hs_send_window (stream_at s1 o))) as [Hpos|Hneg].
    + exfalso. apply Hn. apply list_elem_of_filter. split.
      * unfold wakeable. destruct (Z.ltb_spec 0 (hs_send_window (stream_at s1 o))); [by eexists|lia].
      * apply list_elem_of_fmap. exists (id, o). split; [done|]. by apply elem_of_map_to_list.
    + unfold stream_at in Hneg. apply Z.ltb_ge in Hneg. by rewrite Hneg.
Qed.

Lemma flow_window_update fh payload (s s' : conn) k :
  handle_window_update fh payload s = Some (s', k) -> flow s s'.
Proof.
  unfold handle_window_update. intros E.
  destruct (parse_window_update_payload payload) as [inc|] eqn:Ei; [|done]. cbn [mbind option_bind] in E.
  assert (0 <= inc) as Hi.
  { unfold parse_window_update_payload in Ei. destruct (negb _); [done|].
    destruct (read_u32 payload) as [v|]; [|done]. injection Ei as <-. apply Z.land_nonneg. by right. }
  destruct (inc =? 0); [done|]. destruct (fh_stream_id fh =? 0).
  { injection E as <- <-. by apply flow_wake_all. }
  destruct (h2_streams s !! fh_stream_id fh) as [obj|]; [|by injection E as <- <-].
  set (g := fun st => hs_with_window (hs_send_window st + inc) st) in *.
  set (s1 := update_stream obj g s) in *.
  assert (forall o, send_window_of s o <= send_window_of s1 o) as Hw.
  { intros o. unfold s1, send_window_of.
    apply (stream_at_update_ind (fun st => hs_send_window (stream_at s o) <= hs_send_window st)); [lia|].
    intros -> _. cbn. lia. }
  assert (forall o, o <> obj -> stream_at s1 o = stream_at s o) as Hne
    by (intros; by apply stream_at_update_ne).
  destruct (hs_window_waiter (stream_at s1 obj)) as [u|] eqn:Eu; injection E as <- <-.
  - transitivity (clear_waiter s1 obj).
    2:{ destruct (wake_flow_same (clear_waiter s1 obj) u) as (? & ? & ? & ?). by apply flow_same. }
    destruct (clear_list [obj] s1) as (Cs & Cw & Cp & Co). cbn [fold_left] in *. split; [|done|].
    + intros o. destruct (Co o) as [-> _]. apply Hw.
    + intros _ Hc id o t Hid Ht. destruct (Co o) as [E1 E2]. destruct (E2 t Ht) as [Ht' Hn].
      assert (o <> obj) as Hno by (intros ->; apply Hn; by left). rewrite Hne in Ht' by done.
      unfold window_open. unfold send_window_of in E1. rewrite E1, Hne by done. by apply (Hc id o t).
  - split; [done|done|]. intros _ Hc id o t Hid Ht.
    destruct (decide (o = obj)) as [->|Hno]; [congruence|]. rewrite Hne in Ht by done.
    unfold window_open. rewrite Hne by done. by apply (Hc id o t).
Qed.

Lemma flow_on_frame t fh payload (s : conn) : peer_ok s -> flow s (on_frame t fh payload s).
Proof.
  intros Hp. unfold on_frame. destruct (fh_type fh); try (by apply flow_same).
  all: try match goal with
       | |- context [match ?o with Some _ => _ | None => _ end] =>
           destruct o as [[s1 k]|] eqn:E; [transitivity s1; [|by apply flow_same]|by apply flow_same]
       end.
  - by eapply flow_data.
  - by eapply flow_headers.
  - split; [done|done|]. intros _ Hc id o u. cbn. intros [_ Hid]%lookup_delete_Some. by apply (Hc id).
  - unfold handle_settings in E. destruct (negb _); [done|]. destruct (has_flag _ _); [by injection E as <- _|].
    destruct (parse_settings_payload payload) as [ps|] eqn:Ep; [|done]. injection E as <- _.
    apply flow_settings. unfold parse_settings_payload in Ep. destruct (negb _); [done|].
    eapply parse_settings_range; [|exact Ep]. done.
  - unfold handle_ping in E. destruct (_ || _); [done|]. destruct (has_flag _ _); by injection E as <- _.
  - by eapply flow_window_update.
  - by eapply flow_continuation.
Qed.

(** *** Data between the window test and the window update *)

Definition cont_flight (k : cont) : Z := match k with KSent _ allowed _ _ _ => allowed | _ => 0 end.

Definition task_flight (k : task) : Z :=
  match k with TLock _ c | TLockWait _ c | TWrite _ _ c | TResume c => cont_flight c | _ => 0 end.

(** What a step of task [t] at [k] does to the windows. *)
Record window_step (k : task) (s s' : conn) (k' : task) : Prop := mk_window_step {
  ws_other : forall obj, task_obj k <> Some obj -> send_window_of s obj <= send_window_of s' obj;
  ws_own : forall obj, task_obj k = Some obj ->
    task_flight k <= send_window_of s obj -> task_flight k' <= send_window_of s' obj;
  ws_flight : 0 <= task_flight k';
  ws_peer : peer_ok s';
  ws_closed : waiters_closed s';
}.

Definition flow_ok (s : conn) : Prop := peer_ok s /\ waiters_closed s.

Lemma flow_window_step k s s' k' :
  flow s s' -> flow_ok s -> task_flight k' = 0 -> 0 <= task_flight k -> window_step k s s' k'.
Proof.
  intros [Hw Hp Hc] [Hok Hcl] Hk' Hk. split; [| |lia|auto..].
  - intros obj _. apply Hw.
  - intros obj _ Hf. specialize (Hw obj). lia.
Qed.

(** Steps that leave the windows and slots alone. *)
Lemma still_window_step k (s s' : conn) k' :
  h2_heap s' = h2_heap s -> h2_streams s' = h2_streams s -> h2_send_window s' = h2_send_window s ->
  (peer_ok s -> peer_ok s') -> flow_ok s -> task_flight k' = task_flight k -> 0 <= task_flight k ->
  window_step k s s' k'.
Proof.
  intros Eh Es Ew Hp Hok Hk' Hk. destruct (flow_same s s' Eh Es Ew Hp) as [Hw _ Hc].
  destruct Hok as [Hok Hcl]. split; [|..|auto|auto].
  - intros obj _. apply Hw.
  - intros obj _ Hf. specialize (Hw obj). lia.
  - lia.
Qed.

Lemma flow_need t n (s : conn) after :
  (forall got s1, peer_ok s1 -> flow s1 (after got s1)) -> peer_ok s -> flow s (need t n s after).
Proof.
  intros Ha Hp. unfold need. destruct (_ <? n)%nat.
  - destruct (fill_more (h2_feed s)) as [[|] d]; by apply flow_same.
  - etrans; [|by apply Ha]. by apply flow_same.
Qed.

Lemma ksent_window_step obj allowed rest body remaining t (s : conn) :
  flow_ok s -> 0 <= allowed ->
  let k := TResume (KSent obj allowed rest body remaining) in
  window_step k s (after_send t (KSent obj allowed rest body remaining) s) (TChunk obj rest body remaining).
Proof.
  intros [Hp Hc] Ha k. cbn [after_send].
  set (g := fun st => hs_with_window (hs_send_window st - allowed) st).
  set (s1 := with_send_window (h2_send_window s - allowed) s).
  change (window_step k s (set_task t (TChunk obj rest body remaining) (update_stream obj g s1))
            (TChunk obj rest body remaining)).
  assert (forall o, stream_at s1 o = stream_at s o) as E1 by done.
  assert (forall o, send_window_of s o - allowed <= send_window_of (update_stream obj g s1) o <= send_window_of s o
    /\ hs_window_waiter (stream_at (update_stream obj g s1) o) = hs_window_waiter (stream_at s o)) as Hd.
  { intros o. unfold send_window_of. apply (stream_at_update_ind (fun st =>
      hs_send_window (stream_at s o) - allowed <= hs_send_window st <= hs_send_window (stream_at s o) /\
      hs_window_waiter st = hs_window_waiter (stream_at s o))); [rewrite E1; split; [lia|done]|].
    intros -> _. unfold g. rewrite E1. cbn [hs_with_window hs_send_window hs_window_waiter].
    split; [lia|done]. }
  split; cbn [task_flight]; [| |done|done|].
  - intros o Hno. unfold send_window_of. cbn. change (stream_at (set_task _ _ ?x) o) with (stream_at x o).
    rewrite stream_at_update_ne by (intros ->; by apply Hno). rewrite E1. done.
  - intros o [= <-] Hf. destruct (Hd obj) as [? _]. cbn in Hf. change (0 <= send_window_of (update_stream obj g s1) obj). lia.
  - intros id o u Hid Hu. change (hs_window_waiter (stream_at (update_stream obj g s1) o) = Some u) in Hu.
    destruct (Hd o) as [Hle E]. rewrite E in Hu. specialize (Hc id o u Hid Hu).
    unfold window_open in Hc |- *. unfold send_window_of in Hle.
    change (stream_at (set_task t (TChunk obj rest body remaining) (update_stream obj g s1)) o)
      with (stream_at (update_stream obj g s1) o).
    change (h2_send_window (set_task t (TChunk obj rest body remaining) (update_stream obj g s1)))
      with (h2_send_window s - allowed).
    apply andb_false_iff. apply andb_false_iff in Hc as [Hc|Hc]; apply Z.ltb_ge in Hc.
    + left. apply Z.ltb_ge. lia.
    + right. apply Z.ltb_ge. lia.
Qed.

Lemma send_chunk_window_step t obj rest body remaining (s : conn) :
  h2_tasks s !! t = Some (TChunk obj rest body remaining) -> flow_ok s ->
  exists k', h2_tasks (send_chunk t obj rest body remaining s) !! t = Some k' /\
    window_step (TChunk obj rest body remaining) s (send_chunk t obj rest body remaining s) k'.
Proof.
  intros Hk Hok. unfold send_chunk. destruct rest as [|b rest0] eqn:Er.
  { eexists. split; [by eapply insert_here|]. by apply still_window_step. }
  rewrite <-Er in *. destruct (window_open s obj) eqn:Eo; cbn [negb].
  - eexists. split; [by eapply insert_here|]. destruct Hok as [[Hpi Hpm] Hc].
    apply andb_true_iff in Eo as [Eo1 Eo2]. apply Z.ltb_lt in Eo1, Eo2.
    split; try done; cbn [task_flight cont_flight].
    + intros o [= <-] _. unfold allowed_now. change (send_window_of (set_task t _ s) obj) with (send_window_of s obj).
      unfold send_window_of. lia.
    + unfold allowed_now. lia.
  - eexists. split; [by eapply insert_here|].
    set (s1 := update_stream obj (hs_with_waiter (Some t)) s).
    change (window_step (TChunk obj rest body remaining) s
      (set_task t (TWindowWait obj rest body remaining) s1) (TWindowWait obj rest body remaining)).
    assert (forall o, send_window_of s1 o = send_window_of s o) as Hw.
    { intros o. unfold send_window_of, s1.
      by apply (stream_at_update_ind (fun st => hs_send_window st = hs_send_window (stream_at s o))); [|intros ->]. }
    destruct Hok as [Hp Hc]. split; [| |done|done|].
    + intros o _. change (send_window_of s o <= send_window_of s1 o). rewrite Hw. done.
    + intros o _ Hf. change (task_flight (TWindowWait obj rest body remaining) <= send_window_of s1 o).
      by rewrite Hw.
    + intros id o u Hid Hu. change (window_open s1 o = false). unfold window_open in *.
      unfold send_window_of in Hw. rewrite Hw. destruct (decide (o = obj)) as [->|Hne]; [done|].
      apply (Hc id o u Hid). unfold s1 in Hu.
      change (hs_window_waiter (stream_at (update_stream obj (hs_with_waiter (Some t)) s) o) = Some u) in Hu.
      by rewrite stream_at_update_ne in Hu.
Qed.

Lemma reader_flight k : task_obj k = None -> task_flight k = 0.
Proof. destruct k as [| | | | | | | |f []|f []|f r []|[]|]; done. Qed.

(** Every task keeps its stream, and all but the stepping one their data in
    flight; new tasks have none. *)
Record others (t : nat) (s s' : conn) : Prop := mk_others {
  ot_task : forall u k, h2_tasks s !! u = Some k -> exists k', h2_tasks s' !! u = Some k' /\
    task_obj k' = task_obj k /\ (u <> t -> task_flight k' = task_flight k);
  ot_new : forall u k, h2_tasks s !! u = None -> h2_tasks s' !! u = Some k -> exists obj, k = TStart obj;
}.

Lemma others_set t k k1 (s s' : conn) :
  h2_tasks s !! t = Some k -> task_obj k1 = task_obj k -> h2_tasks s' = <[t := k1]> (h2_tasks s) -> others t s s'.
Proof.
  intros Hk Ho E. split; intros u ku Hu; rewrite E; destruct (decide (u = t)) as [->|Hne];
    rewrite ?list_lookup_insert_ne by done; try congruence.
  - exists k1. split; [by eapply insert_here|]. split; [congruence|done].
  - eauto.
Qed.

Lemma others_local t k (s s' : conn) :
  h2_tasks s !! t = Some k -> local_step t s s' (next_of k) -> others t s s'.
Proof.
  intros Hk (s1 & k1 & He & -> & Hn & Ho). destruct (env_tasks _ _ He t k Hk) as (k0 & Hk0 & _).
  split; intros u ku Hu; (destruct (decide (u = t)) as [->|Hne];
    [|cbn; rewrite list_lookup_insert_ne by done]).
  - exists k1. rewrite Hk in Hu. injection Hu as <-. split; [by eapply insert_here|]. done.
  - destruct (env_tasks _ _ He u ku Hu) as (k' & -> & Hcase). exists k'. split; [done|].
    by destruct Hcase as [->|(? & ? & ? & ? & -> & ->)].
  - congruence.
  - by apply (env_new _ _ He).
Qed.

(** [unlock] lets the first waiter go on. *)
Lemma unlock_tasks (s : conn) :
  h2_tasks (unlock s) = h2_tasks s \/
  exists h f c, h2_tasks s !! h = Some (TLockWait f c) /\
    h2_tasks (unlock s) = <[h := TWrite f (out_bytes f) c]> (h2_tasks s).
Proof.
  unfold unlock. destruct (h2_waiters s) as [|h ws]; [by left|].
  destruct (h2_tasks s !! h) as [[]|] eqn:E; try (by left). right. by exists h, f, k.
Qed.

Lemma others_unlock t f c (s : conn) :
  h2_tasks s !! t = Some (TWrite f [] c) -> others t s (set_task t (TResume c) (unlock s)).
Proof.
  intros Hk. destruct (unlock_tasks s) as [E|(h & f1 & c1 & Hh & E)].
  { eapply (others_set _ _ (TResume c)); [done|done|]. cbn. by rewrite E. }
  assert (h <> t) as Hne by congruence. split; intros u ku Hu; cbn; rewrite E.
  - destruct (decide (u = t)) as [->|Hut]; [|rewrite list_lookup_insert_ne by done].
    + eexists. split; [eapply insert_here; rewrite list_lookup_insert_ne by done; exact Hk|].
      rewrite Hk in Hu. by injection Hu as <-.
    + destruct (decide (u = h)) as [->|Huh]; [|rewrite list_lookup_insert_ne by done; eauto].
      eexists. split; [by eapply insert_here|]. rewrite Hh in Hu. by injection Hu as <-.
  - intros Hu'. apply lookup_ge_None in Hu. apply lookup_lt_Some in Hu'. rewrite !length_insert in Hu'. lia.
Qed.

Lemma step_others t (s s' : conn) l : step handler t s = Some (s', l) -> others t s s'.
Proof.
  intros Hs. destruct (step_cases _ _ _ _ Hs) as (k & Hk & Hc).
  destruct k as [ | | | | | | | |f c|f c|f [|b rest] c| |]; try destruct Hc as [-> Hc]; try done;
    try (by eapply others_local); subst s'.
  - unfold lock. destruct (h2_locked s); (eapply others_set; [exact Hk| |reflexivity]); done.
  - by eapply others_unlock.
  - unfold write_some. destruct (st_write _ _) as [n w]. by eapply others_set; [exact Hk| |reflexivity].
Qed.

(** *** The windows over every step *)

Lemma window_step_reader t k (s s' : conn) l :
  step handler t s = Some (s', l) -> h2_tasks s !! t = Some k -> task_obj k = None ->
  lock_view k = None -> (forall f c, k <> TLock f c) -> flow_ok s -> flow s s'.
Proof.
  intros Hs Hk Ho Hv Hl [Hp Hc]. unfold step in Hs. rewrite Hk in Hs. cbn [mbind option_bind] in Hs.
  destruct k as [| |fh| | | | | |f c|f c|f r c|c|o]; try done; try (by destruct (Hl f c)).
  1-3: injection Hs as <- <-; apply flow_need; [|done]; intros got s1 Hp1.
  - unfold on_preface. destruct (bytes_eqb _ _); by apply flow_same.
  - unfold on_header. destruct (frame_header_parse got); [destruct (_ <? _)|]; by apply flow_same.
  - by apply flow_on_frame.
  - injection Hs as <- <-. destruct c; try done; cbn [after_send]; try (by apply flow_same).
    etrans; [apply flow_data_end|by apply flow_same].
Qed.

Lemma flow_erase id (s : conn) : flow s (erase_stream id s).
Proof. split; [done|done|]. intros _ Hc id' o u. cbn. intros [_ Hid]%lookup_delete_Some. by apply (Hc id'). Qed.

Lemma flow_finish t obj (s : conn) : flow s (finish_stream t obj s).
Proof. unfold finish_stream. etrans; [apply flow_erase|by apply flow_same]. Qed.

Lemma write_response_flight obj (resp : response W) (s : conn) : task_flight (write_response obj resp s) = 0.
Proof. destruct (write_response_next obj resp s) as (f & c & -> & [->|(b & n & ->)]); done. Qed.

Lemma window_step_stream t k obj (s s' : conn) l :
  step handler t s = Some (s', l) -> h2_tasks s !! t = Some k -> task_obj k = Some obj ->
  lock_view k = None -> (forall f c, k <> TLock f c) -> flow_ok s -> 0 <= task_flight k ->
  exists k', h2_tasks s' !! t = Some k' /\ window_step k s s' k'.
Proof.
  intros Hs Hk Ho Hv Hl Hok Hf. unfold step in Hs. rewrite Hk in Hs. cbn [mbind option_bind] in Hs.
  assert (forall k1 s1, flow s s1 -> h2_tasks s1 = h2_tasks s -> task_flight k1 = 0 ->
    exists k', h2_tasks (set_task t k1 s1) !! t = Some k' /\ window_step k s (set_task t k1 s1) k') as Hset.
  { intros k1 s1 Hfl E1 E2. exists k1. split; [cbn; rewrite E1; by eapply insert_here|].
    apply flow_window_step; [|done..]. etrans; [exact Hfl|]. by apply flow_same. }
  pose proof (fun r => write_response_flight obj r s) as Hwr.
  destruct k as [| |fh|o|o req|o body rem|o rest body rem|o rest body rem|f c|f c|f r c|c|o]; try done;
    try (by destruct (Hl f c)); try injection Ho as ->; try injection Hs as <- <-.
  - unfold start_stream. destruct (hs_malformed _); [by apply Hset|]. apply Hset; [by apply flow_update|done..].
  - unfold run_handler, finish_stream. destruct handler as [h|]; [|by apply Hset].
    destruct (h req) as [[resp ?]|]; [by apply Hset|]. apply Hset; [apply flow_erase|done..].
  - unfold read_body, end_body. destruct (rem =? 0); [by apply Hset|].
    destruct (st_read _ body) as [[|b buf] body']; by apply Hset.
  - by apply send_chunk_window_step.
  - destruct c as [| | | |o body rem|o allowed rest body rem|o]; try done; injection Ho as ->.
    + by apply Hset.
    + eexists. split; [cbn [after_send set_task with_tasks h2_tasks]; by eapply insert_here|].
      by apply ksent_window_step.
    + cbn [after_send]. unfold finish_stream. apply Hset; [apply flow_erase|done..].
Qed.

Lemma window_step_all t k (s s' : conn) l :
  step handler t s = Some (s', l) -> h2_tasks s !! t = Some k -> flow_ok s -> 0 <= task_flight k ->
  exists k', h2_tasks s' !! t = Some k' /\ window_step k s s' k'.
Proof.
  intros Hs Hk Hok Hf.
  destruct (ot_task _ _ _ (step_others _ _ _ _ Hs) t k Hk) as (k' & Hk' & Ho' & _).
  assert (forall k1, h2_tasks s' !! t = Some k1 -> h2_heap s' = h2_heap s -> h2_streams s' = h2_streams s ->
    h2_send_window s' = h2_send_window s -> (peer_ok s -> peer_ok s') -> task_flight k1 = task_flight k ->
    exists k', h2_tasks s' !! t = Some k' /\ window_step k s s' k') as Hstill.
  { intros k1 ? ? ? ? ? ?. exists k1. split; [done|]. by apply still_window_step. }
  assert ((lock_view k = None /\ forall f c, k <> TLock f c) \/
    match k with TLock _ _ | TLockWait _ _ | TWrite _ _ _ => True | _ => False end) as [[Hv Hl]|Hn]
    by (destruct k; auto; by left).
  - destruct (task_obj k) as [obj|] eqn:Ho; [by eapply window_step_stream|].
    exists k'. split; [done|]. apply flow_window_step; [by eapply window_step_reader|done| |done].
    apply reader_flight. congruence.
  - destruct (step_cases _ _ _ _ Hs) as (k0 & Hk0 & Hc). rewrite Hk in Hk0. injection Hk0 as <-.
    destruct k as [ | | | | | | | |f c|f c|f [|b rest] c| |]; try done.
    all: destruct Hc as [-> ->].
    + unfold lock in *. destruct (h2_locked s); (eapply Hstill; [by eapply insert_here|done..]).
    + assert (h2_heap (unlock s) = h2_heap s /\ h2_streams (unlock s) = h2_streams s /\
        h2_send_window (unlock s) = h2_send_window s /\ (peer_ok s -> peer_ok (unlock s))) as (? & ? & ? & ?).
      { unfold unlock. destruct (h2_waiters s) as [|h ws]; [done|]. by destruct (h2_tasks s !! h) as [[]|]. }
      apply (Hstill (TResume c)); try done. cbn. eapply insert_here.
      destruct (unlock_tasks s) as [->|(h & f1 & c1 & Hh & ->)]; [exact Hk|].
      rewrite list_lookup_insert_ne by congruence. exact Hk.
    + unfold write_some in *. destruct (st_write _ _) as [n w]. eapply Hstill; [by eapply insert_here|done..].
Qed.

(** *** The invariant *)

(** At most [t] answers the stream. *)
Definition sole (s : conn) (t obj : nat) : Prop :=
  forall u k, h2_tasks s !! u = Some k -> task_obj k = Some obj -> u = t.

Record flow_inv (s : conn) : Prop := mk_flow_inv {
  fi_ok : flow_ok s;
  fi_flight : forall t k, h2_tasks s !! t = Some k -> 0 <= task_flight k;
  fi_sole : forall t k obj, h2_tasks s !! t = Some k -> task_obj k = Some obj -> sole s t obj ->
    task_flight k <= send_window_of s obj;
  fi_idle : forall obj, (forall t k, h2_tasks s !! t = Some k -> task_obj k <> Some obj) ->
    0 <= send_window_of s obj;
}.

Lemma flow_inv_step t (s s' : conn) l : step handler t s = Some (s', l) -> flow_inv s -> flow_inv s'.
Proof.
  intros Hs [Hok Hfl Hsole Hidle]. destruct (step_cases _ _ _ _ Hs) as (k & Hk & _).
  destruct (window_step_all _ _ _ _ _ Hs Hk Hok (Hfl _ _ Hk)) as (k' & Hk' & [W1 W2 W3 W4 W5]).
  destruct (step_others _ _ _ _ Hs) as [Hot Hnew].
  assert (task_obj k' = task_obj k) as Ho'.
  { destruct (Hot t k Hk) as (k2 & E & Ho & _). rewrite Hk' in E. by injection E as <-. }
  assert (forall u obj, sole s' u obj -> sole s u obj) as Hback.
  { intros u obj Hu v kv Hv Hov. destruct (Hot v kv Hv) as (kv' & Hv' & Hov' & _).
    apply (Hu v kv'); congruence. }
  split; [done|..].
  - intros u ku Hu. destruct (decide (u = t)) as [->|Hne]; [congruence|].
    destruct (h2_tasks s !! u) as [k0|] eqn:E0.
    + destruct (Hot u k0 E0) as (k1 & E1 & _ & Ef). rewrite Hu in E1. injection E1 as <-.
      rewrite Ef by done. by eapply Hfl.
    + by destruct (Hnew u ku E0 Hu) as [obj ->].
  - intros u ku obj Hu Hou Hs1. destruct (decide (u = t)) as [->|Hne].
    { rewrite Hk' in Hu. injection Hu as <-. rewrite Ho' in Hou. apply W2; [done|].
      apply (Hsole t); [done..|]. by apply Hback. }
    assert (task_obj k <> Some obj) as Hnk.
    { intros E. apply Hne. symmetry. apply (Hs1 t k'); congruence. }
    specialize (W1 obj Hnk). destruct (h2_tasks s !! u) as [k0|] eqn:E0.
    + destruct (Hot u k0 E0) as (k1 & E1 & Eo & Ef). rewrite Hu in E1. injection E1 as <-.
      rewrite Ef by done. etrans; [|exact W1]. apply (Hsole u); [done|congruence|]. by apply Hback.
    + destruct (Hnew u ku E0 Hu) as [o ->]. etrans; [|exact W1]. cbn. apply Hidle.
      intros v kv Hv Hov. assert (v = u) as -> by (by apply (Hback u obj Hs1 v kv)). congruence.
  - intros obj Hno. assert (task_obj k <> Some obj) as Hnk by (rewrite <-Ho'; by apply (Hno t)).
    etrans; [|by apply W1]. apply Hidle. intros v kv Hv Hov.
    destruct (Hot v kv Hv) as (kv' & Hv' & Hov' & _). apply (Hno v kv'); congruence.
Qed.

Lemma flow_inv_new (w : W) leftover : flow_inv (connection_h2_new w leftover).
Proof.
  split.
  - split; [split; cbn; lia|]. intros id obj t. cbn. by rewrite lookup_empty.
  - intros [|t] k Hk; [by injection Hk as <-|done].
  - intros [|t] k obj Hk; [by injection Hk as <-|done].
  - intros obj _. unfold send_window_of, stream_at. cbn. done.
Qed.

Lemma flow_inv_reach (w : W) leftover tr s :
  reach handler (connection_h2_new w leftover) tr s -> flow_inv s.
Proof.
  intros Hr. induction Hr as [|tr s t s' l _ IH Hs]; [apply flow_inv_new|]. by eapply flow_inv_step.
Qed.
End Facts.
