(* ===== verification/ConnectionH2Delivery.v ===== *)
(** * ConnectionH2Delivery: responses over HTTP/2 are delivered in full

    Over every schedule, the frames one stream's coroutine has written are a
    prefix of its response: the HEADERS frame, DATA frames that cut the body
    in order, and an END_STREAM.  First, pointers stay valid and a stream
    keeps its identifier. *)

From S2P Require Import Prelude Bytes Stream Feeder Method Header Resource QueryString UrlEncode Server.
From S2P Require Import Frame Hpack ConnectionH2 ConnectionH2Facts.

#[local] Open Scope Z_scope.

Section Delivery.
Context {W : Type} `{StreamDuplex W}.
Context (handler : option (request memory_stream -> option (response W * request memory_stream))).

Abbreviation conn := (conn_h2 W).

(** ** Pointers *)

Definition cont_ref (k : cont) : option nat :=
  match k with
  | KData2 _ obj | KDataEnd _ obj | KBody obj _ _ | KSent obj _ _ _ _ | KFinish obj => Some obj
  | KLoop | KStop => None
  end.

Definition task_ref (k : task) : option nat :=
  match k with
  | TLock _ c | TLockWait _ c | TWrite _ _ c | TResume c => cont_ref c
  | _ => task_obj k
  end.

Definition task_valid (s : conn) (k : task) : Prop :=
  forall obj, task_ref k = Some obj -> (obj < length (h2_heap s))%nat.

Record valid (s : conn) : Prop := mk_valid {
  va_streams : forall id obj, h2_streams s !! id = Some obj -> (obj < length (h2_heap s))%nat;
  va_tasks : forall t k, h2_tasks s !! t = Some k -> task_valid s k;
}.

(** The heap only grows, and identifiers stay. *)
Definition heap_le (s s' : conn) : Prop := forall obj st,
  h2_heap s !! obj = Some st -> exists st', h2_heap s' !! obj = Some st' /\ hs_id st' = hs_id st.

#[global] Instance heap_le_PreOrder : PreOrder heap_le.
Proof.
  split; [intros s obj st ?; eauto|]. intros a b c H1' H2' obj st E.
  destruct (H1' obj st E) as (st1 & E1 & Ei1). destruct (H2' obj st1 E1) as (st2 & E2 & Ei2).
  exists st2. split; [done|congruence].
Qed.

Lemma heap_le_length s s' : heap_le s s' -> (length (h2_heap s) <= length (h2_heap s'))%nat.
Proof.
  intros Hle. destruct (Nat.le_gt_cases (length (h2_heap s)) (length (h2_heap s'))) as [|Hlt]; [done|].
  destruct (lookup_lt_is_Some_2 _ _ Hlt) as [st E]. destruct (Hle _ _ E) as (st' & E' & _).
  apply lookup_lt_Some in E'. lia.
Qed.

Lemma heap_le_id s s' obj :
  heap_le s s' -> (obj < length (h2_heap s))%nat -> hs_id (stream_at s' obj) = hs_id (stream_at s obj).
Proof.
  intros Hle Hl. destruct (lookup_lt_is_Some_2 _ _ Hl) as [st E]. destruct (Hle _ _ E) as (st' & E' & Hi).
  unfold stream_at. by rewrite E, E'.
Qed.

Lemma task_valid_le s s' k : heap_le s s' -> task_valid s k -> task_valid s' k.
Proof. intros Hle Hv obj Ho. apply heap_le_length in Hle. specialize (Hv obj Ho). lia. Qed.

Record sound (s s' : conn) : Prop := mk_sound { so_heap : heap_le s s'; so_valid : valid s -> valid s' }.

#[global] Instance sound_PreOrder : PreOrder sound.
Proof. split; [by split|]. intros a b c [] []. split; [by etrans|auto]. Qed.

Lemma sound_same (s s' : conn) :
  h2_heap s' = h2_heap s -> h2_streams s' = h2_streams s -> h2_tasks s' = h2_tasks s -> sound s s'.
Proof.
  intros Eh Es Et. split.
  - intros obj st. rewrite Eh. eauto.
  - intros [V1 V2]. split; unfold task_valid; rewrite ?Eh, ?Es, ?Et; [done|]. apply V2.
Qed.

Lemma sound_set t k (s : conn) : task_valid s k -> sound s (set_task t k s).
Proof.
  intros Hk. split; [by intros obj st ?; eauto|]. intros [V1 V2]. split; [done|]. cbn. intros u ku Hu.
  destruct (decide (u = t)) as [->|Hne]; [|rewrite list_lookup_insert_ne in Hu by done; by apply (V2 u)].
  destruct (decide (t < length (h2_tasks s))%nat).
  - rewrite list_lookup_insert_eq in Hu by done. by injection Hu as <-.
  - rewrite list_insert_ge in Hu by lia. by apply (V2 t).
Qed.

Lemma sound_update obj g (s : conn) :
  hs_id (g (stream_at s obj)) = hs_id (stream_at s obj) -> sound s (update_stream obj g s).
Proof.
  intros Hg.
  assert (heap_le s (update_stream obj g s)) as Hle.
  { intros o st E. cbn. destruct (decide (o = obj)) as [->|Hne].
    - rewrite list_lookup_alter_eq, E. eexists. split; [done|]. unfold stream_at in Hg. by rewrite E in Hg.
    - rewrite list_lookup_alter_ne by done. eauto. }
  split; [done|]. intros [V1 V2]. split.
  - intros id o Hid. cbn. rewrite length_alter. by apply (V1 id).
  - intros t k Hk. apply (task_valid_le s); [done|]. by apply (V2 t).
Qed.

Lemma sound_dispatch obj (s : conn) : (obj < length (h2_heap s))%nat -> sound s (dispatch_stream obj s).
Proof.
  intros Ho. split; [by intros o st ?; eauto|]. intros [V1 V2]. split; [done|].
  intros t k Hk. cbn in Hk. apply lookup_app_Some in Hk as [Hk|[_ Hk]]; [by apply (V2 t)|].
  destruct (t - length (h2_tasks s))%nat; [|done]. injection Hk as <-. intros o [= <-]. done.
Qed.

Lemma sound_wake (s : conn) t : sound s (wake s t).
Proof.
  unfold wake. destruct (h2_tasks s !! t) as [k|] eqn:E; [|done]. destruct k; try done.
  split; [by intros o st ?; eauto|]. intros [V1 V2]. split; [done|]. cbn. intros u ku Hu.
  destruct (decide (u = t)) as [->|Hne]; [|rewrite list_lookup_insert_ne in Hu by done; by apply (V2 u)].
  rewrite (insert_here _ _ _ _ E) in Hu. injection Hu as <-. apply (V2 t _ E).
Qed.

Lemma sound_fold {A} (f : conn -> A -> conn) l (s : conn) :
  (forall s a, sound s (f s a)) -> sound s (fold_left f l s).
Proof.
  intros Hf. revert s. induction l as [|a l IH]; intros s; [done|]. cbn. etrans; [apply Hf|apply IH].
Qed.

Lemma sound_new_stream id st (s : conn) :
  sound s (with_streams (<[id := length (h2_heap s)]> (h2_streams s)) (with_heap (h2_heap s ++ [st]) s)).
Proof.
  set (s' := with_streams _ _).
  assert (heap_le s s') as Hle.
  { intros o st0 E. exists st0. split; [|done]. cbn. by apply lookup_app_l_Some. }
  split; [done|]. intros [V1 V2]. split.
  - intros id' o. cbn. rewrite length_app. cbn.
    intros [[_ <-]|[_ Hid]]%lookup_insert_Some; [lia|]. specialize (V1 _ _ Hid). lia.
  - intros t k Hk. apply (task_valid_le s); [done|]. by apply (V2 t).
Qed.

(** ** The handlers *)

Lemma finish_header_block_id d st : hs_id (finish_header_block d st).2 = hs_id st.
Proof.
  assert (forall fields st0, hs_id (fold_left apply_field fields st0) = hs_id st0) as Hf.
  { intros fields. induction fields as [|f fields IH]; intros st0; [done|]. cbn [fold_left].
    rewrite IH. unfold apply_field. repeat (case_match; try done). }
  unfold finish_header_block. destruct (hpack_decode _ _ _ _) as [[[[|] d'] fields]|]; [apply Hf|done..].
Qed.

Lemma heap_length_update obj g (s : conn) : length (h2_heap (update_stream obj g s)) = length (h2_heap s).
Proof. cbn. apply length_alter. Qed.

Lemma sound_complete_headers obj (s : conn) :
  (obj < length (h2_heap s))%nat -> sound s (complete_headers obj s).
Proof.
  intros Ho. unfold complete_headers. pose proof (finish_header_block_id (h2_hpack s) (stream_at s obj)) as Hi.
  destruct (finish_header_block _ _) as [d st]. cbn [snd] in Hi.
  transitivity (with_hpack d s); [by apply sound_same|]. set (s1 := update_stream obj _ _).
  assert (sound (with_hpack d s) s1) as Hs by by apply sound_update.
  destruct (hs_end_stream st || hs_malformed st); [|done]. etrans; [exact Hs|].
  apply sound_dispatch. unfold s1. by rewrite heap_length_update.
Qed.

Lemma sound_data_end fh obj (s : conn) : (obj < length (h2_heap s))%nat -> sound s (data_end fh obj s).
Proof.
  intros Ho. unfold data_end. destruct (has_flag fh flag_end_stream); [|done].
  assert (sound s (update_stream obj hs_set_end_stream s)) as Hs by by apply sound_update.
  destruct (hs_end_headers _); [|done]. etrans; [exact Hs|]. apply sound_dispatch. by rewrite heap_length_update.
Qed.

Lemma sound_wake_all (s : conn) : sound s (wake_all s).
Proof.
  unfold wake_all. etrans; [|apply sound_fold, sound_wake]. apply sound_fold. intros. by apply sound_update.
Qed.

Lemma sound_settings ps (s : conn) : sound s (fold_left apply_setting ps s).
Proof.
  apply sound_fold. intros s1 p. unfold apply_setting.
  destruct (sp_id p =? _); [by apply sound_same|]. destruct (sp_id p =? _); [by apply sound_same|done].
Qed.

Lemma task_valid_none (s : conn) k : task_ref k = None -> task_valid s k.
Proof. intros E obj. by rewrite E. Qed.

Lemma sound_headers fh payload (s s' : conn) k :
  handle_headers fh payload s = Some (s', k) -> sound s s' /\ task_valid s' k.
Proof.
  unfold handle_headers. intros E. destruct (_ || _); [done|].
  destruct (strip_padding _ _) as [[len0 off0]|]; [|done]. cbn [mbind option_bind] in E.
  destruct (if has_flag fh flag_priority then _ else _) as [[len off]|]; [|done].
  cbn [mbind option_bind] in E. set (st := h2_stream_new _ _ _ _) in E.
  pose proof (sound_new_stream (fh_stream_id fh) st s) as Hn.
  destruct (has_flag fh flag_end_headers); injection E as <- <-; (split; [|by apply task_valid_none]).
  - etrans; [|apply sound_complete_headers; cbn; rewrite length_app; cbn; lia].
    etrans; [exact Hn|]. by apply sound_same.
  - etrans; [exact Hn|]. by apply sound_same.
Qed.

Lemma sound_continuation fh payload (s s' : conn) k :
  valid s -> handle_continuation fh payload s = Some (s', k) -> sound s s' /\ task_valid s' k.
Proof.
  unfold handle_continuation. intros Hv E. destruct (_ || _); [done|].
  destruct (h2_streams s !! fh_stream_id fh) as [obj|] eqn:Eo; [|done]. cbn [mbind option_bind] in E.
  apply (va_streams _ Hv) in Eo.
  assert (sound s (update_stream obj (hs_append_block payload) s)) as Hs by by apply sound_update.
  destruct (has_flag fh flag_end_headers); injection E as <- <-; (split; [|by apply task_valid_none]); [|done].
  etrans; [|apply sound_complete_headers; cbn; by rewrite length_alter]. etrans; [exact Hs|]. by apply sound_same.
Qed.

Lemma sound_data fh payload (s s' : conn) k :
  valid s -> handle_data fh payload s = Some (s', k) -> sound s s' /\ task_valid s' k.
Proof.
  unfold handle_data. intros Hv E. destruct (h2_streams s !! fh_stream_id fh) as [obj|] eqn:Eo.
  2:{ injection E as <- <-. split; [done|by apply task_valid_none]. }
  apply (va_streams _ Hv) in Eo.
  destruct (strip_padding _ _) as [[len off]|]; [|done]. cbn [mbind option_bind] in E.
  destruct (max_request_body_size <? _); [done|]. set (g := hs_append_body _) in E.
  assert (sound s (update_stream obj g s)) as Hs by by apply sound_update.
  destruct (0 <? fh_length fh); injection E as <- <-.
  - split; [done|]. intros o [= <-]. by rewrite heap_length_update.
  - split; [|by apply task_valid_none]. etrans; [exact Hs|]. apply sound_data_end. by rewrite heap_length_update.
Qed.

Lemma sound_window_update fh payload (s s' : conn) k :
  handle_window_update fh payload s = Some (s', k) -> sound s s' /\ task_valid s' k.
Proof.
  unfold handle_window_update. intros E.
  destruct (parse_window_update_payload payload) as [inc|]; [|done]. cbn [mbind option_bind] in E.
  destruct (inc =? 0); [done|]. destruct (fh_stream_id fh =? 0).
  { injection E as <- <-. split; [|by apply task_valid_none]. etrans; [|apply sound_wake_all]. by apply sound_same. }
  destruct (h2_streams s !! fh_stream_id fh) as [obj|].
  2:{ injection E as <- <-. split; [done|by apply task_valid_none]. }
  set (g := fun st => hs_with_window _ st) in E.
  assert (sound s (update_stream obj g s)) as Hs by by apply sound_update.
  destruct (hs_window_waiter _) as [u|]; injection E as <- <-; (split; [|by apply task_valid_none]); [|done].
  etrans; [exact Hs|]. etrans; [|apply sound_wake]. by apply sound_update.
Qed.

Lemma sound_on_frame t fh payload (s : conn) : valid s -> sound s (on_frame t fh payload s).
Proof.
  intros Hv. unfold on_frame.
  assert (forall k s1, task_valid s1 k /\ sound s s1 -> sound s (set_task t k s1)) as Hset.
  { intros k s1 [Hk Hs]. etrans; [exact Hs|by apply sound_set]. }
  destruct (fh_type fh); try (by apply sound_set, task_valid_none).
  all: try match goal with
       | |- context [match ?o with Some _ => _ | None => _ end] =>
           destruct o as [[s1 k]|] eqn:E; [apply Hset, and_comm|by apply sound_set, task_valid_none]
       end.
  - by eapply sound_data.
  - by eapply sound_headers.
  - apply Hset. split; [by apply task_valid_none|]. split; [by intros o st ?; eauto|]. intros [V1 V2].
    split; [|done]. cbn. intros id o [_ Hid]%lookup_delete_Some. by apply (V1 id).
  - unfold handle_settings in E. destruct (negb _); [done|]. destruct (has_flag _ _).
    + injection E as <- <-. split; [done|by apply task_valid_none].
    + destruct (parse_settings_payload payload) as [ps|]; [|done]. injection E as <- <-.
      split; [apply sound_settings|by apply task_valid_none].
  - unfold handle_ping in E. destruct (_ || _); [done|].
    destruct (has_flag _ _); injection E as <- <-; (split; [done|by apply task_valid_none]).
  - by eapply sound_window_update.
  - by eapply sound_continuation.
Qed.

Lemma sound_finish t obj (s : conn) : (obj < length (h2_heap s))%nat -> sound s (finish_stream t obj s).
Proof.
  intros Ho. unfold finish_stream. etrans; [|apply sound_set].
  - split; [by intros o st ?; eauto|]. intros [V1 V2]. split; [|done]. cbn.
    intros id o [_ Hid]%lookup_delete_Some. by apply (V1 id).
  - by intros o [= <-].
Qed.

Lemma write_response_valid obj (resp : response W) (s s1 : conn) :
  (obj < length (h2_heap s1))%nat -> task_valid s1 (write_response obj resp s).
Proof.
  intros Ho. destruct (write_response_next obj resp s) as (f & c & -> & [->|(b & n & ->)]); by intros o [= <-].
Qed.

Lemma sound_need t n (s : conn) after :
  (forall got s1, valid s1 -> sound s1 (after got s1)) -> valid s -> sound s (need t n s after).
Proof.
  intros Ha Hv. unfold need. destruct (_ <? n)%nat.
  - destruct (fill_more (h2_feed s)) as [[|] d]; [by apply sound_same|].
    etrans; [|by apply sound_set, task_valid_none]. by apply sound_same.
  - set (s1 := with_feed _ s). assert (sound s s1) as Hs by by apply sound_same.
    etrans; [exact Hs|]. by apply Ha, (so_valid _ _ Hs).
Qed.

Lemma sound_after_send t k (s : conn) : task_valid s (TResume k) -> sound s (after_send t k s).
Proof.
  intros Hk. unfold task_valid in Hk. cbn in Hk. destruct k; cbn [after_send];
    try (apply sound_set; intros o; cbn; intros Ho; by apply Hk).
  - etrans; [|by apply sound_set, task_valid_none]. apply sound_data_end. by apply Hk.
  - set (s1 := update_stream _ _ _).
    assert (sound s s1) as Hs.
    { unfold s1. transitivity (with_send_window (h2_send_window s - allowed) s); [by apply sound_same|].
      by apply sound_update. }
    etrans; [exact Hs|]. apply sound_set. intros o [= <-]. unfold s1. rewrite heap_length_update. by apply Hk.
  - apply sound_finish. by apply Hk.
Qed.

Lemma sound_stream t k (s s' : conn) l :
  h2_tasks s !! t = Some k -> step handler t s = Some (s', l) -> task_valid s k ->
  match k with TStart _ | THandle _ _ | TBody _ _ _ | TChunk _ _ _ _ => True | _ => False end -> sound s s'.
Proof.
  intros Hk Hs Hkv Hc. unfold step in Hs. rewrite Hk in Hs. cbn [mbind option_bind] in Hs.
  unfold task_valid in Hkv. destruct k; try done; injection Hs as <- <-; specialize (Hkv obj eq_refl).
  - unfold start_stream. destruct (hs_malformed _); [by apply sound_set, write_response_valid|].
    etrans; [apply (sound_update obj (hs_with_headers [])); done|]. apply sound_set. intros o [= <-].
    by rewrite heap_length_update.
  - unfold run_handler. destruct handler as [h|]; [|by apply sound_set, write_response_valid].
    destruct (h req) as [[resp r]|]; [by apply sound_set, write_response_valid|by apply sound_finish].
  - unfold read_body, end_body. destruct (remaining =? 0); [by apply sound_set; intros o [= <-]|].
    destruct (st_read _ body) as [[|b buf] body']; by apply sound_set; intros o [= <-].
  - unfold send_chunk. destruct rest; [by apply sound_set; intros o [= <-]|].
    destruct (negb (window_open s obj)); [|by apply sound_set; intros o [= <-]].
    etrans; [apply (sound_update obj (hs_with_waiter (Some t))); done|]. apply sound_set. intros o [= <-].
    by rewrite heap_length_update.
Qed.

Lemma sound_unlock (s : conn) : sound s (unlock s).
Proof.
  unfold unlock. destruct (h2_waiters s) as [|h ws]; [by apply sound_same|].
  destruct (h2_tasks s !! h) as [k|] eqn:E; [|by apply sound_same].
  destruct k; try (by apply sound_same). split; [by intros o st ?; eauto|]. intros [V1 V2].
  split; [done|]. cbn. intros u ku Hu. specialize (V2 u) as V3.
  destruct (decide (u = h)) as [->|Hne]; [|rewrite list_lookup_insert_ne in Hu by done; by apply V3].
  rewrite (insert_here _ _ _ _ E) in Hu. injection Hu as <-. apply (V2 h _ E).
Qed.

Lemma sound_step t (s s' : conn) l : step handler t s = Some (s', l) -> valid s -> sound s s'.
Proof.
  intros Hs Hv. destruct (step_cases _ _ _ _ _ Hs) as (k & Hk & Hc). pose proof (va_tasks _ Hv _ _ Hk) as Hkv.
  destruct k as [ | | | | | | | |f c|f c|f [|b rest] c|c|]; try (by eapply sound_stream).
  all: unfold step in Hs; rewrite Hk in Hs; cbn [mbind option_bind] in Hs; try done.
  all: injection Hs as <- <-.
  - apply sound_need; [|done]. intros got s1 _. unfold on_preface.
    destruct (bytes_eqb _ _); by apply sound_set, task_valid_none.
  - apply sound_need; [|done]. intros got s1 _. unfold on_header.
    destruct (frame_header_parse got); [destruct (_ <? _)|]; by apply sound_set, task_valid_none.
  - apply sound_need; [|done]. intros got s1. apply sound_on_frame.
  - unfold lock. destruct (h2_locked s); (etrans; [|by apply sound_set]); by apply sound_same.
  - etrans; [apply sound_unlock|]. apply sound_set. intros o Ho. specialize (Hkv o Ho).
    pose proof (heap_le_length _ _ (so_heap _ _ (sound_unlock s))). lia.
  - unfold write_some. destruct (st_write _ _) as [n w]. etrans; [|by apply sound_set]. by apply sound_same.
  - by apply sound_after_send.
Qed.

Lemma valid_reach (w : W) leftover tr s : reach handler (connection_h2_new w leftover) tr s -> valid s.
Proof.
  intros Hr. induction Hr as [|tr s t s' l _ IH Hs].
  - split; [intros id obj; cbn; by rewrite lookup_empty|]. intros [|t] k Hk; [|done]. injection Hk as <-.
    by apply task_valid_none.
  - by apply (so_valid _ _ (sound_step _ _ _ _ Hs IH)).
Qed.

(** ** Responses as sequences of frames *)

(** The part of a body a response of length [n] carries; negative is all. *)
Definition limit (n : Z) (data : bytes) : bytes := if 0 <=? n then take (Z.to_nat n) data else data.

(** The response [write_response] sends and its HEADERS frame. *)
Definition effective (resp : response W) : response W :=
  match resp_upgrade_handler resp with Some _ => make_response 501 | None => resp end.

(** The body that follows the headers, if any. *)
Definition body_of (resp : response W) : option any_stream :=
  if resp_content_length (effective resp) =? 0 then None else resp_body (effective resp).

Definition head_frame (id : Z) (resp : response W) : out_frame :=
  mk_out ft_headers
    (match body_of resp with Some _ => flag_end_headers | None => Z.lor flag_end_headers flag_end_stream end)
    id (hpack_encode (response_fields (effective resp))).

Lemma write_response_eq obj (resp : response W) (s : conn) :
  write_response obj resp s =
  TLock (head_frame (hs_id (stream_at s obj)) resp)
    (match body_of resp with
     | Some body => KBody obj body (resp_content_length (effective resp))
     | None => KFinish obj
     end).
Proof.
  unfold write_response, head_frame, body_of. fold (effective resp).
  by destruct (resp_content_length (effective resp) =? 0), (resp_body (effective resp)).
Qed.

(** Where a coroutine is in its response: what it has sent and what it will
    still read make the whole. *)
Definition pending (k : task) : option (out_frame * cont) :=
  match k with TLock f c | TLockWait f c | TWrite f _ c => Some (f, c) | _ => None end.

Definition content (resp : response W) (body : any_stream) : bytes :=
  limit (resp_content_length (effective resp)) (st_data body).

Inductive on_track (resp : response W) (id : Z) (obj : nat) : list out_frame -> task -> Prop :=
| OT_head k c :
    pending k = Some (head_frame id resp, c) ->
    c = match body_of resp with
        | Some body => KBody obj body (resp_content_length (effective resp))
        | None => KFinish obj
        end ->
    on_track resp id obj [] k
| OT_headed c :
    c = match body_of resp with
        | Some body => KBody obj body (resp_content_length (effective resp))
        | None => KFinish obj
        end ->
    on_track resp id obj [head_frame id resp] (TResume c)
| OT_body body0 parts body rem k :
    body_of resp = Some body0 -> st_ok body -> concat parts ++ limit rem (st_data body) = content resp body0 ->
    k = TBody obj body rem -> on_track resp id obj (head_frame id resp :: map (data_frame id) parts) k
| OT_chunk body0 parts rest body rem k :
    body_of resp = Some body0 -> st_ok body ->
    concat parts ++ rest ++ limit rem (st_data body) = content resp body0 ->
    (k = TChunk obj rest body rem \/ k = TWindowWait obj rest body rem \/
     exists allowed, k = TResume (KSent obj allowed rest body rem)) ->
    on_track resp id obj (head_frame id resp :: map (data_frame id) parts) k
| OT_data body0 parts p allowed rest body rem k :
    body_of resp = Some body0 -> st_ok body ->
    concat parts ++ p ++ rest ++ limit rem (st_data body) = content resp body0 ->
    pending k = Some (data_frame id p, KSent obj allowed rest body rem) ->
    on_track resp id obj (head_frame id resp :: map (data_frame id) parts) k
| OT_end body0 parts k :
    body_of resp = Some body0 -> concat parts = content resp body0 ->
    pending k = Some (end_frame id, KFinish obj) ->
    on_track resp id obj (head_frame id resp :: map (data_frame id) parts) k
| OT_ended body0 parts k :
    body_of resp = Some body0 -> concat parts = content resp body0 ->
    k = TResume (KFinish obj) \/ k = TDone (Some obj) ->
    on_track resp id obj (head_frame id resp :: map (data_frame id) parts ++ [end_frame id]) k
| OT_done : body_of resp = None -> on_track resp id obj [head_frame id resp] (TDone (Some obj)).

(** ** Other coroutines' steps *)

Definition resumed (k k' : task) : Prop :=
  k' = k \/ woken k k' \/ exists f c, k = TLockWait f c /\ k' = TWrite f (out_bytes f) c.

Lemma step_resumed t u k (s s' : conn) l :
  step handler t s = Some (s', l) -> u <> t -> h2_tasks s !! u = Some k ->
  exists k', h2_tasks s' !! u = Some k' /\ resumed k k'.
Proof.
  intros Hs Hne Hu. destruct (step_cases _ _ _ _ _ Hs) as (kt & Hkt & Hc).
  assert (local_step t s s' (next_of kt) -> exists k', h2_tasks s' !! u = Some k' /\ resumed k k') as Hlocal.
  { intros (s1 & k1 & He & -> & _). destruct (env_tasks _ _ He u k Hu) as (k' & Hk' & Hcase). exists k'.
    cbn. rewrite list_lookup_insert_ne by done. split; [done|]. destruct Hcase; [by left|by right; left]. }
  assert (forall (s1 : conn) k1, h2_tasks s1 = <[t := k1]> (h2_tasks s) ->
    exists k', h2_tasks s1 !! u = Some k' /\ resumed k k') as Hset.
  { intros s1 k1 ->. rewrite list_lookup_insert_ne by done. exists k. split; [done|by left]. }
  destruct kt as [ | | | | | | | |f c|f c|f [|b rest] c| |]; try destruct Hc as [-> Hc]; try done;
    try (by apply Hlocal); subst s'.
  - unfold lock. destruct (h2_locked s); by eapply Hset.
  - cbn. rewrite list_lookup_insert_ne by done.
    destruct (unlock_tasks s) as [->|(h & f1 & c1 & Hh & ->)]; [exists k; split; [done|by left]|].
    destruct (decide (u = h)) as [->|Huh].
    + eexists. split; [by eapply insert_here|]. rewrite Hh in Hu. injection Hu as <-. right. right. eauto.
    + rewrite list_lookup_insert_ne by done. exists k. split; [done|by left].
  - unfold write_some. destruct (st_write _ _) as [n w]. by eapply Hset.
Qed.

Lemma on_track_resumed resp id obj sent k k' :
  on_track resp id obj sent k -> resumed k k' -> on_track resp id obj sent k'.
Proof.
  intros Ht [->|[(o & r & b & m & -> & ->)|(f & c & -> & ->)]]; [done| |].
  - inversion Ht as [| | |b0 parts r' b' m' ? Hb Hok Hc Hk| | |? ? ? ? ? [?|?]|]; subst; try done.
    destruct Hk as [Hk|[Hk|[? Hk]]]; try done. injection Hk as -> -> -> ->.
    eapply OT_chunk; [done..|by left].
  - inversion Ht as [? ? Hp| | |? ? ? ? ? ? ? ? ? Hk|? ? ? ? ? ? ? ? ? ? ? Hp|? ? ? ? ? Hp|? ? ? ? ? [?|?]|];
      subst; try done.
    + by eapply OT_head.
    + by destruct Hk as [?|[?|[? ?]]].
    + by eapply OT_data.
    + by eapply OT_end.
Qed.

(** ** One coroutine's own steps *)

Definition sent_by (t : nat) (tr : list (nat * out_frame)) : list out_frame :=
  map snd (base.filter (fun e => e.1 = t) tr).

(** The responses a coroutine may have to send. *)
Definition answers (resp : response W) : Prop :=
  resp = make_response 400 \/ (handler = None /\ resp = make_response 501) \/
  exists h req req', handler = Some h /\ h req = Some (resp, req').

Inductive delivering (id : Z) (obj : nat) (sent : list out_frame) (k : task) : Prop :=
| DL_start : sent = [] -> k = TStart obj \/ (exists req, k = THandle obj req) -> delivering id obj sent k
| DL_threw h req :
    handler = Some h -> h req = None -> sent = [] -> k = TDone (Some obj) -> delivering id obj sent k
| DL_on resp : answers resp -> on_track resp id obj sent k -> delivering id obj sent k.

Hypothesis bodies_ok : forall h req resp req' body,
  handler = Some h -> h req = Some (resp, req') -> resp_body resp = Some body -> st_ok body.

Lemma answers_body resp body : answers resp -> body_of resp = Some body -> st_ok body.
Proof.
  intros Ha Hb. unfold body_of, effective in Hb.
  destruct (resp_upgrade_handler resp), (resp_content_length _ =? 0); try done.
  destruct Ha as [->|[[_ ->]|(h & req & req' & Hh & Hr)]]; [done..|]. by eapply bodies_ok.
Qed.

(** A chunk read from the body. *)
Lemma limit_read rem (body : any_stream) buf body' :
  st_ok body -> rem <> 0 ->
  st_read (Z.to_nat (if 0 <=? rem then Z.min rem data_chunk else data_chunk)) body = (buf, body') ->
  st_ok body' /\
  limit rem (st_data body) =
    buf ++ limit (if 0 <=? rem then rem - Z.of_nat (length buf) else rem) (st_data body') /\
  (buf = [] -> limit rem (st_data body) = []).
Proof.
  intros Hok Hrem Hr. set (want := Z.to_nat _) in Hr.
  assert (0 < want)%nat as Hw by (unfold want, data_chunk; destruct (Z.leb_spec 0 rem); lia).
  destruct (st_read_spec _ _ _ _ Hw Hok Hr) as (Hok' & Hd & Hle & Hne). split; [done|]. unfold limit.
  destruct (Z.leb_spec 0 rem) as [Hpos|Hneg].
  - assert (length buf <= Z.to_nat rem)%nat as Hb by (unfold want, data_chunk in Hle; lia). split.
    + rewrite Hd, take_app_ge by done.
      destruct (Z.leb_spec 0 (rem - Z.of_nat (length buf))); [|lia]. do 2 f_equal. lia.
    + intros ->. destruct (st_data body); [by rewrite take_nil|]. by destruct Hne.
  - split.
    + destruct (Z.leb_spec 0 rem); [lia|done].
    + intros ->. destruct (st_data body); [done|]. by destruct Hne.
Qed.

Lemma pending_step t k f c (s s' : conn) l :
  h2_tasks s !! t = Some k -> pending k = Some (f, c) -> step handler t s = Some (s', l) ->
  exists k', h2_tasks s' !! t = Some k' /\
    ((pending k' = Some (f, c) /\ l = []) \/ (k' = TResume c /\ l = [(t, f)])).
Proof.
  intros Hk Hp Hs. unfold step in Hs. rewrite Hk in Hs. cbn [mbind option_bind] in Hs.
  destruct k as [ | | | | | | | |f1 c1|f1 c1|f1 [|b rest] c1| |]; try done; injection Hp as -> ->;
    injection Hs as <- <-.
  - unfold lock. destruct (h2_locked s); (eexists; split; [by eapply insert_here|by left]).
  - eexists. split; [|by right]. cbn. eapply insert_here.
    destruct (unlock_tasks s) as [->|(h & f1 & c1 & Hh & ->)]; [exact Hk|].
    rewrite list_lookup_insert_ne by congruence. exact Hk.
  - unfold write_some. destruct (st_write _ _) as [n w]. eexists. split; [by eapply insert_here|by left].
Qed.

Lemma respond_step t k obj (resp : response W) (s : conn) :
  h2_tasks s !! t = Some k -> answers resp ->
  exists k', h2_tasks (set_task t (write_response obj resp s) s) !! t = Some k' /\
    delivering (hs_id (stream_at s obj)) obj [] k'.
Proof.
  intros Hk Ha. eexists. split; [by eapply insert_here|]. apply (DL_on _ _ _ _ resp Ha).
  rewrite write_response_eq. by eapply OT_head.
Qed.

Lemma start_step t k obj (s s' : conn) l :
  h2_tasks s !! t = Some k -> k = TStart obj \/ (exists req, k = THandle obj req) ->
  step handler t s = Some (s', l) ->
  exists k', h2_tasks s' !! t = Some k' /\ delivering (hs_id (stream_at s obj)) obj (map snd l) k'.
Proof.
  intros Hk Hc Hs. unfold step in Hs. rewrite Hk in Hs. cbn [mbind option_bind] in Hs.
  destruct Hc as [->|[req ->]]; injection Hs as <- <-.
  - unfold start_stream. destruct (hs_malformed _); [by eapply respond_step; [|left]|].
    eexists. split; [by eapply insert_here|]. apply DL_start; [done|]. right. eauto.
  - unfold run_handler. destruct handler as [h|] eqn:Eh.
    2:{ eapply respond_step; [done|]. right. left. by rewrite Eh. }
    destruct (h req) as [[resp req']|] eqn:Er.
    + eapply respond_step; [done|]. right. right. exists h, req, req'. by rewrite Eh.
    + eexists. split; [by eapply insert_here|]. by eapply DL_threw.
Qed.

Lemma body_step resp t obj body0 parts body rem (s : conn) :
  let k := TBody obj body rem in
  let id := hs_id (stream_at s obj) in
  h2_tasks s !! t = Some k -> body_of resp = Some body0 -> st_ok body ->
  concat parts ++ limit rem (st_data body) = content resp body0 ->
  exists k', h2_tasks (read_body t obj body rem s) !! t = Some k' /\
    on_track resp id obj (head_frame id resp :: map (data_frame id) parts) k'.
Proof.
  intros k id Hk Hb Hok Hc. unfold read_body, end_body. destruct (Z.eqb_spec rem 0) as [->|Hrem].
  - eexists. split; [by eapply insert_here|]. eapply OT_end; [done| |done].
    rewrite <-Hc. by rewrite app_nil_r.
  - destruct (st_read _ body) as [buf body'] eqn:Er.
    destruct (limit_read rem body buf body' Hok Hrem Er) as (Hok' & Hl & Hnil).
    destruct buf as [|x buf].
    + eexists. split; [by eapply insert_here|]. eapply OT_end; [done| |done].
      rewrite <-Hc, (Hnil eq_refl). by rewrite app_nil_r.
    + eexists. split; [by eapply insert_here|]. eapply OT_chunk; [done|done| |by left]. by rewrite <-Hl.
Qed.

Lemma chunk_step resp t obj body0 parts rest body rem (s : conn) :
  let id := hs_id (stream_at s obj) in
  h2_tasks s !! t = Some (TChunk obj rest body rem) -> body_of resp = Some body0 -> st_ok body ->
  concat parts ++ rest ++ limit rem (st_data body) = content resp body0 ->
  exists k', h2_tasks (send_chunk t obj rest body rem s) !! t = Some k' /\
    on_track resp id obj (head_frame id resp :: map (data_frame id) parts) k'.
Proof.
  intros id Hk Hb Hok Hc. unfold send_chunk. destruct rest as [|x rest0] eqn:Er.
  { eexists. split; [by eapply insert_here|]. by eapply OT_body. }
  rewrite <-Er in *. destruct (negb (window_open s obj)).
  - eexists. split; [by eapply insert_here|]. eapply OT_chunk; [done..|]. right. by left.
  - set (n := Z.to_nat (allowed_now s obj rest)). eexists. split; [by eapply insert_here|].
    eapply (OT_data _ _ _ body0 parts (take n rest) _ (drop n rest)); [done|done| |done].
    by rewrite (app_assoc (take n rest)), take_drop.
Qed.

Lemma on_track_step resp t k obj (s s' : conn) l sent :
  let id := hs_id (stream_at s obj) in
  h2_tasks s !! t = Some k -> step handler t s = Some (s', l) -> answers resp ->
  on_track resp id obj sent k ->
  exists k', h2_tasks s' !! t = Some k' /\ on_track resp id obj (sent ++ map snd l) k'.
Proof.
  intros id Hk Hs Ha Ht. assert (forall c, k = TResume c -> s' = after_send t c s /\ l = []) as Hres.
  { intros c ->. unfold step in Hs. rewrite Hk in Hs. by injection Hs as <- <-. }
  destruct Ht as [k c Hp Hc|c Hc|b0 parts body rem k Hb Hok Hcc ->|b0 parts rest body rem k Hb Hok Hcc Hkk|
    b0 parts p allowed rest body rem k Hb Hok Hcc Hp|b0 parts k Hb Hcc Hp|b0 parts k Hb Hcc Hkk|Hb].
  - destruct (pending_step _ _ _ _ _ _ _ Hk Hp Hs) as (k' & Hk' & [[Hp' ->]|[Ek ->]]); exists k'.
    + split; [done|]. by eapply OT_head.
    + split; [done|]. rewrite Ek. by apply OT_headed.
  - destruct (Hres _ eq_refl) as [-> ->]. rewrite app_nil_r. subst c.
    destruct (body_of resp) as [body|] eqn:Eb; cbn [after_send]; (eexists; split; [by eapply insert_here|]).
    + eapply (OT_body _ _ _ body []); [done|by eapply answers_body|done|done].
    + by apply OT_done.
  - unfold step in Hs. rewrite Hk in Hs. injection Hs as <- <-. rewrite app_nil_r. by eapply body_step.
  - destruct Hkk as [->|[->|[allowed ->]]].
    + unfold step in Hs. rewrite Hk in Hs. injection Hs as <- <-. rewrite app_nil_r. by eapply chunk_step.
    + unfold step in Hs. by rewrite Hk in Hs.
    + destruct (Hres _ eq_refl) as [-> ->]. rewrite app_nil_r.
      eexists. split; [by eapply insert_here|]. eapply OT_chunk; [done..|by left].
  - destruct (pending_step _ _ _ _ _ _ _ Hk Hp Hs) as (k' & Hk' & [[Hp' ->]|[Ek ->]]); exists k'.
    + split; [done|]. rewrite app_nil_r. by eapply OT_data.
    + split; [done|]. rewrite Ek. replace ((head_frame id resp :: map (data_frame id) parts) ++ map snd [(t, data_frame id p)])
        with (head_frame id resp :: map (data_frame id) (parts ++ [p])) by (by rewrite map_app).
      eapply OT_chunk; [done|done| |by right; right; eexists].
      rewrite concat_app. cbn [concat]. by rewrite app_nil_r, <-app_assoc.
  - destruct (pending_step _ _ _ _ _ _ _ Hk Hp Hs) as (k' & Hk' & [[Hp' ->]|[Ek ->]]); exists k'.
    + split; [done|]. rewrite app_nil_r. by eapply OT_end.
    + split; [done|]. rewrite Ek. cbn [map snd app]. eapply OT_ended; [done..|by left].
  - destruct Hkk as [->| ->]; [|unfold step in Hs; by rewrite Hk in Hs].
    destruct (Hres _ eq_refl) as [-> ->]. rewrite app_nil_r.
    eexists. split; [by eapply insert_here|]. eapply OT_ended; [done..|by right].
  - unfold step in Hs. by rewrite Hk in Hs.
Qed.

Lemma delivering_step t k obj (s s' : conn) l sent :
  let id := hs_id (stream_at s obj) in
  h2_tasks s !! t = Some k -> step handler t s = Some (s', l) -> delivering id obj sent k ->
  exists k', h2_tasks s' !! t = Some k' /\ delivering id obj (sent ++ map snd l) k'.
Proof.
  intros id Hk Hs [-> Hc|h req Hh Hr -> ->|resp Ha Ht].
  - by eapply start_step.
  - unfold step in Hs. by rewrite Hk in Hs.
  - destruct (on_track_step resp t k obj s s' l sent Hk Hs Ha Ht) as (k' & ? & ?). exists k'.
    split; [done|]. by apply (DL_on _ _ _ _ resp).
Qed.

Lemma delivering_resumed id obj sent k k' :
  delivering id obj sent k -> resumed k k' -> delivering id obj sent k'.
Proof.
  intros Hd Hr. destruct Hd as [-> Hc|h req Hh Hq -> ->|resp Ha Ht].
  - apply DL_start; [done|].
    destruct Hc as [->|[req ->]], Hr as [->|[(? & ? & ? & ? & ? & _)|(? & ? & ? & _)]]; try done; eauto.
  - destruct Hr as [->|[(? & ? & ? & ? & ? & _)|(? & ? & ? & _)]]; try done. by eapply DL_threw.
  - apply (DL_on _ _ _ _ resp Ha). by eapply on_track_resumed.
Qed.

(** ** The invariant over every schedule *)

Record deliver_inv (tr : list (nat * out_frame)) (s : conn) : Prop := mk_deliver_inv {
  di_valid : valid s;
  di_known : forall t, (length (h2_tasks s) <= t)%nat -> sent_by t tr = [];
  di_task : forall t k obj, h2_tasks s !! t = Some k -> task_obj k = Some obj ->
    delivering (hs_id (stream_at s obj)) obj (sent_by t tr) k;
}.

Lemma sent_by_app t tr l : sent_by t (tr ++ l) = sent_by t tr ++ sent_by t l.
Proof. unfold sent_by. by rewrite filter_app, map_app. Qed.

Lemma step_events t (s s' : conn) l : step handler t s = Some (s', l) -> l = [] \/ exists f, l = [(t, f)].
Proof.
  intros Hs. destruct (step_cases _ _ _ _ _ Hs) as (k & _ & Hc).
  destruct k as [ | | | | | | | |f c|f c|f [|b rest] c| |]; try destruct Hc as [-> _]; try done; eauto.
Qed.

Lemma sent_by_own t (s s' : conn) l : step handler t s = Some (s', l) -> sent_by t l = map snd l.
Proof.
  intros Hs. destruct (step_events _ _ _ _ Hs) as [->|[f ->]]; [done|].
  unfold sent_by. by rewrite filter_cons_True.
Qed.

Lemma sent_by_other t u (s s' : conn) l : step handler t s = Some (s', l) -> u <> t -> sent_by u l = [].
Proof.
  intros Hs Hne. destruct (step_events _ _ _ _ Hs) as [->|[f ->]]; [done|].
  unfold sent_by. rewrite filter_cons_False by (cbn; congruence). done.
Qed.

Lemma task_obj_ref k obj : task_obj k = Some obj -> task_ref k = Some obj.
Proof. destruct k as [| | | | | | | |f []|f []|f r []|[]|]; done. Qed.

Lemma deliver_inv_step t tr (s s' : conn) l :
  step handler t s = Some (s', l) -> deliver_inv tr s -> deliver_inv (tr ++ l) s'.
Proof.
  intros Hs [Hv Hkn Hta]. pose proof (sound_step _ _ _ _ Hs Hv) as [Hle Hva].
  destruct (step_others _ _ _ _ _ Hs) as [Hot Hnew].
  destruct (step_cases _ _ _ _ _ Hs) as (kt & Hkt & _). apply lookup_lt_Some in Hkt as Hlt.
  assert (length (h2_tasks s) <= length (h2_tasks s'))%nat as Hlen.
  { destruct (Nat.le_gt_cases (length (h2_tasks s)) (length (h2_tasks s'))) as [|Hgt]; [done|].
    destruct (lookup_lt_is_Some_2 _ _ Hgt) as [k Hk]. destruct (Hot _ _ Hk) as (k' & Hk' & _).
    apply lookup_lt_Some in Hk'. lia. }
  split; [auto|..].
  - intros u Hu. rewrite sent_by_app, (Hkn u), (sent_by_other _ _ _ _ _ Hs) by lia. done.
  - intros u ku obj Hu Ho. rewrite sent_by_app. destruct (h2_tasks s !! u) as [k0|] eqn:E0.
    + destruct (Hot u k0 E0) as (k1 & E1 & Eo & _). rewrite Hu in E1. injection E1 as <-.
      rewrite Eo in Ho. pose proof (va_tasks _ Hv u k0 E0 obj (task_obj_ref _ _ Ho)) as Hobj.
      rewrite (heap_le_id _ _ _ Hle Hobj). specialize (Hta u k0 obj E0 Ho).
      destruct (decide (u = t)) as [->|Hne].
      * destruct (delivering_step _ _ _ _ _ _ _ E0 Hs Hta) as (k' & Hk' & Hd).
        rewrite Hu in Hk'. injection Hk' as <-. by rewrite (sent_by_own _ _ _ _ Hs).
      * destruct (step_resumed _ _ _ _ _ _ Hs Hne E0) as (k' & Hk' & Hr).
        rewrite Hu in Hk'. injection Hk' as <-. rewrite (sent_by_other _ _ _ _ _ Hs) by done.
        rewrite app_nil_r. by eapply delivering_resumed.
    + destruct (Hnew u ku E0 Hu) as [o ->]. injection Ho as ->. apply DL_start; [|by left].
      apply lookup_ge_None in E0. rewrite (Hkn u) by done.
      by rewrite (sent_by_other _ _ _ _ _ Hs) by lia.
Qed.

Lemma deliver_inv_reach (w : W) leftover tr s :
  reach handler (connection_h2_new w leftover) tr s -> deliver_inv tr s.
Proof.
  intros Hr. induction Hr as [|tr s t s' l Hr IH Hs]; [|by eapply deliver_inv_step].
  split; [eapply valid_reach, reach_refl|done|]. intros [|t] k obj Hk; [by injection Hk as <-|done].
Qed.

(** The frames of a finished response. *)
Definition response_frames (id : Z) (resp : response W) (fs : list out_frame) : Prop :=
  match body_of resp with
  | None => fs = [head_frame id resp]
  | Some body => exists parts, fs = head_frame id resp :: map (data_frame id) parts ++ [end_frame id] /\
      concat parts = content resp body
  end.

(** C4: Under every interleaving of the coroutines of an HTTP/2 connection, a stream coroutine
    that has ended has either sent nothing because the handler threw, or sent, in order, one
    HEADERS frame with the encoded status and permitted headers of its response and then DATA
    frames whose payloads concatenate to exactly the body (cut at the declared length), closed
    by an empty DATA frame with END_STREAM. *)
Theorem h2_response_delivered (w : W) leftover tr s t obj :
  reach handler (connection_h2_new w leftover) tr s -> h2_tasks s !! t = Some (TDone (Some obj)) ->
  (exists h req, handler = Some h /\ h req = None /\ sent_by t tr = []) \/
  exists resp, answers resp /\ response_frames (hs_id (stream_at s obj)) resp (sent_by t tr).
Proof.
  intros Hr Ht. destruct (di_task _ _ (deliver_inv_reach _ _ _ _ Hr) t _ obj Ht eq_refl)
    as [Hs [?|[? ?]]|h req Hh Hq Hs _|resp Ha Hon]; try done; [left; eauto|right].
  exists resp. split; [done|]. unfold response_frames.
  inversion Hon as [k c Hp Hc| | |b0 parts rest body rem k Hb Hok Hcc Hkk|
    b0 parts p allowed rest body rem k Hb Hok Hcc Hp|b0 parts k Hb Hcc Hp|b0 parts k Hb Hcc Hkk|Hb]; subst; try done.
  - by destruct Hkk as [?|[?|[? ?]]].
  - rewrite Hb. by exists parts.
  - by rewrite Hb.
Qed.
End Delivery.
