(* ===== verification/ConnectionH2Flow.v ===== *)
(** * ConnectionH2Flow: waiting for windows, and the account of a stream's credit

    Over every schedule: a coroutine suspended for flow control is the one its
    stream's slot names, and that slot is cleared only by resuming it; and what a
    stream's coroutine has sent, what it has not settled yet and the window left
    add up to the credit the peer has given the stream. *)

From S2P Require Import Prelude Bytes Stream Feeder Method Header Resource QueryString UrlEncode Server.
From S2P Require Import Frame Hpack ConnectionH2 ConnectionH2Facts ConnectionH2Delivery.

#[local] Open Scope Z_scope.

(** ** Sums *)

Fixpoint zsum {A} (f : A -> Z) (l : list A) : Z := match l with [] => 0 | x :: l => f x + zsum f l end.

Lemma zsum_app {A} (f : A -> Z) l k : zsum f (l ++ k) = zsum f l + zsum f k.
Proof. induction l as [|x l IH]; cbn; [done|]. rewrite IH. lia. Qed.

Lemma zsum_insert {A} (f : A -> Z) (l : list A) i x y :
  l !! i = Some x -> zsum f (<[i := y]> l) = zsum f l - f x + f y.
Proof.
  revert i. induction l as [|z l IH]; intros [|i] Hi; try done; cbn in *.
  - injection Hi as ->. lia.
  - etransitivity; [exact (f_equal (Z.add (f z)) (IH _ Hi))|lia].
Qed.

(** Lists that agree where the first is defined, and are zero beyond. *)
Lemma zsum_extends {A} (f : A -> Z) (l k : list A) :
  (forall i x, l !! i = Some x -> exists y, k !! i = Some y /\ f y = f x) ->
  (forall i y, l !! i = None -> k !! i = Some y -> f y = 0) -> zsum f k = zsum f l.
Proof.
  revert k. induction l as [|x l IH]; intros k Hl Hk.
  - cbn. induction k as [|y k IHk]; [done|]. cbn. rewrite (Hk 0%nat y) by done. rewrite IHk; [lia|done|].
    intros i z _ Hz. by apply (Hk (S i)).
  - destruct k as [|y k]; [by destruct (Hl 0%nat x eq_refl) as (? & ? & _)|]. cbn.
    destruct (Hl 0%nat x eq_refl) as (y' & [= <-] & ->). f_equal. apply IH.
    + intros i. apply (Hl (S i)).
    + intros i. apply (Hk (S i)).
Qed.

Lemma zsum_zero {A} (f : A -> Z) (l : list A) : (forall x, x ∈ l -> f x = 0) -> zsum f l = 0.
Proof. induction l as [|x l IH]; intros Hl; cbn; [done|]. rewrite Hl, IH by set_solver. done. Qed.

Lemma zsum_ext {A} (f g : A -> Z) (l : list A) : (forall x, x ∈ l -> f x = g x) -> zsum f l = zsum g l.
Proof. induction l as [|x l IH]; intros Hl; cbn; [done|]. rewrite Hl, IH by set_solver. done. Qed.

Lemma zsum_single {A} (f : A -> Z) (l : list A) i x :
  l !! i = Some x -> (forall j y, l !! j = Some y -> j <> i -> f y = 0) -> zsum f l = f x.
Proof.
  revert i. induction l as [|z l IH]; intros [|i] Hi Hj; try done; cbn in *.
  - injection Hi as ->. rewrite zsum_zero; [lia|]. intros y (j & Hy)%list_elem_of_lookup. by apply (Hj (S j)).
  - rewrite (Hj 0%nat z) by done. rewrite (IH i); [lia|done|]. intros j y Hy Hne. apply (Hj (S j)); [done|lia].
Qed.

Section Flow.
Context {W : Type} `{StreamDuplex W}.
Context (handler : option (request memory_stream -> option (response W * request memory_stream))).

Abbreviation conn := (conn_h2 W).

(** ** Slots *)

Definition slot (s : conn) (obj : nat) : option nat := hs_window_waiter (stream_at s obj).

Definition waits (s : conn) (t obj : nat) : Prop :=
  exists rest body remaining, h2_tasks s !! t = Some (TWindowWait obj rest body remaining).

(** A slot names a coroutine that waits; and one that waits, if it is the only one
    of its stream, is named. *)
Record slots_ok (s : conn) : Prop := mk_slots_ok {
  sk_waits : forall obj t, slot s obj = Some t -> waits s t obj;
  sk_held : forall obj t, waits s t obj -> sole s t obj -> slot s obj = Some t;
}.

Lemma waits_obj (s : conn) t o o' : waits s t o -> waits s t o' -> o = o'.
Proof. intros (r & b & m & E) (r' & b' & m' & E'). congruence. Qed.

Lemma slots_keep (s s' : conn) :
  (forall o, slot s' o = slot s o) -> (forall t o, waits s' t o <-> waits s t o) ->
  (forall t o, sole s' t o -> sole s t o) -> slots_ok s -> slots_ok s'.
Proof.
  intros Hs Hw Hu [H1' H2']. split; intros o t; rewrite Hs, Hw; [apply H1'|]. intros Hwt Ho. apply H2'; auto.
Qed.

(** What the frame handlers do besides resuming coroutines: the slots stay, the
    windows grow by [grant], new coroutines start. *)
Record moves (grant : nat -> Z) (s s' : conn) : Prop := mk_moves {
  mv_window : forall o, send_window_of s' o = send_window_of s o + grant o;
  mv_slot : forall o, slot s' o = slot s o;
  mv_tasks : exists new, h2_tasks s' = h2_tasks s ++ map TStart new;
}.

Abbreviation stays := (moves (fun _ => 0)).

Lemma moves_trans g1 g2 g (a b c : conn) :
  moves g1 a b -> moves g2 b c -> (forall o, g o = g1 o + g2 o) -> moves g a c.
Proof.
  intros [W1 S1 (n1 & T1)] [W2 S2 (n2 & T2)] Hg. split.
  - intros o. rewrite W2, W1, Hg. lia.
  - intros o. by rewrite S2, S1.
  - exists (n1 ++ n2). by rewrite T2, T1, map_app, <-app_assoc.
Qed.

#[global] Instance stays_PreOrder : PreOrder stays.
Proof.
  split.
  - intros s. split; [intros; lia|done|]. exists []. by rewrite app_nil_r.
  - intros a b c Ha Hb. by eapply moves_trans.
Qed.

Lemma stays_then g (a b c : conn) : stays a b -> moves g b c -> moves g a c.
Proof. intros Ha Hb. by eapply moves_trans. Qed.

Lemma moves_then g (a b c : conn) : moves g a b -> stays b c -> moves g a c.
Proof. intros Ha Hb. eapply moves_trans; [done..|]. intros o. cbn. lia. Qed.

Lemma stays_same (s s' : conn) : h2_heap s' = h2_heap s -> h2_tasks s' = h2_tasks s -> stays s s'.
Proof.
  intros Eh Et. split; unfold slot, send_window_of, stream_at; rewrite ?Eh; [intros; lia|done|].
  exists []. by rewrite app_nil_r.
Qed.

Lemma stays_update obj g (s : conn) :
  hs_send_window (g (stream_at s obj)) = send_window_of s obj ->
  hs_window_waiter (g (stream_at s obj)) = slot s obj -> stays s (update_stream obj g s).
Proof.
  intros E1 E2. pose proof (fun o => update_keeps_window obj o g s E1 E2) as Hk. split.
  - intros o. destruct (Hk o) as [-> _]. lia.
  - intros o. apply (Hk o).
  - exists []. by rewrite app_nil_r.
Qed.

Lemma stays_dispatch obj (s : conn) : stays s (dispatch_stream obj s).
Proof. split; [intros; unfold send_window_of; cbn; unfold stream_at; cbn; lia|done|by exists [obj]]. Qed.

(** New coroutines do not wait, and have their stream for themselves or not. *)
Lemma moves_slots g (s s' : conn) : moves g s s' -> slots_ok s -> slots_ok s'.
Proof.
  intros [_ Hs (new & Ht)]. apply slots_keep; [done| |].
  - intros t o. unfold waits. rewrite Ht. split; intros (r & b & m & E); exists r, b, m.
    + apply lookup_app_Some in E as [?|[_ E]]; [done|]. apply list_lookup_fmap_Some in E as (? & ? & _). done.
    + by apply lookup_app_l_Some.
  - intros t o Ho u k Hu. apply Ho. rewrite Ht. by apply lookup_app_l_Some.
Qed.

(** A task that neither waited nor will. *)
Definition waiting (k : task) : bool := match k with TWindowWait _ _ _ _ => true | _ => false end.

Lemma slots_set t k k' (s : conn) :
  h2_tasks s !! t = Some k -> waiting k = false -> waiting k' = false -> task_obj k' = task_obj k ->
  slots_ok s -> slots_ok (set_task t k' s).
Proof.
  intros Hk Hw Hw' Ho. apply slots_keep; [done| |].
  - intros u o. unfold waits. cbn. destruct (decide (u = t)) as [->|Hne]; [|by rewrite list_lookup_insert_ne].
    rewrite (insert_here _ _ _ _ Hk), Hk. split; intros (r & b & m & [= ->]); done.
  - intros u o Hs v kv Hv Hov. destruct (decide (v = t)) as [->|Hne].
    + apply (Hs t k'); [cbn; by eapply insert_here|]. congruence.
    + apply (Hs v kv); [|done]. cbn. by rewrite list_lookup_insert_ne.
Qed.

(** *** Resuming *)

Definition wake_task (k : task) : task :=
  match k with TWindowWait obj rest body remaining => TChunk obj rest body remaining | _ => k end.

Lemma wake_tasks_at (s : conn) u t :
  h2_tasks (wake s u) !! t = if decide (t = u) then wake_task <$> h2_tasks s !! t else h2_tasks s !! t.
Proof.
  unfold wake. destruct (decide (t = u)) as [->|Hne].
  - destruct (h2_tasks s !! u) as [k|] eqn:E; [|by rewrite E]. destruct k; cbn; try done. by rewrite (insert_here _ _ _ _ E).
  - destruct (h2_tasks s !! u) as [[]|]; try done. cbn. by rewrite list_lookup_insert_ne.
Qed.

Lemma wake_list_at l (s : conn) t :
  h2_tasks (fold_left wake l s) !! t = if decide (t ∈ l) then wake_task <$> h2_tasks s !! t else h2_tasks s !! t.
Proof.
  revert s. induction l as [|u l IH]; intros s; cbn [fold_left]; [by rewrite decide_False by set_solver|].
  rewrite IH, wake_tasks_at. destruct (decide (t = u)) as [->|Hne].
  - rewrite (decide_True (P := u ∈ u :: l)) by set_solver. destruct (decide (u ∈ l)); [|done].
    rewrite <-option_fmap_compose. apply option_fmap_ext. by intros [].
  - destruct (decide (t ∈ l)), (decide (t ∈ u :: l)); try done; set_solver.
Qed.

Lemma clear_slots objs (s : conn) o :
  slot (fold_left clear_waiter objs s) o = if decide (o ∈ objs) then None else slot s o.
Proof.
  revert s. induction objs as [|x objs IH]; intros s; cbn [fold_left]; [by rewrite decide_False by set_solver|].
  rewrite IH. unfold slot, clear_waiter. destruct (decide (o = x)) as [->|Hne].
  - rewrite (decide_True (P := x ∈ x :: objs)) by set_solver. destruct (decide (x ∈ objs)); [done|].
    destruct (decide (x < length (h2_heap s))%nat); [by rewrite stream_at_update_eq|].
    rewrite stream_at_update_out by lia. unfold stream_at. by rewrite lookup_ge_None_2 by lia.
  - rewrite stream_at_update_ne by done. destruct (decide (o ∈ objs)), (decide (o ∈ x :: objs)); try done; set_solver.
Qed.

Lemma clear_tasks objs (s : conn) : h2_tasks (fold_left clear_waiter objs s) = h2_tasks s.
Proof. revert s. induction objs as [|x objs IH]; intros s; [done|]. cbn [fold_left]. by rewrite IH. Qed.

(** The slots of [objs] are cleared and the coroutines [ts] they named resumed. *)
Lemma slots_resume (objs ts : list nat) (s s' : conn) :
  (forall o, slot s' o = if decide (o ∈ objs) then None else slot s o) ->
  (forall t, h2_tasks s' !! t = if decide (t ∈ ts) then wake_task <$> h2_tasks s !! t else h2_tasks s !! t) ->
  (forall t, t ∈ ts <-> exists o, o ∈ objs /\ slot s o = Some t) -> slots_ok s -> slots_ok s'.
Proof.
  intros Hs Ht Hts [H1' H2'].
  assert (forall t o, waits s' t o <-> waits s t o /\ t ∉ ts) as Hw.
  { intros t o. unfold waits. rewrite Ht. destruct (decide (t ∈ ts)) as [Hin|Hin]; [|naive_solver].
    split; [|naive_solver]. intros (r & b & m & E). by destruct (h2_tasks s !! t) as [[]|]. }
  assert (forall t o, sole s' t o -> sole s t o) as Hu.
  { intros t o Ho u k Hk Hko. apply (Ho u (if decide (u ∈ ts) then wake_task k else k)).
    - rewrite Ht, Hk. by destruct (decide (u ∈ ts)).
    - destruct (decide (u ∈ ts)); [|done]. by destruct k. }
  split; intros o t; rewrite Hs, Hw.
  - destruct (decide (o ∈ objs)) as [|Ho]; [done|]. intros Hst. split; [by apply H1'|].
    intros (o' & Ho' & Hst')%Hts. apply Ho. by rewrite (waits_obj s t o o') by by apply H1'.
  - intros [Hwt Hn] Hso. pose proof (H2' o t Hwt (Hu _ _ Hso)) as E. destruct (decide (o ∈ objs)) as [Ho|]; [|done].
    exfalso. apply Hn, Hts. by exists o.
Qed.

(** *** The handlers *)

Lemma stays_complete_headers obj (s : conn) : stays s (complete_headers obj s).
Proof.
  unfold complete_headers. pose proof (finish_header_block_window (h2_hpack s) (stream_at s obj)) as [E1 E2].
  destruct (finish_header_block _ _) as [d st]. cbn [snd] in *.
  transitivity (with_hpack d s); [by apply stays_same|].
  set (s1 := update_stream obj _ _). assert (stays (with_hpack d s) s1) as Hf by (by apply stays_update).
  destruct (hs_end_stream st || hs_malformed st); [|done]. etrans; [exact Hf|apply stays_dispatch].
Qed.

Lemma stays_data_end fh obj (s : conn) : stays s (data_end fh obj s).
Proof.
  unfold data_end. destruct (has_flag fh flag_end_stream); [|done].
  assert (stays s (update_stream obj hs_set_end_stream s)) as Hf by by apply stays_update.
  destruct (hs_end_headers _); [|done]. etrans; [exact Hf|apply stays_dispatch].
Qed.

Lemma stays_settings ps (s : conn) : stays s (fold_left apply_setting ps s).
Proof.
  revert s. induction ps as [|p ps IH]; intros s; [done|]. cbn [fold_left]. etrans; [|apply IH]. unfold apply_setting.
  destruct (sp_id p =? _); [by apply stays_same|]. destruct (sp_id p =? _); [by apply stays_same|done].
Qed.

(** The window a new stream starts with. *)
Definition initial_grant (s : conn) (obj : nat) : Z :=
  if (obj =? length (h2_heap s))%nat then h2_peer_initial_window_size s else 0.

Lemma moves_new_stream id st (s : conn) :
  hs_send_window st = h2_peer_initial_window_size s -> hs_window_waiter st = None ->
  moves (initial_grant s) s (with_streams (<[id := length (h2_heap s)]> (h2_streams s)) (with_heap (h2_heap s ++ [st]) s)).
Proof.
  intros Hw Hn. set (s' := with_streams _ _).
  assert (forall o, stream_at s' o = if (o =? length (h2_heap s))%nat then st else stream_at s o) as Hat.
  { intros o. unfold stream_at. cbn. destruct (Nat.eqb_spec o (length (h2_heap s))) as [->|Hne].
    - by rewrite list_lookup_middle.
    - destruct (decide (o < length (h2_heap s))%nat); [by rewrite lookup_app_l|].
      rewrite (lookup_ge_None_2 (h2_heap s ++ _)) by (rewrite length_app; cbn; lia).
      by rewrite lookup_ge_None_2 by lia. }
  split; [| |exists []; by rewrite app_nil_r].
  - intros o. unfold send_window_of, initial_grant. rewrite Hat. destruct (Nat.eqb_spec o (length (h2_heap s))) as [->|]; [|lia].
    unfold stream_at. rewrite lookup_ge_None_2 by done. cbn. lia.
  - intros o. unfold slot. rewrite Hat. destruct (Nat.eqb_spec o (length (h2_heap s))) as [->|]; [|done].
    unfold stream_at. by rewrite lookup_ge_None_2 by done.
Qed.

Lemma moves_headers fh payload (s s' : conn) k :
  handle_headers fh payload s = Some (s', k) -> moves (initial_grant s) s s'.
Proof.
  unfold handle_headers. intros E. destruct (_ || _); [done|].
  destruct (strip_padding _ _) as [[len0 off0]|]; [|done]. cbn [mbind option_bind] in E.
  destruct (if has_flag fh flag_priority then _ else _) as [[len off]|]; [|done]. cbn [mbind option_bind] in E.
  pose proof (moves_new_stream (fh_stream_id fh) (h2_stream_new (fh_stream_id fh) (h2_peer_initial_window_size s)
    (take len (drop off payload)) (has_flag fh flag_end_stream)) s eq_refl eq_refl) as Hf.
  destruct (has_flag fh flag_end_headers); injection E as <- <-; (eapply moves_then; [exact Hf|]).
  - etrans; [|apply stays_complete_headers]. by apply stays_same.
  - by apply stays_same.
Qed.

Lemma stays_continuation fh payload (s s' : conn) k : handle_continuation fh payload s = Some (s', k) -> stays s s'.
Proof.
  unfold handle_continuation. intros E. destruct (_ || _); [done|].
  destruct (h2_streams s !! fh_stream_id fh) as [obj|]; [|done]. cbn [mbind option_bind] in E.
  assert (stays s (update_stream obj (hs_append_block payload) s)) as Hf by by apply stays_update.
  destruct (has_flag fh flag_end_headers); injection E as <- <-; [|done].
  etrans; [|apply stays_complete_headers]. etrans; [exact Hf|]. by apply stays_same.
Qed.

Lemma stays_data fh payload (s s' : conn) k : handle_data fh payload s = Some (s', k) -> stays s s'.
Proof.
  unfold handle_data. intros E. destruct (h2_streams s !! fh_stream_id fh) as [obj|]; [|by injection E as <- <-].
  destruct (strip_padding _ _) as [[len off]|]; [|done]. cbn [mbind option_bind] in E.
  destruct (max_request_body_size <? _); [done|].
  assert (stays s (update_stream obj (hs_append_body (take len (drop off payload))) s)) as Hf by by apply stays_update.
  destruct (0 <? fh_length fh); injection E as <- <-; [done|]. etrans; [exact Hf|apply stays_data_end].
Qed.

(** *** WINDOW_UPDATE *)

(** What a WINDOW_UPDATE frame gives a stream. *)
Definition update_grant (fh : frame_header) (payload : bytes) (s : conn) (obj : nat) : Z :=
  match parse_window_update_payload payload with
  | Some increment =>
      if negb (fh_stream_id fh =? 0) && bool_decide (h2_streams s !! fh_stream_id fh = Some obj) then increment else 0
  | None => 0
  end.

Lemma slots_wake_all (s : conn) : slots_ok s -> slots_ok (wake_all s).
Proof.
  unfold wake_all. set (objs := base.filter _ _). set (ts := omap _ _).
  assert (forall o, o ∈ objs -> slot s o = wakeable s o) as Ho.
  { intros o [[t Ht] _]%list_elem_of_filter. unfold wakeable, slot in *. by destruct (0 <? _). }
  apply (slots_resume objs ts).
  - intros o. destruct (wake_list_same ts (fold_left clear_waiter objs s)) as (Eh & _).
    unfold slot at 1, stream_at. rewrite Eh. apply clear_slots.
  - intros t. by rewrite wake_list_at, clear_tasks.
  - intros t. unfold ts. rewrite list_elem_of_omap. split; intros (o & Hin & E); exists o; (split; [done|]); by rewrite (Ho o) in *.
Qed.

Lemma window_clear objs (s : conn) o : send_window_of (fold_left clear_waiter objs s) o = send_window_of s o.
Proof. apply (clear_list objs s). Qed.

Lemma window_update_slots fh payload (s s' : conn) k :
  handle_window_update fh payload s = Some (s', k) -> slots_ok s -> slots_ok s'.
Proof.
  unfold handle_window_update. intros E Hok.
  destruct (parse_window_update_payload payload) as [inc|]; [|done]. cbn [mbind option_bind] in E.
  destruct (inc =? 0); [done|]. destruct (fh_stream_id fh =? 0).
  { injection E as <- <-. apply slots_wake_all. by apply (slots_keep s). }
  destruct (h2_streams s !! fh_stream_id fh) as [obj|]; [|by injection E as <- <-].
  set (g := fun st => hs_with_window (hs_send_window st + inc) st) in *.
  assert (slots_ok (update_stream obj g s)) as Hok1.
  { apply (slots_keep s); try done. intros o. unfold slot.
    apply (stream_at_update_ind (fun st => hs_window_waiter st = hs_window_waiter (stream_at s o))); [done|by intros ->]. }
  set (s1 := update_stream obj g s) in *.
  destruct (hs_window_waiter (stream_at s1 obj)) as [u|] eqn:Eu; injection E as <- <-; [|done].
  apply (slots_resume [obj] [u] s1).
  - intros o. destruct (wake_flow_same (clear_waiter s1 obj) u) as (Eh & _). unfold slot at 1, stream_at. rewrite Eh.
    apply (clear_slots [obj]).
  - intros t. rewrite wake_tasks_at. destruct (decide (t = u)), (decide (t ∈ [u])); try done; set_solver.
  - intros t. rewrite list_elem_of_singleton. split; [intros ->; exists obj; split; [set_solver|done]|].
    intros (o & ->%list_elem_of_singleton & E). unfold slot in E. congruence.
  - done.
Qed.

Lemma window_update_grants fh payload (s s' : conn) k o :
  valid s -> handle_window_update fh payload s = Some (s', k) ->
  send_window_of s' o = send_window_of s o + update_grant fh payload s o.
Proof.
  intros Hv. unfold handle_window_update, update_grant. intros E.
  destruct (parse_window_update_payload payload) as [inc|]; [|done]. cbn [mbind option_bind] in E.
  destruct (inc =? 0); [done|]. destruct (fh_stream_id fh =? 0); cbn [negb andb].
  { injection E as <- <-. unfold wake_all. set (s1 := with_send_window _ s). set (objs := base.filter _ _).
    unfold send_window_of at 1, stream_at.
    destruct (wake_list_same (omap (wakeable s1) objs) (fold_left clear_waiter objs s1)) as (-> & _).
    fold (stream_at (fold_left clear_waiter objs s1) o). fold (send_window_of (fold_left clear_waiter objs s1) o).
    rewrite window_clear. unfold send_window_of, stream_at, s1. cbn. lia. }
  destruct (h2_streams s !! fh_stream_id fh) as [obj|] eqn:Eo; [|injection E as <- <-; rewrite bool_decide_eq_false_2 by done; lia].
  set (s1 := update_stream obj _ s) in *.
  assert (send_window_of s1 o = send_window_of s o + (if bool_decide (Some obj = Some o) then inc else 0)) as Hw.
  { unfold send_window_of, s1. destruct (decide (obj = o)) as [->|Hne].
    - rewrite stream_at_update_eq by by eapply (va_streams _ Hv). by rewrite bool_decide_eq_true_2.
    - rewrite stream_at_update_ne by done. rewrite bool_decide_eq_false_2 by congruence. lia. }
  destruct (hs_window_waiter (stream_at s1 obj)) as [u|]; injection E as <- <-; [|done].
  destruct (wake_flow_same (clear_waiter s1 obj) u) as (Eh & _). unfold send_window_of at 1, stream_at. rewrite Eh.
  change (send_window_of (fold_left clear_waiter [obj] s1) o = send_window_of s o + (if bool_decide (Some obj = Some o) then inc else 0)).
  by rewrite window_clear.
Qed.
(** ** Steps *)

(** The credit a frame carries. *)
Definition credit_frame (fh : frame_header) (payload : bytes) (s : conn) (obj : nat) : Z :=
  match fh_type fh with
  | ft_headers => match handle_headers fh payload s with Some _ => initial_grant s obj | None => 0 end
  | ft_window_update => update_grant fh payload s obj
  | _ => 0
  end.

(** The slots stay in order, the windows grow by [g]. *)
Definition accounts (g : nat -> Z) (s s' : conn) : Prop :=
  (slots_ok s -> slots_ok s') /\ forall o, send_window_of s' o = send_window_of s o + g o.

Lemma accounts_moves g (s s' : conn) : moves g s s' -> accounts g s s'.
Proof. intros Hm. split; [by eapply moves_slots|apply Hm]. Qed.

Lemma accounts_set g t k k' (s s1 : conn) :
  accounts g s s1 -> h2_tasks s1 !! t = Some k -> waiting k = false -> waiting k' = false -> task_obj k' = task_obj k ->
  accounts g s (set_task t k' s1).
Proof. intros [Hs Hw] Hk Hwk Hwk' Ho. split; [|done]. intros Hok. by eapply slots_set; [..|apply Hs]. Qed.

(** After the effects of a handler the task goes on. *)
Lemma moves_set g t k k' (s s1 : conn) :
  moves g s s1 -> h2_tasks s !! t = Some k -> waiting k = false -> waiting k' = false -> task_obj k' = task_obj k ->
  accounts g s (set_task t k' s1).
Proof.
  intros Hm Hk ? ? ?. apply (accounts_set g t k); [by apply accounts_moves| |done..].
  destruct Hm as [_ _ (new & ->)]. by apply lookup_app_l_Some.
Qed.

Lemma reader_next_plain k : reader_next k -> waiting k = false /\ task_obj k = None.
Proof. destruct k as [| | | | | | | |f [| | | | | |]| | | |[|]]; done. Qed.

Lemma env_task (s s1 : conn) t k : env s s1 -> h2_tasks s !! t = Some k -> waiting k = false -> h2_tasks s1 !! t = Some k.
Proof. intros He Hk Hw. destruct (env_tasks _ _ He t k Hk) as (k' & Hk' & [->|(? & ? & ? & ? & -> & _)]); done. Qed.

Lemma on_frame_accounts t k fh payload (s : conn) :
  h2_tasks s !! t = Some k -> waiting k = false -> task_obj k = None -> valid s ->
  accounts (credit_frame fh payload s) s (on_frame t fh payload s).
Proof.
  intros Hk Hw Ho Hv. unfold on_frame, credit_frame.
  assert (forall k', waiting k' = false -> task_obj k' = None -> accounts (fun _ => 0) s (set_task t k' s)) as Hset
    by (intros; eapply moves_set; [reflexivity|done..|congruence]).
  destruct (fh_type fh) eqn:Ety; try (by apply Hset).
  - destruct (handle_data fh payload s) as [[s1 k1]|] eqn:E; [|by apply Hset].
    destruct (handle_data_env _ _ _ _ _ E) as [_ [Hw1 Ho1]%reader_next_plain].
    eapply moves_set; [by eapply stays_data|done..|congruence].
  - destruct (handle_headers fh payload s) as [[s1 k1]|] eqn:E; [|by apply Hset].
    destruct (handle_headers_env _ _ _ _ _ E) as [_ [Hw1 Ho1]%reader_next_plain].
    eapply moves_set; [by eapply moves_headers|done..|congruence].
  - eapply moves_set; [by apply (stays_same s (erase_stream (fh_stream_id fh) s))|done..|cbn; congruence].
  - destruct (handle_settings fh payload s) as [[s1 k1]|] eqn:E; [|by apply Hset].
    destruct (handle_settings_env _ _ _ _ _ E) as [_ [Hw1 Ho1]%reader_next_plain].
    eapply moves_set; [|done..|congruence].
    unfold handle_settings in E. destruct (negb _); [done|]. destruct (has_flag _ _); [by injection E as <- _|].
    destruct (parse_settings_payload payload) as [ps|]; [|done]. injection E as <- _. apply stays_settings.
  - destruct (handle_ping fh payload s) as [[s1 k1]|] eqn:E; [|by apply Hset].
    destruct (handle_ping_env _ _ _ _ _ E) as [_ [Hw1 Ho1]%reader_next_plain].
    eapply moves_set; [|done..|congruence].
    unfold handle_ping in E. destruct (_ || _); [done|]. destruct (has_flag _ _); by injection E as <- _.
  - destruct (handle_window_update fh payload s) as [[s1 k1]|] eqn:E.
    + destruct (handle_window_update_env _ _ _ _ _ E) as [He [Hw1 Ho1]%reader_next_plain].
      eapply accounts_set; [|by eapply env_task|done..|congruence].
      split; [by eapply window_update_slots|]. intros o. by eapply window_update_grants.
    + destruct (Hset (TLock (goaway_frame (h2_highest_stream_id s) err_protocol_error) KStop)) as [H1' H2']; [done..|].
      split; [done|]. intros o. rewrite H2'. f_equal. unfold handle_window_update in E. unfold update_grant.
      destruct (parse_window_update_payload payload) as [inc|]; [|done]. cbn [mbind option_bind] in E.
      destruct (Z.eqb_spec inc 0) as [Ei|]; [rewrite Ei; by case_match|]. destruct (fh_stream_id fh =? 0); [done|].
      destruct (h2_streams s !! fh_stream_id fh); [|done]. by destruct (hs_window_waiter _).
  - destruct (handle_continuation fh payload s) as [[s1 k1]|] eqn:E; [|by apply Hset].
    destruct (handle_continuation_env _ _ _ _ _ E) as [_ [Hw1 Ho1]%reader_next_plain].
    eapply moves_set; [by eapply stays_continuation|done..|congruence].
Qed.

(** The bytes [run] has read of the frame whose payload it waits for. *)
Definition credit_of (t : nat) (s : conn) (obj : nat) : Z :=
  match h2_tasks s !! t with
  | Some (TPayload fh) =>
      let d := h2_feed s in
      let n := Z.to_nat (fh_length fh) in
      if (length (fd_buffer d) <? n)%nat then 0
      else credit_frame fh (take n (fd_buffer d)) (with_feed (fd_with_buffer d (drop n (fd_buffer d))) s) obj
  | _ => 0
  end.

(** Data frames that are written, but not yet subtracted from the window. *)
Definition unsettled_by (obj : nat) (k : task) : Z :=
  match k with TResume (KSent o allowed _ _ _) => if (o =? obj)%nat then allowed else 0 | _ => 0 end.

Definition unsettled (s : conn) (obj : nat) : Z := zsum (unsettled_by obj) (h2_tasks s).

Lemma need_accounts t k n (s : conn) after g :
  h2_tasks s !! t = Some k -> waiting k = false -> task_obj k = None -> valid s ->
  ((length (fd_buffer (h2_feed s)) < n)%nat -> forall o, g o = 0) ->
  (forall got s1, h2_tasks s1 = h2_tasks s -> h2_heap s1 = h2_heap s -> valid s1 -> (n <= length (fd_buffer (h2_feed s)))%nat ->
     got = take n (fd_buffer (h2_feed s)) ->
     s1 = with_feed (fd_with_buffer (h2_feed s) (drop n (fd_buffer (h2_feed s)))) s -> accounts g s1 (after got s1)) ->
  accounts g s (need t n s after).
Proof.
  intros Hk Hw Ho Hv Hg Ha. unfold need. destruct (Nat.ltb_spec (length (fd_buffer (h2_feed s))) n) as [Hlt|Hge].
  - destruct (fill_more (h2_feed s)) as [more d].
    assert (accounts g s (with_feed d s)) as Hf.
    { split; [by apply slots_keep|]. intros o. rewrite Hg by done. unfold send_window_of, stream_at. cbn. lia. }
    destruct more; [done|]. eapply accounts_set; [exact Hf|exact Hk|done|done|cbn; congruence].
  - set (s1 := with_feed _ s). destruct (Ha (take n (fd_buffer (h2_feed s))) s1) as [H1' H2']; try done.
    { by destruct Hv. }
    split; [|exact H2']. intros Hok. apply H1'. by apply (slots_keep s).
Qed.

Lemma unlock_heap (s : conn) : h2_heap (unlock s) = h2_heap s.
Proof. unfold unlock. destruct (h2_waiters s) as [|h ws]; [done|]. by destruct (h2_tasks s !! h) as [[]|]. Qed.

Lemma unlock_accounts (s : conn) : accounts (fun _ => 0) s (unlock s).
Proof.
  assert (forall s1, h2_heap s1 = h2_heap s -> h2_tasks s1 = h2_tasks s -> accounts (fun _ => 0) s s1) as Hsame
    by (intros; by apply accounts_moves, stays_same).
  unfold unlock. destruct (h2_waiters s) as [|h ws]; [by apply Hsame|].
  destruct (h2_tasks s !! h) as [[]|] eqn:E; try (by apply Hsame).
  eapply (accounts_set _ h); [by apply Hsame|exact E|done..].
Qed.

(** A coroutine that has to wait takes its stream's slot. *)
Lemma wait_accounts t obj rest body remaining (s : conn) :
  h2_tasks s !! t = Some (TChunk obj rest body remaining) -> (obj < length (h2_heap s))%nat ->
  accounts (fun _ => 0) s (set_task t (TWindowWait obj rest body remaining) (update_stream obj (hs_with_waiter (Some t)) s)).
Proof.
  intros Hk Hl. set (s1 := update_stream obj _ s). set (s' := set_task t _ s1).
  assert (forall o, slot s' o = if decide (o = obj) then Some t else slot s o) as Hs.
  { intros o. change (slot s' o) with (slot s1 o). unfold slot, s1. destruct (decide (o = obj)) as [->|Hne].
    - by rewrite stream_at_update_eq.
    - by rewrite stream_at_update_ne. }
  assert (forall u, h2_tasks s' !! u = if decide (u = t) then Some (TWindowWait obj rest body remaining) else h2_tasks s !! u) as Ht.
  { intros u. unfold s'. cbn. destruct (decide (u = t)) as [->|Hne]; [by eapply insert_here|by rewrite list_lookup_insert_ne]. }
  split.
  - intros [H1' H2']. split; intros o u; rewrite Hs; unfold waits; rewrite Ht.
    + destruct (decide (o = obj)) as [->|Hne].
      * intros [= <-]. rewrite decide_True by done. eauto.
      * intros Hu. destruct (H1' _ _ Hu) as (r & b & m & E). destruct (decide (u = t)) as [->|]; [congruence|eauto].
    + intros Hw Hso. destruct (decide (u = t)) as [->|Hne]; [destruct Hw as (? & ? & ? & [= -> _ _ _]); by rewrite decide_True|].
      destruct (decide (o = obj)) as [->|Hno].
      * destruct Hne. symmetry. apply (Hso t (TWindowWait obj rest body remaining)); [by rewrite Ht, decide_True|done].
      * apply H2'; [done|]. intros v kv Hv Hov. destruct (decide (v = t)) as [->|Hvt].
        -- rewrite Hk in Hv. injection Hv as <-. by injection Hov as ->.
        -- apply (Hso v kv); [by rewrite Ht, decide_False|done].
  - intros o. change (send_window_of s' o) with (send_window_of s1 o). unfold send_window_of, s1.
    apply (stream_at_update_ind (fun st => hs_send_window st = hs_send_window (stream_at s o) + 0)); [lia|by intros ->].
Qed.

(** Every step: the windows change by the credit received and the data settled. *)
Lemma step_accounts t k (s s' : conn) l :
  step handler t s = Some (s', l) -> h2_tasks s !! t = Some k -> valid s ->
  accounts (fun o => credit_of t s o - unsettled_by o k) s s'.
Proof.
  intros Hs Hk Hv. pose proof (va_tasks _ Hv _ _ Hk) as Hkv. unfold step in Hs. unfold credit_of.
  rewrite Hk in Hs |- *. cbn [mbind option_bind] in Hs.
  assert (forall k', waiting k = false -> waiting k' = false -> task_obj k' = task_obj k ->
    accounts (fun _ => 0 - 0) s (set_task t k' s)) as Hset
    by (intros; eapply moves_set; [reflexivity|done..]).
  assert (forall k' s1, stays s s1 -> waiting k = false -> waiting k' = false -> task_obj k' = task_obj k ->
    accounts (fun _ => 0 - 0) s (set_task t k' s1)) as Hmove
    by (intros; eapply moves_set; [|exact Hk|done..]; done).
  assert (forall obj (resp : response W), waiting k = false -> task_obj k = Some obj ->
    accounts (fun _ => 0 - 0) s (set_task t (write_response obj resp s) s)) as Hwr.
  { intros obj resp Hw Ho. destruct (write_response_next obj resp s) as (f & c & -> & Hc). apply Hset; [done|done|].
    rewrite Ho. by destruct Hc as [->|(b & n & ->)]. }
  destruct k as [| |fh|obj|obj req|obj body rem|obj rest body rem|obj rest body rem|f c|f c|f rest c|c|o]; try done;
    cbn [unsettled_by].
  - injection Hs as <- <-. eapply need_accounts; [done..|]. intros got s1 E _ _ _ _ _. unfold on_preface.
    destruct (bytes_eqb _ _); (eapply moves_set; [reflexivity|by rewrite E|done..]).
  - injection Hs as <- <-. eapply need_accounts; [done..|]. intros got s1 E _ _ _ _ _. unfold on_header.
    destruct (frame_header_parse got); [destruct (_ <? _)|]; (eapply moves_set; [reflexivity|by rewrite E|done..]).
  - injection Hs as <- <-. eapply need_accounts; [done..| |].
    + intros Hlt o. by rewrite (proj2 (Nat.ltb_lt _ _) Hlt).
    + intros got s1 E Eh Hv1 Hge -> ->. rewrite (proj2 (Nat.ltb_ge _ _) Hge).
      destruct (on_frame_accounts t (TPayload fh) fh (take (Z.to_nat (fh_length fh)) (fd_buffer (h2_feed s)))
        (with_feed (fd_with_buffer (h2_feed s) (drop (Z.to_nat (fh_length fh)) (fd_buffer (h2_feed s)))) s)) as [H1' H2']; try done.
      split; [exact H1'|]. intros o. rewrite H2'. lia.
  - injection Hs as <- <-. unfold start_stream. destruct (hs_malformed _); [by apply Hwr|].
    apply Hmove; [by apply stays_update|done..].
  - injection Hs as <- <-. unfold run_handler, finish_stream. destruct handler as [h|]; [|by apply Hwr].
    destruct (h req) as [[resp ?]|]; [by apply Hwr|]. apply Hmove; [by apply stays_same|done..].
  - injection Hs as <- <-. unfold read_body, end_body. destruct (rem =? 0); [by apply Hset|].
    destruct (st_read _ body) as [[|b buf] body']; by apply Hset.
  - injection Hs as <- <-. unfold send_chunk. destruct rest as [|b rest]; [by apply Hset|].
    destruct (negb (window_open s obj)); [|by apply Hset]. apply wait_accounts; [done|]. by apply Hkv.
  - injection Hs as <- <-. unfold lock. destruct (h2_locked s); (apply Hmove; [by apply stays_same|done..]).
  - destruct rest as [|b rest]; injection Hs as <- <-.
    + eapply (accounts_set _ t (TWrite f [] c)); [apply unlock_accounts| |done..].
      destruct (unlock_tasks s) as [->|(h & f1 & c1 & Hh & ->)]; [done|]. rewrite list_lookup_insert_ne; [done|congruence].
    + unfold write_some. destruct (st_write _ _) as [n w]. apply Hmove; [by apply stays_same|done..].
  - injection Hs as <- <-. destruct c as [| |fh obj|fh obj|obj body rem|obj allowed rest body rem|obj]; cbn [after_send];
      try (by apply Hset).
    + apply Hmove; [apply stays_data_end|done..].
    + set (s1 := update_stream obj _ _).
      assert (accounts (fun o => 0 - (if (obj =? o)%nat then allowed else 0)) s s1) as Ha; [|by eapply (accounts_set _ t); [exact Ha|exact Hk|..]].
      split.
      * apply slots_keep; try done. intros o. unfold slot, s1.
        apply (stream_at_update_ind (fun st => hs_window_waiter st = hs_window_waiter (stream_at s o))); [done|by intros ->].
      * intros o. unfold send_window_of, s1. destruct (Nat.eqb_spec obj o) as [->|Hne].
        -- rewrite stream_at_update_eq by (by apply Hkv). unfold stream_at. cbn. lia.
        -- rewrite stream_at_update_ne by done. unfold stream_at. cbn. lia.
    + unfold finish_stream. apply Hmove; [by apply stays_same|done..].
Qed.

(** ** Frames and what they take from the window *)

(** The bytes a frame counts for flow control. *)
Definition frame_data (f : out_frame) : Z :=
  match of_type f with ft_data => Z.of_nat (length (of_payload f)) | _ => 0 end.

(** A frame on its way takes from the windows what it carries. *)
Definition paired (k : task) : Prop := forall f c, pending k = Some (f, c) -> frame_data f = cont_flight c.

(** Where a task goes that sends nothing. *)
Definition onward (k : task) : Prop := paired k /\ match k with TResume _ => False | _ => True end.

Definition goes_onward (t : nat) (s' : conn) : Prop := forall k', h2_tasks s' !! t = Some k' -> onward k'.

Lemma onward_plain k : pending k = None -> match k with TResume _ => False | _ => True end -> onward k.
Proof. intros E Hk. split; [|done]. intros f c. by rewrite E. Qed.

Lemma onward_lock f c : frame_data f = cont_flight c -> onward (TLock f c).
Proof. intros E. split; [|done]. by intros f' c' [= <- <-]. Qed.

Lemma next_set t k (s : conn) : onward k -> goes_onward t (set_task t k s).
Proof. intros Hk k' E. cbn in E. apply list_lookup_insert_Some in E as [(_ & <- & _)|[? _]]; done. Qed.

Lemma next_need t k n (s : conn) after :
  h2_tasks s !! t = Some k -> onward k -> (forall got s1, goes_onward t (after got s1)) ->
  goes_onward t (need t n s after).
Proof.
  intros Hk Hp Ha. unfold need. destruct (_ <? n)%nat; [|apply Ha].
  destruct (fill_more (h2_feed s)) as [[|] d]; [|by apply next_set, onward_plain].
  intros k' E. cbn in E. rewrite Hk in E. by injection E as <-.
Qed.

(** What [run] sends carries no data. *)
Lemma handler_onward fh payload (s s' : conn) k :
  handle_settings fh payload s = Some (s', k) \/ handle_headers fh payload s = Some (s', k) \/
  handle_continuation fh payload s = Some (s', k) \/ handle_data fh payload s = Some (s', k) \/
  handle_window_update fh payload s = Some (s', k) \/ handle_ping fh payload s = Some (s', k) -> onward k.
Proof.
  unfold handle_settings, handle_headers, handle_continuation, handle_data, handle_window_update, handle_ping.
  intros [E|[E|[E|[E|[E|E]]]]]; repeat (case_match; simplify_option_eq; try done);
    first [by apply onward_plain|by apply onward_lock].
Qed.

Lemma next_on_frame t fh payload (s : conn) : goes_onward t (on_frame t fh payload s).
Proof.
  unfold on_frame. destruct (fh_type fh); try (by apply next_set, onward_plain).
  all: match goal with |- context [match ?o with Some _ => _ | None => _ end] => destruct o as [[s1 k]|] eqn:E end;
    apply next_set; [|by apply onward_lock]; eapply handler_onward; eauto 7.
Qed.

Lemma write_response_onward obj (resp : response W) (s : conn) : onward (write_response obj resp s).
Proof.
  unfold write_response. destruct (resp_body _); [destruct (_ =? 0)|]; by apply onward_lock.
Qed.

Lemma send_chunk_onward t obj rest body remaining (s : conn) :
  flow_ok s -> goes_onward t (send_chunk t obj rest body remaining s).
Proof.
  intros [[_ Hm] _]. unfold send_chunk. destruct rest as [|b rest]; [by apply next_set, onward_plain|].
  destruct (window_open s obj) eqn:Eo; cbn [negb]; [|by apply next_set, onward_plain].
  apply next_set, onward_lock. apply andb_true_iff in Eo as [E1%Z.ltb_lt E2%Z.ltb_lt].
  cbn [frame_data data_frame of_type of_payload cont_flight]. unfold allowed_now. rewrite length_take. cbn [length]. lia.
Qed.

Lemma onward_step t k (s s' : conn) l :
  step handler t s = Some (s', l) -> h2_tasks s !! t = Some k -> pending k = None -> flow_ok s -> goes_onward t s'.
Proof.
  intros Hs Hk Hp Hok. unfold step in Hs. rewrite Hk in Hs. cbn [mbind option_bind] in Hs.
  pose proof (fun o r => next_set t _ s (write_response_onward o r s)) as Hwr.
  destruct k as [| |fh|obj|obj req|obj body rem|obj rest body rem|obj rest body rem|f c|f c|f rest c|c|o]; try done;
    injection Hs as <- <-.
  - eapply next_need; [done|by apply onward_plain|]. intros got s1. unfold on_preface.
    destruct (bytes_eqb _ _); apply next_set; [by apply onward_lock|by apply onward_plain].
  - eapply next_need; [done|by apply onward_plain|]. intros got s1. unfold on_header.
    destruct (frame_header_parse got); [destruct (_ <? _)|]; by apply next_set, onward_plain.
  - eapply next_need; [done|by apply onward_plain|]. intros got s1. apply next_on_frame.
  - unfold start_stream. destruct (hs_malformed _); [apply Hwr|by apply next_set, onward_plain].
  - unfold run_handler, finish_stream. destruct handler as [h|]; [|apply Hwr].
    destruct (h req) as [[resp ?]|]; [apply Hwr|by apply next_set, onward_plain].
  - unfold read_body, end_body. destruct (rem =? 0); [by apply next_set, onward_lock|].
    destruct (st_read _ body) as [[|b buf] body']; apply next_set; [by apply onward_lock|by apply onward_plain].
  - by apply send_chunk_onward.
  - unfold after_send, finish_stream. destruct c; apply next_set; first [by apply onward_plain|by apply onward_lock].
Qed.

Definition all_paired (s : conn) : Prop := forall t k, h2_tasks s !! t = Some k -> paired k.

Lemma paired_step t (s s' : conn) l :
  step handler t s = Some (s', l) -> flow_ok s -> all_paired s -> all_paired s'.
Proof.
  intros Hs Hok Hp u ku Hu. destruct (step_others _ _ _ _ _ Hs) as [Hot Hnew].
  destruct (h2_tasks s !! u) as [k|] eqn:Hk; [|by destruct (Hnew u ku Hk Hu) as [o ->]].
  destruct (decide (u = t)) as [->|Hne].
  - destruct (pending k) as [[f c]|] eqn:Ep; [|by eapply onward_step].
    destruct (pending_step _ _ _ _ _ _ _ _ Hk Ep Hs) as (k' & Hk' & Hc). rewrite Hu in Hk'. injection Hk' as <-.
    destruct Hc as [[E _]|[-> _]]; [|done]. intros f' c'. rewrite E. intros [= <- <-]. by apply (Hp t k).
  - destruct (step_resumed _ _ _ _ _ _ _ Hs Hne Hk) as (k' & Hk' & Hr). rewrite Hu in Hk'. injection Hk' as <-.
    destruct Hr as [->|[(? & ? & ? & ? & -> & ->)|(f & c & -> & ->)]]; [by apply (Hp u)|done|].
    intros f' c' [= <- <-]. by apply (Hp u (TLockWait f c)).
Qed.

(** ** The account *)

Record counted (s : conn) : Prop := mk_counted {
  cd_valid : valid s;
  cd_flow : flow_inv s;
  cd_paired : all_paired s;
}.

Lemma counted_new (w : W) leftover : counted (connection_h2_new w leftover).
Proof.
  split; [eapply (valid_reach handler), reach_refl|apply flow_inv_new|].
  intros [|t] k Hk; [by injection Hk as <-|done].
Qed.

Lemma counted_step t (s s' : conn) l : step handler t s = Some (s', l) -> counted s -> counted s'.
Proof.
  intros Hs [Hv Hf Hp]. split.
  - by apply (so_valid _ _ (sound_step _ _ _ _ _ Hs Hv)).
  - by eapply flow_inv_step.
  - eapply paired_step; [done| |done]. apply Hf.
Qed.

(** The stream a task answers, and the DATA bytes [tr] has for a stream. *)
Definition answers_of (s : conn) (t : nat) : option nat := h2_tasks s !! t ≫= task_obj.

Definition data_sent (s : conn) (tr : list (nat * out_frame)) (obj : nat) : Z :=
  zsum (fun e => if bool_decide (answers_of s e.1 = Some obj) then frame_data e.2 else 0) tr.

(** The credit of the frames a schedule reads. *)
Fixpoint granted (sched : list nat) (s : conn) (obj : nat) : Z :=
  match sched with
  | [] => 0
  | t :: r =>
      match step handler t s with
      | Some (s', _) => credit_of t s obj + granted r s' obj
      | None => 0
      end
  end.

Lemma answers_of_step t (s s' : conn) l u k :
  step handler t s = Some (s', l) -> h2_tasks s !! u = Some k -> answers_of s' u = answers_of s u.
Proof.
  intros Hs Hk. destruct (ot_task _ _ _ (step_others _ _ _ _ _ Hs) u k Hk) as (k' & Hk' & Ho & _).
  unfold answers_of. rewrite Hk, Hk'. exact Ho.
Qed.

(** What a step's task takes to be settled is what the step sent. *)
Lemma step_sends t k (s s' : conn) l obj :
  step handler t s = Some (s', l) -> h2_tasks s !! t = Some k -> flow_ok s -> paired k ->
  exists k', h2_tasks s' !! t = Some k' /\ data_sent s' l obj = unsettled_by obj k'.
Proof.
  intros Hs Hk Hok Hp. destruct (ot_task _ _ _ (step_others _ _ _ _ _ Hs) t k Hk) as (k' & Hk' & _).
  exists k'. split; [done|]. destruct (pending k) as [[f c]|] eqn:Ep.
  - destruct (pending_step _ _ _ _ _ _ _ _ Hk Ep Hs) as (k1 & Hk1 & Hc). rewrite Hk' in Hk1. injection Hk1 as <-.
    destruct Hc as [[E ->]|[-> ->]]; [by destruct k'|]. unfold data_sent, answers_of. cbn. rewrite Hk'. cbn.
    rewrite (Hp f c Ep). destruct c as [| | | | |o a r b m|]; cbn; try (by destruct (bool_decide _)).
    destruct (Nat.eqb_spec o obj) as [->|Hne]; [rewrite bool_decide_eq_true_2 by done; lia|].
    by rewrite bool_decide_eq_false_2 by congruence.
  - destruct (onward_step _ _ _ _ _ Hs Hk Ep Hok k' Hk') as [_ Hn].
    assert (l = []) as ->; [|by destruct k'].
    destruct (step_cases _ _ _ _ _ Hs) as (k0 & Hk0 & Hc). rewrite Hk in Hk0. injection Hk0 as <-. destruct k; by try destruct Hc as [-> _].
Qed.

Lemma step_unsettled t k k' (s s' : conn) l obj :
  step handler t s = Some (s', l) -> h2_tasks s !! t = Some k -> h2_tasks s' !! t = Some k' ->
  unsettled s' obj = unsettled s obj - unsettled_by obj k + unsettled_by obj k'.
Proof.
  intros Hs Hk Hk'. unfold unsettled. rewrite <-(zsum_insert _ _ _ _ k' Hk). apply zsum_extends.
  - intros u ku Hu. destruct (decide (u = t)) as [->|Hne].
    { rewrite (insert_here _ _ _ _ Hk) in Hu. injection Hu as <-. eauto. }
    rewrite list_lookup_insert_ne in Hu by done.
    destruct (step_resumed _ _ _ _ _ _ _ Hs Hne Hu) as (k1 & Hk1 & Hr). exists k1. split; [done|].
    by destruct Hr as [->|[(? & ? & ? & ? & -> & ->)|(f & c & -> & ->)]].
  - intros u ku Hu Hu'. assert (h2_tasks s !! u = None) as Hn.
    { apply lookup_ge_None. apply lookup_ge_None in Hu. by rewrite length_insert in Hu. }
    by destruct (ot_new _ _ _ (step_others _ _ _ _ _ Hs) u ku Hn Hu') as [o ->].
Qed.

Lemma run_answers_of sched (s s' : conn) l u k :
  run_schedule handler sched s = Some (s', l) -> h2_tasks s !! u = Some k -> answers_of s' u = answers_of s u.
Proof.
  revert s l k. induction sched as [|t sched IH]; intros s l k E Hk; cbn in E; [by injection E as <- <-|].
  destruct (step handler t s) as [[s1 l1]|] eqn:Es; [|done]. cbn in E.
  destruct (run_schedule handler sched s1) as [[s2 l2]|] eqn:Er; [|done]. injection E as <- <-.
  destruct (ot_task _ _ _ (step_others _ _ _ _ _ Es) u k Hk) as (k1 & Hk1 & _).
  rewrite (IH _ _ _ Er Hk1). by eapply answers_of_step.
Qed.

(** Credit received is window left and data sent, less what is not settled yet. *)
Lemma run_account sched (s s' : conn) l obj :
  run_schedule handler sched s = Some (s', l) -> counted s ->
  counted s' /\
  send_window_of s' obj + data_sent s' l obj - unsettled s' obj =
    send_window_of s obj - unsettled s obj + granted sched s obj.
Proof.
  revert s l. induction sched as [|t sched IH]; intros s l E Hc; cbn in E.
  { injection E as <- <-. split; [done|]. cbn. lia. }
  destruct (step handler t s) as [[s1 l1]|] eqn:Es; [|done]. cbn in E.
  destruct (run_schedule handler sched s1) as [[s2 l2]|] eqn:Er; [|done]. injection E as <- <-.
  destruct (IH _ _ Er (counted_step _ _ _ _ Es Hc)) as [Hc2 Ha]. split; [done|].
  destruct (step_cases _ _ _ _ _ Es) as (k & Hk & _).
  destruct (step_sends t k s s1 l1 obj Es Hk) as (k' & Hk' & Hd); [apply Hc|by apply (cd_paired _ Hc t)|].
  pose proof (step_unsettled _ _ _ _ _ _ obj Es Hk Hk') as Hu.
  destruct (step_accounts t k s s1 l1 Es Hk) as [_ Hw]; [apply Hc|]. specialize (Hw obj). cbn in Hw.
  assert (data_sent s2 l1 obj = data_sent s1 l1 obj) as Hl.
  { apply zsum_ext. intros [u f] Hin. destruct (step_events _ _ _ _ _ Es) as [->|[f' ->]]; [by apply elem_of_nil in Hin|].
    apply list_elem_of_singleton in Hin. injection Hin as -> ->. cbn [fst snd]. by rewrite (run_answers_of _ _ _ _ _ _ Er Hk'). }
  unfold data_sent in *. rewrite zsum_app. cbn [granted]. rewrite Es. lia.
Qed.

(** A coroutine that has its stream for itself has nothing unsettled its window lacks. *)
Lemma sole_unsettled (s : conn) t obj :
  flow_inv s -> sole s t obj -> 0 <= send_window_of s obj /\ unsettled s obj <= send_window_of s obj.
Proof.
  intros Hf Hs. assert (forall u k, h2_tasks s !! u = Some k -> unsettled_by obj k <> 0 -> u = t /\
    unsettled_by obj k = task_flight k /\ task_obj k = Some obj) as Hk.
  { intros u k Hu Hn. destruct k as [| | | | | | | | | | |[| | | | |o a r b m|]|]; try done. cbn in Hn |- *.
    destruct (Nat.eqb_spec o obj) as [->|]; [|done]. split; [|done]. by apply (Hs u _ Hu). }
  destruct (h2_tasks s !! t) as [k|] eqn:Et; [destruct (decide (task_obj k = Some obj)) as [Ho|Ho]|].
  - pose proof (fi_sole _ Hf t k obj Et Ho Hs). pose proof (fi_flight _ Hf t k Et). split; [lia|].
    unfold unsettled. rewrite (zsum_single _ _ t k Et).
    + destruct (decide (unsettled_by obj k = 0)); [lia|]. destruct (Hk t k Et) as (_ & -> & _); [done|lia].
    + intros u ku Hu Hne. destruct (decide (unsettled_by obj ku = 0)); [done|]. by destruct (Hk u ku Hu).
  - assert (0 <= send_window_of s obj) as Hw.
    { apply Hf. intros u ku Hu Hou. assert (u = t) as -> by by apply (Hs u ku). congruence. }
    split; [done|]. unfold unsettled. rewrite zsum_zero; [done|]. intros ku (u & Hu)%list_elem_of_lookup.
    destruct (decide (unsettled_by obj ku = 0)); [done|]. destruct (Hk u ku Hu) as (-> & _ & ?); [done|]. congruence.
  - assert (0 <= send_window_of s obj) as Hw.
    { apply Hf. intros u ku Hu Hou. assert (u = t) as -> by by apply (Hs u ku). congruence. }
    split; [done|]. unfold unsettled. rewrite zsum_zero; [done|]. intros ku (u & Hu)%list_elem_of_lookup.
    destruct (decide (unsettled_by obj ku = 0)); [done|]. destruct (Hk u ku Hu) as (-> & _ & ?); [done|]. congruence.
Qed.

(** C38: The account of a stream's credit: after every schedule, the credit the frames read so far
    have given the stream (the peer's initial window when it was created, and its
    WINDOW_UPDATE frames while it was registered) is exactly the window left plus the DATA
    bytes its coroutines have sent, less those sent and not yet subtracted; and as long as at
    most one coroutine answers the stream, its window is never negative and it has never sent
    more than it was given. *)
Theorem h2_stream_window_respected (w : W) leftover sched tr s obj :
  run_schedule handler sched (connection_h2_new w leftover) = Some (s, tr) ->
  granted sched (connection_h2_new w leftover) obj =
    hs_send_window (stream_at s obj) + data_sent s tr obj - unsettled s obj /\
  ((exists t, sole s t obj) ->
    0 <= hs_send_window (stream_at s obj) /\ data_sent s tr obj <= granted sched (connection_h2_new w leftover) obj).
Proof.
  intros Hr. destruct (run_account _ _ _ _ obj Hr (counted_new w leftover)) as [Hc Ha].
  change (send_window_of (connection_h2_new w leftover) obj) with 0 in Ha.
  change (unsettled (connection_h2_new w leftover) obj) with 0 in Ha. unfold send_window_of in Ha.
  split; [lia|]. intros [t Ht]. destruct (sole_unsettled s t obj (cd_flow _ Hc) Ht) as [H1' H2'].
  unfold send_window_of in *. lia.
Qed.

(** ** Wakeups *)

Lemma slots_reach (w : W) leftover tr s : reach handler (connection_h2_new w leftover) tr s -> slots_ok s.
Proof.
  intros Hr. induction Hr as [|tr s t s' l Hr IH Hs].
  - split; intros obj t; [done|]. intros (r & b & m & E). by destruct t as [|[|t]].
  - destruct (step_cases _ _ _ _ _ Hs) as (k & Hk & _).
    by apply (step_accounts _ _ _ _ _ Hs Hk (valid_reach _ _ _ _ _ Hr)).
Qed.

(** C24: No response coroutine suspended for flow control is forgotten: in every reachable state,
    a coroutine that waits for a window and has its stream for itself is the one its stream's
    wait slot names, and, while the stream is registered, the stream's or the connection's
    window is closed, so that a WINDOW_UPDATE that opens both has resumed it; and the slot of
    a registered stream names only a coroutine that really waits for a closed window. *)
Theorem h2_no_lost_wakeup (w : W) leftover tr s :
  reach handler (connection_h2_new w leftover) tr s ->
  (forall t obj, waits s t obj -> sole s t obj -> slot s obj = Some t) /\
  (forall id t obj, waits s t obj -> sole s t obj -> h2_streams s !! id = Some obj -> window_open s obj = false) /\
  (forall id t obj, slot s obj = Some t -> h2_streams s !! id = Some obj -> waits s t obj /\ window_open s obj = false).
Proof.
  intros Hr. destruct (slots_reach _ _ _ _ Hr) as [Hw Hh].
  destruct (fi_ok _ (flow_inv_reach _ _ _ _ _ Hr)) as [_ Hc]. split_and!.
  - intros. by apply Hh.
  - intros id t obj Hwt Hso Hid. by apply (Hc id obj t Hid), Hh.
  - intros id t obj Hs Hid. split; [by apply Hw|by apply (Hc id obj t)].
Qed.
End Flow.
