(* ===== verification/ConnectionH2Request.v ===== *)
(** * ConnectionH2Request: requests over HTTP/2 are reassembled

    A client may cut a header block over HEADERS and CONTINUATION frames and a
    body over DATA frames, pad them and add a priority, and the wire may
    deliver the bytes in any segments: the coroutine of [run], alone, starts
    one stream coroutine with exactly that request, and returns the flow
    control credit of every DATA frame. *)

From S2P Require Import Prelude Bytes Stream Feeder Method Header Resource QueryString UrlEncode Server.
From S2P Require Import Frame Hpack ConnectionH2 ConnectionH2Facts.

#[local] Open Scope Z_scope.

(** ** The frames of a client *)

Definition pad_payload (pad : option byte) (content : bytes) : bytes :=
  match pad with
  | None => content
  | Some p => p :: content ++ replicate (Z.to_nat (b2z p)) x00
  end.

Definition is_some {A} (o : option A) : bool := match o with Some _ => true | None => false end.

Lemma strip_pad pad content :
  exists off, strip_padding (pad_payload pad content) (is_some pad) = Some (length content, off) /\
    take (length content) (drop off (pad_payload pad content)) = content.
Proof.
  unfold strip_padding. destruct pad as [p|]; cbn [is_some pad_payload negb].
  - exists 1%nat. cbn [length]. rewrite length_app, length_replicate.
    destruct (Nat.ltb_spec (S (length content + Z.to_nat (b2z p))) (Z.to_nat (b2z p) + 1)); [lia|].
    split; [do 2 f_equal; lia|]. change (drop 1 (p :: ?l)) with l. by rewrite take_app_length.
  - exists 0%nat. split; [done|]. by rewrite drop_0, firstn_all.
Qed.

(** The fragment after the padding and the priority block are dropped. *)
Lemma strip_prio pad prio (fragment : bytes) :
  (forall p, prio = Some p -> length p = 5%nat) ->
  exists len0 off0 len off,
    strip_padding (pad_payload pad (default [] prio ++ fragment)) (is_some pad) = Some (len0, off0) /\
    (if is_some prio then if (len0 <? 5)%nat then None else Some ((len0 - 5)%nat, (off0 + 5)%nat)
     else Some (len0, off0)) = Some (len, off) /\
    take len (drop off (pad_payload pad (default [] prio ++ fragment))) = fragment.
Proof.
  intros Hp. set (payload := pad_payload pad _).
  destruct (strip_pad pad (default [] prio ++ fragment)) as (off & Hs & Ht). fold payload in Hs, Ht.
  destruct prio as [p|]; cbn [is_some from_option] in *.
  - specialize (Hp p eq_refl). change (id p) with p in Hs, Ht. rewrite length_app, Hp in Hs, Ht.
    eexists _, _, (length fragment), (off + 5)%nat. split; [exact Hs|].
    destruct (Nat.ltb_spec (5 + length fragment) 5); [lia|]. split; [do 2 f_equal; lia|].
    rewrite <-drop_drop. replace (length fragment) with (5 + length fragment - 5)%nat by lia.
    rewrite <-skipn_firstn_comm, Ht. rewrite <-Hp. by rewrite drop_app_length.
  - eexists _, _, _, _. split; [exact Hs|]. by split.
Qed.

Definition frame_flags (end_stream end_headers padded priority : bool) : Z :=
  Z.lor (Z.lor (if end_stream then flag_end_stream else 0) (if end_headers then flag_end_headers else 0))
        (Z.lor (if padded then flag_padded else 0) (if priority then flag_priority else 0)).

Record client_frame := mk_client { cf_header : frame_header; cf_payload : bytes }.

Definition frame_of (ty : frame_type) (flags id : Z) (payload : bytes) : client_frame :=
  mk_client (mk_frame_header (Z.of_nat (length payload)) ty flags id) payload.

Definition client_bytes (f : client_frame) : bytes := frame_header_write (cf_header f) ++ cf_payload f.

(** [prio] is the priority block of a HEADERS frame. *)
Definition headers_frame_of (id : Z) (pad : option byte) (prio : option bytes) (end_stream end_headers : bool)
    (fragment : bytes) : client_frame :=
  frame_of ft_headers (frame_flags end_stream end_headers (is_some pad) (is_some prio)) id
    (pad_payload pad (default [] prio ++ fragment)).

Definition continuation_of (id : Z) (end_headers : bool) (fragment : bytes) : client_frame :=
  frame_of ft_continuation (frame_flags false end_headers false false) id fragment.

Definition data_of (id : Z) (end_stream : bool) (part : option byte * bytes) : client_frame :=
  frame_of ft_data (frame_flags end_stream false (is_some part.1) false) id (pad_payload part.1 part.2).

Fixpoint continuations_of (id : Z) (fragments : list bytes) : list client_frame :=
  match fragments with
  | [] => []
  | [f] => [continuation_of id true f]
  | f :: r => continuation_of id false f :: continuations_of id r
  end.

Fixpoint datas_of (id : Z) (parts : list (option byte * bytes)) : list client_frame :=
  match parts with
  | [] => []
  | [p] => [data_of id true p]
  | p :: r => data_of id false p :: datas_of id r
  end.

Definition is_nil {A} (l : list A) : bool := match l with [] => true | _ => false end.

(** A request: the first fragment in a HEADERS frame, the others in
    CONTINUATION frames, then the parts of the body. *)
Definition request_frames (id : Z) (pad : option byte) (prio : option bytes) (fragment : bytes)
    (fragments : list bytes) (parts : list (option byte * bytes)) : list client_frame :=
  headers_frame_of id pad prio (is_nil parts) (is_nil fragments) fragment ::
  continuations_of id fragments ++ datas_of id parts.

Definition client_text (fs : list client_frame) : bytes := concat (map client_bytes fs).

(** The credit returned for a part, and for the parts. *)
Definition credit (id : Z) (part : option byte * bytes) : list (nat * out_frame) :=
  let n := Z.of_nat (length (pad_payload part.1 part.2)) in
  if 0 <? n then [(0%nat, window_update_frame id n); (0%nat, window_update_frame 0 n)] else [].

Definition credits (id : Z) (parts : list (option byte * bytes)) : list (nat * out_frame) :=
  concat (map (credit id) parts).

(** ** Requests as header fields *)

Definition request_fields (method scheme authority path : bytes) (headers : http_headers) : header_list :=
  [mk_field (str ":method") method; mk_field (str ":scheme") scheme;
   mk_field (str ":authority") authority; mk_field (str ":path") path] ++
  map (fun h => mk_field (h_name h) (h_value h)) headers.

(** What a list of fields says, whatever their order: the last value of a
    pseudo-header, and the fields that are none, in their order. *)
Definition pseudo (name : string) (fields : header_list) : option bytes :=
  hf_value <$> last (base.filter (fun f => hf_name f = str name) fields).

Definition regular_fields (fields : header_list) : http_headers :=
  map (fun f => mk_header (hf_name f) (hf_value f)) (base.filter (fun f => head (hf_name f) <> Some ":"%byte) fields).

Definition request_resource (fields : header_list) : http_resource :=
  let target := split_target <$> pseudo ":path" fields in
  mk_resource (http_method_of (default [] (pseudo ":method" fields)))
    (from_option (fun t => url_decode t.1) [] target) (from_option fst [] target) (from_option snd [] target) 2 0.

Definition h2_resource (method path : bytes) : http_resource :=
  mk_resource (http_method_of method) (url_decode (split_target path).1) (split_target path).1
    (split_target path).2 2 0.

Lemma filter_snoc {A} (P : A -> Prop) `{!forall x, Decision (P x)} (l : list A) x :
  base.filter P (l ++ [x]) = base.filter P l ++ if decide (P x) then [x] else [].
Proof. by rewrite filter_app. Qed.

Lemma pseudo_snoc name fs f :
  pseudo name (fs ++ [f]) = if decide (hf_name f = str name) then Some (hf_value f) else pseudo name fs.
Proof.
  unfold pseudo. rewrite filter_snoc. destruct (decide (hf_name f = str name)); [by rewrite last_snoc|by rewrite app_nil_r].
Qed.

Lemma regular_snoc fs f :
  regular_fields (fs ++ [f]) =
  regular_fields fs ++ if decide (head (hf_name f) = Some ":"%byte) then [] else [mk_header (hf_name f) (hf_value f)].
Proof.
  unfold regular_fields. rewrite filter_snoc, map_app. f_equal.
  destruct (decide (head (hf_name f) <> Some ":"%byte)), (decide (head (hf_name f) = Some ":"%byte)); done.
Qed.

(** What a field does to the stream is what it says. *)
Lemma fields_applied fs id window block end_stream :
  set_version_2 (fold_left apply_field fs (h2_stream_new id window block end_stream)) =
  hs_with_hostname (default [] (pseudo ":authority" fs)) (hs_with_headers (regular_fields fs)
    (hs_with_resource (request_resource fs) (h2_stream_new id window block end_stream))).
Proof.
  set (st0 := h2_stream_new id window block end_stream).
  assert (fold_left apply_field fs st0 =
    hs_with_hostname (default [] (pseudo ":authority" fs)) (hs_with_headers (regular_fields fs)
      (hs_with_resource (let r := request_resource fs in
         mk_resource (hr_method r) (hr_path r) (hr_raw_path r) (hr_query r) 1 1) st0))) as ->; [|done].
  induction fs as [|f fs IH] using rev_ind; [done|]. rewrite fold_left_app. cbn [fold_left]. rewrite IH. clear IH.
  unfold request_resource. rewrite !pseudo_snoc, regular_snoc. unfold apply_field, bytes_eqb.
  destruct (decide (hf_name f = str ":method")) as [E|E1].
  { rewrite E, bool_decide_eq_true_2 by done. cbn. by rewrite app_nil_r. }
  rewrite (bool_decide_eq_false_2 _ E1). destruct (decide (hf_name f = str ":authority")) as [E|E2].
  { rewrite E, bool_decide_eq_true_2 by done. cbn. by rewrite app_nil_r. }
  rewrite (bool_decide_eq_false_2 _ E2). destruct (decide (hf_name f = str ":path")) as [E|E3].
  { rewrite E, bool_decide_eq_true_2 by done. cbn. rewrite app_nil_r. by destruct (split_target (hf_value f)). }
  rewrite (bool_decide_eq_false_2 _ E3). destruct (bool_decide (hf_name f = str ":scheme")) eqn:E4.
  { apply bool_decide_eq_true in E4. rewrite E4. cbn. by rewrite app_nil_r. }
  destruct (decide (head (hf_name f) = Some ":"%byte)) as [E5|E5].
  - by rewrite (bool_decide_eq_true_2 _ E5), app_nil_r.
  - by rewrite (bool_decide_eq_false_2 _ E5).
Qed.

(** ** The coroutine of [run] on its own *)
Section Solo.
Context {W : Type} `{StreamDuplex W}.
Context (handler : option (request memory_stream -> option (response W * request memory_stream))).

Abbreviation conn := (conn_h2 W).

(** [s'] is reached from [s] by steps of task 0 only, sending [tr]. *)
Definition solo (s : conn) (tr : list (nat * out_frame)) (s' : conn) : Prop :=
  exists n, run_schedule handler (replicate n 0%nat) s = Some (s', tr).

Lemma run_schedule_app ts1 ts2 (s s1 s2 : conn) l1 l2 :
  run_schedule handler ts1 s = Some (s1, l1) -> run_schedule handler ts2 s1 = Some (s2, l2) ->
  run_schedule handler (ts1 ++ ts2) s = Some (s2, l1 ++ l2).
Proof.
  revert s l1. induction ts1 as [|t ts IH]; intros s l1; cbn [run_schedule app].
  - by intros [= <- <-].
  - destruct (step handler t s) as [[sa la]|]; [|done]. cbn [mbind option_bind].
    destruct (run_schedule handler ts sa) as [[sb lb]|] eqn:E; [|done]. cbn [mbind option_bind].
    intros [= <- <-] H2'. rewrite (IH sa lb E H2'). cbn [mbind option_bind]. by rewrite <-app_assoc.
Qed.

Lemma solo_refl (s : conn) : solo s [] s.
Proof. by exists 0%nat. Qed.

Lemma solo_trans (s1 s2 s3 : conn) l1 l2 : solo s1 l1 s2 -> solo s2 l2 s3 -> solo s1 (l1 ++ l2) s3.
Proof.
  intros [n1 H1'] [n2 H2']. exists (n1 + n2)%nat. rewrite replicate_add. by eapply run_schedule_app.
Qed.

Lemma solo_step (s s' : conn) l : step handler 0 s = Some (s', l) -> solo s l s'.
Proof. intros E. exists 1%nat. cbn [replicate run_schedule]. rewrite E. cbn. by rewrite app_nil_r. Qed.

(** Task 0 is at [k], the others are [ts], the lock is free and [raw] is
    still to be read. *)
Record at_point (k : task) (ts : list task) (raw : bytes) (s : conn) : Prop := mk_at {
  at_tasks : h2_tasks s = k :: ts;
  at_ok : fd_ok (h2_feed s);
  at_raw : fd_raw (h2_feed s) = raw;
  at_locked : h2_locked s = false;
  at_waiters : h2_waiters s = [];
}.

(** The part of the state reading and sending leave alone. *)
Record core_eq (s s' : conn) : Prop := mk_core {
  ce_hpack : h2_hpack s' = h2_hpack s;
  ce_heap : h2_heap s' = h2_heap s;
  ce_streams : h2_streams s' = h2_streams s;
  ce_last : h2_last_header_stream_id s' = h2_last_header_stream_id s;
  ce_expecting : h2_expecting_continuation s' = h2_expecting_continuation s;
  ce_initial : h2_peer_initial_window_size s' = h2_peer_initial_window_size s;
}.

#[local] Instance core_eq_PreOrder : PreOrder core_eq.
Proof. split; [done|]. intros a b c [] []. split; congruence. Qed.

Lemma core_stream (s s' : conn) obj : core_eq s s' -> stream_at s' obj = stream_at s obj.
Proof. intros [_ E _ _ _ _]. unfold stream_at. by rewrite E. Qed.

Lemma set_task_0 k k' ts (s : conn) : h2_tasks s = k :: ts -> set_task 0 k' s = with_tasks (k' :: ts) s.
Proof. intros E. unfold set_task. by rewrite E. Qed.

Lemma at_set k k' ts raw (s : conn) : at_point k ts raw s -> at_point k' ts raw (set_task 0 k' s).
Proof. intros [Ht ? ? ? ?]. split; try done. cbn. by rewrite Ht. Qed.

(** Filling the buffer until [n] bytes are there. *)
Lemma solo_need k ts raw (s : conn) n after :
  at_point k ts raw s -> (n <= length raw)%nat ->
  (forall s1, h2_tasks s1 = k :: ts -> step handler 0 s1 = Some (need 0 n s1 after, [])) ->
  exists s1, solo s [] (after (take n raw) s1) /\ at_point k ts (drop n raw) s1 /\ core_eq s s1.
Proof.
  intros Hat Hn Hstep.
  remember (fd_steps (h2_feed s)) as m eqn:Em. revert s Em Hat. induction m as [m IH] using lt_wf_ind.
  intros s Em [Ht Hok Hraw Hl Hw]. pose proof (Hstep s Ht) as Hs. unfold need in Hs.
  destruct (Nat.ltb_spec (length (fd_buffer (h2_feed s))) n) as [Hlt|Hge].
  - assert (fd_eof (h2_feed s) = false) as He.
    { destruct (fd_eof (h2_feed s)) eqn:E; [|done]. destruct Hok as [_ Hd]. specialize (Hd E).
      unfold fd_raw in Hraw. rewrite Hd, app_nil_r in Hraw. subst raw. lia. }
    destruct (fill_more_spec _ Hok He) as (Hok1 & Hraw1 & Hst1 & _).
    destruct (fill_more (h2_feed s)) as [more d] eqn:Ef. cbn [snd] in *.
    assert (more = true) as ->.
    { destruct more; [done|]. unfold fill_more in Ef. rewrite He in Ef.
      destruct (st_read chunk_size (fd_source (h2_feed s))) as [c src] eqn:Er.
      pose proof (read_empty_iff _ _ _ _ (proj1 Hok) chunk_size_pos Er) as Hemp.
      destruct c; [|done]. destruct Hemp as [Hemp _]. specialize (Hemp eq_refl).
      unfold fd_raw in Hraw. rewrite Hemp, app_nil_r in Hraw. subst raw. lia. }
    destruct (IH (fd_steps d) ltac:(lia) (with_feed d s) eq_refl) as (s1 & Hs1 & Hat1 & Hc1).
    { split; try done. cbn. congruence. }
    exists s1. split; [|split; [done|by etrans; [|exact Hc1]]].
    change (@nil (nat * out_frame)) with (@nil (nat * out_frame) ++ []). eapply solo_trans; [|exact Hs1].
    by apply solo_step.
  - exists (with_feed (fd_with_buffer (h2_feed s) (drop n (fd_buffer (h2_feed s)))) s). split_and!.
    + apply solo_step. rewrite Hs. do 3 f_equal. rewrite <-Hraw. unfold fd_raw. by rewrite take_app_le.
    + split; try done. rewrite <-Hraw. unfold fd_raw. cbn. by rewrite drop_app_le.
    + done.
Qed.

(** A frame is read and handed to its handler. *)
Lemma solo_frame f ts rest (s : conn) :
  at_point THeader ts (client_bytes f ++ rest) s -> frame_header_wf (cf_header f) ->
  fh_length (cf_header f) = Z.of_nat (length (cf_payload f)) ->
  exists s1, solo s [] (on_frame 0 (cf_header f) (cf_payload f) s1) /\
    at_point (TPayload (cf_header f)) ts rest s1 /\ core_eq s s1.
Proof.
  destruct f as [fh payload]. unfold client_bytes. cbn [cf_header cf_payload]. intros Hat Hwf Hlen.
  assert (length (frame_header_write fh) = 9%nat) as H9 by done.
  destruct (solo_need THeader ts _ s fh_wire_size (on_header 0) Hat) as (s1 & Hs1 & Hat1 & Hc1).
  { rewrite !length_app, H9. unfold fh_wire_size. lia. }
  { intros s1 Ht1. unfold step. by rewrite Ht1. }
  rewrite <-app_assoc in Hs1, Hat1. unfold fh_wire_size in *.
  rewrite <-H9, take_app_length in Hs1. rewrite <-H9, drop_app_length in Hat1.
  unfold on_header in Hs1. pose proof (frame_header_roundtrip fh [] Hwf) as Hp. rewrite app_nil_r in Hp.
  rewrite Hp in Hs1. destruct Hwf as [Hl _].
  destruct (Z.ltb_spec (16 * 1024 * 1024) (fh_length fh)); [change (2 ^ 24) with 16777216 in Hl; lia|].
  pose proof (at_set _ (TPayload fh) _ _ _ Hat1) as Hat2.
  destruct (solo_need _ _ _ _ (length payload) (on_frame 0 fh) Hat2) as (s3 & Hs3 & Hat3 & Hc3).
  { rewrite length_app. lia. }
  { intros s2 Ht2. unfold step. rewrite Ht2. cbn. by rewrite Hlen, Nat2Z.id. }
  rewrite take_app_length in Hs3. rewrite drop_app_length in Hat3. exists s3. split_and!; [|done|].
  - change (@nil (nat * out_frame)) with (@nil (nat * out_frame) ++ []). by eapply solo_trans.
  - etrans; [exact Hc1|]. etrans; [|exact Hc3]. done.
Qed.

(** A frame is sent. *)
Lemma solo_send f c ts raw (s : conn) :
  at_point (TLock f c) ts raw s ->
  exists s1, solo s [(0%nat, f)] s1 /\ at_point (TResume c) ts raw s1 /\ core_eq s s1.
Proof.
  intros Hat.
  assert (forall rest (s0 : conn), h2_tasks s0 = TWrite f rest c :: ts -> fd_ok (h2_feed s0) ->
    fd_raw (h2_feed s0) = raw -> h2_locked s0 = true -> h2_waiters s0 = [] ->
    exists s1, solo s0 [(0%nat, f)] s1 /\ at_point (TResume c) ts raw s1 /\ core_eq s0 s1) as Hloop.
  { intros rest. induction rest as [rest IH] using (induction_ltof1 _ (@length byte)).
    intros s0 Ht Hok Hraw Hl Hw. destruct rest as [|b rest0] eqn:Er.
    - exists (set_task 0 (TResume c) (unlock s0)). unfold unlock. rewrite Hw. split_and!.
      + apply solo_step. unfold step. rewrite Ht. cbn [mbind option_bind lookup list_lookup].
        unfold unlock. by rewrite Hw.
      + split; try done. cbn. by rewrite Ht.
      + done.
    - rewrite <-Er in *. destruct (st_write rest (fd_source (h2_feed s0))) as [n w] eqn:Ew.
      destruct (st_write_spec _ _ _ _ Ew) as (Hn & Hpos & _).
      destruct (st_write_data _ _ _ _ (proj1 Hok) Ew) as [Hok' Hd'].
      destruct (IH (drop n rest)) with (s0 := write_some 0 f rest c s0) as (s1 & Hs1 & Hat1 & Hc1).
      { unfold ltof. rewrite length_drop. assert (0 < n)%nat by (apply Hpos; by rewrite Er). lia. }
      all: unfold write_some; rewrite ?Ew; try done.
      + cbn. by rewrite Ht.
      + split; [done|]. cbn. rewrite Hd'. apply Hok.
      + unfold fd_raw. cbn. by rewrite Hd'.
      + exists s1. split_and!; [|done|].
        * change [(0%nat, f)] with ([] ++ [(0%nat, f)]). eapply solo_trans; [|exact Hs1].
          apply solo_step. unfold step. rewrite Ht, Er. done.
        * etrans; [|exact Hc1]. unfold write_some. by rewrite Ew. }
  destruct Hat as [Ht Hok Hraw Hl Hw].
  destruct (Hloop (out_bytes f) (lock 0 f c s)) as (s1 & Hs1 & Hat1 & Hc1).
  all: unfold lock; rewrite ?Hl; try done.
  - cbn. by rewrite Ht.
  - exists s1. split_and!; [|done|].
    + change [(0%nat, f)] with ([] ++ [(0%nat, f)]). eapply solo_trans; [|exact Hs1].
      apply solo_step. unfold step. by rewrite Ht.
    + etrans; [|exact Hc1]. unfold lock. by rewrite Hl.
Qed.

(** ** Header blocks *)

Lemma frame_flags_test a b c d len ty id :
  let fh := mk_frame_header len ty (frame_flags a b c d) id in
  has_flag fh flag_end_stream = a /\ has_flag fh flag_end_headers = b /\
  has_flag fh flag_padded = c /\ has_flag fh flag_priority = d.
Proof. by destruct a, b, c, d. Qed.

(** Stream [id] is registered as [obj], and is [st]. *)
Record open_stream (id : Z) (obj : nat) (st : h2_stream) (s : conn) : Prop := mk_open {
  os_registered : h2_streams s !! id = Some obj;
  os_bound : (obj < length (h2_heap s))%nat;
  os_stream : stream_at s obj = st;
}.

Lemma open_core id obj st (s s' : conn) : core_eq s s' -> open_stream id obj st s -> open_stream id obj st s'.
Proof.
  intros Hc [E1 E2 E3]. pose proof (core_stream _ _ obj Hc) as E. destruct Hc as [_ Eh Es _ _ _].
  split; [by rewrite Es|by rewrite Eh|congruence].
Qed.

Lemma open_update id obj st g (s : conn) :
  open_stream id obj st s -> open_stream id obj (g st) (update_stream obj g s).
Proof.
  intros [E1 E2 E3]. split; [done|cbn; by rewrite length_alter|]. rewrite stream_at_update_eq by done. by rewrite E3.
Qed.

(** The client's header block, which the decoder accepts in the state [dec] its
    table is in: it may refer to the static and dynamic tables, add to the latter
    and resize it. *)
Context (id window : Z) (header_block : bytes) (dec dec' : hpack_decoder) (fields : header_list).
Hypothesis Hdecode : hpack_decode (length header_block) header_block dec [] = Some (true, dec', fields).

(** The stream once its header block is decoded. *)
Definition ready (end_stream : bool) (body : bytes) : h2_stream :=
  hs_append_body body (hs_set_end_headers (hs_with_hostname (default [] (pseudo ":authority" fields))
    (hs_with_headers (regular_fields fields)
      (hs_with_resource (request_resource fields) (h2_stream_new id window header_block end_stream))))).

(** The end of the block. *)
Lemma complete_open obj end_stream k ts raw (s : conn) :
  open_stream id obj (h2_stream_new id window header_block end_stream) s -> at_point k ts raw s -> h2_hpack s = dec ->
  let s' := complete_headers obj s in
  open_stream id obj (ready end_stream []) s' /\
  at_point k (if end_stream then ts ++ [TStart obj] else ts) raw s' /\ h2_hpack s' = dec' /\
  h2_expecting_continuation s' = h2_expecting_continuation s.
Proof.
  intros [E1 E2 E3] Hat Hd s'. unfold s', complete_headers. rewrite E3. unfold finish_header_block.
  change (hs_header_block (h2_stream_new id window header_block end_stream)) with header_block.
  rewrite Hd, Hdecode, fields_applied. set (st := hs_with_hostname _ _).
  replace (hs_end_stream st || hs_malformed st) with end_stream by (by destruct end_stream).
  assert (open_stream id obj (ready end_stream [])
    (update_stream obj (fun _ => hs_set_end_headers st) (with_hpack dec' s))) as Ho.
  { split; [done|cbn; by rewrite length_alter|]. rewrite stream_at_update_eq by done.
    unfold st, ready, hs_append_body, hs_set_end_headers, hs_with_hostname. cbn. done. }
  destruct end_stream; cbn [orb].
  - destruct Ho as [? ? ?], Hat as [Ht ? ? ? ?]. split; [by split|]. split; [|by split].
    split; try done. cbn. by rewrite Ht.
  - destruct Hat. split; [done|]. split; [by split|by split].
Qed.

Definition frame_wf_of (f : client_frame) : Prop :=
  Z.of_nat (length (cf_payload f)) < 2 ^ 24.

Lemma frame_of_wf ty a b c d payload :
  0 < id < 2 ^ 31 -> frame_type_wf ty -> Z.of_nat (length payload) < 2 ^ 24 ->
  frame_header_wf (cf_header (frame_of ty (frame_flags a b c d) id payload)).
Proof. intros Hid Hty Hl. repeat split; cbn; try lia; try done; by destruct a, b, c, d. Qed.

(** HEADERS. *)
Lemma solo_headers pad prio end_stream end_headers fragment ts rest (s : conn) :
  let f := headers_frame_of id pad prio end_stream end_headers fragment in
  let obj := length (h2_heap s) in
  0 < id < 2 ^ 31 -> frame_wf_of f -> (forall p, prio = Some p -> length p = 5%nat) ->
  h2_peer_initial_window_size s = window -> h2_expecting_continuation s = false ->
  at_point THeader ts (client_bytes f ++ rest) s ->
  exists s2, open_stream id obj (h2_stream_new id window fragment end_stream) s2 /\
    at_point (TPayload (cf_header f)) ts rest s2 /\ h2_hpack s2 = h2_hpack s /\
    h2_expecting_continuation s2 = false /\
    solo s [] (set_task 0 THeader (if end_headers then complete_headers obj s2 else with_expecting true id s2)).
Proof.
  intros f obj Hid Hwf Hprio Hwin Hexp Hat.
  destruct (solo_frame f ts rest s Hat) as (s1 & Hs1 & Hat1 & Hc1); [by apply frame_of_wf|done|].
  destruct (strip_prio pad prio fragment Hprio) as (len0 & off0 & len & off & Hsp & Hpr & Htk).
  pose proof (frame_flags_test end_stream end_headers (is_some pad) (is_some prio)
    (Z.of_nat (length (cf_payload f))) ft_headers id) as (F1 & F2 & F3 & F4).
  set (st := h2_stream_new id window fragment end_stream).
  set (s2 := with_highest (Z.max (h2_highest_stream_id s1) id)
    (with_streams (<[id := obj]> (h2_streams s1)) (with_heap (h2_heap s1 ++ [st]) s1))).
  exists s2. split_and!.
  - split; cbn.
    + apply lookup_insert_eq.
    + rewrite (ce_heap _ _ Hc1), length_app. cbn. unfold obj. lia.
    + unfold stream_at. cbn. rewrite (ce_heap _ _ Hc1). unfold obj. by rewrite list_lookup_middle.
  - by destruct Hat1.
  - apply (ce_hpack _ _ Hc1).
  - cbn. by rewrite (ce_expecting _ _ Hc1).
  - assert (on_frame 0 (cf_header f) (cf_payload f) s1 =
      set_task 0 THeader (if end_headers then complete_headers obj s2 else with_expecting true id s2)) as Hon;
      [|by rewrite <-Hon].
    unfold on_frame, handle_headers. change (fh_type (cf_header f)) with ft_headers. cbn iota.
    change (fh_stream_id (cf_header f)) with id. rewrite (ce_expecting _ _ Hc1), Hexp.
    destruct (Z.eqb_spec id 0); [lia|]. cbn [orb]. unfold f, headers_frame_of, frame_of in F1, F2, F3, F4 |- *.
    cbn [cf_header cf_payload] in F1, F2, F3, F4 |- *. rewrite F1, F2, F3, F4, Hsp. cbn [mbind option_bind].
    rewrite Hpr. cbn [mbind option_bind]. rewrite Htk. unfold s2, st, obj.
    rewrite <-(ce_heap _ _ Hc1), <-Hwin, <-(ce_initial _ _ Hc1). done.
Qed.

(** The reader is back at its loop, stream [id] is [obj], and no header block
    is open. *)
Record settled (obj : nat) (st : h2_stream) (ts : list task) (raw : bytes) (s : conn) : Prop := mk_settled {
  se_at : at_point THeader ts raw s;
  se_open : open_stream id obj st s;
  se_expecting : h2_expecting_continuation s = false;
  se_hpack : h2_hpack s = dec';
}.

Definition started (end_stream : bool) (obj : nat) (ts : list task) : list task :=
  if end_stream then ts ++ [TStart obj] else ts.

Lemma open_set_task obj st k (s : conn) : open_stream id obj st s -> open_stream id obj st (set_task 0 k s).
Proof. by intros []. Qed.

(** The end of the block, and back to the loop. *)
Lemma settle obj end_stream k ts raw (s : conn) :
  open_stream id obj (h2_stream_new id window header_block end_stream) s -> at_point k ts raw s ->
  h2_expecting_continuation s = false -> h2_hpack s = dec ->
  settled obj (ready end_stream []) (started end_stream obj ts) raw (set_task 0 THeader (complete_headers obj s)).
Proof.
  intros Ho Hat He Hd. destruct (complete_open obj end_stream k ts raw s Ho Hat Hd) as (Ho' & Hat' & Hd' & He').
  split; [by eapply at_set|by apply open_set_task|cbn; congruence|done].
Qed.

(** One CONTINUATION frame. *)
Lemma solo_continuation obj end_stream end_headers block fragment ts rest (s : conn) :
  let f := continuation_of id end_headers fragment in
  0 < id < 2 ^ 31 -> frame_wf_of f -> h2_expecting_continuation s = true -> h2_last_header_stream_id s = id ->
  open_stream id obj (h2_stream_new id window block end_stream) s ->
  at_point THeader ts (client_bytes f ++ rest) s ->
  exists s2, open_stream id obj (h2_stream_new id window (block ++ fragment) end_stream) s2 /\
    at_point (TPayload (cf_header f)) ts rest s2 /\ h2_expecting_continuation s2 = true /\
    h2_last_header_stream_id s2 = id /\ h2_hpack s2 = h2_hpack s /\
    solo s [] (set_task 0 THeader (if end_headers then complete_headers obj (with_expecting false id s2) else s2)).
Proof.
  intros f Hid Hwf Hexp Hlast Ho Hat.
  destruct (solo_frame f ts rest s Hat) as (s1 & Hs1 & Hat1 & Hc1); [by apply frame_of_wf|done|].
  pose proof (open_core _ _ _ _ _ Hc1 Ho) as Ho1.
  exists (update_stream obj (hs_append_block fragment) s1). split_and!.
  - exact (open_update _ _ _ (hs_append_block fragment) _ Ho1).
  - by destruct Hat1.
  - cbn. by rewrite (ce_expecting _ _ Hc1).
  - cbn. by rewrite (ce_last _ _ Hc1).
  - apply (ce_hpack _ _ Hc1).
  - pose proof (frame_flags_test false end_headers false false (Z.of_nat (length fragment)) ft_continuation id)
      as (_ & F2 & _).
    assert (h2_last_header_stream_id s1 = id) as Hl1 by (by rewrite (ce_last _ _ Hc1)).
    unfold on_frame, handle_continuation in Hs1. change (fh_type (cf_header f)) with ft_continuation in Hs1.
    cbn iota in Hs1. change (fh_stream_id (cf_header f)) with id in Hs1.
    rewrite (ce_expecting _ _ Hc1), Hexp, Hl1, Z.eqb_refl, (os_registered _ _ _ _ Ho1) in Hs1.
    cbn [negb orb mbind option_bind] in Hs1. unfold f, continuation_of, frame_of in Hs1.
    cbn [cf_header cf_payload] in Hs1. rewrite F2 in Hs1. cbn [h2_last_header_stream_id update_stream with_heap] in Hs1.
    rewrite Hl1 in Hs1. exact Hs1.
Qed.

(** CONTINUATION frames up to the end of the block. *)
Lemma solo_continuations obj end_stream fragments block ts rest (s : conn) :
  0 < id < 2 ^ 31 -> fragments <> [] -> block ++ concat fragments = header_block -> h2_hpack s = dec ->
  Forall frame_wf_of (continuations_of id fragments) ->
  h2_expecting_continuation s = true -> h2_last_header_stream_id s = id ->
  open_stream id obj (h2_stream_new id window block end_stream) s ->
  at_point THeader ts (client_text (continuations_of id fragments) ++ rest) s ->
  exists s', solo s [] s' /\ settled obj (ready end_stream []) (started end_stream obj ts) rest s'.
Proof.
  intros Hid. revert block s. induction fragments as [|f [|f' r] IH]; intros block s Hne Hblock Hd Hwf Hexp Hlast Ho Hat.
  - done.
  - apply Forall_inv in Hwf. cbn [continuations_of client_text map concat] in Hat. rewrite app_nil_r in Hat.
    destruct (solo_continuation obj end_stream true block f ts rest s) as (s2 & Ho2 & Hat2 & _ & _ & Hd2 & Hs2); try done.
    eexists. split; [exact Hs2|]. cbn [concat] in Hblock. rewrite app_nil_r in Hblock. rewrite Hblock in Ho2.
    eapply settle; [by destruct Ho2|by destruct Hat2|done|by cbn; rewrite Hd2].
  - cbn [continuations_of] in Hat, Hwf. apply Forall_cons in Hwf as [Hwf1 Hwf2].
    unfold client_text in Hat. cbn [map concat] in Hat. rewrite <-app_assoc in Hat.
    destruct (solo_continuation obj end_stream false block f ts _ s Hid Hwf1 Hexp Hlast Ho Hat)
      as (s2 & Ho2 & Hat2 & He2 & Hl2 & Hd2 & Hs2).
    destruct (IH (block ++ f) (set_task 0 THeader s2)) as (s' & Hs' & Hse); try done.
    + by rewrite <-app_assoc.
    + by cbn; rewrite Hd2.
    + by apply open_set_task.
    + by eapply at_set.
    + exists s'. split; [|done]. change (@nil (nat * out_frame)) with (@nil (nat * out_frame) ++ []).
      by eapply solo_trans.
Qed.

(** ** Bodies *)

(** The tail of [handle_data]. *)
Lemma solo_data_end obj end_stream len flags_padded body k ts raw (s : conn) :
  let fh := mk_frame_header len ft_data (frame_flags end_stream false flags_padded false) id in
  open_stream id obj (ready false body) s -> at_point k ts raw s -> h2_expecting_continuation s = false ->
  h2_hpack s = dec' -> settled obj (ready end_stream body) (started end_stream obj ts) raw (set_task 0 THeader (data_end fh obj s)).
Proof.
  intros fh Ho Hat He Hd. unfold data_end, fh.
  destruct (frame_flags_test end_stream false flags_padded false len ft_data id) as (-> & _).
  destruct end_stream; [|split; [by eapply at_set|by apply open_set_task|done|done]].
  pose proof (open_update _ _ _ hs_set_end_stream _ Ho) as Ho1. rewrite (os_stream _ _ _ _ Ho1).
  change (hs_end_headers (hs_set_end_stream (ready false body))) with true. cbn iota.
  split; [|by apply open_set_task; destruct Ho1|done|done].
  apply (at_set k). destruct Hat as [Ht ? ? ? ?]. split; try done. cbn. by rewrite Ht.
Qed.

(** The two WINDOW_UPDATE frames of a DATA frame. *)
Lemma solo_credit fh obj ts raw (s : conn) :
  at_point (TLock (window_update_frame (fh_stream_id fh) (fh_length fh)) (KData2 fh obj)) ts raw s ->
  exists s', solo s [(0%nat, window_update_frame (fh_stream_id fh) (fh_length fh));
                     (0%nat, window_update_frame 0 (fh_length fh))]
               (set_task 0 THeader (data_end fh obj s')) /\
    at_point (TResume (KDataEnd fh obj)) ts raw s' /\ core_eq s s'.
Proof.
  intros Hat. destruct (solo_send _ _ _ _ _ Hat) as (s1 & Hs1 & Hat1 & Hc1).
  assert (forall (s : conn) k, at_point (TResume k) ts raw s -> solo s [] (after_send 0 k s)) as Hresume.
  { intros s0 k [Ht _ _ _ _]. apply solo_step. unfold step. by rewrite Ht. }
  pose proof (Hresume _ _ Hat1) as Hr1. cbn [after_send] in Hr1.
  destruct (solo_send _ _ _ _ _ (at_set _ (TLock (window_update_frame 0 (fh_length fh)) (KDataEnd fh obj))
    _ _ _ Hat1)) as (s2 & Hs2 & Hat2 & Hc2).
  pose proof (Hresume _ _ Hat2) as Hr2. cbn [after_send] in Hr2. exists s2. split_and!.
  - exact (solo_trans _ _ _ _ _ Hs1 (solo_trans _ _ _ _ _ Hr1 (solo_trans _ _ _ _ _ Hs2 Hr2))).
  - done.
  - etrans; [exact Hc1|]. by etrans; [|exact Hc2].
Qed.

(** One DATA frame. *)
Lemma solo_data obj end_stream body part ts rest (s : conn) :
  let f := data_of id end_stream part in
  0 < id < 2 ^ 31 -> frame_wf_of f ->
  Z.of_nat (length body) + Z.of_nat (length part.2) <= max_request_body_size ->
  settled obj (ready false body) ts (client_bytes f ++ rest) s ->
  exists s', solo s (credit id part) s' /\
    settled obj (ready end_stream (body ++ part.2)) (started end_stream obj ts) rest s'.
Proof.
  destruct part as [pad content]. intros f Hid Hwf Hsize [Hat Ho He Hd]. cbn [fst snd] in Hsize |- *.
  destruct (solo_frame f ts rest s Hat) as (s1 & Hs1 & Hat1 & Hc1); [by apply frame_of_wf|done|].
  pose proof (open_core _ _ _ _ _ Hc1 Ho) as Ho1.
  pose proof (open_update _ _ _ (hs_append_body content) _ Ho1) as Ho2. set (s2 := update_stream obj _ s1) in Ho2.
  change (hs_append_body content (ready false body)) with (ready false (body ++ content)) in Ho2.
  assert (at_point (TPayload (cf_header f)) ts rest s2) as Hat2 by (by destruct Hat1).
  assert (h2_expecting_continuation s2 = false) as He2 by (cbn; by rewrite (ce_expecting _ _ Hc1)).
  assert (h2_hpack s2 = dec') as Hd2 by (cbn; by rewrite (ce_hpack _ _ Hc1)).
  destruct (strip_pad pad content) as (off & Hsp & Htk).
  destruct (frame_flags_test end_stream false (is_some pad) false
    (Z.of_nat (length (pad_payload pad content))) ft_data id) as (_ & _ & F3 & _).
  unfold on_frame, handle_data in Hs1. change (fh_type (cf_header f)) with ft_data in Hs1. cbn iota in Hs1.
  change (fh_stream_id (cf_header f)) with id in Hs1. rewrite (os_registered _ _ _ _ Ho1) in Hs1.
  unfold f, data_of, frame_of in Hs1. cbn [cf_header cf_payload fst snd] in Hs1.
  rewrite F3, Hsp in Hs1. cbn [mbind option_bind] in Hs1. rewrite (os_stream _ _ _ _ Ho1) in Hs1.
  change (hs_body_buffer (ready false body)) with body in Hs1.
  destruct (Z.ltb_spec max_request_body_size (Z.of_nat (length body) + Z.of_nat (length content))); [lia|].
  rewrite Htk in Hs1. fold s2 in Hs1. unfold credit. cbn [fst snd fh_length] in Hs1 |- *.
  destruct (0 <? Z.of_nat (length (pad_payload pad content))).
  - destruct (solo_credit (cf_header f) obj _ _ _ (at_set _ _ _ _ _ Hat2)) as (s3 & Hs3 & Hat3 & Hc3).
    eexists. split; [exact (solo_trans _ _ _ _ _ Hs1 Hs3)|].
    eapply solo_data_end; [by eapply open_core, open_set_task|exact Hat3|..].
    + by rewrite (ce_expecting _ _ Hc3).
    + by rewrite (ce_hpack _ _ Hc3).
  - eexists. split; [exact Hs1|]. by eapply solo_data_end.
Qed.

Definition body_of (parts : list (option byte * bytes)) : bytes := concat (map snd parts).

Lemma solo_datas obj parts body ts rest (s : conn) :
  0 < id < 2 ^ 31 -> Forall frame_wf_of (datas_of id parts) -> parts <> [] ->
  Z.of_nat (length body) + Z.of_nat (length (body_of parts)) <= max_request_body_size ->
  settled obj (ready false body) ts (client_text (datas_of id parts) ++ rest) s ->
  exists s', solo s (credits id parts) s' /\
    settled obj (ready true (body ++ body_of parts)) (ts ++ [TStart obj]) rest s'.
Proof.
  intros Hid. revert body s. induction parts as [|p [|p' r] IH]; intros body s Hwf Hne Hsize Hse; [done| |].
  all: unfold credits, client_text, body_of in *; cbn [datas_of map concat] in *; rewrite ?length_app in Hsize.
  - rewrite app_nil_r in Hse. rewrite !app_nil_r. apply Forall_inv in Hwf.
    apply (solo_data obj true); try done. cbn in Hsize. lia.
  - apply Forall_cons in Hwf as [Hwf1 Hwf2]. rewrite <-app_assoc in Hse.
    destruct (solo_data obj false body p ts _ s Hid Hwf1 ltac:(lia) Hse) as (s1 & Hs1 & Hse1).
    destruct (IH (body ++ p.2) s1) as (s2 & Hs2 & Hse2); try done.
    { rewrite !length_app. lia. }
    exists s2. split; [by eapply solo_trans|]. by rewrite app_assoc.
Qed.

(** HEADERS and its CONTINUATION frames. *)
Lemma solo_block pad prio end_stream fragment fragments ts rest (s : conn) :
  let f := headers_frame_of id pad prio end_stream (is_nil fragments) fragment in
  let obj := length (h2_heap s) in
  0 < id < 2 ^ 31 -> frame_wf_of f -> Forall frame_wf_of (continuations_of id fragments) ->
  (forall p, prio = Some p -> length p = 5%nat) -> fragment ++ concat fragments = header_block -> h2_hpack s = dec ->
  h2_peer_initial_window_size s = window -> h2_expecting_continuation s = false ->
  at_point THeader ts (client_bytes f ++ client_text (continuations_of id fragments) ++ rest) s ->
  exists s', solo s [] s' /\ settled obj (ready end_stream []) (started end_stream obj ts) rest s'.
Proof.
  intros f obj Hid Hwf Hwfs Hprio Hblock Hd Hwin Hexp Hat.
  destruct (solo_headers pad prio end_stream (is_nil fragments) fragment ts _ s Hid Hwf Hprio Hwin Hexp Hat)
    as (s2 & Ho2 & Hat2 & Hd2 & He2 & Hs2).
  destruct fragments as [|f1 r]; cbn [is_nil] in Hs2.
  - eexists. split; [exact Hs2|]. cbn [concat] in Hblock. rewrite app_nil_r in Hblock. rewrite Hblock in Ho2.
    eapply settle; [done|done|done|congruence].
  - destruct (solo_continuations obj end_stream (f1 :: r) fragment ts rest
      (set_task 0 THeader (with_expecting true id s2))) as (s' & Hs' & Hse); try done.
    + cbn. congruence.
    + by destruct Ho2.
    + eapply at_set. by destruct Hat2.
    + exists s'. split; [|done]. change (@nil (nat * out_frame)) with (@nil (nat * out_frame) ++ []).
      by eapply solo_trans.
Qed.

(** C3: An HTTP/2 request is reassembled by the reader, taken between two frames with the writer
    lock free: for any header block that the connection's HPACK decoder accepts in the state
    it is in (literal, Huffman-coded, indexed and dynamic-table representations in any order),
    however the client cuts the block over HEADERS and CONTINUATION frames and its body
    (within the limit of 16 MB) over DATA frames, pads them or adds a priority, and however
    the wire splits the bytes, the reader starts exactly one stream coroutine; its handler
    gets the method, target and authority of the last such pseudo-headers decoded, the other
    fields as headers in their order, and the body; the decoder is left in the state the block
    leaves it in; and the flow-control credit of every DATA frame is returned to the stream
    and to the connection. *)
Theorem h2_request_assembled pad prio fragment fragments parts ts rest (s : conn) :
  let obj := length (h2_heap s) in
  0 < id < 2 ^ 31 ->
  Forall frame_wf_of (request_frames id pad prio fragment fragments parts) ->
  (forall p, prio = Some p -> length p = 5%nat) ->
  fragment ++ concat fragments = header_block -> h2_hpack s = dec ->
  Z.of_nat (length (body_of parts)) <= max_request_body_size ->
  h2_peer_initial_window_size s = window -> h2_expecting_continuation s = false ->
  at_point THeader ts (client_text (request_frames id pad prio fragment fragments parts) ++ rest) s ->
  exists s', solo s (credits id parts) s' /\ at_point THeader (ts ++ [TStart obj]) rest s' /\
    h2_expecting_continuation s' = false /\ h2_streams s' !! id = Some obj /\ h2_hpack s' = dec' /\
    h2_request (stream_at s' obj) =
      mk_request (request_resource fields) (regular_fields fields) (memory_stream_new (body_of parts))
        (default [] (pseudo ":authority" fields)) tags_empty.
Proof.
  intros obj Hid Hwf Hprio Hblock Hd Hsize Hwin Hexp Hat. unfold request_frames in Hwf.
  apply Forall_cons in Hwf as [Hwf0 Hwf]. apply Forall_app in Hwf as [Hwfc Hwfd].
  assert (client_text (request_frames id pad prio fragment fragments parts) ++ rest =
    client_bytes (headers_frame_of id pad prio (is_nil parts) (is_nil fragments) fragment) ++
    client_text (continuations_of id fragments) ++ client_text (datas_of id parts) ++ rest) as Etext.
  { unfold client_text, request_frames. cbn [map concat]. by rewrite map_app, concat_app, !app_assoc. }
  rewrite Etext in Hat.
  destruct (solo_block pad prio (is_nil parts) fragment fragments ts _ s Hid Hwf0 Hwfc Hprio Hblock Hd Hwin Hexp Hat)
    as (s1 & Hs1 & Hse1).
  destruct parts as [|p r]; cbn [is_nil started] in Hse1.
  - destruct Hse1 as [Hat1 [Hr1 _ Hst1] He1 Hd1]. exists s1. split_and!; try done. fold obj in Hst1. by rewrite Hst1.
  - destruct (solo_datas obj (p :: r) [] ts rest s1 Hid Hwfd ltac:(done) Hsize Hse1) as (s2 & Hs2 & Hse2).
    destruct Hse2 as [Hat2 [Hr2 _ Hst2] He2 Hd2]. exists s2. split_and!; try done.
    + change (credits id (p :: r)) with ([] ++ credits id (p :: r)). by eapply solo_trans.
    + fold obj in Hst2. by rewrite Hst2.
Qed.
End Solo.
