(* ===== verification/ConnectionH2Runs.v ===== *)
(** * ConnectionH2Runs: concrete runs of an HTTP/2 connection

    Schedules that bring the hypotheses of the theorems of the other
    ConnectionH2 files about, and runs that show where the connection does not
    keep what it should. *)

From S2P Require Import Prelude Bytes Stream Feeder Method Header Resource QueryString UrlEncode Server.
From S2P Require Import Frame Hpack ConnectionH2 ConnectionH2Facts ConnectionH2Delivery ConnectionH2Flow ConnectionH2Request.

#[local] Open Scope Z_scope.

(** ** A server and a client *)

(** Answers with as many bytes as the path is long, scaled. *)
Definition demo_handler (scale : nat)
  : option (request memory_stream -> option (response wire * request memory_stream)) :=
  Some (fun req => Some (make_response_text
    (replicate (scale * length (hr_path (req_resource req))) "x"%byte) (str "text/plain"), req)).

Definition demo_fields (path : string) : header_list :=
  request_fields (str "GET") (str "http") (str "h") (str path) [].

Definition demo_get (id : Z) (path : string) : list client_frame :=
  request_frames id None None (hpack_encode (demo_fields path)) [] [].

Definition demo_settings (ps : list settings_param) : client_frame :=
  frame_of ft_settings 0 0 (write_settings_payload ps).

Definition demo_wire (fs : list client_frame) : wire :=
  mk_wire [client_preface; client_text fs] [] [].

Definition demo_start (fs : list client_frame) : conn_h2 wire := connection_h2_new (demo_wire fs) [].

(** The end of a run. *)
Definition demo_run (scale : nat) (fs : list client_frame) (sched : list nat)
  : conn_h2 wire * list (nat * out_frame) :=
  default (demo_start fs, []) (run_schedule (demo_handler scale) sched (demo_start fs)).

Lemma run_reach {W} `{Stream W} handler sched (s0 s s' : conn_h2 W) tr l :
  reach handler s0 tr s -> run_schedule handler sched s = Some (s', l) -> reach handler s0 (tr ++ l) s'.
Proof.
  revert s tr l. induction sched as [|t ts IH]; intros s tr l Hr; cbn [run_schedule].
  - intros [= <- <-]. by rewrite app_nil_r.
  - destruct (step handler t s) as [[s1 l1]|] eqn:E; [|done]. cbn [mbind option_bind].
    destruct (run_schedule handler ts s1) as [[s2 l2]|] eqn:E2; [|done]. cbn [mbind option_bind].
    intros [= <- <-]. rewrite app_assoc. eapply IH; [|exact E2]. by eapply reach_step.
Qed.

Lemma demo_reach scale fs sched :
  reach (demo_handler scale) (demo_start fs) (demo_run scale fs sched).2 (demo_run scale fs sched).1.
Proof.
  unfold demo_run. destruct (run_schedule _ _ _) as [[s l]|] eqn:E; [|apply reach_refl].
  exact (run_reach _ _ _ _ _ [] l (reach_refl _ _) E).
Qed.

(** ** Runs for the theorems *)

(** GET /a, answered: the reader has seen the end of the wire and the stream
    coroutine has finished. *)
Definition answered := demo_run 1 (demo_get 1 "/a") (replicate 10 0%nat ++ replicate 18 1%nat).

(** The same while the HEADERS frame of the response is being written. *)
Definition writing := demo_run 1 (demo_get 1 "/a") (replicate 10 0%nat ++ replicate 3 1%nat).

(** The peer has set the initial window to zero: the stream coroutine waits. *)
Definition waiting := demo_run 1 (demo_settings [mk_setting settings_initial_window_size 0] :: demo_get 1 "/a")
  (replicate 15 0%nat ++ replicate 8 1%nat).

Lemma h2_frames_never_interleave_witness :
  h2_locked writing.1 = true /\
  exists t f rest k, h2_tasks writing.1 !! t = Some (TWrite f rest k).
Proof.
  assert (h2_locked writing.1 = true) as Hl by (vm_compute; reflexivity). split; [exact Hl|].
  destruct (h2_frames_never_interleave (demo_handler 1) _ _ _ _ (demo_reach 1 _ _ : reach _ _ writing.2 writing.1))
    as (part & _ & _ & Hh & _).
  destruct (Hh Hl) as (t & f & rest & k & Ht & _). by exists t, f, rest, k.
Defined.

(** One coroutine answers stream object 0. *)
Lemma demo_sole (s : conn_h2 wire) (o : nat) :
  map task_obj (h2_tasks s) = [None; Some o] -> sole s 1 o.
Proof.
  intros Ho t k Hk Hobj. assert ((task_obj <$> h2_tasks s) !! t = Some (Some o)) as E.
  { rewrite list_lookup_fmap, Hk. cbn. by rewrite Hobj. }
  change (task_obj <$> h2_tasks s) with (map task_obj (h2_tasks s)) in E. rewrite Ho in E.
  by destruct t as [|[|[|t]]].
Qed.

Lemma h2_no_lost_wakeup_witness :
  waits waiting.1 1 0 /\ slot waiting.1 0 = Some 1%nat /\ window_open waiting.1 0 = false.
Proof.
  destruct (h2_no_lost_wakeup (demo_handler 1) _ _ _ _ (demo_reach 1 _ _ : reach _ _ waiting.2 waiting.1))
    as (Hh & Hc & _).
  assert (waits waiting.1 1 0) as Hw by (do 3 eexists; vm_compute; reflexivity).
  assert (sole waiting.1 1 0) as Hs by (apply demo_sole; vm_compute; reflexivity).
  split; [exact Hw|]. split; [exact (Hh 1%nat 0%nat Hw Hs)|].
  apply (Hc 1 1%nat 0%nat Hw Hs). vm_compute. reflexivity.
Defined.

(** The schedule of [answered]. *)
Definition answered_schedule : list nat := replicate 10 0%nat ++ replicate 18 1%nat.

Lemma h2_stream_window_respected_witness :
  granted (demo_handler 1) answered_schedule (demo_start (demo_get 1 "/a")) 0 = 65535 /\
  hs_send_window (stream_at answered.1 0) = 65533 /\ data_sent answered.1 answered.2 0 = 2 /\
  data_sent answered.1 answered.2 0 <= 65535.
Proof.
  assert (granted (demo_handler 1) answered_schedule (demo_start (demo_get 1 "/a")) 0 = 65535) as Hg
    by (vm_compute; reflexivity).
  assert (run_schedule (demo_handler 1) answered_schedule (demo_start (demo_get 1 "/a")) =
    Some (answered.1, answered.2)) as Hr by (vm_compute; reflexivity).
  destruct (h2_stream_window_respected (demo_handler 1) _ _ _ _ _ 0%nat Hr) as [_ Hs].
  split; [exact Hg|]. split; [vm_compute; reflexivity|]. split; [vm_compute; reflexivity|].
  rewrite <-Hg. apply Hs. exists 1%nat. apply demo_sole. vm_compute. reflexivity.
Defined.

Lemma h2_response_delivered_witness :
  length (sent_by 1 answered.2) = 3%nat /\
  exists resp, answers (demo_handler 1) resp /\
    response_frames (hs_id (stream_at answered.1 0)) resp (sent_by 1 answered.2).
Proof.
  assert (length (sent_by 1 answered.2) = 3%nat) as Hl by (vm_compute; reflexivity). split; [exact Hl|].
  destruct (h2_response_delivered (demo_handler 1)) with (w := demo_wire (demo_get 1 "/a")) (leftover := @nil byte)
    (tr := answered.2) (s := answered.1) (t := 1%nat) (obj := 0%nat) as [(h & req & _ & _ & E)|Hr].
  - intros h req resp req' body [= <-] [= <- <-] [= <-]. cbn. unfold ms_wf. cbn. lia.
  - exact (demo_reach 1 _ _).
  - vm_compute. reflexivity.
  - rewrite E in Hl. discriminate Hl.
  - exact Hr.
Defined.

(** A request whose header block has indexed fields, fields that enter the
    decoder's dynamic table and one that is read from it, cut into two fragments;
    and a padded body in two parts. *)
Definition demo_block : bytes :=
  [x82; x86; x44; x02] ++ str "/a" ++ [x41; x01] ++ str "h" ++ [x40; x01] ++ str "k" ++ [x01] ++ str "v" ++ [xbe].
Definition demo_decoded : header_list :=
  [mk_field (str ":method") (str "GET"); mk_field (str ":scheme") (str "http"); mk_field (str ":path") (str "/a");
   mk_field (str ":authority") (str "h"); mk_field (str "k") (str "v"); mk_field (str "k") (str "v")].
Definition demo_decoder : hpack_decoder :=
  match hpack_decode (length demo_block) demo_block (hpack_decoder_new 4096) [] with
  | Some (_, d, _) => d
  | None => hpack_decoder_new 4096
  end.
Definition demo_parts : list (option byte * bytes) := [(Some x03, str "ab"); (None, str "c")].
Definition demo_post : list client_frame := request_frames 1 None None (take 5 demo_block) [drop 5 demo_block] demo_parts.

(** Past the preface and the SETTINGS frame. *)
Definition demo_ready : conn_h2 wire := (demo_run 1 demo_post (replicate 6 0%nat)).1.

Lemma h2_request_assembled_witness :
  exists s', solo (demo_handler 1) demo_ready (credits 1 demo_parts) s' /\ h2_hpack s' = demo_decoder /\
    h2_request (stream_at s' 0) = mk_request (h2_resource (str "GET") (str "/a"))
      [mk_header (str "k") (str "v"); mk_header (str "k") (str "v")]
      (memory_stream_new (str "abc")) (str "h") tags_empty.
Proof.
  destruct (h2_request_assembled (demo_handler 1) 1 65535 demo_block (hpack_decoder_new 4096) demo_decoder demo_decoded)
    with (pad := @None byte) (prio := @None bytes) (fragment := take 5 demo_block) (fragments := [drop 5 demo_block])
      (parts := demo_parts) (ts := @nil task) (rest := @nil byte) (s := demo_ready)
    as (s' & Hs & _ & _ & _ & Hd & Hreq).
  - vm_compute. reflexivity.
  - lia.
  - repeat constructor.
  - intros p Hp. discriminate Hp.
  - vm_compute. reflexivity.
  - vm_compute. reflexivity.
  - vm_compute. discriminate.
  - vm_compute. reflexivity.
  - vm_compute. reflexivity.
  - split; [vm_compute; reflexivity|split; [vm_compute; auto|vm_compute; discriminate]|vm_compute; reflexivity..].
  - exists s'. split; [exact Hs|]. split; [exact Hd|]. exact Hreq.
Defined.

(** ** Runs the connection should not have *)

(** The connection window is read before the writer lock is taken and
    decreased after the write: two streams spend the same credit. *)
Example connection_window_overdrawn :
  h2_send_window (demo_run (Z.to_nat data_chunk) (demo_get 1 "/aaa" ++ demo_get 3 "/")
    (replicate 11 0%nat ++ replicate 25 1%nat ++ replicate 8 2%nat ++ [1; 2]%nat ++
     replicate 4 1%nat ++ replicate 4 2%nat)).1 = -1.
Proof. vm_compute. reflexivity. Qed.

(** END_STREAM on HEADERS and again on DATA starts the stream twice. *)
Example stream_started_twice :
  let s := (demo_run 1 (demo_get 1 "/a" ++ [data_of 1 true (None, [])]) (replicate 12 0%nat)).1 in
  tail (h2_tasks s) = [TStart 0; TStart 0].
Proof. vm_compute. reflexivity. Qed.

(** [run] has returned, and with it the connection is destroyed, while the
    coroutine of a stream has not even called the handler. *)
Example run_returns_before_its_streams :
  h2_tasks (demo_run 1 (demo_get 1 "/a") (replicate 10 0%nat)).1 = [TDone None; TStart 0].
Proof. vm_compute. reflexivity. Qed.

(** A stream whose coroutine waits for a window is reset: it is in the table no
    more, no WINDOW_UPDATE resumes it, and it stays suspended for ever. *)
Example reset_stream_never_resumed :
  let s := (demo_run 1 (demo_settings [mk_setting settings_initial_window_size 0] :: demo_get 1 "/a" ++
    [frame_of ft_rst_stream 0 1 [x00; x00; x00; x08];
     frame_of ft_window_update 0 1 (write_window_update_payload 100);
     frame_of ft_window_update 0 0 (write_window_update_payload 100)])
    (replicate 15 0%nat ++ replicate 8 1%nat ++ replicate 7 0%nat)).1 in
  waits s 1 0 /\ h2_streams s !! 1 = None /\ h2_tasks s !! 0%nat = Some (TDone None).
Proof. split; [do 3 eexists|split]; vm_compute; reflexivity. Qed.
