(* ===== verification/ConnectionH2Failure.v ===== *)
(** * ConnectionH2Failure: exceptions inside an HTTP/2 connection, and its end

    src/server/connection_h2.cpp under a wire or a response body that throws,
    and src/server/listener.cpp's run_connection_h2, whose local object the
    connection is.  [ConnectionH2.step] is a coroutine's step without an
    exception; [throws] is the step that raises one.  An exception unwinds
    [send_frame] past its [unlock()] and, in a stream's coroutine, ends in the
    [catch (...)] of [dispatch_stream]; in the coroutine of [run] it leaves
    [run] itself.  When that coroutine is over the object is destroyed, and a
    coroutine of a stream that goes on touches a dead object.

    A wire that throws is taken to have accepted nothing of that write. *)

From S2P Require Import Prelude Bytes Stream Feeder Method Header Resource Server.
From S2P Require Import Frame Hpack ConnectionH2 ConnectionH2Facts ConnectionH2Delivery ConnectionH2Request ConnectionH2Runs.

#[local] Open Scope Z_scope.

Section Failure.
Context {W : Type} `{Stream W}.
Context (handler : option (request memory_stream -> option (response W * request memory_stream))).

Abbreviation conn := (conn_h2 W).

(** What becomes of a coroutine an exception is raised in. *)
Definition unwind (t : nat) (owner : option nat) (s : conn) : conn :=
  match owner with
  | Some obj => finish_stream t obj s
  | None => set_task t (TDone None) s
  end.

(** A read is due: [read_exact]'s buffer is short. *)
Definition reads_more (n : nat) (s : conn) : bool := (length (fd_buffer (h2_feed s)) <? n)%nat.

(** The state after an exception in task [t], and whether it was a write of
    the wire that threw; [None] where nothing can throw. *)
Definition throws (t : nat) (s : conn) : option (conn * bool) :=
  k ← h2_tasks s !! t;
  match k with
  | TPreface => if reads_more (length client_preface) s then Some (unwind t None s, false) else None
  | THeader => if reads_more fh_wire_size s then Some (unwind t None s, false) else None
  | TPayload fh => if reads_more (Z.to_nat (fh_length fh)) s then Some (unwind t None s, false) else None
  | TBody obj _ remaining => if remaining =? 0 then None else Some (unwind t (Some obj) s, false)
  | TWrite _ (_ :: _) k => Some (unwind t (cont_obj k) s, true)
  | _ => None
  end.

(** ** The connection with its life *)

Record h2_life := mk_life {
  lf_conn : conn;
  lf_alive : bool;         (** the object exists *)
  lf_torn : bool;          (** some write has thrown (a record, not a field of the program) *)
  lf_dangling : bool;      (** a coroutine has gone on without its object *)
}.

Definition h2_life_new (wire : W) (preface_leftover : bytes) : h2_life :=
  mk_life (connection_h2_new wire preface_leftover) true false false.

(** [run] is over: its coroutine is the first one. *)
Definition run_over (s : conn) : bool := match h2_tasks s !! 0%nat with Some (TDone _) => true | _ => false end.

Inductive life_event :=
| LStep (t : nat)       (** a coroutine goes on *)
| LThrow (t : nat)      (** an exception is raised in it *)
| LDestroy.             (** [run_connection_h2] returns *)

(** Nothing runs between the end of [run] and the destruction. *)
Definition life_step (e : life_event) (f : h2_life) : option (h2_life * list (nat * out_frame)) :=
  match e with
  | LStep t =>
      if lf_alive f then
        if run_over (lf_conn f) then None
        else '(s, l) ← step handler t (lf_conn f); Some (mk_life s true (lf_torn f) (lf_dangling f), l)
      else
        _ ← step handler t (lf_conn f); Some (mk_life (lf_conn f) false (lf_torn f) true, [])
  | LThrow t =>
      if lf_alive f then
        if run_over (lf_conn f) then None
        else '(s, w) ← throws t (lf_conn f); Some (mk_life s true (lf_torn f || w) (lf_dangling f), [])
      else
        _ ← throws t (lf_conn f); Some (mk_life (lf_conn f) false (lf_torn f) true, [])
  | LDestroy =>
      if lf_alive f && run_over (lf_conn f) then Some (mk_life (lf_conn f) false (lf_torn f) (lf_dangling f), [])
      else None
  end.

Fixpoint life_run (es : list life_event) (f : h2_life) : option (h2_life * list (nat * out_frame)) :=
  match es with
  | [] => Some (f, [])
  | e :: r =>
      '(f1, l1) ← life_step e f;
      '(f2, l2) ← life_run r f1;
      Some (f2, l1 ++ l2)
  end.

Inductive life_reach (f0 : h2_life) : list (nat * out_frame) -> h2_life -> Prop :=
| life_refl : life_reach f0 [] f0
| life_more tr f e f' l : life_reach f0 tr f -> life_step e f = Some (f', l) -> life_reach f0 (tr ++ l) f'.

Lemma life_run_reach es f f' tr : life_run es f = Some (f', tr) -> life_reach f tr f'.
Proof.
  enough (forall es f1 tr1 f' tr, life_reach f tr1 f1 -> life_run es f1 = Some (f', tr) -> life_reach f (tr1 ++ tr) f')
    as Hgen by (apply (Hgen es f [] f' tr); constructor).
  clear. induction es as [|e es IH]; intros f1 tr1 f' tr Hr; cbn [life_run].
  - intros [= <- <-]. by rewrite app_nil_r.
  - destruct (life_step e f1) as [[f2 l1]|] eqn:E; [|done]. cbn [mbind option_bind].
    destruct (life_run es f2) as [[f3 l2]|] eqn:E2; [|done]. intros [= <- <-].
    rewrite app_assoc. apply (IH f2); [|done]. by eapply life_more.
Qed.
End Failure.
Arguments h2_life W : clear implicits.

(** ** The lock after a failed write *)
Section Torn.
Context {W : Type} `{StreamDuplex W}.
Context (handler : option (request memory_stream -> option (response W * request memory_stream))).

Abbreviation conn := (conn_h2 W).

(** The lock is taken and nobody holds it: no coroutine writes, and the wire
    ends inside a frame. *)
Record torn_inv (w0 : bytes) (tr : list (nat * out_frame)) (part : bytes) (s : conn) : Prop := mk_torn {
  ti_locked : h2_locked s = true;
  ti_idle : forall t f rest k, h2_tasks s !! t <> Some (TWrite f rest k);
  ti_waiting : forall t, t ∈ h2_waiters s <-> exists f k, h2_tasks s !! t = Some (TLockWait f k);
  ti_written : h2_written s = w0 ++ frames_bytes tr ++ part;
  ti_part : exists f rest, out_bytes f = part ++ rest /\ rest <> [];
}.

Lemma torn_local w0 tr part t k (s s' : conn) :
  h2_tasks s !! t = Some k -> lock_view k = None -> local_step t s s' (next_of k) ->
  torn_inv w0 tr part s -> torn_inv w0 tr part s'.
Proof.
  intros Hk Hkv Hl [HL HI HW HB HP].
  pose proof (fun u v => local_view t k s s' u v Hk Hkv Hl) as Hv.
  destruct Hl as (s1 & k' & [EL EA EW _ _] & -> & _). split; [by rewrite <-HL| | |by rewrite <-HB|done].
  - intros u f r c Hu. apply Hv in Hu; [|done]. by eapply HI.
  - intros u. change (h2_waiters (set_task t k' s1)) with (h2_waiters s1). rewrite EA, HW.
    split; intros (f & c & Hf); exists f, c; by apply Hv.
Qed.

Lemma torn_lock w0 tr part t f c (s : conn) :
  h2_tasks s !! t = Some (TLock f c) -> torn_inv w0 tr part s -> torn_inv w0 tr part (lock t f c s).
Proof.
  intros Hk [HL HI HW HB HP]. unfold lock. rewrite HL. split; cbn; [done| | |done|done].
  - intros u f' r' c'. destruct (decide (u = t)) as [->|Hne]; [by rewrite (insert_here _ _ _ _ Hk)|].
    rewrite list_lookup_insert_ne by done. apply HI.
  - intros u. rewrite elem_of_app, HW, list_elem_of_singleton. destruct (decide (u = t)) as [->|Hne].
    + rewrite (insert_here _ _ _ _ Hk). naive_solver.
    + rewrite list_lookup_insert_ne by done. naive_solver.
Qed.

Lemma torn_step w0 tr part t (s s' : conn) l :
  step handler t s = Some (s', l) -> torn_inv w0 tr part s -> l = [] /\ torn_inv w0 tr part s'.
Proof.
  intros Hs Hi. destruct (step_cases _ _ _ _ _ Hs) as (k & Hk & Hc).
  destruct k as [ | | | | | | | |f c|f c|f [|b rest] c| |]; try destruct Hc as [-> Hc]; try done;
    try (by destruct Hi as [_ HI _ _ _]; apply HI in Hk).
  all: split; [done|]; subst; try (by eapply torn_local).
  by apply torn_lock.
Qed.

(** A coroutine that waits for the lock keeps waiting. *)
Lemma torn_waits w0 tr part t (s s' : conn) l u f k :
  step handler t s = Some (s', l) -> torn_inv w0 tr part s ->
  h2_tasks s !! u = Some (TLockWait f k) -> h2_tasks s' !! u = Some (TLockWait f k).
Proof.
  intros Hs Hi Hu. destruct (step_cases _ _ _ _ _ Hs) as (v & Hk & Hc).
  destruct v as [ | | | | | | | |f0 c|f0 c|f0 [|b rest] c| |]; try destruct Hc as [-> Hc]; try done;
    try (by destruct Hi as [_ HI _ _ _]; apply HI in Hk).
  all: try (by eapply local_view).
  subst s'. unfold lock. destruct Hi as [-> _ _ _ _]. cbn. rewrite list_lookup_insert_ne; [done|]. congruence.
Qed.

(** ** Where an exception leads *)

Lemma unwind_local t k owner (s : conn) :
  h2_tasks s !! t = Some k -> task_obj k = owner -> local_step t s (unwind t owner s) (next_of k).
Proof.
  intros Hk Ho. destruct owner as [obj|]; cbn [unwind].
  - unfold finish_stream. eexists _, _. split; [|split; [reflexivity|by split]]. by apply env_same.
  - by apply local_set.
Qed.

Lemma throws_cases t (s s' : conn) w :
  throws t s = Some (s', w) ->
  exists k, h2_tasks s !! t = Some k /\ s' = unwind t (task_obj k) s /\
    if w then exists f b rest c, k = TWrite f (b :: rest) c else lock_view k = None.
Proof.
  unfold throws. destruct (h2_tasks s !! t) as [k|]; [|done]. cbn [mbind option_bind]. intros E. exists k.
  split; [done|]. destruct k as [| | | | | | | | | |f [|b rest] c| |]; try done;
    repeat case_match; simplify_eq; try done. split; [done|]. by eexists _, _, _, _.
Qed.

(** A failed write leaves the lock to nobody. *)
Lemma torn_by_write w0 tr t f b rest c (s : conn) owner :
  h2_tasks s !! t = Some (TWrite f (b :: rest) c) -> lock_inv w0 tr s ->
  exists part, torn_inv w0 tr part (unwind t owner s).
Proof.
  intros Hk [Hw _ Hh]. destruct (h2_locked s) eqn:EL; [|by destruct Hh as (_ & _ & Hno); apply Hno in Hk].
  destruct Hh as (u & f0 & dn & r0 & c0 & Hu & Hb & Hwr & Huniq).
  assert (t = u) as -> by by eapply Huniq. rewrite Hu in Hk. injection Hk as -> -> ->.
  assert (forall k s1, h2_tasks s1 = h2_tasks s -> h2_locked s1 = h2_locked s -> h2_waiters s1 = h2_waiters s ->
    h2_written s1 = h2_written s -> lock_view k = None -> torn_inv w0 tr dn (set_task u k s1)) as Hgen.
  { intros k s1 E1 E2 E3 E4 Hv. split; cbn; rewrite ?E1, ?E2, ?E3; [done| | |by rewrite <-E4 in Hwr|by exists f, (b :: rest)].
    - intros x f1 r1 c1. destruct (decide (x = u)) as [->|Hne].
      + rewrite (insert_here _ _ _ _ Hu). by intros [= ->].
      + rewrite list_lookup_insert_ne by done. intros Hx. by apply Huniq in Hx.
    - intros x. rewrite Hw. destruct (decide (x = u)) as [->|Hne]; [|by rewrite list_lookup_insert_ne].
      rewrite Hu, (insert_here _ _ _ _ Hu). split; [by intros (? & ? & ?)|]. intros (f1 & c1 & [= ->]). done. }
  exists dn. destruct owner as [obj|]; cbn [unwind]; [unfold finish_stream|]; by apply Hgen.
Qed.

(** ** The invariant of a connection's life *)

Definition life_inv (w0 : bytes) (tr : list (nat * out_frame)) (f : h2_life W) : Prop :=
  if lf_torn f then exists part, torn_inv w0 tr part (lf_conn f) else lock_inv w0 tr (lf_conn f).

Lemma life_inv_throw w0 tr t (s s' : conn) w :
  throws t s = Some (s', w) -> lock_inv w0 tr s ->
  if w then exists part, torn_inv w0 tr part s' else lock_inv w0 tr s'.
Proof.
  intros Ht Hi. destruct (throws_cases _ _ _ _ Ht) as (k & Hk & -> & Hw). destruct w.
  - destruct Hw as (f & b & rest & c & ->). by eapply torn_by_write.
  - eapply lock_inv_local; [exact Hk|exact Hw| |exact Hi]. by apply unwind_local.
Qed.

(** Nothing throws in a write any more. *)
Lemma torn_throw w0 tr part t (s s' : conn) w :
  throws t s = Some (s', w) -> torn_inv w0 tr part s ->
  w = false /\ torn_inv w0 tr part s' /\
  forall u f k, h2_tasks s !! u = Some (TLockWait f k) -> h2_tasks s' !! u = Some (TLockWait f k).
Proof.
  intros Ht Hi. destruct (throws_cases _ _ _ _ Ht) as (k & Hk & -> & Hw). destruct w.
  - destruct Hw as (f & b & rest & c & ->). destruct Hi as [_ HI _ _ _]. by apply HI in Hk.
  - pose proof (unwind_local t k _ s Hk eq_refl) as Hl.
    split_and!; [done|by eapply torn_local|]. intros u f c Hu.
    by apply (local_view t k s _ u (TLockWait f c) Hk Hw Hl).
Qed.

Lemma life_inv_step w0 tr e (f f' : h2_life W) l :
  life_step handler e f = Some (f', l) -> life_inv w0 tr f -> life_inv w0 (tr ++ l) f'.
Proof.
  unfold life_step, life_inv. destruct e as [t|t|]; destruct (lf_alive f); cbn [andb]; try done.
  - destruct (run_over _); [done|]. destruct (step handler t (lf_conn f)) as [[s ls]|] eqn:Es; [|done].
    intros [= <- <-]. cbn [lf_torn lf_conn]. destruct (lf_torn f).
    + intros [part Hi]. destruct (torn_step _ _ _ _ _ _ _ Es Hi) as [-> Hi']. exists part. by rewrite app_nil_r.
    + intros Hi. by eapply lock_inv_step.
  - destruct (step handler t (lf_conn f)); [|done]. intros [= <- <-]. by rewrite app_nil_r.
  - destruct (run_over _); [done|]. destruct (throws t (lf_conn f)) as [[s w]|] eqn:Es; [|done].
    intros [= <- <-]. rewrite app_nil_r. cbn [lf_torn lf_conn]. destruct (lf_torn f); cbn [orb].
    + intros [part Hi]. destruct (torn_throw _ _ _ _ _ _ _ Es Hi) as (_ & Hi' & _). by exists part.
    + intros Hi. by apply (life_inv_throw _ _ _ _ _ _ Es).
  - destruct (throws t (lf_conn f)); [|done]. intros [= <- <-]. by rewrite app_nil_r.
  - destruct (run_over _); [|done]. intros [= <- <-]. by rewrite app_nil_r.
Qed.

Lemma life_inv_reach (w : W) leftover tr f :
  life_reach handler (h2_life_new w leftover) tr f -> life_inv (st_written w) tr f.
Proof.
  induction 1 as [|tr f e f' l _ IH Hs]; [apply lock_inv_new|]. by eapply life_inv_step.
Qed.

(** A torn connection stays as it is on the wire. *)
Definition silent (f f' : h2_life W) (tr : list (nat * out_frame)) : Prop :=
  tr = [] /\ lf_torn f' = true /\ h2_written (lf_conn f') = h2_written (lf_conn f) /\
  forall u fr k, h2_tasks (lf_conn f) !! u = Some (TLockWait fr k) -> h2_tasks (lf_conn f') !! u = Some (TLockWait fr k).

Lemma torn_silent_step w0 tr part e (f f' : h2_life W) l :
  lf_torn f = true -> torn_inv w0 tr part (lf_conn f) -> life_step handler e f = Some (f', l) ->
  silent f f' l /\ torn_inv w0 tr part (lf_conn f').
Proof.
  intros HT Hi. unfold life_step. destruct e as [t|t|]; destruct (lf_alive f); cbn [andb]; try done.
  - destruct (run_over _); [done|]. destruct (step handler t (lf_conn f)) as [[s ls]|] eqn:Es; [|done].
    intros [= <- <-]. destruct (torn_step _ _ _ _ _ _ _ Es Hi) as [-> Hi']. split; [|done].
    split_and!; [done|done| |intros u fr k; by eapply torn_waits].
    cbn. rewrite (ti_written _ _ _ _ Hi'). symmetry. apply Hi.
  - destruct (step handler t (lf_conn f)); [|done]. intros [= <- <-]. split; [|done]. by split_and!.
  - destruct (run_over _); [done|]. destruct (throws t (lf_conn f)) as [[s w]|] eqn:Es; [|done].
    intros [= <- <-]. destruct (torn_throw _ _ _ _ _ _ _ Es Hi) as (-> & Hi' & Hu). split; [|done].
    split_and!; [done|by cbn; rewrite HT| |done].
    cbn. rewrite (ti_written _ _ _ _ Hi'). symmetry. apply Hi.
  - destruct (throws t (lf_conn f)); [|done]. intros [= <- <-]. split; [|done]. by split_and!.
  - destruct (run_over _); [|done]. intros [= <- <-]. split; [|done]. by split_and!.
Qed.

Lemma torn_silent w0 tr part (f f' : h2_life W) tr' :
  lf_torn f = true -> torn_inv w0 tr part (lf_conn f) -> life_reach handler f tr' f' ->
  silent f f' tr' /\ torn_inv w0 tr part (lf_conn f').
Proof.
  intros HT Hi. induction 1 as [|tr' f' e f'' l _ [(-> & HT' & Hw & Hu) IH] Hs]; [split; [by split_and!|done]|].
  destruct (torn_silent_step _ _ _ _ _ _ _ HT' IH Hs) as [(-> & HT2 & Hw2 & Hu2) Hi2].
  split; [|done]. split_and!; [done|done|by rewrite Hw2|]. intros u fr k Hx. by apply Hu2, Hu.
Qed.

(** C12: Whatever the wire, the response bodies and the handlers of an HTTP/2 connection throw,
    and whenever, up to the destruction of the connection under its streams, the bytes written
    are complete frames followed by part of at most one more; a write that throws keeps the
    writer lock for good: after it no byte and no frame is ever written again. *)
Theorem h2_failed_write_is_final (w : W) leftover tr (f : h2_life W) :
  life_reach handler (h2_life_new w leftover) tr f ->
  exists part, h2_written (lf_conn f) = st_written w ++ frames_bytes tr ++ part /\
    (part = [] \/ exists fr rest, out_bytes fr = part ++ rest) /\
    (lf_torn f = true ->
       h2_locked (lf_conn f) = true /\ (forall t fr rest k, h2_tasks (lf_conn f) !! t <> Some (TWrite fr rest k)) /\
       forall tr' f', life_reach handler f tr' f' -> silent f f' tr').
Proof.
  intros Hr. pose proof (life_inv_reach _ _ _ _ Hr) as Hi. unfold life_inv in Hi.
  destruct (lf_torn f) eqn:HT.
  - destruct Hi as [part Hi]. destruct (ti_part _ _ _ _ Hi) as (fr & rest & E & _). exists part.
    split; [apply Hi|]. split; [right; by exists fr, rest|]. intros _. split; [apply Hi|]. split; [apply Hi|].
    intros tr' f' Hr'. by eapply torn_silent.
  - destruct Hi as [_ _ Hh]. destruct (h2_locked (lf_conn f)).
    + destruct Hh as (t & fr & dn & rest & k & _ & Hb & Hwr & _). exists dn.
      split_and!; [done|right; by exists fr, rest|done].
    + destruct Hh as (_ & Hwr & _). exists []. rewrite app_nil_r. split_and!; [done|by left|done].
Qed.

(** ** One stream's failure *)

(** An exception from a response body, and the one of the handler, touch the
    stream they belong to: its entry in the table is erased, and every other
    coroutine, the lock, the windows and the wire are as before. *)
Lemma h2_stream_failure_isolated t k obj (s s' : conn) :
  h2_tasks s !! t = Some k -> task_obj k = Some obj -> throws t s = Some (s', false) ->
  h2_tasks s' = <[t := TDone (Some obj)]> (h2_tasks s) /\
  h2_streams s' = delete (hs_id (stream_at s obj)) (h2_streams s) /\
  h2_locked s' = h2_locked s /\ h2_waiters s' = h2_waiters s /\ h2_feed s' = h2_feed s /\
  h2_heap s' = h2_heap s /\ h2_send_window s' = h2_send_window s.
Proof.
  intros Hk Ho Ht. destruct (throws_cases _ _ _ _ Ht) as (k' & Hk' & -> & _).
  rewrite Hk in Hk'. injection Hk' as <-. by rewrite Ho.
Qed.

(** A connection whose streams are all over when it is destroyed is never
    touched again. *)
Definition all_over (s : conn) : Prop := forall t k, h2_tasks s !! t = Some k -> exists o, k = TDone o.

Lemma destroyed_untouched (f f' : h2_life W) tr :
  lf_alive f = false -> all_over (lf_conn f) -> life_reach handler f tr f' -> f' = f /\ tr = [].
Proof.
  intros Ha Ho. induction 1 as [|tr f' e f'' l _ [-> ->] Hs]; [done|]. exfalso.
  unfold life_step in Hs. rewrite Ha in Hs. destruct e as [t|t|]; [| |done].
  - unfold step in Hs. destruct (h2_tasks (lf_conn f) !! t) as [k|] eqn:Hk; [|done].
    by destruct (Ho t k Hk) as [o ->].
  - unfold throws in Hs. destruct (h2_tasks (lf_conn f) !! t) as [k|] eqn:Hk; [|done].
    by destruct (Ho t k Hk) as [o ->].
Qed.
End Torn.

(** ** Runs *)

Definition life_demo (scale : nat) (fs : list client_frame) (es : list life_event)
  : h2_life wire * list (nat * out_frame) :=
  default (h2_life_new (demo_wire fs) [], []) (life_run (demo_handler scale) es (h2_life_new (demo_wire fs) [])).

Lemma life_demo_reach scale fs es :
  life_reach (demo_handler scale) (h2_life_new (demo_wire fs) []) (life_demo scale fs es).2 (life_demo scale fs es).1.
Proof.
  unfold life_demo. destruct (life_run _ _ _) as [[f l]|] eqn:E; [|apply life_refl]. by eapply life_run_reach.
Qed.

(** Two requests; the write of the first response fails while the second
    stream waits for the lock. *)
Definition torn_demo := life_demo 1 (demo_get 1 "/a" ++ demo_get 3 "/b")
  (map LStep (replicate 11 0%nat ++ replicate 3 1%nat ++ replicate 3 2%nat) ++ [LThrow 1%nat]).

Lemma h2_failed_write_is_final_witness :
  lf_torn torn_demo.1 = true /\ h2_locked (lf_conn torn_demo.1) = true /\
  exists fr k, h2_tasks (lf_conn torn_demo.1) !! 2%nat = Some (TLockWait fr k) /\
    forall tr' f', life_reach (demo_handler 1) torn_demo.1 tr' f' ->
      h2_tasks (lf_conn f') !! 2%nat = Some (TLockWait fr k).
Proof.
  assert (lf_torn torn_demo.1 = true) as HT by (vm_compute; reflexivity). split; [exact HT|].
  destruct (h2_failed_write_is_final (demo_handler 1) _ _ _ _
    (life_demo_reach 1 _ _ : life_reach _ _ torn_demo.2 torn_demo.1)) as (part & _ & _ & Hf).
  destruct (Hf HT) as (HL & _ & Hs). split; [exact HL|].
  assert (exists fr k, h2_tasks (lf_conn torn_demo.1) !! 2%nat = Some (TLockWait fr k)) as (fr & k & E)
    by (eexists _, _; vm_compute; reflexivity).
  exists fr, k. split; [exact E|]. intros tr' f' Hr. by apply (Hs tr' f' Hr).
Defined.

(** A connection that ends while a handler is still at work: the wire is
    closed after one request, [run] returns and the object is destroyed, and
    the stream's coroutine goes on without it. *)
Lemma end_leaves_stream_dangling :
  let f := (life_demo 1 (demo_get 1 "/a") (map LStep (replicate 10 0%nat) ++ [LDestroy; LStep 1%nat])).1 in
  lf_alive f = false /\ lf_torn f = false /\ lf_dangling f = true.
Proof. by vm_compute. Qed.
