(* ===== verification/MpmcQueue.v ===== *)
(** * MpmcQueue: include/nhttp/async/detail/mpmc_queue.hpp

    The bounded multi-producer multi-consumer queue of the thread pool.  A
    thread inside [try_push] or [try_pop] is a program counter with its local
    variables and a step is one access to shared memory, so that every
    interleaving of any number of threads is a sequence of steps.  The accesses
    are sequentially consistent (what the acquire/release pairs on the
    sequence numbers give for the values; the relaxed counters are only
    compared and swapped).  Positions are 64-bit and wrap.

    [fifo] is what the queue promises its clients: a first-in first-out queue
    whose items become visible when their producer has finished. *)

From S2P Require Import Prelude.

#[local] Open Scope Z_scope.

(** ** The promise *)

Inductive event (T : Type) :=
| EClaim (t : nat) (v : T)              (** a push takes the next position *)
| EPublish (t : nat) (p : Z)            (** that push is complete *)
| ETake (t : nat) (p : Z)               (** a pop takes the oldest position *)
| EPopped (t : nat) (p : Z) (v : T)     (** that pop returns [v] *)
| EEmpty (t : nat)                      (** a pop returns false *)
| EFull (t : nat).                      (** a push returns false *)
Arguments EClaim {T}.
Arguments EPublish {T}.
Arguments ETake {T}.
Arguments EPopped {T}.
Arguments EEmpty {T}.
Arguments EFull {T}.

Section Fifo.
Context {T : Type} `{EqDecision T}.

Record fifo := mk_fifo {
  f_base : Z;                   (** the position of the oldest item *)
  f_items : list (T * bool);    (** the items, with whether they are complete *)
  f_owed : gmap Z T;            (** the items of the pops in progress *)
}.

Definition fifo_new : fifo := mk_fifo 0 [] ∅.

Definition fifo_tail (a : fifo) : Z := f_base a + Z.of_nat (length (f_items a)).

(** A pop may fail when there is nothing, or the oldest push is in progress. *)
Definition may_be_empty (a : fifo) : bool :=
  match f_items a with [] => true | (_, done) :: _ => negb done end.

(** A push may fail when [cap] items are there, or the pop that frees the next
    slot is in progress. *)
Definition may_be_full (cap : Z) (a : fifo) : bool :=
  (cap <=? Z.of_nat (length (f_items a))) || bool_decide (is_Some (f_owed a !! (fifo_tail a - cap))).

Definition fifo_step (cap : Z) (e : event T) (a : fifo) : option fifo :=
  match e with
  | EClaim _ v =>
      if Z.of_nat (length (f_items a)) <? cap
      then Some (mk_fifo (f_base a) (f_items a ++ [(v, false)]) (f_owed a)) else None
  | EPublish _ p =>
      if f_base a <=? p then
        match f_items a !! Z.to_nat (p - f_base a) with
        | Some (v, false) =>
            Some (mk_fifo (f_base a) (<[Z.to_nat (p - f_base a) := (v, true)]> (f_items a)) (f_owed a))
        | _ => None
        end
      else None
  | ETake _ p =>
      match f_items a with
      | (v, true) :: r =>
          if p =? f_base a then Some (mk_fifo (f_base a + 1) r (<[p := v]> (f_owed a))) else None
      | _ => None
      end
  | EPopped _ p v =>
      if bool_decide (f_owed a !! p = Some v) then Some (mk_fifo (f_base a) (f_items a) (delete p (f_owed a)))
      else None
  | EEmpty _ => if may_be_empty a then Some a else None
  | EFull _ => if may_be_full cap a then Some a else None
  end.

Fixpoint fifo_run (cap : Z) (es : list (event T)) (a : fifo) : option fifo :=
  match es with
  | [] => Some a
  | e :: r => a' ← fifo_step cap e a; fifo_run cap r a'
  end.

Lemma fifo_run_app cap es1 es2 a :
  fifo_run cap (es1 ++ es2) a = a' ← fifo_run cap es1 a; fifo_run cap es2 a'.
Proof.
  revert a. induction es1 as [|e r IH]; intros a; cbn [app fifo_run]; [done|].
  destruct (fifo_step cap e a) as [a1|]; cbn; [apply IH|done].
Qed.
End Fifo.
Arguments fifo : clear implicits.

(** ** The queue *)

(** [static_cast<std::intptr_t>] of a [std::size_t]. *)
Definition intptr (z : Z) : Z := if z <? 2 ^ 63 then z else z - 2 ^ 64.

Inductive pc (T : Type) :=
| Idle
| PushLoad (v : T)
| PushSeq (v : T) (pos : Z)
| PushCas (v : T) (pos : Z)
| PushWrite (v : T) (pos : Z)
| PushPublish (pos : Z)
| PopLoad
| PopSeq (pos : Z)
| PopCas (pos : Z)
| PopRead (pos : Z)
| PopPublish (pos : Z) (out : T).
Arguments Idle {T}.
Arguments PushLoad {T}.
Arguments PushSeq {T}.
Arguments PushCas {T}.
Arguments PushWrite {T}.
Arguments PushPublish {T}.
Arguments PopLoad {T}.
Arguments PopSeq {T}.
Arguments PopCas {T}.
Arguments PopRead {T}.
Arguments PopPublish {T}.

(** What the scheduler picks: a call, a step, or the spurious failure of a
    [compare_exchange_weak]. *)
Inductive action (T : Type) := CallPush (v : T) | CallPop | Go | Spurious.
Arguments CallPush {T}.
Arguments CallPop {T}.
Arguments Go {T}.
Arguments Spurious {T}.

Section Queue.
Context {T : Type} `{EqDecision T} (blank : T).

Record cell := mk_cell { sequence : Z; value : T }.

Record mpmc_queue := mk_mpmc {
  buffer : list cell;
  mask : Z;
  enqueue_pos : Z;
  dequeue_pos : Z;
  threads : list (pc T);
}.

Definition mpmc_new (capacity : Z) (nthreads : nat) : mpmc_queue :=
  mk_mpmc (map (fun i => mk_cell i blank) (seqZ 0 capacity)) (uwrap 64 (capacity - 1)) 0 0
    (replicate nthreads Idle).

(** [buffer_[pos & mask_]]. *)
Definition slot (s : mpmc_queue) (pos : Z) : nat := Z.to_nat (Z.land pos (mask s)).
Definition cell_at (s : mpmc_queue) (pos : Z) : cell := default (mk_cell 0 blank) (buffer s !! slot s pos).

Definition set_cell (pos : Z) (c : cell) (s : mpmc_queue) : mpmc_queue :=
  mk_mpmc (<[slot s pos := c]> (buffer s)) (mask s) (enqueue_pos s) (dequeue_pos s) (threads s).
Definition set_pc (t : nat) (k : pc T) (s : mpmc_queue) : mpmc_queue :=
  mk_mpmc (buffer s) (mask s) (enqueue_pos s) (dequeue_pos s) (<[t := k]> (threads s)).
Definition set_enqueue (pos : Z) (s : mpmc_queue) : mpmc_queue :=
  mk_mpmc (buffer s) (mask s) pos (dequeue_pos s) (threads s).
Definition set_dequeue (pos : Z) (s : mpmc_queue) : mpmc_queue :=
  mk_mpmc (buffer s) (mask s) (enqueue_pos s) pos (threads s).

(** One access of [try_push]. *)
Definition push_step (t : nat) (spurious : bool) (k : pc T) (s : mpmc_queue)
  : option (mpmc_queue * list (event T)) :=
  match k with
  | PushLoad v => Some (set_pc t (PushSeq v (enqueue_pos s)) s, [])
  | PushSeq v pos =>
      let diff := intptr (sequence (cell_at s pos)) - intptr pos in
      if diff =? 0 then Some (set_pc t (PushCas v pos) s, [])
      else if diff <? 0 then Some (set_pc t Idle s, [EFull t])
      else Some (set_pc t (PushLoad v) s, [])
  | PushCas v pos =>
      if (enqueue_pos s =? pos) && negb spurious
      then Some (set_pc t (PushWrite v pos) (set_enqueue (uwrap 64 (pos + 1)) s), [EClaim t v])
      else Some (set_pc t (PushSeq v (enqueue_pos s)) s, [])
  | PushWrite v pos =>
      Some (set_pc t (PushPublish pos) (set_cell pos (mk_cell (sequence (cell_at s pos)) v) s), [])
  | PushPublish pos =>
      Some (set_pc t Idle (set_cell pos (mk_cell (uwrap 64 (pos + 1)) (value (cell_at s pos))) s), [EPublish t pos])
  | _ => None
  end.

(** One access of [try_pop]; the value is moved out of the cell. *)
Definition pop_step (t : nat) (spurious : bool) (k : pc T) (s : mpmc_queue)
  : option (mpmc_queue * list (event T)) :=
  match k with
  | PopLoad => Some (set_pc t (PopSeq (dequeue_pos s)) s, [])
  | PopSeq pos =>
      let diff := intptr (sequence (cell_at s pos)) - intptr (uwrap 64 (pos + 1)) in
      if diff =? 0 then Some (set_pc t (PopCas pos) s, [])
      else if diff <? 0 then Some (set_pc t Idle s, [EEmpty t])
      else Some (set_pc t PopLoad s, [])
  | PopCas pos =>
      if (dequeue_pos s =? pos) && negb spurious
      then Some (set_pc t (PopRead pos) (set_dequeue (uwrap 64 (pos + 1)) s), [ETake t pos])
      else Some (set_pc t (PopSeq (dequeue_pos s)) s, [])
  | PopRead pos =>
      Some (set_pc t (PopPublish pos (value (cell_at s pos)))
              (set_cell pos (mk_cell (sequence (cell_at s pos)) blank) s), [])
  | PopPublish pos out =>
      Some (set_pc t Idle (set_cell pos (mk_cell (uwrap 64 (pos + mask s + 1)) (value (cell_at s pos))) s),
            [EPopped t pos out])
  | _ => None
  end.

Definition is_push (k : pc T) : bool :=
  match k with PushLoad _ | PushSeq _ _ | PushCas _ _ | PushWrite _ _ | PushPublish _ => true | _ => false end.

Definition mpmc_step (t : nat) (act : action T) (s : mpmc_queue) : option (mpmc_queue * list (event T)) :=
  k ← threads s !! t;
  match act, k with
  | CallPush v, Idle => Some (set_pc t (PushLoad v) s, [])
  | CallPop, Idle => Some (set_pc t PopLoad s, [])
  | CallPush _, _ | CallPop, _ => None
  | Go, _ => if is_push k then push_step t false k s else pop_step t false k s
  | Spurious, _ => if is_push k then push_step t true k s else pop_step t true k s
  end.

(** [n] steps from [s0]. *)
Inductive mpmc_reach (s0 : mpmc_queue) : nat -> list (event T) -> mpmc_queue -> Prop :=
| mpmc_refl : mpmc_reach s0 0 [] s0
| mpmc_more n es s t act s' l :
    mpmc_reach s0 n es s -> mpmc_step t act s = Some (s', l) -> mpmc_reach s0 (S n) (es ++ l) s'.

Fixpoint mpmc_run (sched : list (nat * action T)) (s : mpmc_queue) : option (mpmc_queue * list (event T)) :=
  match sched with
  | [] => Some (s, [])
  | (t, act) :: r =>
      '(s1, l1) ← mpmc_step t act s;
      '(s2, l2) ← mpmc_run r s1;
      Some (s2, l1 ++ l2)
  end.
End Queue.
Arguments cell : clear implicits.
Arguments mpmc_queue : clear implicits.
