(* ===== verification/MpmcQueueFacts.v ===== *)
(** * MpmcQueueFacts: the queue keeps its promise

    Every interleaving of the accesses of any number of threads is a run of
    [fifo]: a simulation whose relation describes each slot by the position
    it stands for. *)

From S2P Require Import Prelude MpmcQueue.

#[local] Open Scope Z_scope.

Section Facts.
Context {T : Type} `{EqDecision T} (blank : T).
Context (k : Z) (Hk : 1 <= k <= 61).

Let cap : Z := 2 ^ k.

Lemma cap_bounds : 2 <= cap <= 2 ^ 61.
Proof.
  unfold cap. split; [change 2 with (2 ^ 1) at 1|]; apply Z.pow_le_mono_r; lia.
Qed.

(** ** Positions of one slot *)

Definition same (p q : Z) : Prop := p mod cap = q mod cap.

#[local] Instance same_dec p q : Decision (same p q).
Proof. unfold same. apply _. Defined.

Lemma same_gap p q : same p q -> p < q -> p + cap <= q.
Proof.
  unfold same. intros E Hlt. pose proof cap_bounds.
  pose proof (Z.div_mod p cap ltac:(lia)). pose proof (Z.div_mod q cap ltac:(lia)).
  assert (p / cap < q / cap) by nia. nia.
Qed.

Lemma same_eq p q : same p q -> p < q + cap -> q < p + cap -> p = q.
Proof.
  intros E H1 H2. destruct (Z.lt_trichotomy p q) as [Hl|[|Hl]]; [|done|].
  - pose proof (same_gap _ _ E Hl). lia.
  - pose proof (same_gap _ _ (eq_sym E) Hl). lia.
Qed.

Lemma same_succ p q : same p q -> p <> q + 1.
Proof. intros E ->. pose proof (same_gap _ _ (eq_sym E) ltac:(lia)). pose proof cap_bounds. lia. Qed.

Lemma same_next p : same p (p + cap).
Proof. unfold same. replace (p + cap) with (p + 1 * cap) by lia. by rewrite Z_mod_plus_full. Qed.

(** ** The relation *)

Implicit Types (C : Z -> cell T) (a : fifo T).

Definition item a (p : Z) : option (T * bool) := f_items a !! Z.to_nat (p - f_base a).

(** The cell [c] stands for position [p]: free for it, or holding it. *)
Definition free_for a (p : Z) (c : cell T) : Prop :=
  sequence c = p /\ f_base a <= p < f_base a + cap /\
  (p < fifo_tail a -> exists v, item a p = Some (v, false)).
Definition holds a (p : Z) (c : cell T) : Prop :=
  sequence c = p + 1 /\ p < fifo_tail a /\
  (f_base a <= p -> item a p = Some (value c, true)) /\ (p < f_base a -> is_Some (f_owed a !! p)).

Definition slots C a : Prop := forall q, 0 <= q -> exists p, 0 <= p /\ same p q /\
  fifo_tail a <= p + cap /\ (free_for a p (C q) \/ holds a p (C q)).

Definition pc_ok C a (x : pc T) : Prop :=
  match x with
  | Idle | PushLoad _ | PopLoad => True
  | PushSeq _ pos => 0 <= pos <= fifo_tail a
  | PushCas _ pos => 0 <= pos <= fifo_tail a /\ (pos = fifo_tail a -> sequence (C pos) = pos)
  | PushWrite v pos =>
      f_base a <= pos < fifo_tail a /\ sequence (C pos) = pos /\ item a pos = Some (v, false)
  | PushPublish pos =>
      f_base a <= pos < fifo_tail a /\ sequence (C pos) = pos /\ item a pos = Some (value (C pos), false)
  | PopSeq pos => 0 <= pos <= f_base a
  | PopCas pos => 0 <= pos <= f_base a /\ (pos = f_base a -> sequence (C pos) = pos + 1)
  | PopRead pos =>
      0 <= pos < f_base a /\ sequence (C pos) = pos + 1 /\ f_owed a !! pos = Some (value (C pos))
  | PopPublish pos v => 0 <= pos < f_base a /\ sequence (C pos) = pos + 1 /\ f_owed a !! pos = Some v
  end.

(** The position a thread has claimed. *)
Definition owns (x : pc T) : option Z :=
  match x with
  | PushWrite _ pos | PushPublish pos | PopRead pos | PopPublish pos _ => Some pos
  | _ => None
  end.

(** Cells that are one per slot. *)
Definition per_slot C : Prop := forall p q, same p q -> C p = C q.

Definition upd C (pos : Z) (c : cell T) : Z -> cell T := fun p => if decide (same p pos) then c else C p.

Lemma upd_same C pos c p : same p pos -> upd C pos c p = c.
Proof. intros. unfold upd. by rewrite decide_True. Qed.
Lemma upd_other C pos c p : ~ same p pos -> upd C pos c p = C p.
Proof. intros. unfold upd. by rewrite decide_False. Qed.

Record related C (ts : list (pc T)) a : Prop := mk_related {
  re_base : 0 <= f_base a;
  re_slots : slots C a;
  re_pcs : forall t x, ts !! t = Some x -> pc_ok C a x;
  re_unique : forall t t' x x' p, ts !! t = Some x -> ts !! t' = Some x' ->
    owns x = Some p -> owns x' = Some p -> t = t';
}.

(** ** The six changes of the shared state *)

(** The threads other than the one that moved. *)
Definition kept C a C' a' (mine : option Z) : Prop := forall x,
  pc_ok C a x -> (forall p, owns x = Some p -> mine <> Some p) -> pc_ok C' a' x.

Lemma item_app a v p :
  f_base a <= p < fifo_tail a ->
  item (mk_fifo (f_base a) (f_items a ++ [(v, false)]) (f_owed a)) p = item a p.
Proof. intros Hp. unfold item, fifo_tail in *. cbn. apply lookup_app_l. lia. Qed.

Lemma item_tail a v :
  item (mk_fifo (f_base a) (f_items a ++ [(v, false)]) (f_owed a)) (fifo_tail a) = Some (v, false).
Proof.
  unfold item, fifo_tail. cbn. rewrite lookup_app_r by lia.
  replace (Z.to_nat _ - length (f_items a))%nat with 0%nat by lia. done.
Qed.

Lemma tail_claim a v :
  fifo_tail (mk_fifo (f_base a) (f_items a ++ [(v, false)]) (f_owed a)) = fifo_tail a + 1.
Proof. unfold fifo_tail. cbn. rewrite length_app. cbn. lia. Qed.

Lemma claim_slots C a v :
  per_slot C -> slots C a -> sequence (C (fifo_tail a)) = fifo_tail a -> 0 <= f_base a ->
  fifo_tail a < f_base a + cap /\
  slots C (mk_fifo (f_base a) (f_items a ++ [(v, false)]) (f_owed a)).
Proof.
  intros Hper Hsl Hseq Hb. pose proof cap_bounds. assert (0 <= fifo_tail a) as Ht by (unfold fifo_tail; lia).
  split.
  - destruct (Hsl _ Ht) as (p & Hp & Hs & _ & [(E & Hr & _)|(E & _)]); [lia|].
    by destruct (same_succ _ _ (eq_sym Hs)); lia.
  - intros q Hq. destruct (Hsl q Hq) as (p & Hp & Hs & Htl & Hc). exists p. split_and!; [done|done| |].
    + rewrite tail_claim. destruct (decide (fifo_tail a = p + cap)) as [E|]; [|lia]. exfalso.
      assert (same p (fifo_tail a)) as Hs' by (rewrite E; apply same_next).
      rewrite (Hper _ q) in Hseq by (unfold same in *; congruence).
      destruct Hc as [(E1 & _)|(E1 & _)]; lia.
    + destruct Hc as [(E & Hr & Hi)|(E & Hlt & Hi & Ho)]; [left|right].
      * split; [done|]. split; [done|]. rewrite tail_claim. intros Hp'.
        destruct (decide (p = fifo_tail a)) as [->|].
        -- exists v. apply item_tail.
        -- destruct Hi as [w Hw]; [lia|]. exists w. rewrite item_app by (cbn in *; lia). done.
      * split; [done|]. rewrite tail_claim. split; [lia|]. split; [|done].
        intros Hge. rewrite item_app by (cbn in *; lia). by apply Hi.
Qed.

Lemma claim_kept C a v :
  kept C a C (mk_fifo (f_base a) (f_items a ++ [(v, false)]) (f_owed a)) None.
Proof.
  intros [] Hx _; cbn [pc_ok] in *; rewrite ?tail_claim; try done; try lia.
  - destruct Hx as (? & ? & Hi). rewrite item_app by (cbn in *; lia). split_and!; (done || cbn in *; lia).
  - destruct Hx as (? & ? & Hi). rewrite item_app by (cbn in *; lia). split_and!; (done || cbn in *; lia).
Qed.

(** Another cell is left alone by a change of [pos]'s. *)
Lemma claimed_other C a pos x p :
  per_slot C -> pc_ok C a x -> owns x = Some p -> p <> pos ->
  sequence (C pos) = pos \/ sequence (C pos) = pos + 1 -> ~ same p pos.
Proof.
  intros Hper Hx Ho Hne Hseq Hs.
  assert (sequence (C p) = p \/ sequence (C p) = p + 1) as Hp.
  { destruct x; try discriminate Ho; injection Ho as ->; destruct Hx as (_ & Hx & _); auto. }
  rewrite (Hper _ _ Hs) in Hp. pose proof (same_succ _ _ Hs). pose proof (same_succ _ _ (eq_sym Hs)). lia.
Qed.

(** The value of a claimed cell changes. *)
Lemma value_slots C a pos v :
  per_slot C -> slots C a -> 0 <= pos ->
  (sequence (C pos) = pos \/ (sequence (C pos) = pos + 1 /\ pos < f_base a)) ->
  slots (upd C pos (mk_cell (sequence (C pos)) v)) a.
Proof.
  intros Hper Hsl Hpos Hseq q Hq. destruct (Hsl q Hq) as (p & Hp & Hs & Htl & Hc). exists p. split_and!; try done.
  destruct (decide (same q pos)) as [Hsq|Hsq]; [|by rewrite upd_other].
  rewrite upd_same by done. assert (same p pos) as Hspos by (unfold same in *; congruence).
  pose proof (same_succ _ _ Hspos). pose proof (same_succ _ _ (eq_sym Hspos)). rewrite (Hper q pos Hsq) in Hc.
  destruct Hc as [Hc|(E & Hlt & Hi & Ho)]; [by left|]. right. split; [done|]. split; [done|].
  assert (p < f_base a) by lia. split; [lia|done].
Qed.

Lemma value_kept C a pos v :
  per_slot C -> (sequence (C pos) = pos \/ sequence (C pos) = pos + 1) ->
  kept C a (upd C pos (mk_cell (sequence (C pos)) v)) a (Some pos).
Proof.
  intros Hper Hseq x Hx Hown.
  assert (forall p, sequence (upd C pos (mk_cell (sequence (C pos)) v) p) = sequence (C p)) as Hsq.
  { intros p. destruct (decide (same p pos)) as [Hs|Hs]; [|by rewrite upd_other].
    rewrite upd_same by done. cbn. by rewrite (Hper _ _ Hs). }
  destruct (owns x) as [p|] eqn:Ho.
  - assert (~ same p pos) as Hn.
    { eapply claimed_other; eauto. intros ->. by apply (Hown pos). }
    destruct x; try discriminate Ho; injection Ho as ->; cbn [pc_ok] in *; by rewrite upd_other.
  - destruct x; cbn [pc_ok owns] in *; rewrite ?Hsq; done.
Qed.

(** A push completes. *)
Definition published a (pos : Z) (v : T) : fifo T :=
  mk_fifo (f_base a) (<[Z.to_nat (pos - f_base a) := (v, true)]> (f_items a)) (f_owed a).

Lemma tail_published a pos v : fifo_tail (published a pos v) = fifo_tail a.
Proof. unfold fifo_tail, published. cbn. by rewrite length_insert. Qed.

Lemma item_published a pos v p :
  f_base a <= pos < fifo_tail a -> f_base a <= p ->
  item (published a pos v) p = if decide (p = pos) then Some (v, true) else item a p.
Proof.
  intros Hpos Hp. unfold item, published, fifo_tail in *. cbn. case_decide as E.
  - rewrite E. apply list_lookup_insert_eq. lia.
  - apply list_lookup_insert_ne. lia.
Qed.

Lemma publish_slots C a pos :
  per_slot C -> slots C a -> 0 <= f_base a -> f_base a <= pos < fifo_tail a -> sequence (C pos) = pos ->
  slots (upd C pos (mk_cell (pos + 1) (value (C pos)))) (published a pos (value (C pos))).
Proof.
  intros Hper Hsl Hb Hpos Hseq q Hq. destruct (Hsl q Hq) as (p & Hp & Hs & Htl & Hc). exists p.
  rewrite tail_published. split_and!; try done. destruct (decide (same q pos)) as [Hsq|Hsq].
  - right. rewrite upd_same by done. assert (same p pos) as Hspos by (unfold same in *; congruence).
    pose proof (same_succ _ _ (eq_sym Hspos)). rewrite (Hper q pos Hsq) in Hc.
    assert (p = pos) as -> by (destruct Hc as [(E & _)|(E & _)]; lia).
    split; [done|]. rewrite tail_published. cbn. split; [lia|]. split; [|lia]. intros _.
    rewrite item_published by lia. by rewrite decide_True.
  - rewrite upd_other by done. assert (p <> pos) as Hne by (intros ->; unfold same in *; congruence).
    destruct Hc as [(E & Hr & Hi)|(E & Hlt & Hi & Ho)]; [left|right].
    + split; [done|]. split; [done|]. rewrite tail_published. intros Hp'. rewrite item_published by lia.
      rewrite decide_False by done. auto.
    + split; [done|]. rewrite tail_published. split; [done|]. split; [|done]. intros Hge.
      rewrite item_published by (cbn in *; lia). rewrite decide_False by done. auto.
Qed.

Lemma publish_kept C a pos :
  per_slot C -> f_base a <= pos < fifo_tail a -> sequence (C pos) = pos ->
  kept C a (upd C pos (mk_cell (pos + 1) (value (C pos)))) (published a pos (value (C pos))) (Some pos).
Proof.
  intros Hper Hpos Hseq x Hx Hown. destruct (owns x) as [p|] eqn:Ho.
  - assert (p <> pos) as Hne by (intros ->; by apply (Hown pos)).
    assert (~ same p pos) as Hn by (eapply claimed_other; eauto).
    destruct x; try discriminate Ho; injection Ho as ->; cbn [pc_ok] in *; rewrite upd_other, ?tail_published by done;
      try done; destruct Hx as (? & ? & ?); rewrite item_published, decide_False by (done || cbn in *; lia); done.
  - destruct x as [| |v0 pos0|v0 pos0| | | |pos0|pos0| |]; try discriminate Ho; cbn [pc_ok] in *;
      rewrite ?tail_published; try done.
    + split; [apply Hx|]. intros ->. destruct Hx as [_ Hx]. specialize (Hx eq_refl).
      destruct (decide (same (fifo_tail a) pos)) as [Hs|Hs]; [|by rewrite upd_other].
      rewrite (Hper _ _ Hs) in Hx. lia.
    + cbn in *. split; [apply Hx|]. intros ->. destruct Hx as [_ Hx]. specialize (Hx eq_refl).
      destruct (decide (same (f_base a) pos)) as [Hs|Hs]; [|by rewrite upd_other].
      rewrite (Hper _ _ Hs) in Hx. destruct (same_succ _ _ (eq_sym Hs)). lia.
Qed.

(** A pop claims the oldest item. *)
Definition taken a (v : T) (r : list (T * bool)) : fifo T :=
  mk_fifo (f_base a + 1) r (<[f_base a := v]> (f_owed a)).

Lemma take_head C a :
  slots C a -> 0 <= f_base a -> sequence (C (f_base a)) = f_base a + 1 ->
  exists r, f_items a = (value (C (f_base a)), true) :: r.
Proof.
  intros Hsl Hb Hseq. destruct (Hsl _ Hb) as (p & Hp & Hs & Htl & [(E & _)|(E & Hlt & Hi & _)]).
  - by destruct (same_succ _ _ Hs); lia.
  - assert (p = f_base a) as -> by lia. specialize (Hi ltac:(lia)). unfold item in Hi.
    rewrite Z.sub_diag in Hi. destruct (f_items a) as [|i r]; [done|]. injection Hi as ->. by exists r.
Qed.

Section Take.
Context C a (v : T) (r : list (T * bool)) (Hitems : f_items a = (v, true) :: r) (Hb : 0 <= f_base a).

Lemma tail_taken : fifo_tail (taken a v r) = fifo_tail a.
Proof. unfold fifo_tail, taken. rewrite Hitems. cbn. lia. Qed.

Lemma base_lt_tail : f_base a < fifo_tail a.
Proof. unfold fifo_tail. rewrite Hitems. cbn. lia. Qed.

Lemma item_taken p : f_base a < p -> item (taken a v r) p = item a p.
Proof.
  intros Hp. unfold item, taken. rewrite Hitems. cbn.
  replace (Z.to_nat (p - f_base a)) with (S (Z.to_nat (p - (f_base a + 1)))) by lia. done.
Qed.

Lemma item_base : item a (f_base a) = Some (v, true).
Proof. unfold item. by rewrite Z.sub_diag, Hitems. Qed.

Lemma take_slots : slots C a -> slots C (taken a v r).
Proof.
  pose proof base_lt_tail as Hlt. intros Hsl q Hq. destruct (Hsl q Hq) as (p & Hp & Hs & Htl & Hc). exists p.
  rewrite tail_taken. split_and!; try done. destruct Hc as [(E & Hr & Hi)|(E & Hp' & Hi & Ho)].
  - left. assert (p <> f_base a).
    { intros ->. destruct Hi as [w Hw]; [lia|]. by rewrite item_base in Hw. }
    split; [done|]. cbn. split; [lia|]. rewrite tail_taken. intros Hpt. rewrite item_taken by lia. auto.
  - right. split; [done|]. rewrite tail_taken. cbn. split; [done|]. split.
    + intros Hge. rewrite item_taken by lia. apply Hi. lia.
    + intros Hle. destruct (decide (p = f_base a)) as [->|]; [by rewrite lookup_insert_eq|].
      rewrite lookup_insert_ne by done. apply Ho. lia.
Qed.

Lemma take_kept : kept C a C (taken a v r) None.
Proof.
  pose proof base_lt_tail as Hlt. intros [] Hx _; cbn [pc_ok] in *; rewrite ?tail_taken; cbn [f_base f_owed taken] in *;
    try done; try lia.
  1, 2: destruct Hx as (Hr & Hs & Hi);
    (assert (f_base a <> pos) by (intros <-; by rewrite item_base in Hi));
    rewrite item_taken by lia; split_and!; (done || lia).
  all: rewrite lookup_insert_ne by lia; destruct Hx as (? & ? & ?); split_and!; (done || lia).
Qed.
End Take.

(** A pop completes. *)
Definition released a (pos : Z) : fifo T := mk_fifo (f_base a) (f_items a) (delete pos (f_owed a)).

Lemma release_slots C a pos v :
  per_slot C -> slots C a -> 0 <= pos < f_base a -> sequence (C pos) = pos + 1 ->
  slots (upd C pos (mk_cell (pos + cap) v)) (released a pos).
Proof.
  intros Hper Hsl Hpos Hseq q Hq. pose proof cap_bounds. destruct (Hsl q Hq) as (p & Hp & Hs & Htl & Hc).
  destruct (decide (same q pos)) as [Hsq|Hsq].
  - assert (same p pos) as Hspos by (unfold same in *; congruence).
    pose proof (same_succ _ _ Hspos). rewrite (Hper q pos Hsq) in Hc.
    assert (p = pos) as -> by (destruct Hc as [(E & _)|(E & _)]; lia).
    exists (pos + cap). rewrite upd_same by done.
    assert (same (pos + cap) q) by (pose proof (same_next pos); unfold same in *; congruence).
    change (fifo_tail (released a pos)) with (fifo_tail a). split_and!; [lia|done|lia|]. left. split; [done|].
    change (fifo_tail (released a pos)) with (fifo_tail a). cbn.
    assert (f_base a <= fifo_tail a) by (unfold fifo_tail; lia). split; [lia|lia].
  - exists p. rewrite upd_other by done. split_and!; [done|done|done|].
    destruct Hc as [Hc|(E & Hlt & Hi & Ho)]; [by left|right]. split; [done|]. split; [done|]. split; [done|].
    cbn. intros Hpb. rewrite lookup_delete_ne; [by apply Ho|]. intros ->. unfold same in *. congruence.
Qed.

Lemma release_kept C a pos v :
  per_slot C -> 0 <= pos < f_base a -> sequence (C pos) = pos + 1 ->
  kept C a (upd C pos (mk_cell (pos + cap) v)) (released a pos) (Some pos).
Proof.
  intros Hper Hpos Hseq x Hx Hown. destruct (owns x) as [p|] eqn:Ho.
  - assert (p <> pos) as Hne by (intros ->; by apply (Hown pos)).
    assert (~ same p pos) as Hn by (eapply claimed_other; eauto).
    destruct x; try discriminate Ho; injection Ho as ->; cbn [pc_ok] in *; rewrite upd_other by done; try done;
      cbn [released f_owed]; by rewrite lookup_delete_ne.
  - destruct x as [| |v0 pos0|v0 pos0| | | |pos0|pos0| |]; try discriminate Ho; cbn [pc_ok] in *; try done.
    all: change (fifo_tail (released a pos)) with (fifo_tail a); change (f_base (released a pos)) with (f_base a).
    all: split; [apply Hx|]; intros ->; destruct Hx as [_ Hx]; specialize (Hx eq_refl).
    + destruct (decide (same (fifo_tail a) pos)) as [Hs|Hs]; [|by rewrite upd_other].
      rewrite (Hper _ _ Hs) in Hx. destruct (same_succ _ _ Hs). lia.
    + destruct (decide (same (f_base a) pos)) as [Hs|Hs]; [|by rewrite upd_other].
      rewrite (Hper _ _ Hs) in Hx. lia.
Qed.

(** ** The reads that fail *)

Lemma pop_fails C a pos :
  slots C a -> 0 <= pos <= f_base a -> sequence (C pos) < pos + 1 -> may_be_empty a = true.
Proof.
  intros Hsl Hpos Hseq. pose proof cap_bounds. destruct (Hsl pos ltac:(lia)) as (p & Hp & Hs & Htl & Hc).
  assert (f_base a <= fifo_tail a) as Hbt by (unfold fifo_tail; lia). unfold may_be_empty.
  destruct Hc as [(E & Hr & Hi)|(E & Hlt & _)].
  - assert (p = f_base a) as -> by lia. destruct (f_items a) as [|[v d] r] eqn:Ei; [done|].
    destruct Hi as [w Hw]; [unfold fifo_tail; rewrite Ei; cbn; lia|].
    unfold item in Hw. rewrite Z.sub_diag, Ei in Hw. by injection Hw as -> ->.
  - pose proof (same_gap p pos Hs ltac:(lia)). destruct (f_items a) as [|i r] eqn:Ei; [done|].
    assert (fifo_tail a > f_base a) by (unfold fifo_tail; rewrite Ei; cbn; lia). lia.
Qed.

Lemma push_fails C a pos :
  slots C a -> 0 <= pos <= fifo_tail a -> sequence (C pos) < pos -> may_be_full cap a = true.
Proof.
  intros Hsl Hpos Hseq. pose proof cap_bounds. destruct (Hsl pos ltac:(lia)) as (p & Hp & Hs & Htl & Hc).
  unfold may_be_full. destruct (Z.leb_spec cap (Z.of_nat (length (f_items a)))) as [|Hlen]; [done|]. cbn.
  assert (fifo_tail a < f_base a + cap) as Hsmall by (unfold fifo_tail; lia).
  assert (p + cap <= pos) as Hgap.
  { destruct Hc as [(E & _)|(E & _)]; apply (same_gap p pos Hs); lia. }
  destruct Hc as [(E & Hr & _)|(E & Hlt & _ & Ho)]; [lia|].
  apply bool_decide_eq_true_2. replace (fifo_tail a - cap) with p by lia. apply Ho. lia.
Qed.

(** ** The simulation *)

Lemma kept_refl C a mine : kept C a C a mine.
Proof. by intros x Hx _. Qed.

Lemma related_move C ts a C' a' t x x' :
  related C ts a -> ts !! t = Some x -> 0 <= f_base a' -> slots C' a' -> kept C a C' a' (owns x) ->
  pc_ok C' a' x' ->
  (owns x' = owns x \/ forall y p, pc_ok C a y -> owns y = Some p -> owns x' <> Some p) ->
  related C' (<[t := x']> ts) a'.
Proof.
  intros [Hb Hsl Hpcs Hun] Ht Hb' Hsl' Hkept Hx' Hown.
  assert (forall u y p, u <> t -> ts !! u = Some y -> owns y = Some p -> owns x' <> Some p) as Hother.
  { intros u y p Hne Hu Hy E. destruct Hown as [Hown|Hown]; [|by apply (Hown y p); [eapply Hpcs|..]].
    apply Hne. eapply Hun; [exact Hu|exact Ht|exact Hy|congruence]. }
  assert (forall u y, (<[t := x']> ts) !! u = Some y -> (u = t /\ y = x') \/ (u <> t /\ ts !! u = Some y)) as Hlook.
  { intros u y. rewrite list_lookup_insert. case_decide; [intros [= <-]; left; naive_solver|].
    intros Hu. destruct (decide (u = t)) as [->|]; [|by right].
    pose proof (lookup_lt_Some _ _ _ Ht). lia. }
  split; [done|done| |].
  - intros u y Hu. destruct (Hlook u y Hu) as [[_ ->]|[Hne Hu']]; [done|]. apply Hkept; [by eapply Hpcs|].
    intros p Hp Hx. apply Hne. by eapply Hun.
  - intros u u' y y' p Hu Hu' Hy Hy'.
    destruct (Hlook u y Hu) as [[-> ->]|[Hne Hu1]], (Hlook u' y' Hu') as [[-> ->]|[Hne' Hu1']]; try done.
    + by destruct (Hother u' y' p).
    + by destruct (Hother u y p).
    + by eapply Hun.
Qed.

Lemma slots_ext C C' a : (forall p, C' p = C p) -> slots C a -> slots C' a.
Proof. intros E Hsl q Hq. rewrite E. by apply Hsl. Qed.

Lemma pc_ok_ext C C' a x : (forall p, C' p = C p) -> pc_ok C a x -> pc_ok C' a x.
Proof. intros E. destruct x; cbn [pc_ok]; rewrite ?E; done. Qed.

Lemma related_ext C C' ts a : (forall p, C' p = C p) -> related C ts a -> related C' ts a.
Proof.
  intros E [Hb Hsl Hpcs Hun]. split; [done|by eapply slots_ext| |done].
  intros t x Ht. by eapply pc_ok_ext, Hpcs.
Qed.

Record sim (s : mpmc_queue T) a (n : nat) : Prop := mk_sim {
  si_mask : mask s = cap - 1;
  si_length : length (buffer s) = Z.to_nat cap;
  si_tail : enqueue_pos s = fifo_tail a;
  si_base : dequeue_pos s = f_base a;
  si_bound : fifo_tail a <= Z.of_nat n;
  si_related : related (cell_at blank s) (threads s) a;
}.

Lemma slot_mod (s : mpmc_queue T) p : mask s = cap - 1 -> slot s p = Z.to_nat (p mod cap).
Proof.
  intros E. unfold slot. rewrite E. unfold cap. rewrite Z.sub_1_r, <-Z.ones_equiv. by rewrite Z.land_ones by lia.
Qed.

Lemma cell_per_slot (s : mpmc_queue T) : mask s = cap - 1 -> per_slot (cell_at blank s).
Proof. intros E p q Hs. unfold cell_at. rewrite !slot_mod by done. by rewrite Hs. Qed.

Lemma cell_set (s : mpmc_queue T) pos c p :
  mask s = cap - 1 -> length (buffer s) = Z.to_nat cap ->
  cell_at blank (set_cell pos c s) p = upd (cell_at blank s) pos c p.
Proof.
  intros Hm Hl. pose proof cap_bounds. unfold cell_at. cbn. rewrite !slot_mod by done.
  pose proof (Z.mod_pos_bound p cap ltac:(lia)). pose proof (Z.mod_pos_bound pos cap ltac:(lia)).
  destruct (decide (same p pos)) as [Hs|Hs].
  - rewrite upd_same by done. rewrite Hs, list_lookup_insert_eq by lia. done.
  - rewrite upd_other, list_lookup_insert_ne by (done || (unfold same in Hs; lia)). by rewrite slot_mod.
Qed.

Lemma sequence_bound C a q : slots C a -> 0 <= f_base a -> 0 <= q -> 0 <= sequence (C q) <= fifo_tail a + cap.
Proof.
  intros Hsl Hb Hq. pose proof cap_bounds. assert (f_base a <= fifo_tail a) by (unfold fifo_tail; lia).
  destruct (Hsl q Hq) as (p & Hp & _ & _ & [(-> & Hr & _)|(-> & Hlt & _)]); lia.
Qed.

Lemma intptr_small z : 0 <= z < 2 ^ 63 -> intptr z = z.
Proof. intros Hz. unfold intptr. by destruct (Z.ltb_spec z (2 ^ 63)); [|lia]. Qed.

(** Thread [t] moves from [x] to [x'], the shared state from [s] to [s1]. *)
Lemma sim_move s a n t x x' s1 a' C' :
  sim s a n -> threads s !! t = Some x ->
  mask s1 = mask s -> length (buffer s1) = length (buffer s) -> threads s1 = threads s ->
  enqueue_pos s1 = fifo_tail a' -> dequeue_pos s1 = f_base a' -> fifo_tail a' <= fifo_tail a + 1 ->
  (forall p, cell_at blank s1 p = C' p) -> 0 <= f_base a' ->
  slots C' a' -> kept (cell_at blank s) a C' a' (owns x) -> pc_ok C' a' x' ->
  (owns x' = owns x \/ forall y p, pc_ok (cell_at blank s) a y -> owns y = Some p -> owns x' <> Some p) ->
  sim (set_pc t x' s1) a' (S n).
Proof.
  intros [Hm Hl Ht Hd Hn Hr] Hx Hm1 Hl1 Hts He1 Hd1 Hn1 HC Hb' Hsl Hk' Hpc Hown.
  split; cbn; try congruence; [lia|]. rewrite Hts. apply (related_ext C'); [done|]. by eapply related_move.
Qed.

(** A step that only moves the thread. *)
Lemma sim_local s a n t x x' :
  sim s a n -> threads s !! t = Some x -> pc_ok (cell_at blank s) a x' -> owns x' = None ->
  sim (set_pc t x' s) a (S n).
Proof.
  intros Hs Hx Hpc Ho. pose proof Hs as [Hm Hl Ht Hd Hn [Hb Hsl _ _]].
  eapply (sim_move s a n t x x' s a); try done; [lia|apply kept_refl|]. right. intros y p _ _. by rewrite Ho.
Qed.

Lemma push_sim s a n t spurious x s' l :
  sim s a n -> Z.of_nat n < 2 ^ 62 -> threads s !! t = Some x -> push_step blank t spurious x s = Some (s', l) ->
  exists a', fifo_run cap l a = Some a' /\ sim s' a' (S n).
Proof.
  intros Hs Hn62 Hx. pose proof cap_bounds as Hcap. pose proof Hs as [Hm Hl Ht Hd Hn [Hb Hsl Hpcs _]].
  pose proof (cell_per_slot s Hm) as Hper. pose proof (Hpcs t x Hx) as Hpc.
  assert (f_base a <= fifo_tail a) as Hbt by (unfold fifo_tail; lia).
  destruct x as [|v|v pos|v pos|v pos|pos| | | | |]; cbn [push_step]; try done; cbn [pc_ok] in Hpc.
  - intros [= <- <-]. exists a. split; [done|]. eapply sim_local; try done. cbn. lia.
  - pose proof (sequence_bound _ _ pos Hsl Hb ltac:(lia)) as Hsb. rewrite !intptr_small by lia.
    destruct (Z.eqb_spec (sequence (cell_at blank s pos) - pos) 0).
    + intros [= <- <-]. exists a. split; [done|]. eapply sim_local; try done. cbn. split; [done|lia].
    + case_if; intros [= <- <-]; exists a; (split; [|by eapply sim_local]); [|done].
      cbn. by rewrite (push_fails (cell_at blank s) a pos) by (done || lia).
  - destruct Hpc as [Hpos Hseq]. case_if; intros [= <- <-].
    2: { exists a. split; [done|]. eapply sim_local; try done. cbn. lia. }
    assert (pos = fifo_tail a) as -> by lia. specialize (Hseq eq_refl).
    destruct (claim_slots _ _ v Hper Hsl Hseq Hb) as [Hsmall Hsl'].
    eexists. split; [cbn; destruct (Z.ltb_spec (Z.of_nat (length (f_items a))) cap);
      [done|unfold fifo_tail in Hsmall; lia]|].
    eapply sim_move with (C' := cell_at blank s); try done; rewrite ?tail_claim.
    + cbn. by rewrite uwrap_small by lia.
    + done.
    + apply claim_kept.
    + cbn [pc_ok]. rewrite tail_claim, item_tail. cbn. split_and!; (done || lia).
    + right. intros y p Hy Hyp [= <-]. destruct y; try discriminate Hyp; injection Hyp as ->; cbn in Hy; lia.
  - destruct Hpc as (Hpos & Hseq & Hi). intros [= <- <-]. exists a. split; [done|].
    eapply sim_move with (C' := upd (cell_at blank s) pos (mk_cell (sequence (cell_at blank s pos)) v)); try done.
    + cbn. by rewrite length_insert.
    + lia.
    + intros p. by apply cell_set.
    + apply value_slots; (done || lia || auto).
    + cbn [owns]. apply value_kept; auto.
    + cbn [pc_ok]. rewrite upd_same by done. split; [exact Hpos|by split].
    + by left.
  - destruct Hpc as (Hpos & Hseq & Hi). intros [= <- <-]. exists (published a pos (value (cell_at blank s pos))).
    split. { cbn. destruct (Z.leb_spec (f_base a) pos); [|lia]. unfold item in Hi. by rewrite Hi. }
    rewrite uwrap_small by lia. eapply sim_move with (C' := upd (cell_at blank s) pos (mk_cell (pos + 1) (value (cell_at blank s pos)))); try done; rewrite ?tail_published; try done.
    + cbn. by rewrite length_insert.
    + lia.
    + intros p. by apply cell_set.
    + by apply publish_slots.
    + by apply publish_kept.
    + right. done.
Qed.

Lemma pop_sim s a n t spurious x s' l :
  sim s a n -> Z.of_nat n < 2 ^ 62 -> threads s !! t = Some x -> pop_step blank t spurious x s = Some (s', l) ->
  exists a', fifo_run cap l a = Some a' /\ sim s' a' (S n).
Proof.
  intros Hs Hn62 Hx. pose proof cap_bounds as Hcap. pose proof Hs as [Hm Hl Ht Hd Hn [Hb Hsl Hpcs _]].
  pose proof (cell_per_slot s Hm) as Hper. pose proof (Hpcs t x Hx) as Hpc.
  assert (f_base a <= fifo_tail a) as Hbt by (unfold fifo_tail; lia).
  destruct x as [| | | | | | |pos|pos|pos|pos out]; cbn [pop_step]; try done; cbn [pc_ok] in Hpc.
  - intros [= <- <-]. exists a. split; [done|]. eapply sim_local; try done. cbn. lia.
  - pose proof (sequence_bound _ _ pos Hsl Hb ltac:(lia)) as Hsb. rewrite uwrap_small by lia.
    rewrite !intptr_small by lia.
    destruct (Z.eqb_spec (sequence (cell_at blank s pos) - (pos + 1)) 0).
    + intros [= <- <-]. exists a. split; [done|]. eapply sim_local; try done. cbn. split; [done|lia].
    + case_if; intros [= <- <-]; exists a; (split; [|by eapply sim_local]); [|done].
      cbn. by rewrite (pop_fails (cell_at blank s) a pos) by (done || lia).
  - destruct Hpc as [Hpos Hseq]. case_if; intros [= <- <-].
    2: { exists a. split; [done|]. eapply sim_local; try done. cbn. lia. }
    assert (pos = f_base a) as -> by lia. specialize (Hseq eq_refl).
    destruct (take_head _ _ Hsl Hb Hseq) as [r Hr]. set (v := value _) in Hr.
    exists (taken a v r). split; [cbn; by rewrite Hr, Z.eqb_refl|].
    eapply sim_move with (C' := cell_at blank s); try done.
    + cbn. by rewrite tail_taken.
    + cbn. rewrite uwrap_small by lia. done.
    + rewrite tail_taken by done. lia.
    + cbn. lia.
    + by apply take_slots.
    + by apply take_kept.
    + cbn. rewrite lookup_insert_eq. split_and!; (done || lia).
    + right. intros y p Hy Hyp [= <-]. pose proof (item_base a v r Hr) as Hib.
      destruct y; try discriminate Hyp; injection Hyp as ->; cbn in Hy; try lia; destruct Hy as (_ & _ & Hy);
        by rewrite Hib in Hy.
  - destruct Hpc as (Hpos & Hseq & Hi). intros [= <- <-]. exists a. split; [done|].
    eapply sim_move with (C' := upd (cell_at blank s) pos (mk_cell (sequence (cell_at blank s pos)) blank)); try done.
    + cbn. by rewrite length_insert.
    + lia.
    + intros p. by apply cell_set.
    + apply value_slots; (done || lia || auto).
    + cbn [owns]. apply value_kept; auto.
    + cbn [pc_ok]. rewrite upd_same by done. split; [exact Hpos|by split].
    + by left.
  - destruct Hpc as (Hpos & Hseq & Hi). intros [= <- <-]. exists (released a pos).
    split. { cbn. by rewrite bool_decide_eq_true_2. }
    rewrite Hm. replace (pos + (cap - 1) + 1) with (pos + cap) by lia. rewrite uwrap_small by lia.
    eapply sim_move with (C' := upd (cell_at blank s) pos (mk_cell (pos + cap) (value (cell_at blank s pos)))); try done.
    + cbn. by rewrite length_insert.
    + change (fifo_tail (released a pos)) with (fifo_tail a). lia.
    + intros p. by apply cell_set.
    + by apply release_slots.
    + by apply release_kept.
    + right. done.
Qed.

Lemma mpmc_step_sim s a n t act s' l :
  sim s a n -> Z.of_nat n < 2 ^ 62 -> mpmc_step blank t act s = Some (s', l) ->
  exists a', fifo_run cap l a = Some a' /\ sim s' a' (S n).
Proof.
  intros Hs Hn. unfold mpmc_step. destruct (threads s !! t) as [x|] eqn:Hx; [|done]. cbn [mbind option_bind].
  assert (forall x', pc_ok (cell_at blank s) a x' -> owns x' = None ->
    exists a', fifo_run cap [] a = Some a' /\ sim (set_pc t x' s) a' (S n)) as Hcall.
  { intros x' Hp Ho. exists a. split; [done|]. by eapply sim_local. }
  destruct act; [destruct x; try done; intros [= <- <-]; by apply Hcall..| |];
    (destruct (is_push x); intros E; [by eapply push_sim|by eapply pop_sim]).
Qed.

Lemma sim_new nthreads : sim (mpmc_new blank cap nthreads) fifo_new 0.
Proof.
  pose proof cap_bounds as Hcap. assert (mask (mpmc_new blank cap nthreads) = cap - 1) as Hm.
  { cbn. rewrite uwrap_small by lia. done. }
  split; [done| |done..|].
  - cbn. by rewrite length_map, length_seqZ.
  - split; [done| | |].
    + intros q Hq. exists (q mod cap). pose proof (Z.mod_pos_bound q cap ltac:(lia)) as Hmod. split_and!.
      * lia.
      * unfold same. by rewrite Zmod_mod.
      * change (fifo_tail fifo_new) with 0. lia.
      * left. unfold cell_at. rewrite slot_mod by done. cbn [buffer mpmc_new].
        change (map ?f ?l) with (f <$> l). rewrite list_lookup_fmap, lookup_seqZ_lt by lia. cbn [fmap option_fmap].
        unfold free_for. change (fifo_tail fifo_new) with 0. change (f_base fifo_new) with 0.
        cbn [from_option sequence option_map]. split_and!; [unfold id; cbn [sequence]; lia|lia|lia|lia].
    + intros t x E. apply lookup_replicate_1 in E as [-> _]. done.
    + intros t t' x x' p E. apply lookup_replicate_1 in E as [-> _]. done.
Qed.

Lemma mpmc_reach_sim nthreads n es s :
  mpmc_reach blank (mpmc_new blank cap nthreads) n es s -> Z.of_nat n <= 2 ^ 62 ->
  exists a, fifo_run cap es fifo_new = Some a /\ sim s a n.
Proof.
  intros Hr. induction Hr as [|n es s t act s' l _ IH Hs]; intros Hn.
  - exists fifo_new. split; [done|apply sim_new].
  - destruct IH as (a & Ha & Hsim); [lia|]. destruct (mpmc_step_sim _ _ _ _ _ _ _ Hsim ltac:(lia) Hs) as (a' & Ha' & Hs').
    exists a'. split; [|done]. rewrite fifo_run_app, Ha. exact Ha'.
Qed.
End Facts.

(** ** What the clients rely on *)

(** C8: Every interleaving of the shared-memory accesses of any number of threads in try_push and
    try_pop, spurious compare-and-swap failures included, is a run of an abstract bounded
    first-in first-out queue: every item is popped at most once, in the order of the positions
    claimed and with the value pushed; a pop fails only when the queue is empty or its oldest
    push is unfinished, a push only when the capacity is used or the pop that frees its slot
    is unfinished (capacity 2^k with k at least 1, fewer than 2^62 accesses). *)
Theorem mpmc_refines_fifo {T} `{EqDecision T} (blank : T) k nthreads n es s :
  1 <= k <= 61 -> mpmc_reach blank (mpmc_new blank (2 ^ k) nthreads) n es s -> Z.of_nat n <= 2 ^ 62 ->
  exists a, fifo_run (2 ^ k) es fifo_new = Some a /\
    dequeue_pos s = f_base a /\ enqueue_pos s = f_base a + Z.of_nat (length (f_items a)).
Proof.
  intros Hk Hr Hn. destruct (mpmc_reach_sim blank k Hk nthreads n es s Hr Hn) as (a & Ha & [_ _ Ht Hb _ _]).
  exists a. by split_and!.
Qed.

Lemma mpmc_run_reach {T} `{EqDecision T} (blank : T) sched s0 n es s s' l :
  mpmc_reach blank s0 n es s -> mpmc_run blank sched s = Some (s', l) ->
  mpmc_reach blank s0 (length sched + n) (es ++ l) s'.
Proof.
  revert n es s l. induction sched as [|[t act] r IH]; intros n es s l Hr; cbn [mpmc_run length].
  - intros [= <- <-]. by rewrite app_nil_r.
  - destruct (mpmc_step blank t act s) as [[s1 l1]|] eqn:E; [|done]. cbn [mbind option_bind].
    destruct (mpmc_run blank r s1) as [[s2 l2]|] eqn:E2; [|done]. cbn [mbind option_bind]. intros [= <- <-].
    rewrite app_assoc. replace (S (length r) + n)%nat with (length r + S n)%nat by lia.
    eapply IH; [|exact E2]. by eapply mpmc_more.
Qed.

(** ** Runs *)

Definition call_push (t : nat) (v : Z) : list (nat * action Z) := (t, CallPush v) :: replicate 5 (t, Go).
Definition call_pop (t : nat) : list (nat * action Z) := (t, CallPop) :: replicate 5 (t, Go).

(** Two producers and two consumers. *)
Definition demo_queue (sched : list (nat * action Z)) : mpmc_queue Z * list (event Z) :=
  default (mpmc_new 0 2 4, []) (mpmc_run 0 sched (mpmc_new 0 2 4)).

Lemma demo_queue_reach sched :
  match mpmc_run 0 sched (mpmc_new 0 2 4) with Some _ => true | None => false end = true ->
  mpmc_reach 0 (mpmc_new 0 (2 ^ 1) 4) (length sched + 0) (demo_queue sched).2 (demo_queue sched).1.
Proof.
  unfold demo_queue. change (2 ^ 1) with 2. destruct (mpmc_run 0 sched (mpmc_new 0 2 4)) as [[s l]|] eqn:E; [|done].
  intros _. exact (mpmc_run_reach 0 sched _ 0 [] _ s l (mpmc_refl 0 _) E).
Qed.

Definition demo_sched : list (nat * action Z) :=
  call_push 0 7 ++ call_push 1 8 ++ take 3 (call_push 0 9) ++ call_pop 2 ++ call_pop 3.

Lemma mpmc_refines_fifo_witness :
  (demo_queue demo_sched).2 =
    [EClaim 0 7; EPublish 0 0; EClaim 1 8; EPublish 1 1; EFull 0; ETake 2 0; EPopped 2 0 7; ETake 3 1; EPopped 3 1 8] /\
  exists a, fifo_run (2 ^ 1) (demo_queue demo_sched).2 fifo_new = Some a.
Proof.
  split; [vm_compute; reflexivity|].
  destruct (mpmc_refines_fifo 0 1 4 (length demo_sched + 0) (demo_queue demo_sched).2 (demo_queue demo_sched).1)
    as (a & Ha & _).
  - lia.
  - apply demo_queue_reach. vm_compute. reflexivity.
  - vm_compute. discriminate.
  - exists a. exact Ha.
Defined.

(** A pop returns false although a push has completed: an older push has
    claimed its position and not written it yet. *)
Example empty_with_an_item :
  (demo_queue (take 4 (call_push 0 7) ++ call_push 1 8 ++ take 3 (call_pop 2))).2 =
    [EClaim 0 7; EClaim 1 8; EPublish 1 1; EEmpty 2].
Proof. vm_compute. reflexivity. Qed.

(** A push returns false although every item has been popped. *)
Example full_without_items :
  (demo_queue (call_push 0 7 ++ call_push 1 8 ++ take 4 (call_pop 2) ++ call_pop 3 ++ take 3 (call_push 0 9))).2 =
    [EClaim 0 7; EPublish 0 0; EClaim 1 8; EPublish 1 1; ETake 2 0; ETake 3 1; EPopped 3 1 8; EFull 0].
Proof. vm_compute. reflexivity. Qed.

(** With one slot a second push overwrites the item of the first. *)
Example capacity_one_overwrites :
  option_map snd (mpmc_run 0 (call_push 0 7 ++ call_push 1 8) (mpmc_new 0 1 3)) =
    Some [EClaim 0 7; EPublish 0 0; EClaim 1 8; EPublish 1 1].
Proof. vm_compute. reflexivity. Qed.
