(* ===== verification/ThreadPool.v ===== *)
(** * ThreadPool: src/async/thread_pool.cpp

    Workers and callers of [enqueue] as threads over the promise of the queue
    ([MpmcQueue.fifo]), the mutex [wake_mutex_] and the condition variable
    [wake_cv_].  A step is one operation on one of these; waiting releases the
    mutex in the same step, and may end without a notification.  Jobs are
    identified by numbers, and [pool_ran] records the calls of [job()].

    The destructor may only run when no [enqueue] is in progress or to come:
    it is the caller's duty, and the guard of its first step. *)

From S2P Require Import Prelude MpmcQueue.

#[local] Open Scope Z_scope.

Inductive worker :=
| WTop                              (** the first [try_pop] *)
| WPop (locked : bool) (p : Z)      (** inside [try_pop], position [p] claimed *)
| WRun (job : nat)
| WLock                             (** [unique_lock lock(wake_mutex_)] *)
| WRecheck                          (** the second [try_pop], locked *)
| WStop                             (** [stopping_.load()], locked *)
| WSleep                            (** about to wait, locked *)
| WWaiting
| WRelock                           (** notified, needs the mutex *)
| WWoken                            (** out of [wait], locked *)
| WExit.

Inductive producer :=
| PPush (job : nat)                 (** [try_push], or yielding *)
| PClaimed (job : nat) (p : Z)      (** inside [try_push] *)
| PLock                             (** [lock_guard lock(wake_mutex_)] *)
| PNotify                           (** [notify_one], locked *)
| PUnlock
| PDone.

Inductive dtor := DIdle | DLock | DUnlock | DNotify | DJoin | DDone.

Inductive who := Worker (i : nat) | Producer (j : nat) | Dtor.

#[global] Instance who_eq_dec : EqDecision who.
Proof. solve_decision. Defined.
#[global] Instance worker_eq_dec : EqDecision worker.
Proof. solve_decision. Defined.
#[global] Instance producer_eq_dec : EqDecision producer.
Proof. solve_decision. Defined.

Record pool := mk_pool {
  pool_jobs : fifo nat;
  pool_mutex : option who;
  pool_workers : list worker;
  pool_producers : list producer;
  pool_stopping : bool;
  pool_dtor : dtor;
  pool_ran : list nat;
}.

Definition queue_capacity : Z := 8192.

Definition pool_new (worker_count : nat) (jobs : list nat) : pool :=
  mk_pool fifo_new None (replicate (if (worker_count =? 0)%nat then 1%nat else worker_count) WTop)
    (map PPush jobs) false DIdle [].

Definition set_worker (i : nat) (w : worker) (s : pool) : pool :=
  mk_pool (pool_jobs s) (pool_mutex s) (<[i := w]> (pool_workers s)) (pool_producers s) (pool_stopping s)
    (pool_dtor s) (pool_ran s).
Definition set_producer (j : nat) (p : producer) (s : pool) : pool :=
  mk_pool (pool_jobs s) (pool_mutex s) (pool_workers s) (<[j := p]> (pool_producers s)) (pool_stopping s)
    (pool_dtor s) (pool_ran s).
Definition set_workers (ws : list worker) (s : pool) : pool :=
  mk_pool (pool_jobs s) (pool_mutex s) ws (pool_producers s) (pool_stopping s) (pool_dtor s) (pool_ran s).
Definition set_jobs (q : fifo nat) (s : pool) : pool :=
  mk_pool q (pool_mutex s) (pool_workers s) (pool_producers s) (pool_stopping s) (pool_dtor s) (pool_ran s).
Definition set_mutex (m : option who) (s : pool) : pool :=
  mk_pool (pool_jobs s) m (pool_workers s) (pool_producers s) (pool_stopping s) (pool_dtor s) (pool_ran s).
Definition set_dtor (stopping : bool) (d : dtor) (s : pool) : pool :=
  mk_pool (pool_jobs s) (pool_mutex s) (pool_workers s) (pool_producers s) stopping d (pool_ran s).
Definition ran (job : nat) (s : pool) : pool :=
  mk_pool (pool_jobs s) (pool_mutex s) (pool_workers s) (pool_producers s) (pool_stopping s) (pool_dtor s)
    (pool_ran s ++ [job]).

Definition acquire (x : who) (s : pool) : option pool :=
  match pool_mutex s with None => Some (set_mutex (Some x) s) | Some _ => None end.

(** [jobs_.try_pop(job)] up to the claim; [None] is [false]. *)
Definition try_pop (i : nat) (q : fifo nat) : option (Z * fifo nat) :=
  q' ← fifo_step queue_capacity (ETake i (f_base q)) q;
  Some (f_base q, q').

(** [worker_loop]. *)
Definition worker_step (i : nat) (s : pool) : option pool :=
  w ← pool_workers s !! i;
  match w with
  | WTop =>
      match try_pop i (pool_jobs s) with
      | Some (p, q) => Some (set_worker i (WPop false p) (set_jobs q s))
      | None => Some (set_worker i WLock s)
      end
  | WPop locked p =>
      job ← f_owed (pool_jobs s) !! p;
      q ← fifo_step queue_capacity (EPopped i p job) (pool_jobs s);
      let s1 := set_worker i (WRun job) (set_jobs q s) in
      Some (if locked then set_mutex None s1 else s1)
  | WRun job => Some (set_worker i WTop (ran job s))
  | WLock => s1 ← acquire (Worker i) s; Some (set_worker i WRecheck s1)
  | WRecheck =>
      match try_pop i (pool_jobs s) with
      | Some (p, q) => Some (set_worker i (WPop true p) (set_jobs q s))
      | None => Some (set_worker i WStop s)
      end
  | WStop =>
      if pool_stopping s then Some (set_worker i WExit (set_mutex None s)) else Some (set_worker i WSleep s)
  | WSleep => Some (set_worker i WWaiting (set_mutex None s))
  | WWaiting => None
  | WRelock => s1 ← acquire (Worker i) s; Some (set_worker i WWoken s1)
  | WWoken => Some (set_worker i WTop (set_mutex None s))
  | WExit => None
  end.

(** [notify_one]: [i] is woken if it waits; the choice is void when nobody does. *)
Definition notify_one (i : nat) (s : pool) : option pool :=
  match pool_workers s !! i with
  | Some WWaiting => Some (set_worker i WRelock s)
  | _ => if existsb (fun w => bool_decide (w = WWaiting)) (pool_workers s) then None else Some s
  end.

Definition notify_all (s : pool) : pool :=
  set_workers (map (fun w => if bool_decide (w = WWaiting) then WRelock else w) (pool_workers s)) s.

(** What the scheduler picks beside the thread: whether a [try_push] that may
    fail does, and whom [notify_one] wakes. *)
Record choice := mk_choice { ch_full : bool; ch_wake : nat }.

(** [enqueue]. *)
Definition producer_step (j : nat) (c : choice) (s : pool) : option pool :=
  p ← pool_producers s !! j;
  match p with
  | PPush job =>
      if ch_full c then
        q ← fifo_step queue_capacity (EFull j) (pool_jobs s);
        Some (set_jobs q s)
      else
        q ← fifo_step queue_capacity (EClaim j job) (pool_jobs s);
        Some (set_producer j (PClaimed job (fifo_tail (pool_jobs s))) (set_jobs q s))
  | PClaimed job p =>
      q ← fifo_step queue_capacity (EPublish j p) (pool_jobs s);
      Some (set_producer j PLock (set_jobs q s))
  | PLock => s1 ← acquire (Producer j) s; Some (set_producer j PNotify s1)
  | PNotify => s1 ← notify_one (ch_wake c) s; Some (set_producer j PUnlock s1)
  | PUnlock => Some (set_producer j PDone (set_mutex None s))
  | PDone => None
  end.

(** [~thread_pool]. *)
Definition dtor_step (s : pool) : option pool :=
  match pool_dtor s with
  | DIdle =>
      if forallb (fun p => bool_decide (p = PDone)) (pool_producers s) then Some (set_dtor true DLock s) else None
  | DLock => s1 ← acquire Dtor s; Some (set_dtor (pool_stopping s) DUnlock s1)
  | DUnlock => Some (set_dtor (pool_stopping s) DNotify (set_mutex None s))
  | DNotify => Some (set_dtor (pool_stopping s) DJoin (notify_all s))
  | DJoin =>
      if forallb (fun w => bool_decide (w = WExit)) (pool_workers s)
      then Some (set_dtor (pool_stopping s) DDone s) else None
  | DDone => None
  end.

Definition pool_step (x : who) (c : choice) (s : pool) : option pool :=
  match x with
  | Worker i => worker_step i s
  | Producer j => producer_step j c s
  | Dtor => dtor_step s
  end.

(** A wait that ends on its own. *)
Definition wake_up (i : nat) (s : pool) : option pool :=
  match pool_workers s !! i with Some WWaiting => Some (set_worker i WRelock s) | _ => None end.

Inductive pool_reach (s0 : pool) : pool -> Prop :=
| pool_refl : pool_reach s0 s0
| pool_go s x c s' : pool_reach s0 s -> pool_step x c s = Some s' -> pool_reach s0 s'
| pool_spurious s i s' : pool_reach s0 s -> wake_up i s = Some s' -> pool_reach s0 s'.
