(* ===== verification/ThreadPoolFacts.v ===== *)
(** * ThreadPoolFacts: no wakeup is lost and every job runs once

    The invariants of the pool: who holds the mutex, what a stopping pool may
    still do, where every job is, and that a complete job is never left to
    workers that all sleep. *)

From S2P Require Import Prelude MpmcQueue ThreadPool.

#[local] Open Scope Z_scope.

(** ** Lists with one element replaced *)

Section Replace.
Context {A : Type} (P : A -> bool).

Definition some (l : list A) : Prop := exists i x, l !! i = Some x /\ P x = true.

Lemma some_here l i x x' : l !! i = Some x -> P x' = true -> some (<[i := x']> l).
Proof. intros Hi Hx. exists i, x'. split; [|done]. apply list_lookup_insert_eq. by eapply lookup_lt_Some. Qed.

Lemma some_kept l i x x' : l !! i = Some x -> (P x = true -> P x' = true) -> some l -> some (<[i := x']> l).
Proof.
  intros Hi Hx (j & y & Hj & Hy). destruct (decide (i = j)) as [<-|Hne].
  - eapply some_here; [done|]. apply Hx. congruence.
  - exists j, y. split; [|done]. by rewrite list_lookup_insert_ne.
Qed.

Lemma some_inv l i x' : some (<[i := x']> l) -> P x' = true \/ some l.
Proof.
  intros (j & y & Hj & Hy). apply list_lookup_insert_Some in Hj as [(-> & -> & _)|[_ Hj]]; [by left|].
  right. by exists j, y.
Qed.

Lemma some_map (f : A -> A) l : (forall x, P x = true -> P (f x) = true) -> some l -> some (map f l).
Proof.
  intros Hf (j & y & Hj & Hy). exists j, (f y). split; [|by apply Hf].
  change (map f l) with (f <$> l). by rewrite list_lookup_fmap, Hj.
Qed.

Lemma some_map_inv (f : A -> A) l : some (map f l) -> exists x, x ∈ l /\ P (f x) = true.
Proof.
  intros (j & y & Hj & Hy). change (map f l) with (f <$> l) in Hj. rewrite list_lookup_fmap in Hj.
  destruct (l !! j) as [x|] eqn:E; [|done]. injection Hj as <-. exists x. split; [|done].
  by eapply list_elem_of_lookup_2.
Qed.
End Replace.

(** ** The steps of a thread, one by one *)

Definition step_to (s s' : pool) : Prop :=
  (exists x c, pool_step x c s = Some s') \/ exists i, wake_up i s = Some s'.

Lemma pool_reach_ind' (I : pool -> Prop) s0 :
  I s0 -> (forall s s', I s -> step_to s s' -> I s') -> forall s, pool_reach s0 s -> I s.
Proof.
  intros H0 Hstep s Hr. induction Hr as [|s x c s' _ IH Hs|s i s' _ IH Hs]; [done| |].
  - eapply Hstep; [done|]. left. eauto.
  - eapply Hstep; [done|]. right. eauto.
Qed.

Lemma try_pop_Some i q p q' :
  try_pop i q = Some (p, q') ->
  exists v r, f_items q = (v, true) :: r /\ p = f_base q /\ q' = mk_fifo (f_base q + 1) r (<[p := v]> (f_owed q)).
Proof.
  unfold try_pop. cbn. destruct (f_items q) as [|[v []] r]; try done. rewrite Z.eqb_refl. cbn.
  intros [= <- <-]. by exists v, r.
Qed.

Lemma try_pop_None i q : try_pop i q = None -> may_be_empty q = true.
Proof.
  unfold try_pop, may_be_empty. cbn. destruct (f_items q) as [|[v []] r]; try done. by rewrite Z.eqb_refl.
Qed.

Lemma acquire_Some x s s1 : acquire x s = Some s1 -> pool_mutex s = None /\ s1 = set_mutex (Some x) s.
Proof. unfold acquire. destruct (pool_mutex s); [done|]. by intros [= <-]. Qed.

(** One case per transition. *)
Inductive move (s : pool) : pool -> Prop :=
| MTake i w lk v r : pool_workers s !! i = Some w -> (w = WTop /\ lk = false) \/ (w = WRecheck /\ lk = true) ->
    f_items (pool_jobs s) = (v, true) :: r ->
    move s (set_worker i (WPop lk (f_base (pool_jobs s)))
      (set_jobs (mk_fifo (f_base (pool_jobs s) + 1) r (<[f_base (pool_jobs s) := v]> (f_owed (pool_jobs s)))) s))
| MMiss i : pool_workers s !! i = Some WTop -> move s (set_worker i WLock s)
| MPopped i (lk : bool) p v : pool_workers s !! i = Some (WPop lk p) -> f_owed (pool_jobs s) !! p = Some v ->
    move s (set_mutex (if lk then None else pool_mutex s) (set_worker i (WRun v)
      (set_jobs (mk_fifo (f_base (pool_jobs s)) (f_items (pool_jobs s)) (delete p (f_owed (pool_jobs s)))) s)))
| MRan i v : pool_workers s !! i = Some (WRun v) -> move s (set_worker i WTop (ran v s))
| MAcquire i w w' : pool_workers s !! i = Some w -> (w = WLock /\ w' = WRecheck) \/ (w = WRelock /\ w' = WWoken) ->
    pool_mutex s = None -> move s (set_worker i w' (set_mutex (Some (Worker i)) s))
| MEmpty i : pool_workers s !! i = Some WRecheck -> may_be_empty (pool_jobs s) = true -> move s (set_worker i WStop s)
| MExit i : pool_workers s !! i = Some WStop -> pool_stopping s = true ->
    move s (set_worker i WExit (set_mutex None s))
| MStay i : pool_workers s !! i = Some WStop -> pool_stopping s = false -> move s (set_worker i WSleep s)
| MWait i : pool_workers s !! i = Some WSleep -> move s (set_worker i WWaiting (set_mutex None s))
| MWoken i : pool_workers s !! i = Some WWoken -> move s (set_worker i WTop (set_mutex None s))
| MSpurious i : pool_workers s !! i = Some WWaiting -> move s (set_worker i WRelock s)
| MFull : move s s
| MClaim j v : pool_producers s !! j = Some (PPush v) ->
    move s (set_producer j (PClaimed v (fifo_tail (pool_jobs s)))
      (set_jobs (mk_fifo (f_base (pool_jobs s)) (f_items (pool_jobs s) ++ [(v, false)]) (f_owed (pool_jobs s))) s))
| MPublish j v p w : pool_producers s !! j = Some (PClaimed v p) -> f_base (pool_jobs s) <= p ->
    f_items (pool_jobs s) !! Z.to_nat (p - f_base (pool_jobs s)) = Some (w, false) ->
    move s (set_producer j PLock (set_jobs (mk_fifo (f_base (pool_jobs s))
      (<[Z.to_nat (p - f_base (pool_jobs s)) := (w, true)]> (f_items (pool_jobs s))) (f_owed (pool_jobs s))) s))
| MPLock j : pool_producers s !! j = Some PLock -> pool_mutex s = None ->
    move s (set_producer j PNotify (set_mutex (Some (Producer j)) s))
| MNotify j i : pool_producers s !! j = Some PNotify -> pool_workers s !! i = Some WWaiting ->
    move s (set_producer j PUnlock (set_worker i WRelock s))
| MNobody j : pool_producers s !! j = Some PNotify -> WWaiting ∉ pool_workers s ->
    move s (set_producer j PUnlock s)
| MPUnlock j : pool_producers s !! j = Some PUnlock -> move s (set_producer j PDone (set_mutex None s))
| MDStop : pool_dtor s = DIdle -> Forall (eq PDone) (pool_producers s) -> move s (set_dtor true DLock s)
| MDLock : pool_dtor s = DLock -> pool_mutex s = None ->
    move s (set_dtor (pool_stopping s) DUnlock (set_mutex (Some Dtor) s))
| MDUnlock : pool_dtor s = DUnlock -> move s (set_dtor (pool_stopping s) DNotify (set_mutex None s))
| MDNotify : pool_dtor s = DNotify -> move s (set_dtor (pool_stopping s) DJoin (notify_all s))
| MDJoin : pool_dtor s = DJoin -> Forall (eq WExit) (pool_workers s) -> move s (set_dtor (pool_stopping s) DDone s).

Lemma worker_moves i s s' : worker_step i s = Some s' -> move s s'.
Proof.
  unfold worker_step. destruct (pool_workers s !! i) as [w|] eqn:Hw; [|done]. cbn [mbind option_bind].
  destruct w as [|lk p|job| | | | | | | |]; try done.
  - destruct (try_pop i (pool_jobs s)) as [[p q]|] eqn:E; intros [= <-].
    + destruct (try_pop_Some _ _ _ _ E) as (v & r & Hi & -> & ->). eapply MTake; eauto.
    + by apply MMiss.
  - destruct (f_owed (pool_jobs s) !! p) as [v|] eqn:Ho; [|done]. cbn [mbind option_bind fifo_step].
    rewrite bool_decide_eq_true_2 by done. cbn. intros [= <-].
    replace (if lk then _ else _) with (set_mutex (if lk then None else pool_mutex s) (set_worker i (WRun v)
      (set_jobs (mk_fifo (f_base (pool_jobs s)) (f_items (pool_jobs s)) (delete p (f_owed (pool_jobs s)))) s)))
      by (by destruct lk). by eapply MPopped.
  - intros [= <-]. by apply MRan.
  - destruct (acquire (Worker i) s) as [s1|] eqn:E; [|done]. apply acquire_Some in E as [Hm ->]. intros [= <-].
    eapply MAcquire; eauto.
  - destruct (try_pop i (pool_jobs s)) as [[p q]|] eqn:E; intros [= <-].
    + destruct (try_pop_Some _ _ _ _ E) as (v & r & Hi & -> & ->). eapply MTake; eauto.
    + apply MEmpty; [done|]. by eapply try_pop_None.
  - destruct (pool_stopping s) eqn:Es; intros [= <-]; [by apply MExit|by apply MStay].
  - intros [= <-]. by apply MWait.
  - destruct (acquire (Worker i) s) as [s1|] eqn:E; [|done]. apply acquire_Some in E as [Hm ->]. intros [= <-].
    eapply MAcquire; eauto.
  - intros [= <-]. by apply MWoken.
Qed.

Lemma not_waiting ws : existsb (fun w => bool_decide (w = WWaiting)) ws = false -> WWaiting ∉ ws.
Proof.
  intros E Hin. assert (existsb (fun w => bool_decide (w = WWaiting)) ws = true) as E'; [|congruence].
  apply existsb_exists. exists WWaiting. split; [by apply list_elem_of_In|by apply bool_decide_eq_true].
Qed.

Lemma producer_moves j c s s' : producer_step j c s = Some s' -> move s s'.
Proof.
  unfold producer_step. destruct (pool_producers s !! j) as [p|] eqn:Hp; [|done]. cbn [mbind option_bind].
  destruct p as [v|v p| | | |]; try done.
  - destruct (ch_full c); cbn [fifo_step].
    + destruct (may_be_full _ _); [|done]. intros [= <-]. destruct s. apply MFull.
    + case_if; [|done]. cbn. intros [= <-]. by apply MClaim.
  - cbn [fifo_step]. case_if; [|done]. destruct (f_items (pool_jobs s) !! _) as [[w []]|] eqn:Ei; try done.
    cbn. intros [= <-]. by eapply MPublish.
  - destruct (acquire (Producer j) s) as [s1|] eqn:E; [|done]. apply acquire_Some in E as [Hm ->]. intros [= <-].
    by apply MPLock.
  - unfold notify_one. destruct (pool_workers s !! ch_wake c) as [w|] eqn:Hw.
    2: { destruct (existsb _ _) eqn:E; [done|]. intros [= <-]. apply MNobody; [done|by apply not_waiting]. }
    destruct (decide (w = WWaiting)) as [->|Hne]; [intros [= <-]; by apply MNotify|].
    replace (match w with WWaiting => _ | _ => _ end) with
      (if existsb (fun w => bool_decide (w = WWaiting)) (pool_workers s) then None else Some s) by (by destruct w).
    destruct (existsb _ _) eqn:E; [done|]. intros [= <-]. apply MNobody; [done|by apply not_waiting].
  - intros [= <-]. by apply MPUnlock.
Qed.

Lemma forallb_eq {A} `{EqDecision A} (x : A) l : forallb (fun y => bool_decide (y = x)) l = true -> Forall (eq x) l.
Proof.
  intros E. apply Forall_forall. intros y Hy. rewrite forallb_forall in E. symmetry.
  eapply bool_decide_eq_true, E. by apply list_elem_of_In.
Qed.

Lemma step_moves s s' : step_to s s' -> move s s'.
Proof.
  intros [(x & c & Hs)|(i & Hs)].
  - destruct x as [i|j|]; cbn in Hs; [by eapply worker_moves|by eapply producer_moves|]. unfold dtor_step in Hs.
    destruct (pool_dtor s) eqn:Ed; try done.
    + destruct (forallb _ _) eqn:E; [|done]. injection Hs as <-. apply MDStop; [done|by apply forallb_eq].
    + destruct (acquire Dtor s) as [s1|] eqn:E; [|done]. apply acquire_Some in E as [Hm ->].
      injection Hs as <-. by apply MDLock.
    + injection Hs as <-. by apply MDUnlock.
    + injection Hs as <-. by apply MDNotify.
    + destruct (forallb _ _) eqn:E; [|done]. injection Hs as <-. apply MDJoin; [done|by apply forallb_eq].
  - unfold wake_up in Hs. destruct (pool_workers s !! i) as [[]|] eqn:E; try done. injection Hs as <-. by apply MSpurious.
Qed.

(** ** The mutex *)

Definition locks_w (w : worker) : bool :=
  match w with WPop true _ | WRecheck | WStop | WSleep | WWoken => true | _ => false end.
Definition locks_p (p : producer) : bool := match p with PNotify | PUnlock => true | _ => false end.
Definition locks_d (d : dtor) : bool := match d with DUnlock => true | _ => false end.

Definition holds (s : pool) (x : who) : bool :=
  match x with
  | Worker i => match pool_workers s !! i with Some w => locks_w w | None => false end
  | Producer j => match pool_producers s !! j with Some p => locks_p p | None => false end
  | Dtor => locks_d (pool_dtor s)
  end.

Definition mutex_ok (s : pool) : Prop := forall x, holds s x = true <-> pool_mutex s = Some x.

Lemma holds_worker s i w0 w x : pool_workers s !! i = Some w0 ->
  holds (set_worker i w s) x = if decide (x = Worker i) then locks_w w else holds s x.
Proof.
  intros Hi. destruct x as [i'|j|]; cbn; try done. destruct (decide (Worker i' = Worker i)) as [[= ->]|Hne].
  - rewrite list_lookup_insert_eq by (by eapply lookup_lt_Some). done.
  - rewrite list_lookup_insert_ne by congruence. done.
Qed.

Lemma holds_producer s j p0 p x : pool_producers s !! j = Some p0 ->
  holds (set_producer j p s) x = if decide (x = Producer j) then locks_p p else holds s x.
Proof.
  intros Hi. destruct x as [i|j'|]; cbn; try done. destruct (decide (Producer j' = Producer j)) as [[= ->]|Hne].
  - rewrite list_lookup_insert_eq by (by eapply lookup_lt_Some). done.
  - rewrite list_lookup_insert_ne by congruence. done.
Qed.

Lemma mutex_keep s s' :
  mutex_ok s -> (forall x, holds s' x = holds s x) -> pool_mutex s' = pool_mutex s -> mutex_ok s'.
Proof. intros H E1 E2 x. by rewrite E1, E2. Qed.

Lemma mutex_acquire s s' y :
  mutex_ok s -> pool_mutex s = None -> (forall x, holds s' x = if decide (x = y) then true else holds s x) ->
  pool_mutex s' = Some y -> mutex_ok s'.
Proof.
  intros H E0 E1 E2 x. rewrite E1, E2. case_decide as Hx; [by subst|]. specialize (H x). rewrite E0 in H.
  split; [intros Hh; by apply H in Hh|congruence].
Qed.

Lemma mutex_release s s' y :
  mutex_ok s -> holds s y = true -> (forall x, holds s' x = if decide (x = y) then false else holds s x) ->
  pool_mutex s' = None -> mutex_ok s'.
Proof.
  intros H E0 E1 E2 x. rewrite E1, E2. apply H in E0. case_decide as Hx; [done|].
  split; [|done]. intros Hh. apply H in Hh. congruence.
Qed.

(** The holder of the mutex is the only one. *)
Lemma holds_unique s x y : mutex_ok s -> holds s x = true -> holds s y = true -> x = y.
Proof. intros H Hx Hy. apply H in Hx, Hy. congruence. Qed.

Lemma holds_none s x : mutex_ok s -> pool_mutex s = None -> holds s x = false.
Proof. intros H E. destruct (holds s x) eqn:Hx; [|done]. apply H in Hx. congruence. Qed.

Lemma holds_at s i w : pool_workers s !! i = Some w -> holds s (Worker i) = locks_w w.
Proof. intros E. cbn. by rewrite E. Qed.
Lemma holds_at_p s j p : pool_producers s !! j = Some p -> holds s (Producer j) = locks_p p.
Proof. intros E. cbn. by rewrite E. Qed.

Lemma holds_notify_all s x : holds (notify_all s) x = holds s x.
Proof.
  destruct x as [i|j|]; cbn; try done. change (map ?f ?l) with (f <$> l). rewrite list_lookup_fmap.
  destruct (pool_workers s !! i) as [w|]; cbn; [|done]. case_bool_decide as E; [by rewrite E|done].
Qed.

(** A worker's step that keeps the mutex as it is. *)
Lemma mutex_worker s s1 i w w' : mutex_ok s -> pool_workers s !! i = Some w -> locks_w w' = locks_w w ->
  pool_workers s1 = pool_workers s -> pool_producers s1 = pool_producers s -> pool_dtor s1 = pool_dtor s ->
  pool_mutex s1 = pool_mutex s -> mutex_ok (set_worker i w' s1).
Proof.
  intros H Hi Hl Ew Ep Ed Em. assert (forall x, holds s1 x = holds s x) as Hh.
  { intros []; cbn; by rewrite ?Ew, ?Ep, ?Ed. }
  apply (mutex_keep s); [done| |done]. intros x. rewrite (holds_worker s1 i w) by congruence.
  case_decide as Hx; [|done]. subst. by rewrite (holds_at _ _ _ Hi).
Qed.

Lemma mutex_producer s s1 j p p' : mutex_ok s -> pool_producers s !! j = Some p -> locks_p p' = locks_p p ->
  (forall x, holds s1 x = holds s x) -> pool_producers s1 = pool_producers s -> pool_mutex s1 = pool_mutex s ->
  mutex_ok (set_producer j p' s1).
Proof.
  intros H Hj Hl Hh Ep Em. apply (mutex_keep s); [done| |done]. intros x.
  rewrite (holds_producer s1 j p) by congruence. case_decide as Hx; [|done]. subst. by rewrite (holds_at_p _ _ _ Hj).
Qed.

Lemma mutex_free s i w w' : mutex_ok s -> pool_workers s !! i = Some w -> locks_w w = true -> locks_w w' = false ->
  mutex_ok (set_worker i w' (set_mutex None s)).
Proof.
  intros H Hi Hl Hl'. apply (mutex_release s _ (Worker i)); [done|by rewrite (holds_at _ _ _ Hi)| |done].
  intros x. rewrite (holds_worker (set_mutex None s) i w) by done. by case_decide; [|destruct x].
Qed.

Lemma mutex_step s s' : mutex_ok s -> move s s' -> mutex_ok s'.
Proof.
  intros H Hm. destruct Hm as [i w lk v r Hi Hw Hr|i Hi|i lk p v Hi Ho|i v Hi|i w w' Hi Hw Hn|i Hi He|i Hi Hs|
    i Hi Hs|i Hi|i Hi|i Hi| |j v Hj|j v p w Hj Hp Hw|j Hj Hn|j i Hj Hi|j Hj Hno|j Hj|Hd Hall|Hd Hn|Hd|Hd|Hd Hall].
  - eapply mutex_worker; try done. by destruct Hw as [[-> ->]|[-> ->]].
  - by eapply mutex_worker.
  - destruct lk.
    + apply (mutex_release s _ (Worker i)); [done|by rewrite (holds_at _ _ _ Hi)| |done].
      intros x. destruct x as [i'|j|]; try done. cbn.
      destruct (decide (Worker i' = Worker i)) as [[= ->]|Hne].
      * rewrite list_lookup_insert_eq by (by eapply lookup_lt_Some). done.
      * rewrite list_lookup_insert_ne by congruence. done.
    + by eapply (mutex_worker s (set_jobs _ s)).
  - by eapply (mutex_worker s (ran v s)).
  - apply (mutex_acquire s _ (Worker i)); [done|done| |done]. intros x.
    rewrite (holds_worker (set_mutex (Some (Worker i)) s) i w) by done.
    case_decide; [by destruct Hw as [[-> ->]|[-> ->]]|by destruct x].
  - by eapply mutex_worker.
  - by eapply mutex_free.
  - by eapply mutex_worker.
  - by eapply mutex_free.
  - by eapply mutex_free.
  - by eapply mutex_worker.
  - done.
  - by eapply (mutex_producer s (set_jobs _ s)).
  - by eapply (mutex_producer s (set_jobs _ s)).
  - apply (mutex_acquire s _ (Producer j)); [done|done| |done]. intros x.
    rewrite (holds_producer (set_mutex (Some (Producer j)) s) j PLock) by done. by case_decide; [|destruct x].
  - eapply (mutex_producer s (set_worker i WRelock s)); try done. intros x. rewrite (holds_worker s i WWaiting) by done.
    case_decide as Hx; [|done]. subst. by rewrite (holds_at _ _ _ Hi).
  - by eapply mutex_producer.
  - apply (mutex_release s _ (Producer j)); [done|by rewrite (holds_at_p _ _ _ Hj)| |done].
    intros x. rewrite (holds_producer (set_mutex None s) j PUnlock) by done. by case_decide; [|destruct x].
  - apply (mutex_keep s); [done| |done]. intros []; cbn; [done..|by rewrite Hd].
  - apply (mutex_acquire s _ Dtor); [done|done| |done]. intros []; cbn; done.
  - apply (mutex_release s _ Dtor); [done|cbn; by rewrite Hd| |done]. intros []; cbn; done.
  - apply (mutex_keep s); [done| |done]. intros x. pose proof (holds_notify_all s x) as E.
    destruct x; cbn in *; [done..|by rewrite Hd].
  - apply (mutex_keep s); [done| |done]. intros []; cbn; [done..|by rewrite Hd].
Qed.

(** ** Stages *)

Definition is_exit (w : worker) : bool := match w with WExit => true | _ => false end.
(** Holding the mutex on the way to [wait] or to the end. *)
Definition is_stop (w : worker) : bool := match w with WStop | WSleep => true | _ => false end.
Definition is_sleep (w : worker) : bool := match w with WSleep => true | _ => false end.
Definition is_waiting (w : worker) : bool := match w with WWaiting => true | _ => false end.
(** On its way to a [try_pop]. *)
Definition is_active (w : worker) : bool :=
  match w with WTop | WPop _ _ | WRun _ | WLock | WRecheck | WRelock | WWoken => true | _ => false end.
Definition is_pending (p : producer) : bool := match p with PClaimed _ _ | PLock => true | _ => false end.
(** Before its [notify_one]. *)
Definition is_notifying (p : producer) : bool := match p with PLock | PNotify => true | _ => false end.
Definition claims (pos : Z) (p : producer) : bool :=
  match p with PClaimed _ q => bool_decide (q = pos) | _ => false end.

Definition past_lock (d : dtor) : bool := match d with DUnlock | DNotify | DJoin | DDone => true | _ => false end.
Definition past_notify (d : dtor) : bool := match d with DJoin | DDone => true | _ => false end.

Record pool_inv (s : pool) : Prop := mk_inv {
  in_mutex : mutex_ok s;
  in_some : pool_workers s <> [];
  in_stop : pool_stopping s = negb (match pool_dtor s with DIdle => true | _ => false end);
  in_quiet : pool_stopping s = true -> Forall (eq PDone) (pool_producers s);
  in_unpub : forall n v, f_items (pool_jobs s) !! n = Some (v, false) ->
    some (claims (f_base (pool_jobs s) + Z.of_nat n)) (pool_producers s);
  in_exit : some is_exit (pool_workers s) -> pool_stopping s = true /\ f_items (pool_jobs s) = [];
  in_asleep : some is_stop (pool_workers s) ->
    f_items (pool_jobs s) = [] \/ some is_pending (pool_producers s);
  in_wake : may_be_empty (pool_jobs s) = false ->
    some is_active (pool_workers s) \/ some is_notifying (pool_producers s);
  in_awake : (past_lock (pool_dtor s) = true -> ~ some is_sleep (pool_workers s)) /\
    (past_notify (pool_dtor s) = true -> ~ some is_waiting (pool_workers s));
  in_done : pool_dtor s = DDone -> Forall (eq WExit) (pool_workers s);
}.

(** Nobody is at a point that needs the mutex. *)
Lemma free_no_stop s : mutex_ok s -> pool_mutex s = None -> ~ some is_stop (pool_workers s).
Proof.
  intros H Hn (i & w & Hi & Hw). pose proof (holds_none s (Worker i) H Hn) as Hh.
  rewrite (holds_at _ _ _ Hi) in Hh. by destruct w.
Qed.

Lemma producer_no_stop s j p :
  mutex_ok s -> pool_producers s !! j = Some p -> locks_p p = true -> ~ some is_stop (pool_workers s).
Proof.
  intros H Hj Hl (i & w & Hi & Hw).
  assert (Worker i = Producer j) by (eapply holds_unique; [done|rewrite (holds_at _ _ _ Hi); by destruct w|
    by rewrite (holds_at_p _ _ _ Hj)]). done.
Qed.

Lemma sleep_stop ws : some is_sleep ws -> some is_stop ws.
Proof. intros (i & w & Hi & Hw). exists i, w. split; [done|by destruct w]. Qed.

Lemma quiet_none s P : Forall (eq PDone) (pool_producers s) -> P PDone = false -> ~ some P (pool_producers s).
Proof.
  intros Hq Hp (j & p & Hj & E). rewrite Forall_lookup in Hq. specialize (Hq j p Hj). subst. congruence.
Qed.

(** A producer at work: the pool is not stopping. *)
Lemma busy_running s j p : pool_inv s -> pool_producers s !! j = Some p -> p <> PDone ->
  pool_stopping s = false /\ pool_dtor s = DIdle.
Proof.
  intros H Hj Hp. pose proof (in_stop _ H) as Hs. destruct (pool_stopping s) eqn:E.
  - pose proof (in_quiet _ H E) as Hq. rewrite Forall_lookup in Hq. by destruct Hp; rewrite (Hq j p Hj).
  - split; [done|]. by destruct (pool_dtor s).
Qed.

(** An empty queue, as [try_pop] sees it: some push is in progress. *)
Lemma empty_pending s : pool_inv s -> may_be_empty (pool_jobs s) = true ->
  f_items (pool_jobs s) = [] \/ some is_pending (pool_producers s).
Proof.
  intros H He. unfold may_be_empty in He. destruct (f_items (pool_jobs s)) as [|[v []] r] eqn:Ei; [by left|done|].
  right. destruct (in_unpub _ H 0 v) as (j & p & Hj & Hp); [by rewrite Ei|].
  exists j, p. split; [done|]. by destruct p.
Qed.

Definition no_claim (p : producer) : bool := match p with PClaimed _ _ => false | _ => true end.

Lemma claims_kept ps j p p' pos : ps !! j = Some p -> no_claim p = true ->
  some (claims pos) ps -> some (claims pos) (<[j := p']> ps).
Proof. intros Hj Hn. apply some_kept with p; [done|]. by destruct p. Qed.

Lemma move_unpub s s' : pool_inv s -> move s s' -> forall n v, f_items (pool_jobs s') !! n = Some (v, false) ->
  some (claims (f_base (pool_jobs s') + Z.of_nat n)) (pool_producers s').
Proof.
  intros H Hm n u. pose proof (in_unpub _ H) as Hu.
  destruct Hm as [i w lk v r Hi Hw Hr| | | | | | | | | | | |j v Hj|j v p w Hj Hp Hw|j Hj Hn|j i Hj Hi|j Hj Hno|j Hj| | | | |];
    cbn in *; try by apply Hu.
  - intros Hn. replace (f_base (pool_jobs s) + 1 + Z.of_nat n) with (f_base (pool_jobs s) + Z.of_nat (S n)) by lia.
    apply (Hu (S n) u). by rewrite Hr.
  - intros Hn. destruct (decide (n = length (f_items (pool_jobs s)))) as [->|].
    + eapply some_here; [done|]. cbn. apply bool_decide_eq_true. unfold fifo_tail. done.
    + eapply claims_kept; [done|done|]. apply (Hu n u). rewrite lookup_app_l in Hn; [done|].
      apply lookup_lt_Some in Hn. rewrite length_app in Hn. cbn in Hn. lia.
  - intros Hn. apply list_lookup_insert_Some in Hn as [(_ & [=] & _)|[Hne Hn]].
    destruct (Hu n u Hn) as (j' & p' & Hj' & Hc). exists j', p'. split; [|done].
    rewrite list_lookup_insert_ne; [done|]. intros <-. rewrite Hj in Hj'. injection Hj' as <-. cbn in Hc.
    apply bool_decide_eq_true in Hc. lia.
  - intros Hi. eapply claims_kept; [done|done|eauto].
  - intros Hn. eapply claims_kept; [done|done|eauto].
  - intros Hi. eapply claims_kept; [done|done|eauto].
  - intros Hi. eapply claims_kept; [done|done|eauto].
Qed.

Lemma move_exit s s' : pool_inv s -> move s s' -> some is_exit (pool_workers s') ->
  pool_stopping s' = true /\ f_items (pool_jobs s') = [].
Proof.
  intros H Hm. pose proof (in_exit _ H) as He.
  destruct Hm as [i w lk v r Hi Hw Hr|i Hi|i lk p v Hi Ho|i v Hi|i w w' Hi Hw Hn|i Hi He'|i Hi Hs|
    i Hi Hs|i Hi|i Hi|i Hi| |j v Hj|j v p w Hj Hp Hw|j Hj Hn|j i Hj Hi|j Hj Hno|j Hj|Hd Hall|Hd Hn|Hd|Hd|Hd Hall];
    cbn; intros Hx; try (apply some_inv in Hx as [[=]|Hx]); try (by apply He).
  - destruct (He Hx) as [? E]. by rewrite Hr in E.
  - by destruct Hw as [[-> ->]|[-> ->]].
  - split; [done|]. destruct (in_asleep _ H) as [?|Hp]; [by exists i, WStop|done|].
    by destruct (quiet_none s is_pending (in_quiet _ H Hs) eq_refl).
  - destruct (He Hx) as [Hs _]. by destruct (busy_running s j _ H Hj); congruence.
  - destruct (He Hx) as [Hs _]. by destruct (busy_running s j _ H Hj); congruence.
  - split; [done|]. by apply He.
  - apply He. unfold notify_all in Hx. cbn in Hx. apply some_map_inv in Hx as (w & Hin & Hw).
    apply list_elem_of_lookup in Hin as [i Hi]. exists i, w. split; [done|]. by destruct w.
Qed.

(** Case analysis of a move with the names the proofs below use. *)
Ltac move_cases Hm :=
  destruct Hm as [i w lk v r Hi Hw Hr|i Hi|i lk p v Hi Ho|i v Hi|i w w' Hi Hw Hn|i Hi He'|i Hi Hs|
    i Hi Hs|i Hi|i Hi|i Hi| |j v Hj|j v p w Hj Hp Hw|j Hj Hn|j i Hj Hi|j Hj Hno|j Hj|Hd Hall|Hd Hn|Hd|Hd|Hd Hall].

Lemma move_asleep s s' : pool_inv s -> move s s' -> some is_stop (pool_workers s') ->
  f_items (pool_jobs s') = [] \/ some is_pending (pool_producers s').
Proof.
  intros H Hm. pose proof (in_asleep _ H) as Ha. pose proof (in_mutex _ H) as Hx0.
  move_cases Hm; cbn; intros Hx; try (apply some_inv in Hx as [[=]|Hx]); try (by apply Ha).
  - destruct (Ha Hx) as [E|?]; [by rewrite Hr in E|by right].
  - by destruct Hw as [[-> ->]|[-> ->]].
  - by apply empty_pending.
  - apply Ha. by exists i, WStop.
  - right. by eapply some_here.
  - right. by eapply some_here.
  - by destruct (free_no_stop s Hx0 Hn).
  - by destruct (producer_no_stop s j _ Hx0 Hj eq_refl).
  - by destruct (producer_no_stop s j _ Hx0 Hj eq_refl).
  - by destruct (producer_no_stop s j _ Hx0 Hj eq_refl).
  - apply Ha. apply some_map_inv in Hx as (w & Hin & Hw).
    apply list_elem_of_lookup in Hin as [i Hi]. exists i, w. split; [done|]. by destruct w.
Qed.

(** Every worker is active when none waits, sleeps or has ended. *)
Lemma all_active s : pool_inv s -> pool_stopping s = false -> WWaiting ∉ pool_workers s ->
  ~ some is_stop (pool_workers s) -> some is_active (pool_workers s).
Proof.
  intros H Hs Hw Hstop. pose proof (in_some _ H) as Hne. destruct (pool_workers s) as [|w ws] eqn:E; [done|].
  exists 0%nat, w. split; [done|]. destruct w; try done.
  - destruct Hstop. by exists 0%nat, WStop.
  - destruct Hstop. by exists 0%nat, WSleep.
  - destruct Hw. by left.
  - destruct (in_exit _ H) as [Hs' _]; [rewrite E; by exists 0%nat, WExit|congruence].
Qed.

Lemma move_wake s s' : pool_inv s -> move s s' -> may_be_empty (pool_jobs s') = false ->
  some is_active (pool_workers s') \/ some is_notifying (pool_producers s').
Proof.
  intros H Hm. pose proof (in_wake _ H) as Hk. pose proof (in_mutex _ H) as Hx0.
  move_cases Hm; cbn; intros He; try (left; by eapply some_here); try (by apply Hk).
  - left. eapply some_here; [done|]. by destruct Hw as [[-> ->]|[-> ->]].
  - congruence.
  - destruct (Hk He); [left|by right]. by eapply some_kept.
  - destruct (Hk He); [left|by right]. by eapply some_kept.
  - destruct (Hk He); [left|by right]. by eapply some_kept.
  - destruct Hk as [Ha|Hp]; [|by left|right; by eapply some_kept].
    unfold may_be_empty in *. cbn in He. by destruct (f_items (pool_jobs s)) as [|[? []] ?].
  - right. by eapply some_here.
  - right. by eapply some_here.
  - left. apply (all_active s); [done|by destruct (busy_running s j _ H Hj)|done|].
    by apply (producer_no_stop s j _ Hx0 Hj).
  - destruct (Hk He); [by left|right]. by eapply some_kept.
  - destruct (Hk He); [left|by right]. apply some_map; [|done]. intros w Hw. by destruct w.
Qed.

Lemma move_awake s s' : pool_inv s -> move s s' ->
  (past_lock (pool_dtor s') = true -> ~ some is_sleep (pool_workers s')) /\
  (past_notify (pool_dtor s') = true -> ~ some is_waiting (pool_workers s')).
Proof.
  intros H Hm. destruct (in_awake _ H) as [Ha1 Ha2]. pose proof (in_mutex _ H) as Hx0.
  assert (forall w i, is_sleep w = false -> is_waiting w = false ->
    (past_lock (pool_dtor s) = true -> ~ some is_sleep (<[i := w]> (pool_workers s))) /\
    (past_notify (pool_dtor s) = true -> ~ some is_waiting (<[i := w]> (pool_workers s)))) as Hw0.
  { intros w i Hs Hw. split; intros Hd [?|?]%some_inv; try congruence; [by apply Ha1|by apply Ha2]. }
  move_cases Hm; cbn; try (by apply Hw0); try (by split).
  - apply Hw0; by destruct Hw as [[-> ->]|[-> ->]].
  - pose proof (in_stop _ H) as E. rewrite Hs in E. by destruct (pool_dtor s).
  - split; intros Hd [?|?]%some_inv; try done; [by apply Ha1| |by apply Ha2].
    destruct (Ha1 ltac:(by destruct (pool_dtor s))). by exists i, WSleep.
  - split; [|done]. intros _ Hsl. destruct (free_no_stop s Hx0 Hn). by apply sleep_stop.
  - rewrite Hd in *. split; [intros _; by apply Ha1|done].
  - rewrite Hd in *. split; intros _ (w & Hin & Hw)%some_map_inv; apply list_elem_of_lookup in Hin as [i Hi].
    + apply (Ha1 eq_refl). exists i, w. split; [done|]. by destruct w.
    + by destruct w.
  - rewrite Hd in *. by split.
Qed.

Lemma move_done s s' : pool_inv s -> move s s' -> pool_dtor s' = DDone -> Forall (eq WExit) (pool_workers s').
Proof.
  intros H Hm. pose proof (in_done _ H) as Hd0.
  assert (forall i w, pool_workers s !! i = Some w -> w <> WExit -> pool_dtor s <> DDone) as Hw0.
  { intros i w Hi Hw Hd. specialize (Hd0 Hd). rewrite Forall_lookup in Hd0. destruct Hw. symmetry. eauto. }
  move_cases Hm; cbn; intros Hd'; try (by apply Hd0); try (by destruct (Hw0 i _ Hi)); try done.
  all: destruct Hw as [[-> ->]|[-> ->]]; by destruct (Hw0 i _ Hi).
Qed.

Lemma pool_inv_move s s' : pool_inv s -> move s s' -> pool_inv s'.
Proof.
  intros H Hm. split.
  - eapply mutex_step; [by apply in_mutex|done].
  - pose proof (in_some _ H) as Hne. assert (length (pool_workers s') = length (pool_workers s)) as Hl.
    { destruct Hm; cbn; by rewrite ?length_insert, ?length_map. }
    by destruct (pool_workers s), (pool_workers s').
  - pose proof (in_stop _ H) as Es. move_cases Hm; cbn; try done; by rewrite Es, Hd.
  - pose proof (in_quiet _ H) as Hq. destruct (pool_stopping s) eqn:E.
    + specialize (Hq eq_refl). intros _.
      assert (forall j p, pool_producers s !! j = Some p -> p = PDone) as Hp0.
      { intros j p Hj. rewrite Forall_lookup in Hq. symmetry. eauto. }
      move_cases Hm; cbn; try done; by specialize (Hp0 _ _ Hj).
    + move_cases Hm; cbn; congruence || done.
  - by eapply move_unpub.
  - by eapply move_exit.
  - by eapply move_asleep.
  - by eapply move_wake.
  - by eapply move_awake.
  - by eapply move_done.
Qed.

Lemma pool_inv_new n jobs : pool_inv (pool_new n jobs).
Proof.
  set (m := if (n =? 0)%nat then 1%nat else n). assert (m <> 0)%nat as Hm.
  { unfold m. destruct (Nat.eqb_spec n 0); lia. }
  assert (forall P, P WTop = false -> ~ some P (replicate m WTop)) as Hno.
  { intros P HP (i & w & Hi & Hw). apply lookup_replicate_1 in Hi as [-> _]. congruence. }
  split; unfold pool_new; fold m; cbn; try done.
  - intros [i|j|]; cbn; split; try done.
    + destruct (replicate m WTop !! i) as [w|] eqn:E; [|done]. by apply lookup_replicate_1 in E as [-> _].
    + change (map PPush jobs) with (PPush <$> jobs). rewrite list_lookup_fmap. by destruct (jobs !! j).
  - by destruct m.
  - intros Hx. by destruct (Hno is_exit eq_refl).
  - intros Hx. by destruct (Hno is_stop eq_refl).
Qed.

Lemma pool_inv_reach n jobs s : pool_reach (pool_new n jobs) s -> pool_inv s.
Proof.
  apply pool_reach_ind'; [apply pool_inv_new|]. intros s1 s2 H Hs. eapply pool_inv_move; [done|by apply step_moves].
Qed.

(** ** Where the jobs are *)

Definition push_job (p : producer) : option nat := match p with PPush v => Some v | _ => None end.
Definition run_job (w : worker) : option nat := match w with WRun v => Some v | _ => None end.

Definition all_jobs (s : pool) : list nat :=
  omap push_job (pool_producers s) ++ map fst (f_items (pool_jobs s)) ++
  map snd (map_to_list (f_owed (pool_jobs s))) ++ omap run_job (pool_workers s) ++ pool_ran s.

Lemma omap_insert_perm {A B} (f : A -> option B) (l : list A) i x x' :
  l !! i = Some x -> option_list (f x) ++ omap f (<[i := x']> l) ≡ₚ option_list (f x') ++ omap f l.
Proof.
  intros Hi. rewrite <-(take_drop_middle l i x Hi) at 2. rewrite insert_take_drop by (by eapply lookup_lt_Some).
  rewrite !omap_app. cbn. destruct (f x), (f x'); cbn; solve_Permutation.
Qed.

Lemma omap_insert_same {A B} (f : A -> option B) (l : list A) i x x' :
  l !! i = Some x -> f x = f x' -> omap f (<[i := x']> l) = omap f l.
Proof.
  intros Hi Hf. rewrite <-(take_drop_middle l i x Hi) at 2. rewrite insert_take_drop by (by eapply lookup_lt_Some).
  rewrite !omap_app. cbn. by rewrite Hf.
Qed.

Definition pops (p : Z) (w : worker) : bool := match w with WPop _ q => bool_decide (q = p) | _ => false end.

(** The items owed are those of the workers inside a [try_pop]. *)
Record owed_inv (s : pool) : Prop := mk_owed {
  ow_pop : forall p v, f_owed (pool_jobs s) !! p = Some v -> p < f_base (pool_jobs s) /\ some (pops p) (pool_workers s);
  ow_owed : forall i lk p, pool_workers s !! i = Some (WPop lk p) -> is_Some (f_owed (pool_jobs s) !! p);
  ow_unique : forall i i' lk lk' p,
    pool_workers s !! i = Some (WPop lk p) -> pool_workers s !! i' = Some (WPop lk' p) -> i = i';
}.

Definition no_pop (w : worker) : bool := match w with WPop _ _ => false | _ => true end.

(** A worker outside [try_pop] moves outside it. *)
Lemma owed_worker s s' i w w' : owed_inv s -> pool_workers s !! i = Some w -> pool_jobs s' = pool_jobs s ->
  pool_workers s' = <[i := w']> (pool_workers s) -> no_pop w = true -> no_pop w' = true -> owed_inv s'.
Proof.
  intros [H1 H2 H3] Hi Ej Ew Hw Hw'. rewrite <-Ej in H1, H2.
  assert (forall k lk p, pool_workers s' !! k = Some (WPop lk p) -> pool_workers s !! k = Some (WPop lk p)) as Hback.
  { intros k lk p. rewrite Ew. intros [(-> & -> & _)|[_ Hk]]%list_lookup_insert_Some; done. }
  split; [|by intros; eapply H2, Hback|].
  - intros p v Hp. destruct (H1 p v Hp) as [? Hs]. split; [done|]. rewrite Ew. eapply some_kept; [done| |done]. by destruct w.
  - intros k k' lk lk' p Hk Hk'. eapply H3; by eapply Hback.
Qed.

Lemma owed_same s s' : owed_inv s -> f_owed (pool_jobs s') = f_owed (pool_jobs s) ->
  f_base (pool_jobs s') = f_base (pool_jobs s) -> pool_workers s' = pool_workers s -> owed_inv s'.
Proof. intros [H1 H2 H3] E1 E2 E3. split; rewrite ?E1, ?E2, ?E3; done. Qed.

Lemma owed_take s i w lk v r : owed_inv s -> pool_workers s !! i = Some w -> no_pop w = true ->
  owed_inv (set_worker i (WPop lk (f_base (pool_jobs s)))
    (set_jobs (mk_fifo (f_base (pool_jobs s) + 1) r (<[f_base (pool_jobs s) := v]> (f_owed (pool_jobs s)))) s)).
Proof.
  intros [H1 H2 H3] Hi Hw. set (b := f_base (pool_jobs s)) in *.
  assert (f_owed (pool_jobs s) !! b = None) as Hb.
  { destruct (f_owed (pool_jobs s) !! b) as [u|] eqn:E; [|done]. destruct (H1 b u E). lia. }
  assert (forall k lk' p, pool_workers s !! k = Some (WPop lk' p) -> p <> b) as Hne.
  { intros k lk' p Hk ->. destruct (H2 k lk' b Hk). congruence. }
  split; cbn.
  - intros p u. rewrite lookup_insert_Some. intros [[<- <-]|[? Hp]].
    + split; [lia|]. eapply some_here; [done|]. cbn. by apply bool_decide_eq_true.
    + destruct (H1 p u Hp) as [? Hs]. split; [lia|]. eapply some_kept; [done| |done]. by destruct w.
  - intros k lk' p [(-> & [= -> ->] & _)|[_ Hk]]%list_lookup_insert_Some; [by rewrite lookup_insert_eq|].
    rewrite lookup_insert_ne by (symmetry; by eapply Hne). by eapply H2.
  - intros k k' l l' p [(-> & [= -> ->] & _)|[_ Hk]]%list_lookup_insert_Some
      [(-> & E & _)|[_ Hk']]%list_lookup_insert_Some; [done| | |by eapply H3].
    + by destruct (Hne _ _ _ Hk').
    + injection E as -> ->. by destruct (Hne _ _ _ Hk).
Qed.

Lemma owed_popped s i lk p v m : owed_inv s -> pool_workers s !! i = Some (WPop lk p) ->
  owed_inv (set_mutex m (set_worker i (WRun v)
    (set_jobs (mk_fifo (f_base (pool_jobs s)) (f_items (pool_jobs s)) (delete p (f_owed (pool_jobs s)))) s))).
Proof.
  intros [H1 H2 H3] Hi. split; cbn.
  - intros q u [Hne Hq]%lookup_delete_Some. destruct (H1 q u Hq) as [? Hs]. split; [done|].
    eapply some_kept; [done| |done]. cbn. intros ?%bool_decide_eq_true. congruence.
  - intros k lk' q [(_ & [=] & _)|[Hne Hk]]%list_lookup_insert_Some. destruct (decide (p = q)) as [<-|].
    + destruct Hne. by eapply H3.
    + rewrite lookup_delete_ne by done. by eapply H2.
  - intros k k' l l' q [(_ & [=] & _)|[_ Hk]]%list_lookup_insert_Some
      [(_ & [=] & _)|[_ Hk']]%list_lookup_insert_Some. by eapply H3.
Qed.

Lemma owed_move s s' : owed_inv s -> move s s' -> owed_inv s'.
Proof.
  intros H Hm. move_cases Hm; try (by eapply owed_worker); try (by eapply owed_same).
  - apply (owed_take s i w lk v r); [done|done|]. by destruct Hw as [[-> _]|[-> _]].
  - by eapply owed_popped.
  - eapply (owed_worker s _ i w w'); try done; by destruct Hw as [[-> ->]|[-> ->]].
  - destruct H as [H1 H2 H3].
    assert (forall k lk p, pool_workers (notify_all s) !! k = Some (WPop lk p) ->
      pool_workers s !! k = Some (WPop lk p)) as Hback.
    { intros k lk p. cbn. change (map ?f ?l) with (f <$> l). rewrite list_lookup_fmap.
      destruct (pool_workers s !! k) as [w|]; cbn; [|done]. by case_bool_decide. }
    split; cbn -[notify_all].
    + intros p v Hp. destruct (H1 p v Hp) as [? Hs]. split; [done|]. apply some_map; [|done]. intros w Hw. by destruct w.
    + intros k lk p Hk. eapply H2. by apply Hback.
    + intros k k' l l' p Hk Hk'. eapply H3; by apply Hback.
Qed.

Lemma jobs_move s s' : owed_inv s -> move s s' -> all_jobs s' ≡ₚ all_jobs s.
Proof.
  intros H Hm. unfold all_jobs. move_cases Hm; cbn; try done;
    try (rewrite (omap_insert_same run_job _ _ _ _ Hi) by done);
    try (rewrite (omap_insert_same push_job _ _ _ _ Hj) by done); try done.
  - assert (f_owed (pool_jobs s) !! f_base (pool_jobs s) = None) as Hb.
    { destruct (f_owed (pool_jobs s) !! f_base (pool_jobs s)) as [u|] eqn:E; [|done]. destruct (ow_pop _ H _ _ E). lia. }
    rewrite (omap_insert_same run_job _ _ w) by (done || by destruct Hw as [[-> _]|[-> _]]).
    rewrite map_to_list_insert by done. rewrite Hr. cbn. solve_Permutation.
  - pose proof (omap_insert_perm run_job _ _ _ (WRun v) Hi) as Hp. cbn in Hp. rewrite Hp.
    rewrite <-(map_to_list_delete (f_owed (pool_jobs s)) p v Ho). cbn. solve_Permutation.
  - pose proof (omap_insert_perm run_job _ _ _ WTop Hi) as Hp. cbn in Hp. rewrite <-Hp. solve_Permutation.
  - rewrite (omap_insert_same run_job _ _ w) by (done || by destruct Hw as [[-> ->]|[-> ->]]). done.
  - pose proof (omap_insert_perm push_job _ _ _ (PClaimed v (fifo_tail (pool_jobs s))) Hj) as Hp. cbn in Hp.
    rewrite <-Hp. rewrite map_app. cbn. solve_Permutation.
  - change (map fst ?l) with (fst <$> l). rewrite list_fmap_insert, list_insert_id; [done|].
    by rewrite list_lookup_fmap, Hw.
  - replace (omap run_job (map _ (pool_workers s))) with (omap run_job (pool_workers s)); [done|].
    induction (pool_workers s) as [|w ws IH]; [done|]. cbn. rewrite IH. by case_bool_decide as E; [rewrite E|].
Qed.

Lemma all_jobs_reach n jobs s : pool_reach (pool_new n jobs) s -> owed_inv s /\ all_jobs s ≡ₚ jobs.
Proof.
  revert s. apply (pool_reach_ind' (fun s => owed_inv s /\ all_jobs s ≡ₚ jobs)).
  - assert (forall m, omap run_job (replicate m WTop) = []) as Hr by (intros m; induction m; done). split.
    + split; unfold pool_new; cbn.
      * intros p v. by rewrite lookup_empty.
      * intros i lk p Hi. by apply lookup_replicate_1 in Hi as [? _].
      * intros i i' lk lk' p Hi. by apply lookup_replicate_1 in Hi as [? _].
    + unfold all_jobs, pool_new. cbn. rewrite map_to_list_empty, Hr. cbn. rewrite app_nil_r.
      induction jobs as [|v r IH]; [done|]. cbn. by rewrite IH.
  - intros s1 s2 [Ho Hj] Hs%step_moves. split; [by eapply owed_move|]. by rewrite (jobs_move _ _ Ho Hs).
Qed.

(** ** What the pool promises *)

(** C23: The pool loses no wakeup: whenever the oldest job is complete, some worker is on its way
    to a try_pop or some producer is still before its notify_one, so a job is never left to
    workers that all sleep. *)
Theorem pool_no_lost_wakeup n jobs s :
  pool_reach (pool_new n jobs) s -> may_be_empty (pool_jobs s) = false ->
  (exists i w, pool_workers s !! i = Some w /\ is_active w = true) \/
  (exists j p, pool_producers s !! j = Some p /\ is_notifying p = true).
Proof. intros Hr He. exact (in_wake _ (pool_inv_reach _ _ _ Hr) He). Qed.

(** Neither inside a pop nor running a job. *)
Definition idle (w : worker) : bool := match w with WPop _ _ | WRun _ => false | _ => true end.

(** With every [enqueue] over, the queue empty and the workers idle, every job has run. *)
Lemma quiet_ran n jobs s :
  pool_reach (pool_new n jobs) s -> Forall (eq PDone) (pool_producers s) -> f_items (pool_jobs s) = [] ->
  Forall (fun w => idle w = true) (pool_workers s) -> pool_ran s ≡ₚ jobs.
Proof.
  intros Hr Hq Hi Hall. destruct (all_jobs_reach _ _ _ Hr) as [Ho Hj].
  assert (f_owed (pool_jobs s) = ∅) as Ho'.
  { apply map_empty. intros p. destruct (f_owed (pool_jobs s) !! p) as [v|] eqn:E; [|done].
    destruct (ow_pop _ Ho p v E) as [_ (i & w & Hw & Hp)]. rewrite Forall_lookup in Hall.
    pose proof (Hall i w Hw). by destruct w. }
  assert (omap push_job (pool_producers s) = []) as Hp by (induction Hq as [|p ps <- _ IH]; [done|exact IH]).
  assert (omap run_job (pool_workers s) = []) as Hw.
  { clear -Hall. induction Hall as [|w ws Hw _ IH]; [done|]. by destruct w. }
  unfold all_jobs in Hj. by rewrite Hi, Ho', Hp, Hw, map_to_list_empty in Hj.
Qed.

(** C22: When the destructor of the thread pool returns, the jobs that have run are exactly the
    jobs enqueued, each once, for every schedule of workers, producers, notifications and
    spurious wakeups. *)
Theorem pool_runs_every_job n jobs s :
  pool_reach (pool_new n jobs) s -> pool_dtor s = DDone -> pool_ran s ≡ₚ jobs.
Proof.
  intros Hr Hd. pose proof (pool_inv_reach _ _ _ Hr) as H.
  pose proof (in_done _ H Hd) as Hall. pose proof (in_some _ H) as Hne.
  assert (pool_stopping s = true) as Hs by (rewrite (in_stop _ H); by rewrite Hd).
  apply (quiet_ran n jobs s Hr (in_quiet _ H Hs)).
  - apply (in_exit _ H). destruct (pool_workers s) as [|w ws]; [done|]. exists 0%nat, w. split; [done|].
    apply Forall_inv in Hall. by subst.
  - eapply Forall_impl; [exact Hall|]. by intros w <-.
Qed.

(** With every [enqueue] over and the workers asleep, too. *)
Lemma asleep_ran n jobs s :
  pool_reach (pool_new n jobs) s -> Forall (eq PDone) (pool_producers s) ->
  Forall (eq WWaiting) (pool_workers s) -> pool_ran s ≡ₚ jobs.
Proof.
  intros Hr Hq Hall. pose proof (pool_inv_reach _ _ _ Hr) as H.
  assert (forall P, P WWaiting = false -> ~ some P (pool_workers s)) as Hw.
  { intros P HP (i & w & Hi & Hp). rewrite Forall_lookup in Hall. rewrite <-(Hall i w Hi) in Hp. congruence. }
  apply (quiet_ran n jobs s Hr Hq).
  - destruct (may_be_empty (pool_jobs s)) eqn:He.
    + destruct (empty_pending s H He) as [?|Hp]; [done|]. by apply (quiet_none s is_pending Hq) in Hp.
    + destruct (in_wake _ H He) as [Hp|Hp]; [by apply Hw in Hp|by apply (quiet_none s is_notifying Hq) in Hp].
  - eapply Forall_impl; [exact Hall|]. by intros w <-.
Qed.

(** The holder of the mutex can go on. *)
Lemma holder_steps s x : pool_inv s -> owed_inv s -> pool_mutex s = Some x -> exists c s', pool_step x c s = Some s'.
Proof.
  intros H Ho Hx. apply (in_mutex _ H) in Hx. destruct x as [i|j|]; cbn in *.
  - exists (mk_choice false 0). unfold worker_step. destruct (pool_workers s !! i) as [w|] eqn:E; [|done].
    cbn [mbind option_bind]. destruct w as [|[] p|job| | | | | | | |]; try done; eauto.
    + destruct (ow_owed _ Ho _ _ _ E) as [v Hv]. rewrite Hv. cbn. rewrite bool_decide_eq_true_2 by done. cbn. eauto.
    + destruct (try_pop i (pool_jobs s)) as [[]|]; eauto.
    + destruct (pool_stopping s); eauto.
  - unfold producer_step. destruct (pool_producers s !! j) as [p|] eqn:E; [|done]. cbn [mbind option_bind].
    destruct p; try done.
    + destruct (decide (WWaiting ∈ pool_workers s)) as [Hin|Hni].
      * apply list_elem_of_lookup in Hin as [i Hi]. exists (mk_choice false i). unfold notify_one. cbn.
        rewrite Hi. cbn. eauto.
      * exists (mk_choice false (length (pool_workers s))). unfold notify_one. cbn. rewrite lookup_ge_None_2 by lia.
        destruct (existsb _ _) eqn:Ex; [|cbn; eauto]. apply existsb_exists in Ex as (w & Hin & Hw).
        apply bool_decide_eq_true in Hw as ->. by apply list_elem_of_In in Hin.
    + exists (mk_choice false 0). eauto.
  - exists (mk_choice false 0). unfold dtor_step. destruct (pool_dtor s); try done. eauto.
Qed.

(** Shutting the pool down cannot deadlock: from the moment the destructor has set stopping_ until
    it returns, some thread can take a step that is not a spurious wakeup. *)
Lemma pool_shutdown_progress n jobs s :
  pool_reach (pool_new n jobs) s -> pool_stopping s = true -> pool_dtor s <> DDone ->
  exists x c s', pool_step x c s = Some s'.
Proof.
  intros Hr Hs Hd. pose proof (pool_inv_reach _ _ _ Hr) as H. destruct (all_jobs_reach _ _ _ Hr) as [Ho _].
  destruct (pool_mutex s) as [x|] eqn:Em.
  { destruct (holder_steps s x H Ho Em) as (c & s' & E). eauto. }
  pose proof (in_stop _ H) as E. rewrite Hs in E.
  destruct (pool_dtor s) eqn:Ed; try done.
  - exists Dtor, (mk_choice false 0). cbn. unfold dtor_step, acquire. rewrite Ed, Em. cbn. eauto.
  - exists Dtor, (mk_choice false 0). cbn. unfold dtor_step. rewrite Ed. eauto.
  - exists Dtor, (mk_choice false 0). cbn. unfold dtor_step. rewrite Ed. eauto.
  - destruct (forallb (fun w => bool_decide (w = WExit)) (pool_workers s)) eqn:Ef.
    { exists Dtor, (mk_choice false 0). cbn. unfold dtor_step. rewrite Ed, Ef. eauto. }
    assert (exists i w, pool_workers s !! i = Some w /\ w <> WExit) as (i & w & Hi & Hw).
    { clear -Ef. induction (pool_workers s) as [|w ws IH]; [done|]. cbn in Ef.
      apply andb_false_iff in Ef as [Ef|Ef]; [exists 0%nat, w; split; [done|by apply bool_decide_eq_false in Ef]|].
      destruct (IH Ef) as (i & x & Hi & Hx). by exists (S i), x. }
    exists (Worker i), (mk_choice false 0). cbn. unfold worker_step, acquire. rewrite Hi, Em. cbn [mbind option_bind].
    pose proof (holds_none s (Worker i) (in_mutex _ H) Em) as Hh. rewrite (holds_at _ _ _ Hi) in Hh.
    destruct (in_awake _ H) as [_ Hwt]. rewrite Ed in Hwt.
    destruct w as [|[] p|job| | | | | | | |]; try done; eauto.
    + destruct (try_pop i (pool_jobs s)) as [[]|]; eauto.
    + destruct (ow_owed _ Ho _ _ _ Hi) as [v Hv]. rewrite Hv. cbn. rewrite bool_decide_eq_true_2 by done. cbn. eauto.
    + destruct (Hwt eq_refl). by exists i, WWaiting.
Qed.

(** ** Runs *)

Fixpoint pool_run (sched : list who) (s : pool) : option pool :=
  match sched with
  | [] => Some s
  | x :: r => s1 ← pool_step x (mk_choice false 0) s; pool_run r s1
  end.

Lemma pool_run_reach sched s0 s s' : pool_reach s0 s -> pool_run sched s = Some s' -> pool_reach s0 s'.
Proof.
  revert s. induction sched as [|x r IH]; intros s Hr; cbn [pool_run]; [by intros [= <-]|].
  destruct (pool_step x (mk_choice false 0) s) as [s1|] eqn:E; [|done]. cbn [mbind option_bind].
  apply IH. by eapply pool_go.
Qed.

(** One worker, one job: the worker sleeps, the job arrives, the pool ends. *)
Definition asleep : list who := replicate 5 (Worker 0).
Definition arrived : list who := asleep ++ replicate 2 (Producer 0).
Definition stopping : list who := arrived ++ replicate 3 (Producer 0) ++ [Dtor].
Definition ended : list who := stopping ++ replicate 3 Dtor ++ replicate 9 (Worker 0) ++ [Dtor].

Definition demo_pool (sched : list who) : pool := default (pool_new 1 [7%nat]) (pool_run sched (pool_new 1 [7%nat])).

Lemma demo_pool_reach sched : pool_reach (pool_new 1 [7%nat]) (demo_pool sched).
Proof.
  unfold demo_pool. destruct (pool_run sched _) as [s|] eqn:E; [|constructor].
  by eapply pool_run_reach; [constructor|].
Qed.

Lemma pool_no_lost_wakeup_witness :
  pool_workers (demo_pool arrived) = [WWaiting] /\
  exists j p, pool_producers (demo_pool arrived) !! j = Some p /\ is_notifying p = true.
Proof.
  assert (pool_workers (demo_pool arrived) = [WWaiting]) as Hw by (vm_compute; reflexivity). split; [exact Hw|].
  destruct (pool_no_lost_wakeup 1 [7%nat] (demo_pool arrived) (demo_pool_reach arrived)) as [(i & w & Hi & Ha)|Hp].
  - vm_compute. reflexivity.
  - rewrite Hw in Hi. destruct i as [|[|i]]; [injection Hi as <-|..]; discriminate.
  - exact Hp.
Defined.

Lemma pool_runs_every_job_witness : pool_dtor (demo_pool ended) = DDone /\ pool_ran (demo_pool ended) ≡ₚ [7%nat].
Proof.
  assert (pool_dtor (demo_pool ended) = DDone) as Hd by (vm_compute; reflexivity). split; [exact Hd|].
  exact (pool_runs_every_job 1 [7%nat] (demo_pool ended) (demo_pool_reach ended) Hd).
Defined.

Lemma pool_shutdown_progress_witness :
  pool_stopping (demo_pool stopping) = true /\ exists x c s', pool_step x c (demo_pool stopping) = Some s'.
Proof.
  assert (pool_stopping (demo_pool stopping) = true) as Hs by (vm_compute; reflexivity). split; [exact Hs|].
  apply (pool_shutdown_progress 1 [7%nat] (demo_pool stopping) (demo_pool_reach stopping) Hs).
  vm_compute. discriminate.
Defined.
