(* ===== verification/Plugin.v ===== *)
(** * Plugin: src/plugin/plugin_scope.cpp and plugin_manager.cpp

    A plugin's hooks around the server's life and around the requests of the
    routes it is attached to.  A hook changes the request (and the rest of the
    program's state, [S]) and may throw: it returns the exception, if any,
    with the new state. *)

From S2P Require Import Prelude Bytes Method Route RouteFacts Group.

Section Plugin.
Context {S R E : Type}.

Inductive outcome := Returned (r : R) | Threw (e : E).

Record plugin := mk_plugin {
  on_init : S -> option E * S;
  on_deinit : S -> option E * S;
  on_begin : S -> option E * S;
  on_end : S -> option E * S;
}.

(** [plugin_scope::handle]. *)
Definition plugin_scope_handle (p : plugin) : @middleware S (outcome * S) := fun req next =>
  let '(e, req) := on_begin p req in
  match e with
  | Some e => (Threw e, req)
  | None =>
      let '(o, req) := next req in
      let '(eptr, result) := match o with Threw e => (Some e, None) | Returned r => (None, Some r) end in
      let '(e2, req) := on_end p req in
      let eptr := match eptr with None => e2 | Some _ => eptr end in
      match eptr, result with
      | Some e, _ => (Threw e, req)
      | None, Some r => (Returned r, req)
      | None, None => next req
      end
  end.

(** ** plugin_manager *)

(** [attach]. *)
Definition attach (p : plugin) (plugins : list plugin) : list plugin := plugins ++ [p].

(** The hooks one after the other, up to the first that throws. *)
Fixpoint run_hooks (hooks : list (S -> option E * S)) (s : S) : option E * S :=
  match hooks with
  | [] => (None, s)
  | h :: r => let '(e, s) := h s in match e with Some e => (Some e, s) | None => run_hooks r s end
  end.

(** The end of a call that may end the process. *)
Inductive ended := Completed (s : S) | Terminated.

(** [run_on_fresh_context].  [sync_wait] rethrows what the body threw, and the
    unwinding destroys [runner], a thread that has not been joined: its
    destructor calls [std::terminate]. *)
Definition run_on_fresh_context (body : S -> option E * S) (s : S) : ended :=
  match body s with
  | (None, s) => Completed s
  | (Some _, _) => Terminated
  end.

Definition init_all (plugins : list plugin) (s : S) : ended :=
  match plugins with
  | [] => Completed s
  | _ => run_on_fresh_context (run_hooks (map on_init plugins)) s
  end.

Definition deinit_all (plugins : list plugin) (s : S) : ended :=
  match plugins with
  | [] => Completed s
  | _ => run_on_fresh_context (run_hooks (map on_deinit (rev plugins))) s
  end.
End Plugin.
Arguments outcome : clear implicits.
Arguments plugin : clear implicits.
Arguments ended : clear implicits.

(** ** Hooks with a record of their calls *)

Inductive hook := HInit (i : nat) | HDeinit (i : nat) | HBegin (i : nat) | HEnd (i : nat) | HTarget.

Section Logged.
Context {S R E : Type}.

Definition log_call {A} (h : hook) (f : S -> A * S) : S * list hook -> A * (S * list hook) :=
  fun '(s, log) => let '(a, s') := f s in (a, (s', log ++ [h])).

(** Plugin number [i]. *)
Definition logged (i : nat) (p : plugin S E) : plugin (S * list hook) E :=
  mk_plugin (log_call (HInit i) (on_init p)) (log_call (HDeinit i) (on_deinit p))
    (log_call (HBegin i) (on_begin p)) (log_call (HEnd i) (on_end p)).

Definition logged_from (n : nat) (ps : list (plugin S E)) : list (plugin (S * list hook) E) :=
  imap (fun i p => logged (n + i) p) ps.

Definition scopes (n : nat) (ps : list (plugin S E)) : list (@middleware (S * list hook) (outcome R E * (S * list hook))) :=
  map plugin_scope_handle (logged_from n ps).

(** The calls of [n] scopes when [k] of their [on_begin] return. *)
Definition calls (n0 n k : nat) : list hook :=
  map HBegin (seq n0 (Nat.min (k + 1) n)) ++ (if (k =? n)%nat then [HTarget] else []) ++
  map HEnd (rev (seq n0 k)).

Lemma logged_from_cons n p (ps : list (plugin S E)) :
  logged_from n (p :: ps) = logged n p :: logged_from (n + 1) ps.
Proof.
  unfold logged_from. cbn. rewrite Nat.add_0_r. f_equal. apply imap_ext. intros i q _. cbn. f_equal. lia.
Qed.

Lemma calls_cons n0 n k : calls n0 (n + 1) (k + 1) = HBegin n0 :: calls (n0 + 1) n k ++ [HEnd n0].
Proof.
  unfold calls. replace (Nat.min (k + 1 + 1) (n + 1)) with (Datatypes.S (Nat.min (k + 1) n)) by lia. cbn [seq map app].
  replace (k + 1 =? n + 1)%nat with (k =? n)%nat by (destruct (Nat.eqb_spec k n), (Nat.eqb_spec (k + 1) (n + 1)); lia).
  rewrite (Nat.add_1_r k) at 2. cbn [seq rev]. rewrite map_app. cbn [map].
  rewrite (Nat.add_1_r n0). by rewrite <-!app_assoc.
Qed.

(** What plugin scopes promise: the scopes are opened from the outside in, until
    one [on_begin] throws; the handler runs when none did; those opened are
    closed from the inside out. *)
Fixpoint open_scopes (ps : list (plugin S E)) (s : S) : nat * option E * S :=
  match ps with
  | [] => (0%nat, None, s)
  | p :: ps =>
      let '(e, s) := on_begin p s in
      match e with
      | Some e => (0%nat, Some e, s)
      | None => let '(k, e, s) := open_scopes ps s in (Datatypes.S k, e, s)
      end
  end.

(** [on_end]'s exception is reported only when nothing was thrown before. *)
Definition close_scope (p : plugin S E) (os : outcome R E * S) : outcome R E * S :=
  let '(e, s) := on_end p os.2 in
  (match os.1, e with Returned _, Some e => Threw e | o, _ => o end, s).

Definition bracketed (ps : list (plugin S E)) (t : @target S (outcome R E * S)) (s : S) : nat * (outcome R E * S) :=
  let '(k, e, s) := open_scopes ps s in
  (k, foldr close_scope (match e with Some e => (Threw e, s) | None => t s end) (take k ps)).

Lemma scope_calls n (ps : list (plugin S E)) (t : @target S (outcome R E * S)) (s0 : S) log :
  compose (scopes n ps) (log_call HTarget t) (s0, log) =
  let '(k, (o, s)) := bracketed ps t s0 in (o, (s, log ++ calls n (length ps) k)).
Proof.
  revert n s0 log. induction ps as [|q ps IH]; intros n s0 log; unfold bracketed; cbn [open_scopes].
  - cbn. by destruct (t s0).
  - unfold scopes. rewrite logged_from_cons. cbn [map compose foldr]. unfold plugin_scope_handle at 1.
    cbn [on_begin on_end logged]. unfold log_call at 1. destruct (on_begin q s0) as [[e|] s1] eqn:Eb; [done|].
    specialize (IH (n + 1)%nat s1 (log ++ [HBegin n])). unfold scopes, compose, bracketed in IH. rewrite IH. clear IH.
    destruct (open_scopes ps s1) as [[k e] s2]. cbn [take foldr length].
    destruct (foldr close_scope _ (take k ps)) as [o s3]. unfold close_scope. cbn [fst snd].
    rewrite <-(Nat.add_1_r (length ps)), <-(Nat.add_1_r k), calls_cons. unfold log_call.
    destruct (on_end q s3) as [e2 s4]. rewrite <-!app_assoc. by destruct o, e2.
Qed.

(** C27: Plugin scopes nest like brackets whatever throws: every on_begin is called from the
    outside in up to the first that throws, and the target runs exactly when none did; the
    plugins whose on_begin returned, and only they, get their on_end, once each and in reverse
    order, on the state left by what ran inside; and the request ends with the first exception
    thrown (by an on_begin, the target or, if those returned, the innermost failing on_end),
    or with the target's response when there is none. *)
Theorem plugin_hooks_bracketed (ps : list (plugin S E)) (t : @target S (outcome R E * S)) (s0 : S) :
  stack_handle (scopes 0 ps) (log_call HTarget t) (s0, []) =
  let '(k, (o, s)) := bracketed ps t s0 in (o, (s, calls 0 (length ps) k)).
Proof. rewrite stack_handle_compose. exact (scope_calls 0 ps t s0 []). Qed.
End Logged.

(** ** Whose exception the caller sees *)
Section Errors.
Context {S R E : Type}.

(** Whose exception a plugin scope reports: once on_begin has returned, the handler's own
    exception always wins, on_end's is reported only when the handler succeeded, and on_end
    has run on the handler's state in every case. *)
Lemma plugin_scope_first_error (p : plugin S E) (next : S -> outcome R E * S) req :
  (on_begin p req).1 = None ->
  plugin_scope_handle p req next =
    let '(o, req2) := next (on_begin p req).2 in
    (match o, (on_end p req2).1 with Returned _, Some e => Threw e | _, _ => o end, (on_end p req2).2).
Proof.
  unfold plugin_scope_handle. destruct (on_begin p req) as [b req1]. cbn. intros ->.
  destruct (next req1) as [o req2]. destruct (on_end p req2) as [e2 req3]. by destruct o, e2.
Qed.
End Errors.

(** ** The server's life *)
Section Life.
Context {S E : Type}.

Definition quiet (h : S -> option E * S) : Prop := forall s, (h s).1 = None.

Lemma run_hooks_quiet (hs : list (hook * (S -> option E * S))) (s : S) log :
  Forall (fun h => quiet h.2) hs ->
  exists s', run_hooks (map (fun h => log_call h.1 h.2) hs) (s, log) = (None, (s', log ++ map fst hs)).
Proof.
  intros Hq. revert s log. induction Hq as [|[h f] hs Hf _ IH]; intros s log.
  - exists s. by rewrite app_nil_r.
  - cbn. specialize (Hf s). cbn in Hf. destruct (f s) as [e s1]. cbn in Hf. subst e.
    destruct (IH s1 (log ++ [h])) as [s2 Hs2]. exists s2. rewrite Hs2. by rewrite <-app_assoc.
Qed.

(** The hooks of [f] over the numbered plugins. *)
Lemma logged_hooks n (ps : list (plugin S E)) (H : nat -> hook) (f : plugin S E -> S -> option E * S)
    (g : plugin (S * list hook) E -> S * list hook -> option E * (S * list hook)) :
  (forall i p, g (logged i p) = log_call (H i) (f p)) ->
  map g (logged_from n ps) = map (fun h => log_call h.1 h.2) (zip (map H (seq n (length ps))) (map f ps)).
Proof.
  intros Hg. revert n. induction ps as [|p ps IH]; intros n; [done|].
  rewrite logged_from_cons. cbn [map length seq zip zip_with]. rewrite Hg. f_equal.
  rewrite IH. by rewrite Nat.add_1_r.
Qed.

Lemma quiet_zip (hs : list hook) (fs : list (S -> option E * S)) :
  Forall quiet fs -> Forall (fun h => quiet h.2) (zip hs fs).
Proof. intros Hf. revert hs. induction Hf; intros [|h hs]; constructor; auto. Qed.

Lemma fst_zip {A B} (l : list A) (k : list B) : length l = length k -> map fst (zip l k) = l.
Proof. revert k. induction l as [|x l IH]; intros [|y k]; cbn; intros Hl; [done..|]. rewrite IH; [done|lia]. Qed.

Lemma init_all_hooks {T} (ps : list (plugin T E)) s :
  init_all ps s = run_on_fresh_context (run_hooks (map on_init ps)) s.
Proof. by destruct ps. Qed.
Lemma deinit_all_hooks {T} (ps : list (plugin T E)) s :
  deinit_all ps s = run_on_fresh_context (run_hooks (map on_deinit (rev ps))) s.
Proof. by destruct ps. Qed.

(** Hooks that do not throw: on_init runs in the order of attachment, on_deinit in the reverse
    order. *)
Lemma plugins_init_in_order (ps : list (plugin S E)) (s : S) :
  Forall (fun p => quiet (on_init p)) ps -> Forall (fun p => quiet (on_deinit p)) ps ->
  exists s1 s2,
    init_all (logged_from 0 ps) (s, []) = Completed (s1, map HInit (seq 0 (length ps))) /\
    deinit_all (logged_from 0 ps) (s1, []) = Completed (s2, map HDeinit (rev (seq 0 (length ps)))).
Proof.
  intros Hi Hd. setoid_rewrite init_all_hooks. setoid_rewrite deinit_all_hooks. unfold run_on_fresh_context.
  rewrite map_rev, (logged_hooks 0 ps HInit on_init on_init), (logged_hooks 0 ps HDeinit on_deinit on_deinit) by done.
  rewrite <-map_rev.
  destruct (run_hooks_quiet (zip (map HInit (seq 0 (length ps))) (map on_init ps)) s []) as [s1 E1].
  { apply quiet_zip. by apply Forall_map. }
  destruct (run_hooks_quiet (rev (zip (map HDeinit (seq 0 (length ps))) (map on_deinit ps))) s1 []) as [s2 E2].
  { apply Forall_rev, quiet_zip. by apply Forall_map. }
  exists s1, s2. rewrite E1, E2. rewrite map_rev, !fst_zip by (by rewrite !length_map, length_seq). rewrite map_rev. done.
Qed.

(** A hook that throws ends the process. *)
Lemma init_failure_terminates (p : plugin S E) ps (s : S) e s1 :
  on_init p s = (Some e, s1) -> init_all (p :: ps) s = Terminated.
Proof. intros E1. unfold init_all, run_on_fresh_context. cbn. by rewrite E1. Qed.
End Life.

(** ** A failing cleanup *)

Definition demo_plugin (fails : bool) : plugin nat nat :=
  mk_plugin (fun s => (None, s)) (fun s => (None, s)) (fun s => (None, s + 1)%nat)
    (fun s => (if fails then Some 7%nat else None, s + 10)%nat).

Lemma plugin_scope_first_error_witness :
  (on_begin (demo_plugin true) 0%nat).1 = None /\
  plugin_scope_handle (demo_plugin true) 0%nat (fun s => (Threw (R := nat) 3%nat, s)) = (Threw 3%nat, 11%nat).
Proof.
  split; [reflexivity|].
  exact (plugin_scope_first_error (demo_plugin true) (fun s => (Threw (R := nat) 3%nat, s)) 0%nat eq_refl).
Defined.

Lemma plugins_init_in_order_witness :
  exists s1 s2,
    init_all (logged_from 0 [demo_plugin true; demo_plugin false]) (0%nat, []) = Completed (s1, [HInit 0; HInit 1]) /\
    deinit_all (logged_from 0 [demo_plugin true; demo_plugin false]) (s1, []) = Completed (s2, [HDeinit 1; HDeinit 0]).
Proof.
  apply (plugins_init_in_order [demo_plugin true; demo_plugin false] 0%nat); repeat constructor.
Defined.

(** The second plugin's [on_begin] throws: neither it nor the handler is run,
    only the first plugin is closed, and the exception goes to the caller. *)
Example failed_begin_closes_the_first :
  let throwing := mk_plugin (fun s => (None, s)) (fun s => (None, s)) (fun s => (Some 5%nat, s)) (fun s => (None, s)) in
  stack_handle (scopes 0 [demo_plugin false; throwing]) (log_call HTarget (fun s => (Returned 9%nat, s))) (0%nat, []) =
  (Threw 5%nat, (11%nat, [HBegin 0; HBegin 1; HEnd 0])).
Proof. reflexivity. Qed.
