(* ===== verification/Listener.v ===== *)
(** * Listener: src/server/listener.cpp and listener.hpp

    The accepting side of the server: how a connection is admitted, how its
    protocol is told apart by four bytes that are read and replayed, how a
    request reaches an extension or the handler, and how the workers' sockets
    are bound.

    Worker threads are the threads of the admission model; a coroutine runs on
    its worker's thread without interruption between two [co_await]s, and
    threads interleave at every access to [active_connections_].  Of the
    platform only the outcomes of its calls appear, as an oracle. *)

From S2P Require Import Prelude Bytes Stream Feeder Method Header Resource Status Date Chunked Http1Io Server.
From S2P Require Import Connection ConnectionFacts Frame Hpack ConnectionH2.

#[local] Open Scope Z_scope.

(** ** Requests *)

(** [listener::dispatch]. *)
Definition listener_dispatch {B W} (registry : list (extension B W))
    (handler : option (request B -> option (response W * request B))) (req : request B)
  : option (response W * request B) :=
  let '(ext_result, req) := dispatch registry req in
  match ext_result with
  | Some resp => Some (resp, req)
  | None => match handler with Some h => h req | None => Some (make_response 501, req) end
  end.

(** ** Protocols *)
Section Protocol.
Context {W : Type} `{Stream W}.

(** The loop that reads four bytes. *)
Fixpoint peek (fuel : nat) (w : W) (peeked : bytes) : option (bytes * W) :=
  if (length peeked <? 4)%nat then
    match fuel with
    | O => None
    | S f =>
        let '(buf, w') := st_read (4 - length peeked) w in
        match buf with
        | [] => Some (peeked, w')
        | _ => peek f w' (peeked ++ buf)
        end
    end
  else Some (peeked, w).

(** The connection a client gets: an HTTP/1.1 loop run to its end, or the
    start of an HTTP/2 connection. *)
Inductive driven := DrivenH1 (r : run_result W) | DrivenH2 (c : conn_h2 W).

Context (p : params) (clock : nat -> Z).

(** What the extensions and the handler see beside the request's own parts is
    in [B]: the body with [X], the objects of the program they refer to. *)
Context {B X : Type} (enter : X -> body_stream W -> B) (leave : B -> body_stream W * X).

(** The [dispatch] closure that [run_connection] gives to the connection. *)
Definition connection_dispatch (registry : list (extension B W))
    (handler : option (request B -> option (response W * request B))) (x : X) (req : request (body_stream W))
  : option (response W * request (body_stream W) * X) :=
  '(resp, req') ← listener_dispatch registry handler
    (mk_request (req_resource req) (req_headers req) (enter x (req_body req)) (req_hostname req) (req_tags req));
  let '(body, x') := leave (req_body req') in
  Some (resp, mk_request (req_resource req') (req_headers req') body (req_hostname req') (req_tags req'), x').

(** [handle_connection], with [run_connection] and [run_connection_h2]. *)
Definition handle_connection (fuel : nat) (registry : list (extension B W))
    (handler : option (request B -> option (response W * request B))) (x : X) (w : W) : option (driven * X) :=
  '(peeked, w') ← peek fuel w [];
  if bytes_eqb peeked (str "PRI ") then Some (DrivenH2 (connection_h2_new w' peeked), x)
  else
    '(r, x) ← run p clock fuel (Some (connection_dispatch registry handler)) x (connection_new w' peeked);
    Some (DrivenH1 r, x).

(** [handle_connection_tls]: [handshake] is the stream [tls_wire->accept()]
    has established, if it has. *)
Definition handle_connection_tls (fuel : nat) (registry : list (extension B W))
    (handler : option (request B -> option (response W * request B))) (x : X) (handshake : option W)
  : option (option (run_result W) * X) :=
  match handshake with
  | None => Some (None, x)
  | Some tls_wire =>
      '(r, x) ← run p clock fuel (Some (connection_dispatch registry handler)) x (connection_new tls_wire []);
      Some (Some r, x)
  end.
End Protocol.
Arguments driven : clear implicits.

(** ** Admission *)

(** A worker thread inside [accept_loop] or [dispatch_accepted]: at a
    [co_await], or between the test of [active_connections_] and its
    increment. *)
Inductive loop := LIdle | LPassed.

Record worker_state := mk_ws {
  ws_loop : loop;
  ws_live : nat;     (** connections on this thread *)
  ws_inbox : nat;    (** sockets handed over by [dispatch_accepted] *)
}.

Record admission := mk_adm {
  ad_active : Z;                 (** [active_connections_] *)
  ad_next_worker : Z;            (** [next_worker_] *)
  ad_workers : list worker_state;
  ad_dead : bool;                (** [std::terminate] *)
}.

Definition admission_new (n : nat) : admission := mk_adm 0 0 (replicate n (mk_ws LIdle 0 0)) false.

(** What [::accept] reports. *)
Inductive accepted := Accepted | WouldBlock | Interrupted | Failed.

Section Admission.
Context (max_connections : Z) (distribute : bool).

(** [pick_worker_round_robin]. *)
Definition pick_worker (s : admission) : nat * Z :=
  (Z.to_nat (ad_next_worker s mod Z.of_nat (length (ad_workers s))), uwrap 64 (ad_next_worker s + 1)).

Definition set_worker (i : nat) (w : worker_state) (s : admission) : admission :=
  mk_adm (ad_active s) (ad_next_worker s) (<[i := w]> (ad_workers s)) (ad_dead s).

(** The test of [active_connections_]; a refused socket is closed. *)
Definition check_limit (i : nat) (w : worker_state) (s : admission) : admission :=
  if max_connections <=? ad_active s then set_worker i w s
  else set_worker i (mk_ws LPassed (ws_live w) (ws_inbox w)) s.

(** One [accept] of [accept_loop]: an error is thrown by
    [async_socket::accept], nothing catches it, and a detached coroutine ends
    the process. *)
Definition accept_step (i : nat) (r : accepted) (s : admission) : option admission :=
  w ← ad_workers s !! i;
  match ws_loop w, r with
  | LIdle, Accepted =>
      if distribute then
        let '(k, next) := pick_worker s in
        let s1 := mk_adm (ad_active s) next (ad_workers s) (ad_dead s) in
        v ← ad_workers s1 !! k;
        Some (set_worker k (mk_ws (ws_loop v) (ws_live v) (S (ws_inbox v))) s1)
      else Some (check_limit i w s)
  | LIdle, (WouldBlock | Interrupted) => Some s
  | LIdle, Failed => Some (mk_adm (ad_active s) (ad_next_worker s) (ad_workers s) true)
  | LPassed, _ => None
  end.

(** [dispatch_accepted] on its target's thread. *)
Definition dispatch_accepted (i : nat) (s : admission) : option admission :=
  w ← ad_workers s !! i;
  match ws_loop w, ws_inbox w with
  | LIdle, S k => Some (check_limit i (mk_ws LIdle (ws_live w) k) s)
  | _, _ => None
  end.

(** [fetch_add], and the connection starts. *)
Definition enter (i : nat) (s : admission) : option admission :=
  w ← ad_workers s !! i;
  match ws_loop w with
  | LPassed => Some (set_worker i (mk_ws LIdle (S (ws_live w)) (ws_inbox w))
                       (mk_adm (uwrap 64 (ad_active s + 1)) (ad_next_worker s) (ad_workers s) (ad_dead s)))
  | LIdle => None
  end.

(** The end of [handle_connection]. *)
Definition leave (i : nat) (s : admission) : option admission :=
  w ← ad_workers s !! i;
  match ws_loop w, ws_live w with
  | LIdle, S k => Some (set_worker i (mk_ws LIdle k (ws_inbox w))
                          (mk_adm (uwrap 64 (ad_active s - 1)) (ad_next_worker s) (ad_workers s) (ad_dead s)))
  | _, _ => None
  end.

Inductive adm_step : admission -> admission -> Prop :=
| step_accept i r s s' : ad_dead s = false -> accept_step i r s = Some s' -> adm_step s s'
| step_dispatch i s s' : ad_dead s = false -> dispatch_accepted i s = Some s' -> adm_step s s'
| step_enter i s s' : ad_dead s = false -> enter i s = Some s' -> adm_step s s'
| step_leave i s s' : ad_dead s = false -> leave i s = Some s' -> adm_step s s'.

Inductive adm_reach (s0 : admission) : admission -> Prop :=
| adm_refl : adm_reach s0 s0
| adm_more s s' : adm_reach s0 s -> adm_step s s' -> adm_reach s0 s'.
End Admission.

(** ** Binding *)

(** The outcomes of the platform's calls, by the number of the socket: 0 is
    the probe. *)
Record binder := mk_binder {
  b_create : nat -> bool;
  b_reuse_port : bool;                       (** [set_reuse_port] is supported *)
  b_bind_listen : nat -> Z -> bool;          (** [bind] to this port, then [listen] *)
  b_local_port : nat -> Z -> option Z;       (** [local_endpoint] after a bind to this port *)
}.

(** An accept loop: its worker, its port, [distribute]. *)
Record accept_loop := mk_loop { al_worker : nat; al_port : Z; al_distribute : bool }.

Definition bind_one (b : binder) (k : nat) (port : Z) : bool := b_create b k && b_bind_listen b k port.

(** The loop over the workers, from worker [i] with [left] to go. *)
Fixpoint bind_workers (b : binder) (i left : nat) (port : Z) (started : list accept_loop)
  : bool * Z * list accept_loop :=
  match left with
  | O => (true, port, started)
  | S m =>
      if bind_one b (S i) port then
        let port' := if (i =? 0)%nat then default port (b_local_port b (S i) port) else port in
        bind_workers b (S i) m port' (started ++ [mk_loop i port' false])
      else (false, port, started)
  end.

(** [listen]: whether it succeeded, [bound_endpoint_]'s port, and the accept
    loops that run. *)
Definition listen (b : binder) (n : nat) (port : Z) : bool * option Z * list accept_loop :=
  if negb (b_create b 0) then (false, None, [])
  else if negb (b_reuse_port b) then
    if bind_one b 1 port then
      let port' := default port (b_local_port b 1 port) in (true, Some port', [mk_loop 0 port' true])
    else (false, None, [])
  else
    let '(ok, port', started) := bind_workers b 0 n port [] in
    (ok, if ok then Some port' else None, started).

(** [listen_tls]: the same over a context made from the certificate, if it
    loads. *)
Definition listen_tls (b : binder) (certificate_loads : bool) (n : nat) (port : Z) : bool * option Z * list accept_loop :=
  if certificate_loads then listen b n port else (false, None, []).

(** ** Running *)

(** [run] waits for [stop_requested_] with the predicate form of
    [condition_variable::wait]. *)
Inductive run_pc := RLock | RTest | RSleep | RWaiting | RRelock | RReturned.
Inductive stop_pc := SStore | SNotify | SReturned.

Record run_state := mk_rs {
  rs_locked : bool;        (** [run_mutex_], held by the thread of [run] *)
  rs_stop : bool;          (** [stop_requested_] *)
  rs_run : run_pc;
  rs_stopper : stop_pc;
}.

Definition run_state_new : run_state := mk_rs false false RLock SStore.

(** The thread of [run]. *)
Definition run_step (s : run_state) : option run_state :=
  match rs_run s with
  | RLock | RRelock => Some (mk_rs true (rs_stop s) RTest (rs_stopper s))
  | RTest =>
      if rs_stop s then Some (mk_rs false (rs_stop s) RReturned (rs_stopper s))
      else Some (mk_rs true (rs_stop s) RSleep (rs_stopper s))
  | RSleep => Some (mk_rs false (rs_stop s) RWaiting (rs_stopper s))
  | RWaiting | RReturned => None
  end.

(** [stop], which does not take [run_mutex_]. *)
Definition stop_step (s : run_state) : option run_state :=
  match rs_stopper s with
  | SStore => Some (mk_rs (rs_locked s) true (rs_run s) SNotify)
  | SNotify =>
      Some (mk_rs (rs_locked s) (rs_stop s)
              (match rs_run s with RWaiting => RRelock | k => k end) SReturned)
  | SReturned => None
  end.

Fixpoint run_stop (sched : list bool) (s : run_state) : option run_state :=
  match sched with
  | [] => Some s
  | b :: r => s1 ← (if b then run_step s else stop_step s); run_stop r s1
  end.
