(* ===== verification/ListenerFacts.v ===== *)
(** * ListenerFacts: the peek is transparent, admission is bounded *)

From S2P Require Import Prelude Bytes Stream Feeder Method Header Resource Status Date Chunked Http1Io Server.
From S2P Require Import Connection ConnectionFacts Frame Hpack ConnectionH2 Listener.

#[local] Open Scope Z_scope.

(** ** The peek *)
Section Peek.
Context {W : Type} `{StreamDuplex W}.

Lemma peek_spec fuel (w : W) peeked :
  st_ok w -> (length peeked <= 4)%nat -> (5 <= fuel + length peeked)%nat ->
  exists w', peek fuel w peeked = Some (take 4 (peeked ++ st_data w), w') /\ st_ok w' /\
    peeked ++ st_data w = take 4 (peeked ++ st_data w) ++ st_data w' /\ st_written w' = st_written w.
Proof.
  revert w peeked. induction fuel as [|f IH]; intros w peeked Hok Hlen Hf; cbn [peek];
    destruct (Nat.ltb_spec (length peeked) 4) as [Hlt|Hge].
  1: lia.
  1, 3: exists w; assert (length peeked = 4%nat) as <- by lia; rewrite take_app_length; by split_and!.
  destruct (st_read (4 - length peeked) w) as [buf w1] eqn:Er.
  destruct (st_read_spec (4 - length peeked)%nat w buf w1 ltac:(lia) Hok Er) as (Hok1 & Hd & Hl & Hne).
  pose proof (st_read_written _ _ _ _ Er) as Hwr. destruct buf as [|b buf].
  - exists w1. assert (st_data w = []) as Hnil by (destruct (st_data w); [done|by destruct Hne]).
    rewrite Hnil in *. rewrite app_nil_r, take_ge by lia. symmetry in Hd. cbn in Hd. by rewrite Hd, app_nil_r.
  - destruct (IH w1 (peeked ++ b :: buf)) as (w2 & Hp & Hok2 & Hraw & Hwr2); [done|rewrite length_app; lia| |].
    { rewrite length_app. cbn. lia. }
    exists w2. rewrite <-app_assoc, <-Hd in Hp, Hraw. rewrite Hwr2. by split_and!.
Qed.

Context (p : params) (clock : nat -> Z).
Context {B X : Type} (enter : X -> body_stream W -> B) (leave : B -> body_stream W * X).
Context (registry : list (extension B W)) (handler : option (request B -> option (response W * request B))).

Abbreviation dispatched := (connection_dispatch enter leave registry handler).

(** A plaintext connection is driven as HTTP/2 iff its first four bytes are PRI and a space,
    however they arrive, and the driver chosen sees every byte of the connection: what was
    peeked at is replayed in front of the rest. *)
Lemma listener_tells_protocols fuel (x : X) (w : W) :
  st_ok w -> (5 <= fuel)%nat ->
  exists w' peeked, peeked ++ st_data w' = st_data w /\ st_ok w' /\ st_written w' = st_written w /\
    handle_connection p clock enter leave fuel registry handler x w =
      if decide (take 4 (st_data w) = str "PRI ") then Some (DrivenH2 (connection_h2_new w' peeked), x)
      else '(r, x) ← run p clock fuel (Some dispatched) x (connection_new w' peeked);
           Some (DrivenH1 r, x).
Proof.
  intros Hok Hf. destruct (peek_spec fuel w [] Hok ltac:(cbn; lia) ltac:(cbn; lia)) as (w' & Hp & Hok' & Hraw & Hwr).
  cbn [app] in Hp, Hraw. exists w', (take 4 (st_data w)). split_and!; [done|done|done|].
  unfold handle_connection. rewrite Hp. cbn [mbind option_bind]. case_decide as E.
  - by rewrite E.
  - by rewrite (proj2 (bytes_eqb_false _ _) E).
Qed.

Context (spec : X -> http_resource -> http_headers -> bytes -> option (answer * X)).

(** C1: An accepted HTTP/1.1 connection from its first byte: the four bytes the listener peeks at
    are replayed, and, whatever way the bytes are split over reads, a pipelined sequence of
    well-formed length-framed requests is answered in order, each in full by the response of
    the extension or handler that takes it, until the first request that ends keep-alive or
    whose handler throws (that one gets no byte of an answer); nothing else is written, and
    the loop ends. *)
Theorem listener_serves_pipelined ms fuel (x : X) (w : W) :
  Forall (serves dispatched spec) ms ->
  Forall (msg_wf p) ms -> st_ok w -> st_data w = concat (map msg_text ms) ->
  take 4 (st_data w) <> str "PRI " ->
  (2 * length (st_data w) + 5 + length ms < fuel)%nat ->
  (forall m a k, (m, a) ∈ (exchange spec x ms).1.1 ->
     (answer_cost (W := W) p (clock k) a (msg_keep_alive m) + length ms < fuel)%nat) ->
  let '(answers, x', thrown) := exchange spec x ms in
  exists c' text, handle_connection p clock enter leave fuel registry handler x w =
      Some (DrivenH1 (run_end_of thrown c'), x') /\
    st_written (cn_wire c') = st_written w ++ text /\
    responses_text (W := W) p clock 0 answers text.
Proof.
  intros Hserves Hwf Hok Hraw Hpri Hf Hcost.
  destruct (peek_spec fuel w [] Hok ltac:(cbn; lia) ltac:(cbn; lia)) as (w' & Hp & Hok' & Hd & Hwr).
  cbn [app] in Hp, Hd. unfold handle_connection. rewrite Hp. cbn [mbind option_bind].
  rewrite (proj2 (bytes_eqb_false _ _) Hpri).
  pose proof (run_pipelined p clock dispatched spec ms x (connection_new w' (take 4 (st_data w))) fuel Hserves Hwf Hok') as HR.
  destruct (exchange spec x ms) as [[l x'] thrown].
  destruct HR as (c' & text & Hr & Ht & Htx); try done.
  - by rewrite <-Hraw.
  - unfold conn_raw, connection_new. cbn [cn_buffer cn_wire]. rewrite <-Hd. lia.
  - rewrite Hr. cbn [mbind option_bind]. exists c', text. cbn [cn_wire connection_new] in Ht. rewrite Hwr in Ht. by split_and!.
Qed.

(** Over TLS there is nothing to peek at. *)
Lemma listener_tls_serves_pipelined ms fuel (x : X) (w : W) :
  Forall (serves dispatched spec) ms ->
  Forall (msg_wf p) ms -> st_ok w -> st_data w = concat (map msg_text ms) ->
  (2 * length (st_data w) + 3 + length ms < fuel)%nat ->
  (forall m a k, (m, a) ∈ (exchange spec x ms).1.1 ->
     (answer_cost (W := W) p (clock k) a (msg_keep_alive m) + length ms < fuel)%nat) ->
  let '(answers, x', thrown) := exchange spec x ms in
  exists c' text, handle_connection_tls p clock enter leave fuel registry handler x (Some w) =
      Some (Some (run_end_of thrown c'), x') /\
    st_written (cn_wire c') = st_written w ++ text /\
    responses_text (W := W) p clock 0 answers text.
Proof.
  intros Hserves Hwf Hok Hraw Hf Hcost.
  pose proof (run_pipelined p clock dispatched spec ms x (connection_new w []) fuel Hserves Hwf Hok) as HR.
  destruct (exchange spec x ms) as [[l x'] thrown].
  destruct HR as (c' & text & Hr & Ht & Htx); try done.
  unfold handle_connection_tls. rewrite Hr. by exists c', text.
Qed.
End Peek.

(** ** Admission *)

Lemma sum_insert {A} (f : A -> nat) (l : list A) i x x' :
  l !! i = Some x -> (sum_list_with f (<[i := x']> l) + f x = sum_list_with f l + f x')%nat.
Proof.
  revert i. induction l as [|y l IH]; intros [|i] Hi; try done.
  - injection Hi as ->. cbn. lia.
  - cbn in Hi |- *. rewrite <-!Nat.add_assoc. f_equal. exact (IH i Hi).
Qed.

Definition passed (w : worker_state) : nat := match ws_loop w with LPassed => 1 | LIdle => 0 end.

Definition total (f : worker_state -> nat) (s : admission) : Z := Z.of_nat (sum_list_with f (ad_workers s)).

Section Admission.
Context (max_connections : Z) (distribute : bool) (n : nat).
Hypothesis Hmax : 0 <= max_connections.
Hypothesis Hn : (1 <= n)%nat.
Hypothesis Hfits : max_connections + Z.of_nat n < 2 ^ 64.

Record adm_inv (s : admission) : Prop := mk_adm_inv {
  ai_length : length (ad_workers s) = n;
  ai_active : ad_active s = total ws_live s;
  ai_bound : ad_active s + total passed s <= max_connections + Z.of_nat n - 1;
}.

Lemma passed_bound (ws : list worker_state) : (sum_list_with passed ws <= length ws)%nat.
Proof. induction ws as [|w ws IH]; cbn; [done|]. unfold passed at 1. destruct (ws_loop w); lia. Qed.

Lemma total_nonneg f s : 0 <= total f s.
Proof. unfold total. lia. Qed.

Lemma total_set f s i w w' : ad_workers s !! i = Some w ->
  total f (set_worker i w' s) = total f s - Z.of_nat (f w) + Z.of_nat (f w').
Proof. intros Hi. unfold total. cbn. pose proof (sum_insert f _ i w w' Hi). lia. Qed.

(** A worker changes and the totals do not. *)
Lemma adm_same s i w w' : adm_inv s -> ad_workers s !! i = Some w -> ws_live w' = ws_live w ->
  passed w' = passed w -> adm_inv (set_worker i w' s).
Proof.
  intros [H1 H2 H3] Hi Hl Hp. split; cbn; [by rewrite length_insert|..]; rewrite !(total_set _ s i w) by done;
    rewrite ?Hl, ?Hp; lia.
Qed.

Lemma adm_check s i w w0 : adm_inv s -> ad_workers s !! i = Some w0 -> ws_live w = ws_live w0 ->
  ws_loop w = LIdle -> ws_loop w0 = LIdle -> adm_inv (check_limit max_connections i w s).
Proof.
  intros H Hi Hl Hw Hw0. unfold check_limit. destruct (Z.leb_spec max_connections (ad_active s)) as [_|Hlt].
  - apply (adm_same s i w0); [done|done|done|]. unfold passed. by rewrite Hw, Hw0.
  - destruct H as [H1 H2 H3]. split; cbn; [by rewrite length_insert| |].
    + rewrite (total_set _ s i w0) by done. cbn. rewrite Hl. lia.
    + pose proof (passed_bound (<[i := mk_ws LPassed (ws_live w) (ws_inbox w)]> (ad_workers s))) as Hp.
      rewrite length_insert, H1 in Hp. unfold total. cbn. lia.
Qed.

Lemma adm_inv_step s s' : adm_inv s -> adm_step max_connections distribute s s' -> adm_inv s'.
Proof.
  intros H Hs. pose proof H as [H1 H2 H3]. pose proof (total_nonneg passed s). pose proof (total_nonneg ws_live s).
  inversion Hs as [i r s0 s1 _ Ha|i s0 s1 _ Ha|i s0 s1 _ Ha|i s0 s1 _ Ha]; subst s0 s1.
  - unfold accept_step in Ha. destruct (ad_workers s !! i) as [w|] eqn:Hi; [|done]. cbn [mbind option_bind] in Ha.
    destruct (ws_loop w) eqn:Hw; [|done]. destruct r; [|by injection Ha as <-..|by injection Ha as <-].
    destruct distribute; [|injection Ha as <-; by eapply adm_check].
    cbn in Ha. destruct (ad_workers s !! Z.to_nat _) as [v|] eqn:Hk; [|done]. cbn in Ha. injection Ha as <-.
    apply (adm_same (mk_adm (ad_active s) _ (ad_workers s) (ad_dead s)) _ v); done.
  - unfold dispatch_accepted in Ha. destruct (ad_workers s !! i) as [w|] eqn:Hi; [|done]. cbn [mbind option_bind] in Ha.
    destruct (ws_loop w) eqn:Hw, (ws_inbox w); try done. injection Ha as <-. by eapply adm_check.
  - unfold enter in Ha. destruct (ad_workers s !! i) as [w|] eqn:Hi; [|done]. cbn [mbind option_bind] in Ha.
    destruct (ws_loop w) eqn:Hw; [done|]. injection Ha as <-.
    assert (passed w = 1%nat) as Hpw by (unfold passed; by rewrite Hw).
    assert (1 <= total passed s) as Hp.
    { pose proof (total_set passed s i w (mk_ws LIdle 0 0) Hi) as E. cbn in E.
      pose proof (total_nonneg passed (set_worker i (mk_ws LIdle 0 0) s)). lia. }
    rewrite uwrap_small by lia. set (s1 := mk_adm (ad_active s + 1) _ _ _).
    split; cbn; [by rewrite length_insert|..]; rewrite !(total_set _ s1 i w) by done; cbn; rewrite ?Hpw; unfold total in *; cbn in *; lia.
  - unfold leave in Ha. destruct (ad_workers s !! i) as [w|] eqn:Hi; [|done]. cbn [mbind option_bind] in Ha.
    destruct (ws_loop w) eqn:Hw, (ws_live w) as [|k] eqn:Hl; try done. injection Ha as <-.
    assert (passed w = 0%nat) as Hpw by (unfold passed; by rewrite Hw).
    assert (1 <= total ws_live s) as Hp.
    { pose proof (total_set ws_live s i w (mk_ws LIdle 0 0) Hi) as E. cbn in E. rewrite Hl in E.
      pose proof (total_nonneg ws_live (set_worker i (mk_ws LIdle 0 0) s)). lia. }
    rewrite uwrap_small by lia. set (s1 := mk_adm (ad_active s - 1) _ _ _).
    split; cbn; [by rewrite length_insert|..]; rewrite !(total_set _ s1 i w) by done; cbn;
      rewrite ?Hpw, ?Hl; unfold total in *; cbn in *; lia.
Qed.

(** C26: Under every interleaving of the worker threads, active_connections_ is the number of live
    connections, never wraps, and exceeds max_connections by less than the number of workers
    (never, with one worker): the test and the increment are two accesses. *)
Theorem listener_admission_bounded s :
  adm_reach max_connections distribute (admission_new n) s ->
  ad_active s = total ws_live s /\ ad_active s <= max_connections + Z.of_nat n - 1.
Proof.
  intros Hr. assert (adm_inv s) as [H1 H2 H3].
  { induction Hr as [|s s' _ IH Hs]; [|by eapply adm_inv_step].
    assert (forall f, f (mk_ws LIdle 0 0) = 0%nat -> total f (admission_new n) = 0) as Hz.
    { intros f Hf. unfold total, admission_new. cbn. induction n as [|m IHm]; cbn; [done|]. rewrite Hf.
      destruct m; [done|]. apply IHm; lia. }
    split; rewrite ?Hz by done; cbn; [by rewrite length_replicate|done|lia]. }
  pose proof (total_nonneg passed s). split; [done|lia].
Qed.
End Admission.

(** ** Binding *)

(** The kernel reports the port it was asked for, or one of its choice. *)
Definition binder_honest (b : binder) : Prop := forall k port,
  port <> 0 -> b_local_port b k port = None \/ b_local_port b k port = Some port.

Lemma bind_workers_later b i left port started ok port' loops :
  bind_workers b (S i) left port started = (ok, port', loops) ->
  exists k, port' = port /\ loops = started ++ map (fun j => mk_loop j port false) (seq (S i) k) /\
    (k <= left)%nat /\ (ok = true -> k = left).
Proof.
  revert i started. induction left as [|m IH]; intros i started; cbn [bind_workers].
  - intros [= <- <- <-]. exists 0%nat. by rewrite app_nil_r.
  - destruct (bind_one b (S (S i)) port).
    + intros E. cbn [Nat.eqb] in E. destruct (IH _ _ E) as (k & -> & -> & Hk & Hok). exists (S k).
      split; [done|]. split; [by rewrite <-app_assoc|]. split; [lia|]. intros H. by rewrite Hok.
    + intros [= <- <- <-]. exists 0%nat. rewrite app_nil_r. split_and!; (done || lia).
Qed.

(** With SO_REUSEPORT a successful listen starts one accept loop per worker, all on one port: the
    one asked for, or the one the first bind was given. *)
Lemma listen_binds_every_worker b certificate n port loops bound :
  (1 <= n)%nat -> b_reuse_port b = true ->
  listen b n port = (true, bound, loops) \/ listen_tls b certificate n port = (true, bound, loops) ->
  exists port', bound = Some port' /\ loops = map (fun i => mk_loop i port' false) (seq 0 n) /\
    (port <> 0 -> binder_honest b -> port' = port).
Proof.
  intros Hn Hre Hl. assert (listen b n port = (true, bound, loops)) as E0.
  { destruct Hl as [|Hl]; [done|]. unfold listen_tls in Hl. by destruct certificate. }
  revert E0. clear Hl. unfold listen. destruct (b_create b 0); [|done]. rewrite Hre. cbn [negb].
  destruct n as [|m]; [lia|]. cbn [bind_workers]. destruct (bind_one b 1 port); [|done]. cbn [Nat.eqb app].
  set (port' := default port (b_local_port b 1 port)).
  destruct (bind_workers b 1 m port' _) as [[ok q] l] eqn:E.
  destruct (bind_workers_later _ _ _ _ _ _ _ _ E) as (k & -> & -> & Hk & Hok).
  intros [= -> <- <-]. rewrite (Hok eq_refl). exists port'. split; [done|]. split; [done|].
  intros Hp Hb. unfold port'. by destruct (Hb 1%nat port Hp) as [->| ->].
Qed.

(** ** Running *)

(** [stop] between the test and the wait: both notifications are over, and
    [run] sleeps. *)
Example stop_is_missed :
  exists s, run_stop [true; true; false; false; true] run_state_new = Some s /\
    rs_stop s = true /\ rs_stopper s = SReturned /\ rs_run s = RWaiting /\ run_step s = None /\ stop_step s = None.
Proof. eexists. split; [vm_compute; reflexivity|]. by split_and!. Qed.

(** A failing [::accept] ends the process. *)
Example accept_error_terminates :
  option_map ad_dead (accept_step 10 false 0 Failed (admission_new 1)) = Some true.
Proof. reflexivity. Qed.

(** ** Runs *)

(** Two workers that test the limit at the same time. *)
Definition demo_admitted : admission :=
  mk_adm 2 0 [mk_ws LIdle 1 0; mk_ws LIdle 1 0] false.

Lemma demo_admitted_reach : adm_reach 1 false (admission_new 2) demo_admitted.
Proof.
  eapply adm_more; [eapply adm_more; [eapply adm_more; [eapply adm_more; [apply adm_refl|]|]|]|].
  - by apply (step_accept _ _ 0 Accepted).
  - by apply (step_accept _ _ 1 Accepted).
  - by apply (step_enter _ _ 0).
  - by apply (step_enter _ _ 1).
Qed.

Lemma listener_admission_bounded_witness :
  ad_active demo_admitted = total ws_live demo_admitted /\ ad_active demo_admitted <= 1 + Z.of_nat 2 - 1.
Proof. apply (listener_admission_bounded 1 false 2); [lia|lia|cbn; lia|exact demo_admitted_reach]. Defined.

Definition demo_binder : binder := mk_binder (fun _ => true) true (fun _ _ => true)
  (fun _ port => Some (if port =? 0 then 40000 else port)).

Lemma listen_binds_every_worker_witness :
  exists port', Some 40000 = Some port' /\
    [mk_loop 0 40000 false; mk_loop 1 40000 false] = map (fun i => mk_loop i port' false) (seq 0 2).
Proof.
  destruct (listen_binds_every_worker demo_binder true 2 0 [mk_loop 0 40000 false; mk_loop 1 40000 false] (Some 40000))
    as (port' & Hb & Hl & _); [lia|reflexivity|left; vm_compute; reflexivity|]. exists port'. split; [exact Hb|exact Hl].
Defined.

(** A server whose handler numbers its answers. *)
Definition numbered (n : Z) (b : body_stream wire) : body_stream wire * Z := (b, n).

Definition hello_server {W} (req : request (body_stream W * Z)) : option (response W * request (body_stream W * Z)) :=
  let '(b, n) := req_body req in
  if bytes_eqb (req_path req) (str "/fail") then None
  else Some (make_response_text (str "hello " ++ to_string n) (str "text/plain"), req_with_body (b, n + 1) req).

Lemma hello_server_serves {W} `{StreamDuplex W} m :
  serves (connection_dispatch (fun n b => (b, n)) id [] (Some hello_server)) hello_answer (W := W) m.
Proof.
  intros x req Hm. pose proof (hello_serves (W := W) m x req Hm) as Hs.
  unfold connection_dispatch, listener_dispatch, hello_server, hello_handler, req_path in *. cbn [dispatch] in *.
  cbn [req_body req_resource]. destruct (msg_answer _ _ _) as [[a x']|].
  - destruct Hs as (r & req' & E & Hs). case_if; [done|]. injection E as <- <- <-.
    eexists _, _. split; [reflexivity|]. exact Hs.
  - by case_if.
Qed.

Lemma listener_tells_protocols_witness :
  exists w' peeked, peeked ++ st_data w' = str "PRI * HTTP/2.0" /\
    handle_connection params_default (fun _ => 0) numbered id 5 [] None 7 (mk_wire [str "PR"; str "I * HTTP/2.0"] [] []) =
      Some (DrivenH2 (connection_h2_new w' peeked), 7).
Proof.
  destruct (listener_tells_protocols params_default (fun _ => 0) numbered id [] None 5 7 (mk_wire [str "PR"; str "I * HTTP/2.0"] [] []))
    as (w' & peeked & Hd & _ & _ & Hr); [done|lia|].
  exists w', peeked. split; [exact Hd|]. rewrite Hr. reflexivity.
Defined.

Lemma listener_serves_pipelined_witness :
  exists c' text,
    handle_connection params_default (fun _ => 0) numbered id (Z.to_nat 9000) [] (Some hello_server) 7 (cn_wire example_conn) =
      Some (DrivenH1 (RunDone c'), 9) /\
    w_out (cn_wire c') = text /\
    responses_text (W := wire) params_default (fun _ => 0) 0 (exchange hello_answer 7 [post_message; get_message]).1.1 text.
Proof.
  assert (Forall (serves (connection_dispatch numbered id [] (Some hello_server)) hello_answer) [post_message; get_message]) as Hs
    by (repeat (apply Forall_cons; split); [apply hello_server_serves..|constructor]).
  pose proof (listener_serves_pipelined params_default (fun _ => 0) numbered id [] (Some hello_server) hello_answer
    [post_message; get_message] (Z.to_nat 9000) 7 (cn_wire example_conn) Hs example_messages_wf I) as H.
  change (exchange hello_answer 7 [post_message; get_message]) with
    ((exchange hello_answer 7 [post_message; get_message]).1.1, 9, false) in H. cbv iota beta in H.
  destruct H as (c' & text & Hr & Hw & Ht).
  - done.
  - discriminate.
  - replace (length (st_data (cn_wire example_conn))) with 65%nat by reflexivity. cbn [length]. lia.
  - exact example_cost.
  - exists c', text. split; [exact Hr|]. split; [exact Hw|exact Ht].
Defined.
