(* ===== verification/FileStream.v ===== *)
(** * FileStream: src/io/file_stream.cpp and src/platform/posix/file_mapping.cpp

    A file read through stdio, or, once the first read of a stream opened
    "rb" has succeeded in opening it a second time, through a sliding window
    of mapped memory.  A [std::FILE*] is its content, cursor and mode; a
    window is the memory that was mapped, so that a copy from it can only see
    what the window covers.  [page_size] and the outcome of [mmap] belong to
    the system. *)

From S2P Require Import Prelude Bytes Stream.

#[local] Open Scope Z_scope.

(** ** stdio *)

Record cfile := mk_cfile {
  cf_content : bytes;
  cf_pos : Z;
  cf_writable : bool;
  cf_append : bool;
}.

Definition cf_with_pos (pos : Z) (f : cfile) : cfile :=
  mk_cfile (cf_content f) pos (cf_writable f) (cf_append f).

Definition file_size (f : cfile) : Z := Z.of_nat (length (cf_content f)).

(** [fseeko]; a position beyond the end is allowed. *)
Definition fseek (offset : Z) (o : seek_origin) (f : cfile) : bool * cfile :=
  let target := match o with
                | seek_begin => offset
                | seek_current => cf_pos f + offset
                | seek_end => file_size f + offset
                end in
  if target <? 0 then (false, f) else (true, cf_with_pos target f).

Definition fread (n : nat) (f : cfile) : bytes * cfile :=
  let out := take n (drop (Z.to_nat (cf_pos f)) (cf_content f)) in
  (out, cf_with_pos (cf_pos f + Z.of_nat (length out)) f).

Definition fwrite (bs : bytes) (f : cfile) : nat * cfile :=
  if cf_writable f then
    let p := if cf_append f then length (cf_content f) else Z.to_nat (cf_pos f) in
    let grown := cf_content f ++ replicate (p + length bs - length (cf_content f)) x00 in
    (length bs, mk_cfile (take p grown ++ bs ++ drop (p + length bs) grown) (Z.of_nat (p + length bs))
                  (cf_writable f) (cf_append f))
  else (0%nat, f).

(** ** file_mapping *)

Record file_mapping := mk_mapping {
  fm_fd : bool;                       (** [fd_ >= 0] *)
  fm_total_size : Z;
  fm_window : option (Z * bytes);     (** [window_start_] and the mapped memory *)
}.

Definition file_mapping_none : file_mapping := mk_mapping false 0 None.

Definition fm_valid (m : file_mapping) : bool := 0 <? fm_total_size m.

Definition window_capacity : Z := 4 * 1024 * 1024.

(** [file_mapping::open]; [None] is a path that cannot be opened. *)
Definition file_mapping_open (disk : option bytes) : file_mapping :=
  match disk with
  | None => file_mapping_none
  | Some content =>
      if Z.of_nat (length content) <=? 0 then file_mapping_none
      else mk_mapping true (Z.of_nat (length content)) None
  end.

Section System.
Context (page_size : Z) (mmap_ok : Z -> Z -> bool).

(** [mmap] of a part of the file. *)
Definition mapped_part (content : bytes) (start size : Z) : bytes :=
  take (Z.to_nat size) (drop (Z.to_nat start) content).

Definition remap (content : bytes) (aligned_start size : Z) (m : file_mapping) : bool * file_mapping :=
  if mmap_ok aligned_start size
  then (true, mk_mapping (fm_fd m) (fm_total_size m) (Some (aligned_start, mapped_part content aligned_start size)))
  else (false, m).

(** The memory a pointer into the window leads to. *)
Definition window_at (m : file_mapping) (offset : Z) : bytes :=
  match fm_window m with Some (start, mem) => drop (Z.to_nat (offset - start)) mem | None => [] end.

Definition covers (m : file_mapping) (offset length : Z) : bool :=
  match fm_window m with
  | Some (start, mem) => (start <=? offset) && (offset + length <=? start + Z.of_nat (List.length mem))
  | None => false
  end.

(** [None] is [nullptr]. *)
Definition ensure_window (content : bytes) (offset length : Z) (m : file_mapping) : option bytes * file_mapping :=
  if negb (fm_fd m) || (offset <? 0) || (length <? 0) || (fm_total_size m <? offset + length) then (None, m)
  else if covers m offset length then (Some (window_at m offset), m)
  else
    let aligned_start := Z.quot offset page_size * page_size in
    let want0 := Z.max window_capacity (length + (offset - aligned_start)) in
    let want_size := Z.min want0 (fm_total_size m - aligned_start) in
    let '(ok, m') := remap content aligned_start want_size m in
    if ok then (Some (window_at m' offset), m') else (None, m').

(** ** file_stream *)

Record file_stream := mk_file_stream {
  fs_file : cfile;
  fs_size : Z;
  fs_disk : option bytes;             (** what [path_] leads to *)
  fs_read_only : bool;
  fs_mapping_attempted : bool;
  fs_mapping : file_mapping;
  fs_mapped_pos : Z;
}.

(** [file_stream::open]: [fopened] is what [fopen] returns. *)
Definition file_stream_open (fopened : option cfile) (disk : option bytes) (mode : bytes) (known_size : Z)
  : option file_stream :=
  match fopened with
  | None => None
  | Some f =>
      let size :=
        if 0 <=? known_size then known_size
        else let '(_, f1) := fseek 0 seek_end f in cf_pos f1 in
      Some (mk_file_stream f size disk (bytes_eqb mode (str "rb")) false file_mapping_none 0)
  end.

Definition fs_with_file (f : cfile) (s : file_stream) : file_stream :=
  mk_file_stream f (fs_size s) (fs_disk s) (fs_read_only s) (fs_mapping_attempted s) (fs_mapping s) (fs_mapped_pos s).
Definition fs_with_mapping (m : file_mapping) (pos : Z) (s : file_stream) : file_stream :=
  mk_file_stream (fs_file s) (fs_size s) (fs_disk s) (fs_read_only s) true m pos.
Definition fs_with_mapped_pos (pos : Z) (s : file_stream) : file_stream :=
  mk_file_stream (fs_file s) (fs_size s) (fs_disk s) (fs_read_only s) (fs_mapping_attempted s) (fs_mapping s) pos.

Definition fs_seek (offset : Z) (o : seek_origin) (s : file_stream) : Z * file_stream :=
  if fm_valid (fs_mapping s) then
    let base := match o with seek_begin => 0 | seek_current => fs_mapped_pos s | seek_end => fs_size s end in
    let target := base + offset in
    if (target <? 0) || (fs_size s <? target) then (-1, s) else (target, fs_with_mapped_pos target s)
  else
    let '(ok, f) := fseek offset o (fs_file s) in
    if ok then (cf_pos f, fs_with_file f s) else (-1, s).

(** The lazy attempt to map, at the first read. *)
Definition attempt_mapping (s : file_stream) : file_stream :=
  if fs_mapping_attempted s then s
  else if fs_read_only s && (0 <? fs_size s) then
    let mapping := file_mapping_open (fs_disk s) in
    if fm_valid mapping then fs_with_mapping mapping (cf_pos (fs_file s)) s
    else fs_with_mapping file_mapping_none 0 s
  else fs_with_mapping (fs_mapping s) (fs_mapped_pos s) s.

Definition fs_read (n : nat) (s0 : file_stream) : bytes * file_stream :=
  let s := attempt_mapping s0 in
  if fm_valid (fs_mapping s) then
    let remaining := fs_size s - fs_mapped_pos s in
    if remaining <=? 0 then ([], s)
    else
      let want := Z.min remaining (Z.of_nat n) in
      let '(src, m) := ensure_window (default [] (fs_disk s)) (fs_mapped_pos s) want (fs_mapping s) in
      match src with
      | None => ([], fs_with_mapping m (fs_mapped_pos s) s)
      | Some mem => (take (Z.to_nat want) mem, fs_with_mapping m (fs_mapped_pos s + want) s)
      end
  else
    let '(out, f) := fread n (fs_file s) in (out, fs_with_file f s).

Definition fs_write (bs : bytes) (s : file_stream) : nat * file_stream :=
  let '(k, f) := fwrite bs (fs_file s) in (k, fs_with_file f s).

#[global] Instance file_Stream : Stream file_stream := {
  st_get_length := fs_size;
  st_can_seek := fun _ => true;
  st_seek := fs_seek;
  st_read := fs_read;
  st_write := fs_write;
}.
End System.

(** ** The window *)
Section Window.
Context (page_size : Z) (mmap_ok : Z -> Z -> bool) (content : bytes).
Hypothesis Hpage : 0 < page_size.

Abbreviation total := (Z.of_nat (length content)).

(** The window holds a part of the file. *)
Definition window_ok (m : file_mapping) : Prop := forall start mem, fm_window m = Some (start, mem) ->
  0 <= start /\ start + Z.of_nat (length mem) <= total /\ mem = mapped_part content start (Z.of_nat (length mem)).

Record mapping_ok (m : file_mapping) : Prop := mk_mapping_ok {
  mo_fd : fm_fd m = true;
  mo_total : fm_total_size m = total;
  mo_window : window_ok m;
}.

Lemma mapped_part_length start size :
  0 <= start -> 0 <= size -> start + size <= total -> Z.of_nat (length (mapped_part content start size)) = size.
Proof. intros. unfold mapped_part. rewrite length_take, length_drop. lia. Qed.

(** A covered range is read as the file has it. *)
Lemma covered_read m offset len :
  window_ok m -> covers m offset len = true -> 0 <= len ->
  take (Z.to_nat len) (window_at m offset) = mapped_part content offset len.
Proof.
  unfold covers, window_at. intros Hw Hc Hlen. destruct (fm_window m) as [[start mem]|] eqn:E; [|done].
  destruct (Hw start mem E) as (Hs & Ht & Hm). bool_to_prop. rewrite Hm. unfold mapped_part.
  rewrite skipn_firstn_comm, drop_drop, firstn_firstn. f_equal; [lia|]. f_equal. lia.
Qed.

Lemma aligned_bounds offset : 0 <= offset -> let a := Z.quot offset page_size * page_size in 0 <= a <= offset.
Proof.
  intros Ho a. unfold a. rewrite Z.quot_div_nonneg by lia.
  pose proof (Z.div_mod offset page_size ltac:(lia)). pose proof (Z.mod_pos_bound offset page_size Hpage).
  pose proof (Z.div_pos offset page_size Ho Hpage). nia.
Qed.

(** A pointer that is returned leads to the range asked for. *)
Lemma ensure_window_covers offset len m mem m' :
  mapping_ok m -> ensure_window page_size mmap_ok content offset len m = (Some mem, m') ->
  mapping_ok m' /\ covers m' offset len = true /\ take (Z.to_nat len) mem = mapped_part content offset len.
Proof.
  intros [Hfd Htot Hw] E. unfold ensure_window in E.
  destruct (negb (fm_fd m) || (offset <? 0) || (len <? 0) || (fm_total_size m <? offset + len)) eqn:Eg; [done|].
  bool_to_prop. destruct (covers m offset len) eqn:Ec.
  - injection E as <- <-. split; [done|]. split; [done|]. by apply covered_read.
  - pose proof (aligned_bounds offset ltac:(lia)) as Ha. cbv zeta in Ha.
    set (a := Z.quot offset page_size * page_size) in *.
    set (size := Z.min _ _) in E. unfold remap in E. destruct (mmap_ok a size); [|done]. injection E as <- <-.
    set (m1 := mk_mapping _ _ _).
    assert (0 <= size /\ a + size <= total /\ offset + len <= a + size) as (Hs1 & Hs2 & Hs3).
    { unfold size, window_capacity. rewrite Htot in *. lia. }
    pose proof (mapped_part_length a size ltac:(lia) Hs1 Hs2) as Hl.
    assert (mapping_ok m1) as Hm1.
    { split; [done|done|]. intros start mem [= <- <-]. rewrite Hl. by split_and!; [lia|..]. }
    assert (covers m1 offset len = true) as Hc1.
    { unfold covers, m1. cbn [fm_window]. rewrite Hl. apply andb_true_intro. split; apply Z.leb_le; lia. }
    split; [done|]. split; [done|]. apply covered_read; [apply Hm1|done|lia].
Qed.

(** It fails only outside the file, or when [mmap] does, and then changes nothing. *)
Lemma ensure_window_total offset len m :
  mapping_ok m -> 0 <= offset -> 0 <= len -> offset + len <= total ->
  (exists mem m', ensure_window page_size mmap_ok content offset len m = (Some mem, m')) \/
  ensure_window page_size mmap_ok content offset len m = (None, m) /\ exists start size, mmap_ok start size = false.
Proof.
  intros [Hfd Htot Hw] Ho Hl Hb. unfold ensure_window. rewrite Hfd, Htot. cbn [negb orb].
  destruct (Z.ltb_spec offset 0); [lia|]. destruct (Z.ltb_spec len 0); [lia|].
  destruct (Z.ltb_spec total (offset + len)); [lia|]. cbn [orb]. destruct (covers m offset len); [eauto|].
  unfold remap. destruct (mmap_ok _ _) eqn:Em; [eauto|]. right. split; [done|eauto].
Qed.
End Window.

(** ** A file reads like its content in memory *)

(** A client's calls, with whether [mmap] works when it is called for a read; and
    what the client gets from them. *)
Inductive file_op := FRead (n : nat) (mmap : bool) | FSeek (offset : Z) (o : seek_origin).
Inductive file_result := GotBytes (out : bytes) | GotPosition (r : Z).

Definition run_op {S} (read : bool -> nat -> S -> bytes * S) (seek : Z -> seek_origin -> S -> Z * S) (op : file_op) (s : S)
  : file_result * S :=
  match op with
  | FRead n mmap => let '(out, s') := read mmap n s in (GotBytes out, s')
  | FSeek offset o => let '(r, s') := seek offset o s in (GotPosition r, s')
  end.

Fixpoint run_ops {S} (read : bool -> nat -> S -> bytes * S) (seek : Z -> seek_origin -> S -> Z * S) (ops : list file_op) (s : S)
  : list file_result :=
  match ops with
  | [] => []
  | op :: r => let '(x, s') := run_op read seek op s in x :: run_ops read seek r s'
  end.

(** The calls on a [file_stream] and on a [memory_stream]. *)
Definition file_calls (page_size : Z) : list file_op -> file_stream -> list file_result :=
  run_ops (fun mmap => fs_read page_size (fun _ _ => mmap)) fs_seek.
Definition memory_calls : list file_op -> memory_stream -> list file_result := run_ops (fun _ => ms_read) ms_seek.

Section Equivalence.
Context (page_size : Z) (content : bytes).
Hypothesis Hpage : 0 < page_size.

Abbreviation total := (Z.of_nat (length content)).

(** The file does not change, and its path may or may not open again. *)
Record fs_inv (s : file_stream) : Prop := mk_fs_inv {
  fi_content : cf_content (fs_file s) = content;
  fi_disk : fs_disk s = Some content \/ fs_disk s = None;
  fi_size : fs_size s = total;
  fi_mapped : fm_valid (fs_mapping s) = true ->
    fs_disk s = Some content /\ mapping_ok content (fs_mapping s) /\ 0 <= fs_mapped_pos s;
  fi_attempted : fs_mapping_attempted s = false -> fm_valid (fs_mapping s) = false;
  fi_pos : fm_valid (fs_mapping s) = false -> 0 <= cf_pos (fs_file s);
}.

Definition fs_position (s : file_stream) : Z :=
  if fm_valid (fs_mapping s) then fs_mapped_pos s else cf_pos (fs_file s).

(** Whether the stream reads through the mapping after its next read. *)
Definition maps (s : file_stream) : bool := fm_valid (fs_mapping (attempt_mapping s)).

Lemma fs_position_bounds s : fs_inv s -> 0 <= fs_position s.
Proof.
  intros [_ _ _ Hm _ Hp]. unfold fs_position. destruct (fm_valid (fs_mapping s)); [by destruct (Hm eq_refl) as (_ & _ & ?)|by apply Hp].
Qed.

Lemma attempt_inv s : fs_inv s -> fs_inv (attempt_mapping s) /\ fs_position (attempt_mapping s) = fs_position s.
Proof.
  intros H. pose proof (fs_position_bounds s H) as Hb. destruct H as [H1 H2 H3 H4 H5 H6].
  unfold attempt_mapping. destruct (fs_mapping_attempted s) eqn:Ea; [split; [|done]; split; auto; by rewrite Ea|].
  specialize (H5 eq_refl). specialize (H6 H5).
  destruct (fs_read_only s && (0 <? fs_size s)) eqn:Er.
  2: { split; [|done]. split; cbn; auto. }
  unfold fs_position in *. rewrite H5 in *. destruct (fm_valid (file_mapping_open (fs_disk s))) eqn:Ev.
  - destruct H2 as [H2|H2]; rewrite H2 in Ev; [|done]. unfold file_mapping_open in *. rewrite H2.
    destruct (Z.leb_spec total 0); [done|]. cbn in *.
    split; [|by rewrite Ev]. split; cbn; auto; [|congruence]. intros _. split_and!; try done; lia.
  - split; [|done]. split; cbn; auto. discriminate.
Qed.

Lemma attempt_idem s : attempt_mapping (attempt_mapping s) = attempt_mapping s.
Proof.
  unfold attempt_mapping at 2 3. destruct (fs_mapping_attempted s) eqn:E; [unfold attempt_mapping; by rewrite E|].
  by destruct (fs_read_only s && _); [destruct (fm_valid _)|].
Qed.

(** The bytes at a position, which may be beyond the end. *)
Definition bytes_at (n : nat) (pos : Z) : bytes := take n (drop (Z.to_nat pos) content).

Lemma mapped_bytes_at n pos : 0 <= pos -> 0 < total - pos ->
  mapped_part content pos (Z.min (total - pos) (Z.of_nat n)) = bytes_at n pos.
Proof.
  intros Hp Hr. unfold mapped_part, bytes_at. destruct (Z.le_ge_cases (Z.of_nat n) (total - pos)).
  - f_equal. lia.
  - rewrite !take_ge; [done|rewrite length_drop; lia..].
Qed.

Lemma bytes_at_length n pos : 0 <= pos -> 0 < total - pos ->
  Z.of_nat (length (bytes_at n pos)) = Z.min (total - pos) (Z.of_nat n).
Proof. intros. unfold bytes_at. rewrite length_take, length_drop. lia. Qed.

(** A read gives the bytes at the position and moves past them; but one that
    needs a window which [mmap] refuses gives nothing. *)
Lemma fs_read_bytes mmap n s out s' :
  fs_inv s -> fs_read page_size (fun _ _ => mmap) n s = (out, s') ->
  fs_inv s' /\ fs_mapping_attempted s' = true /\ fm_valid (fs_mapping s') = maps s /\
  (out = bytes_at n (fs_position s) \/ out = [] /\ mmap = false /\ maps s = true) /\
  fs_position s' = fs_position s + Z.of_nat (length out).
Proof.
  intros H0. destruct (attempt_inv s H0) as [H <-]. unfold fs_read, maps. rewrite <-(attempt_idem s).
  assert (fs_mapping_attempted (attempt_mapping s) = true) as Hat.
  { unfold attempt_mapping. destruct (fs_mapping_attempted s) eqn:E; [done|].
    by destruct (fs_read_only s && _); [destruct (fm_valid _)|]. }
  rewrite !attempt_idem. pose proof (fs_position_bounds _ H) as Hb. set (s1 := attempt_mapping s) in *. clearbody s1.
  pose proof H as [H1 H2 H3 H4 H5 H6]. unfold fs_position in *. destruct (fm_valid (fs_mapping s1)) eqn:Ev.
  - destruct (H4 eq_refl) as (Hdisk & Hmap & Hmp). rewrite H3.
    destruct (Z.leb_spec (total - fs_mapped_pos s1) 0) as [Hle|Hlt].
    { intros [= <- <-]. rewrite Ev. split_and!; [done|done|done| |cbn; lia]. left. unfold bytes_at.
      by rewrite drop_ge, take_nil by lia. }
    rewrite Hdisk. cbn [from_option id]. set (want := Z.min _ (Z.of_nat n)).
    destruct (ensure_window_total page_size (fun _ _ => mmap) content (fs_mapped_pos s1) want (fs_mapping s1) Hmap)
      as [(mem & m' & E)|[E (_ & _ & ->)]]; [lia|lia|unfold want; lia|..]; rewrite E; intros [= <- <-].
    + destruct (ensure_window_covers page_size (fun _ _ => mmap) content Hpage _ _ _ _ _ Hmap E) as (Hm' & _ & Hread).
      assert (fm_valid m' = true) as Ev' by (unfold fm_valid; rewrite (mo_total _ _ Hm'); apply Z.ltb_lt; lia).
      cbn [fs_mapping fs_mapped_pos fs_with_mapping fs_mapping_attempted]. rewrite Ev', Hread. unfold want.
      rewrite mapped_bytes_at, bytes_at_length by lia. split_and!; try done; [|by left].
      split; cbn; auto; try congruence. intros _. split_and!; try done. lia.
    + cbn [fs_mapping fs_mapped_pos fs_with_mapping fs_mapping_attempted]. rewrite Ev.
      split_and!; [|done|done|by right|cbn; lia]. split; cbn; auto; try congruence.
  - unfold fread. intros [= <- <-]. cbn [fs_mapping fs_file fs_with_file fs_mapping_attempted cf_pos cf_with_pos].
    rewrite Ev, H1. split_and!; [|done|done|by left|done].
    split; cbn; auto; try congruence; intros; lia.
Qed.

(** The target of a seek. *)
Definition seek_target (offset : Z) (o : seek_origin) (pos : Z) : Z :=
  match o with seek_begin => offset | seek_current => pos + offset | seek_end => total + offset end.

(** What a seek does: not before the file, and not beyond its end either when it
    is mapped. *)
Definition sought (mapped : bool) (offset : Z) (o : seek_origin) (pos : Z) : Z * Z :=
  let target := seek_target offset o pos in
  if (target <? 0) || (mapped && (total <? target)) then (-1, pos) else (target, target).

Lemma fs_seek_sought offset o s r s' :
  fs_inv s -> fs_seek offset o s = (r, s') ->
  fs_inv s' /\ fm_valid (fs_mapping s') = fm_valid (fs_mapping s) /\ maps s' = maps s /\
  (r, fs_position s') = sought (fm_valid (fs_mapping s)) offset o (fs_position s).
Proof.
  intros H. pose proof (fs_position_bounds s H) as Hb. pose proof H as [H1 H2 H3 H4 H5 H6].
  unfold fs_seek, sought, seek_target, fs_position in *. destruct (fm_valid (fs_mapping s)) eqn:Ev.
  - rewrite H3. replace (match o with seek_begin => 0 | seek_current => fs_mapped_pos s | seek_end => total end + offset)
      with (match o with seek_begin => offset | seek_current => fs_mapped_pos s + offset | seek_end => total + offset end)
      by (by destruct o). set (target := match o with seek_begin => _ | _ => _ end). cbn [andb].
    assert (fs_mapping_attempted s = true) as Ha by (destruct (fs_mapping_attempted s); [done|by discriminate H5]).
    destruct ((target <? 0) || (total <? target)) eqn:Et; intros [= <- <-]; [by rewrite Ev|]. bool_to_prop.
    cbn [fs_mapping fs_mapped_pos fs_with_mapped_pos]. rewrite Ev. split_and!; [|done| |done].
    + destruct (H4 eq_refl) as (? & ? & ?). split; cbn; auto; try congruence.
    + unfold maps, attempt_mapping. cbn [fs_mapping_attempted fs_with_mapped_pos]. by rewrite Ha.
  - unfold fseek, file_size. rewrite H1. set (target := match o with seek_begin => _ | _ => _ end) in *.
    rewrite orb_false_r. destruct (Z.ltb_spec target 0); intros [= <- <-]; [by rewrite Ev|].
    cbn [fs_mapping fs_file fs_with_file cf_pos cf_with_pos]. rewrite Ev. split_and!; [|done| |done].
    + split; cbn; auto; try congruence.
    + unfold maps, attempt_mapping. cbn [fs_mapping_attempted fs_read_only fs_size fs_disk fs_with_file].
      destruct (fs_mapping_attempted s); [done|]. destruct (fs_read_only s && _); [|done]. by destruct (fm_valid (file_mapping_open (fs_disk s))).
Qed.

(** What a client may see of a file at position [pos], once it is [mapped], when
    [later] it will be: a read gives exactly the bytes at the position, or, in a
    mapped file whose window [mmap] refuses, nothing; a seek goes where it is told,
    unless that is before the beginning or, in a mapped file, beyond the end. *)
Fixpoint reads_file (later mapped : bool) (pos : Z) (ops : list file_op) (got : list file_result) : Prop :=
  match ops, got with
  | [], [] => True
  | FRead n mmap :: ops, GotBytes out :: got =>
      (out = bytes_at n pos \/ out = [] /\ mmap = false /\ later = true) /\
      reads_file later later (pos + Z.of_nat (length out)) ops got
  | FSeek offset o :: ops, GotPosition r :: got =>
      r = (sought mapped offset o pos).1 /\ reads_file later mapped (sought mapped offset o pos).2 ops got
  | _, _ => False
  end.

Lemma file_calls_reads ops s :
  fs_inv s -> reads_file (maps s) (fm_valid (fs_mapping s)) (fs_position s) ops (file_calls page_size ops s).
Proof.
  unfold file_calls. revert s. induction ops as [|op ops IH]; intros s H; [done|].
  cbn [run_ops]. destruct op as [n mmap|offset o]; cbn [run_op reads_file].
  - destruct (fs_read page_size _ n s) as [out s'] eqn:E.
    destruct (fs_read_bytes mmap n s out s' H E) as (H' & Ha & Hv & Hout & Hp). split; [done|].
    assert (maps s' = maps s) as Hm by (rewrite <-Hv; unfold maps, attempt_mapping; by rewrite Ha).
    specialize (IH s' H'). by rewrite Hm, Hv, Hp in IH.
  - destruct (fs_seek offset o s) as [r s'] eqn:E.
    destruct (fs_seek_sought offset o s r s' H E) as (H' & Hv & Hm & <-). split; [done|].
    specialize (IH s' H'). by rewrite Hm, Hv in IH.
Qed.

(** No [mmap] is refused, and no seek goes beyond the end while the file is not
    mapped. *)
Fixpoint undisturbed (later mapped : bool) (pos : Z) (ops : list file_op) : Prop :=
  match ops with
  | [] => True
  | FRead n mmap :: ops => mmap = true /\ undisturbed later later (pos + Z.of_nat (length (bytes_at n pos))) ops
  | FSeek offset o :: ops =>
      (mapped = true \/ seek_target offset o pos <= total) /\ undisturbed later mapped (sought true offset o pos).2 ops
  end.

Lemma ms_read_bytes n pos : 0 <= pos <= total ->
  ms_read n (mk_memory_stream content (Z.to_nat pos)) =
    (bytes_at n pos, mk_memory_stream content (Z.to_nat (pos + Z.of_nat (length (bytes_at n pos))))).
Proof.
  intros Hp. unfold ms_read, bytes_at. cbn [ms_data ms_position].
  assert (take (Nat.min n (length content - Z.to_nat pos)) (drop (Z.to_nat pos) content) = take n (drop (Z.to_nat pos) content)) as ->.
  { destruct (Nat.le_ge_cases n (length content - Z.to_nat pos)); [f_equal; lia|]. rewrite !take_ge; [done|rewrite length_drop; lia..]. }
  do 2 f_equal. rewrite length_take, length_drop. lia.
Qed.

Lemma ms_seek_sought offset o pos : 0 <= pos <= total ->
  ms_seek offset o (mk_memory_stream content (Z.to_nat pos)) =
    ((sought true offset o pos).1, mk_memory_stream content (Z.to_nat (sought true offset o pos).2)) /\
  0 <= (sought true offset o pos).2 <= total.
Proof.
  intros Hp. unfold ms_seek, sought, seek_target. cbn [ms_data ms_position andb]. rewrite Z2Nat.id by lia.
  set (target := match o with seek_begin => _ | _ => _ end).
  destruct (Z.ltb_spec target 0), (Z.ltb_spec total target); cbn [orb fst snd]; split; (done || lia).
Qed.

Lemma bytes_at_inside n pos : 0 <= pos <= total -> 0 <= pos + Z.of_nat (length (bytes_at n pos)) <= total.
Proof. intros. unfold bytes_at. rewrite length_take, length_drop. lia. Qed.

(** What is seen then is what memory gives. *)
Lemma reads_file_memory later mapped pos ops got :
  0 <= pos <= total -> undisturbed later mapped pos ops -> reads_file later mapped pos ops got ->
  got = memory_calls ops (mk_memory_stream content (Z.to_nat pos)).
Proof.
  unfold memory_calls. revert mapped pos got. induction ops as [|op ops IH]; intros mapped pos got Hp Hu Hr.
  { by destruct got. }
  destruct op as [n mmap|offset o], got as [|[out|r] got]; try done; cbn [run_ops run_op reads_file undisturbed] in *.
  - destruct Hu as [-> Hu], Hr as [[->|(_ & ? & _)] Hr]; [|done]. rewrite ms_read_bytes by done.
    f_equal. apply (IH later); [by apply bytes_at_inside|done|done].
  - destruct Hu as [Hin Hu], Hr as [-> Hr]. destruct (ms_seek_sought offset o pos Hp) as [-> Hp'].
    assert (sought mapped offset o pos = sought true offset o pos) as Hs.
    { destruct Hin as [->|Hin]; [done|]. unfold sought. rewrite (proj2 (Z.ltb_ge _ _) Hin). by destruct mapped. }
    rewrite Hs in *. f_equal. by apply (IH mapped).
Qed.

(** C31: A file opened for reading, for every sequence of reads and seeks and whatever mmap
    refuses: a read gives exactly the bytes of the file at the position and moves past them,
    through stdio or the sliding window of mapped memory, except that a read whose window mmap
    refuses gives nothing and moves nowhere; a seek goes where it is told or is refused
    (before the beginning, or beyond the end once the file is mapped). So, when mmap is not
    refused and no seek goes beyond the end before the first read, it gives the bytes and
    positions its content in memory gives. *)
Theorem file_stream_equals_memory ops s :
  fs_inv s ->
  reads_file (maps s) (fm_valid (fs_mapping s)) (fs_position s) ops (file_calls page_size ops s) /\
  (fs_position s <= total -> undisturbed (maps s) (fm_valid (fs_mapping s)) (fs_position s) ops ->
   file_calls page_size ops s = memory_calls ops (mk_memory_stream content (Z.to_nat (fs_position s)))).
Proof.
  intros H. split; [by apply file_calls_reads|]. intros Hp Hu. pose proof (fs_position_bounds s H).
  eapply reads_file_memory; [lia|exact Hu|by apply file_calls_reads].
Qed.

(** A stream just opened satisfies the invariant. *)
Lemma open_inv f disk known s :
  cf_content f = content -> cf_pos f = 0 -> disk = Some content \/ disk = None ->
  known < 0 \/ known = total -> file_stream_open (Some f) disk (str "rb") known = Some s -> fs_inv s.
Proof.
  intros Hc Hp Hd Hk [= <-]. split; cbn; auto; [|discriminate|intros _; rewrite Hp; lia].
  destruct (Z.leb_spec 0 known); [lia|]. unfold fseek, file_size. rewrite Hc.
  by destruct (Z.ltb_spec (total + 0) 0); [lia|]; cbn; rewrite Z.add_0_r.
Qed.
End Equivalence.

(** ** Runs *)

Definition demo_content : bytes := str "hello, world".

Definition demo_file : file_stream :=
  mk_file_stream (mk_cfile demo_content 0 false false) 12 (Some demo_content) true false file_mapping_none 0.

Lemma demo_file_inv : fs_inv demo_content demo_file.
Proof. split; cbn; auto; [discriminate|lia]. Qed.

(** A relative seek forward, and one beyond the end that a mapped file refuses. *)
Lemma file_stream_equals_memory_witness :
  file_calls 4096 [FSeek 5 seek_begin; FSeek 2 seek_current; FRead 3 true; FSeek 9 seek_end; FSeek (-1) seek_end; FRead 5 true] demo_file =
    [GotPosition 5; GotPosition 7; GotBytes (str "wor"); GotPosition (-1); GotPosition 11; GotBytes (str "d")].
Proof.
  destruct (file_stream_equals_memory 4096 demo_content ltac:(lia)
    [FSeek 5 seek_begin; FSeek 2 seek_current; FRead 3 true; FSeek 9 seek_end; FSeek (-1) seek_end; FRead 5 true]
    demo_file demo_file_inv) as [_ E].
  rewrite E; [reflexivity|vm_compute; discriminate|].
  cbn [undisturbed]. repeat split; first [left; reflexivity|right; vm_compute; discriminate].
Defined.

(** A window that cannot be mapped reads as the end of the file, although [fread]
    would give its bytes. *)
Example refused_window_reads_nothing :
  file_calls 4096 [FRead 3 false; FRead 3 true] demo_file = [GotBytes []; GotBytes (str "hel")].
Proof. reflexivity. Qed.

(** Before the first read a seek beyond the end succeeds; from the first read on
    it is refused. *)
Example seek_beyond_the_end :
  file_calls 4096 [FSeek 20 seek_begin; FSeek 7 seek_begin; FRead 3 true; FSeek 20 seek_begin] demo_file =
    [GotPosition 20; GotPosition 7; GotBytes (str "wor"); GotPosition (-1)].
Proof. reflexivity. Qed.

(** A window larger than [window_capacity]. *)
Example window_over_capacity :
  let m := mk_mapping true (8 * window_capacity) None in
  let a := Z.quot 0 4096 * 4096 in
  Z.min (Z.max window_capacity (5 * 1024 * 1024 + (0 - a))) (fm_total_size m - a) > window_capacity.
Proof. reflexivity. Qed.
