(* ===== verification/IoContext.v ===== *)
(** * IoContext: src/async/io_context.cpp, src/platform/posix/reactor.cpp and async_socket::close

    One event loop.  A socket's [io_registration] lives in a heap from the
    construction of its [async_socket] to its [close]; the reactor keeps, per
    file descriptor, the interest it was told and a pointer back to the
    registration ([user_data]).  A [coroutine_handle] is a number, and
    [behaviour h] is what the coroutine does with the context when it is
    resumed, up to its next suspension.

    The cross-thread part, [post], [stop] and [run], is a step relation over
    the eventfd of the reactor. *)

From S2P Require Import Prelude.

#[local] Open Scope Z_scope.

(** ** The reactor *)

(** What epoll holds: per fd the interest and [data.ptr]. *)
Abbreviation epoll := (gmap Z (bool * bool * nat)).

(** [EPOLL_CTL_ADD] fails on a known fd, [EPOLL_CTL_MOD] on an unknown one; the
    callers ignore it. *)
Definition reactor_add (fd : Z) (r w : bool) (user_data : nat) (e : epoll) : epoll :=
  match e !! fd with Some _ => e | None => <[fd := (r, w, user_data)]> e end.
Definition reactor_modify (fd : Z) (r w : bool) (user_data : nat) (e : epoll) : epoll :=
  match e !! fd with Some _ => <[fd := (r, w, user_data)]> e | None => e end.
Definition reactor_remove (fd : Z) (e : epoll) : epoll := delete fd e.

(** ** Registrations *)

Record io_registration := mk_reg {
  rg_fd : Z;
  rg_read_waiter : option nat;
  rg_write_waiter : option nat;
  rg_registered : bool;
  rg_interest_read : bool;
  rg_interest_write : bool;
}.

Definition reg_new (fd : Z) : io_registration := mk_reg fd None None false false false.

Record io_context := mk_io {
  io_regs : gmap nat io_registration;
  io_epoll : epoll;
  io_timers : list (Z * nat);      (** [timers_]: deadline and coroutine *)
  io_posted : list nat;
}.

Definition is_set {A} (o : option A) : bool := match o with Some _ => true | None => false end.

(** [update_interest]. *)
Definition update_interest (r : nat) (g : io_registration) (e : epoll) : io_registration * epoll :=
  let want_read := is_set (rg_read_waiter g) in
  let want_write := is_set (rg_write_waiter g) in
  let with_interest registered :=
    mk_reg (rg_fd g) (rg_read_waiter g) (rg_write_waiter g) registered want_read want_write in
  if negb (rg_registered g) then
    if want_read || want_write then (with_interest true, reactor_add (rg_fd g) want_read want_write r e) else (g, e)
  else if Bool.eqb want_read (rg_interest_read g) && Bool.eqb want_write (rg_interest_write g) then (g, e)
  else if negb want_read && negb want_write then (with_interest false, reactor_remove (rg_fd g) e)
  else (with_interest true, reactor_modify (rg_fd g) want_read want_write r e).

Definition set_reg (r : nat) (g : io_registration) (s : io_context) : io_context :=
  let '(g', e) := update_interest r g (io_epoll s) in
  mk_io (<[r := g']> (io_regs s)) e (io_timers s) (io_posted s).

(** A pointer to a registration that is gone is undefined behaviour: [None]. *)
Definition watch_readable (r h : nat) (s : io_context) : option io_context :=
  g ← io_regs s !! r;
  Some (set_reg r (mk_reg (rg_fd g) (Some h) (rg_write_waiter g) (rg_registered g) (rg_interest_read g)
                     (rg_interest_write g)) s).

Definition watch_writable (r h : nat) (s : io_context) : option io_context :=
  g ← io_regs s !! r;
  Some (set_reg r (mk_reg (rg_fd g) (rg_read_waiter g) (Some h) (rg_registered g) (rg_interest_read g)
                     (rg_interest_write g)) s).

(** [async_socket(ctx, handle)]: a registration for an fd the kernel has just
    opened. *)
Definition open_socket (r : nat) (fd : Z) (s : io_context) : io_context :=
  mk_io (<[r := reg_new fd]> (io_regs s)) (io_epoll s) (io_timers s) (io_posted s).

(** [async_socket::close]: [forget], then the registration is freed. *)
Definition forget (g : io_registration) (e : epoll) : epoll :=
  if rg_registered g then reactor_remove (rg_fd g) e else e.

Definition close_socket (r : nat) (s : io_context) : option io_context :=
  g ← io_regs s !! r;
  Some (mk_io (delete r (io_regs s)) (forget g (io_epoll s)) (io_timers s) (io_posted s)).

Definition add_timer (deadline : Z) (h : nat) (s : io_context) : io_context :=
  mk_io (io_regs s) (io_epoll s) (io_timers s ++ [(deadline, h)]) (io_posted s).

(** ** Events *)

Record ready_event := mk_event { ev_user_data : nat; ev_readable : bool; ev_writable : bool }.

(** What a coroutine asks of the context. *)
Inductive io_op :=
| OWatchRead (r h : nat)
| OWatchWrite (r h : nat)
| OOpen (r : nat) (fd : Z)
| OClose (r : nat)
| OTimer (deadline : Z) (h : nat).

Definition io_do (op : io_op) (s : io_context) : option io_context :=
  match op with
  | OWatchRead r h => watch_readable r h s
  | OWatchWrite r h => watch_writable r h s
  | OOpen r fd => Some (open_socket r fd s)
  | OClose r => close_socket r s
  | OTimer d h => Some (add_timer d h s)
  end.

Fixpoint io_do_all (ops : list io_op) (s : io_context) : option io_context :=
  match ops with [] => Some s | op :: r => s1 ← io_do op s; io_do_all r s1 end.

Section Loop.
Context (behaviour : nat -> list io_op).

(** The coroutines an event takes out of their slots. *)
Definition take_waiters (e : ready_event) (g : io_registration) : list nat * io_registration :=
  let '(rd, g1) :=
    if ev_readable e && is_set (rg_read_waiter g)
    then (rg_read_waiter g, mk_reg (rg_fd g) None (rg_write_waiter g) (rg_registered g) (rg_interest_read g)
                              (rg_interest_write g))
    else (None, g) in
  let '(wr, g2) :=
    if ev_writable e && is_set (rg_write_waiter g1)
    then (rg_write_waiter g1, mk_reg (rg_fd g1) (rg_read_waiter g1) None (rg_registered g1) (rg_interest_read g1)
                                (rg_interest_write g1))
    else (None, g1) in
  (option_list rd ++ option_list wr, g2).

Definition take_event (e : ready_event) (s : io_context) : option (list nat * io_context) :=
  g ← io_regs s !! ev_user_data e;
  let '(hs, g') := take_waiters e g in
  Some (hs, set_reg (ev_user_data e) g' s).

(** [h.resume()] of each, in order. *)
Fixpoint resume_all (hs : list nat) (s : io_context) : option io_context :=
  match hs with [] => Some s | h :: r => s1 ← io_do_all (behaviour h) s; resume_all r s1 end.

(** [process_ready_events]: who is resumed, and the context after it. *)
Fixpoint process_ready_events (events : list ready_event) (s : io_context) : option (list nat * io_context) :=
  match events with
  | [] => Some ([], s)
  | e :: r =>
      '(hs, s1) ← take_event e s;
      s2 ← resume_all hs s1;
      '(hs', s3) ← process_ready_events r s2;
      Some (hs ++ hs', s3)
  end.

(** ** Timers

    [timers_] is a heap ordered by [timer_later]: its front is a timer of the
    earliest deadline. *)

Fixpoint earliest (ts : list (Z * nat)) : option (Z * nat) :=
  match ts with
  | [] => None
  | t :: r => match earliest r with Some u => if u.1 <? t.1 then Some u else Some t | None => Some t end
  end.

Fixpoint remove_timer (t : Z * nat) (ts : list (Z * nat)) : list (Z * nat) :=
  match ts with
  | [] => []
  | u :: r => if bool_decide (u = t) then r else u :: remove_timer t r
  end.

(** [process_timers] at time [now]: the timers that fire, in order. *)
Fixpoint process_timers (fuel : nat) (now : Z) (s : io_context) : option (list (Z * nat) * io_context) :=
  match earliest (io_timers s) with
  | None => Some ([], s)
  | Some t =>
      if t.1 <=? now then
        match fuel with
        | O => None
        | S f =>
            s1 ← io_do_all (behaviour t.2)
                   (mk_io (io_regs s) (io_epoll s) (remove_timer t (io_timers s)) (io_posted s));
            '(fired, s2) ← process_timers f now s1;
            Some (t :: fired, s2)
        end
      else Some ([], s)
  end.
End Loop.

(** [compute_timeout_ms]; times are in nanoseconds. *)
Definition int_max : Z := 2147483647.

Definition compute_timeout_ms (now : Z) (s : io_context) : Z :=
  match earliest (io_timers s) with
  | None => -1
  | Some t =>
      let ms := Z.quot (t.1 - now) 1000000 in
      let ms := if ms <? 0 then 0 else ms in
      if int_max <? ms then int_max else ms
  end.

(** ** Threads *)

(** The thread of [run], at its accesses to shared state. *)
Inductive loop_pc := LTest | LWait | LDrain | LReturned.
(** A thread inside [post]; [PostWake] is about to write the eventfd. *)
Inductive post_pc := PostPush (h : nat) | PostWake | PostReturned.
Inductive halt_pc := HaltStore | HaltWake | HaltReturned.

Record threads := mk_threads {
  th_posted : list nat;
  th_signalled : bool;         (** the eventfd is readable *)
  th_stopping : bool;
  th_loop : loop_pc;
  th_posters : list post_pc;
  th_halt : halt_pc;
  th_resumed : list nat;       (** the coroutines [drain_posted] has resumed *)
}.

Definition threads_new (hs : list nat) : threads :=
  mk_threads [] false false LTest (map PostPush hs) HaltStore [].

(** [LWait] returns because the eventfd is readable and among the events
    reported ([seen]: its value is then read), or for another event or a timer
    ([other]). *)
Definition loop_step (seen other : bool) (s : threads) : option threads :=
  match th_loop s with
  | LTest => Some (mk_threads (th_posted s) (th_signalled s) (th_stopping s)
                     (if th_stopping s then LReturned else LWait) (th_posters s) (th_halt s) (th_resumed s))
  | LWait =>
      if (th_signalled s && seen) || other
      then Some (mk_threads (th_posted s) (th_signalled s && negb seen) (th_stopping s) LDrain (th_posters s) (th_halt s) (th_resumed s))
      else None
  | LDrain => Some (mk_threads [] (th_signalled s) (th_stopping s) LTest (th_posters s) (th_halt s)
                      (th_resumed s ++ th_posted s))
  | LReturned => None
  end.

Definition post_step (j : nat) (s : threads) : option threads :=
  p ← th_posters s !! j;
  match p with
  | PostPush h => Some (mk_threads (th_posted s ++ [h]) (th_signalled s) (th_stopping s) (th_loop s)
                          (<[j := PostWake]> (th_posters s)) (th_halt s) (th_resumed s))
  | PostWake => Some (mk_threads (th_posted s) true (th_stopping s) (th_loop s)
                        (<[j := PostReturned]> (th_posters s)) (th_halt s) (th_resumed s))
  | PostReturned => None
  end.

(** [stop]. *)
Definition halt_step (s : threads) : option threads :=
  match th_halt s with
  | HaltStore => Some (mk_threads (th_posted s) (th_signalled s) true (th_loop s) (th_posters s) HaltWake (th_resumed s))
  | HaltWake => Some (mk_threads (th_posted s) true (th_stopping s) (th_loop s) (th_posters s) HaltReturned (th_resumed s))
  | HaltReturned => None
  end.

Inductive io_reach (s0 : threads) : threads -> Prop :=
| io_refl : io_reach s0 s0
| io_loop s seen other s' : io_reach s0 s -> loop_step seen other s = Some s' -> io_reach s0 s'
| io_post s j s' : io_reach s0 s -> post_step j s = Some s' -> io_reach s0 s'
| io_halt s s' : io_reach s0 s -> halt_step s = Some s' -> io_reach s0 s'.
