(* ===== verification/IoContextFacts.v ===== *)
(** * IoContextFacts: interest follows the waiters, timers fire, nothing posted is lost *)

From S2P Require Import Prelude IoContext.

#[local] Open Scope Z_scope.

(** ** Interest *)

(** The reactor is told exactly what the waiters of [g] want. *)
Definition reg_ok (r : nat) (g : io_registration) (e : epoll) : Prop :=
  let rd := is_set (rg_read_waiter g) in
  let wr := is_set (rg_write_waiter g) in
  rg_registered g = rd || wr /\
  (rg_registered g = true -> rg_interest_read g = rd /\ rg_interest_write g = wr) /\
  e !! rg_fd g = if rd || wr then Some (rd, wr, r) else None.

Record io_inv (s : io_context) : Prop := mk_io_inv {
  ii_regs : forall r g, io_regs s !! r = Some g -> reg_ok r g (io_epoll s);
  ii_epoll : forall fd rd wr r, io_epoll s !! fd = Some (rd, wr, r) ->
    exists g, io_regs s !! r = Some g /\ rg_fd g = fd;
  ii_fds : forall r r' g g', io_regs s !! r = Some g -> io_regs s !! r' = Some g' -> rg_fd g = rg_fd g' -> r = r';
}.

(** What [update_interest] needs to find: the interest recorded is the one
    the reactor has. *)
Definition told (r : nat) (g : io_registration) (e : epoll) : Prop :=
  e !! rg_fd g = (if rg_registered g then Some (rg_interest_read g, rg_interest_write g, r) else None) /\
  (rg_registered g = true -> rg_interest_read g || rg_interest_write g = true).

Lemma reg_ok_told r g e : reg_ok r g e -> told r g e.
Proof.
  intros (E1 & E2 & E3). unfold told. rewrite E3. destruct (rg_registered g) eqn:Eg; rewrite <-E1; [|by split].
  destruct (E2 eq_refl) as [-> ->]. by split.
Qed.

Lemma update_interest_ok r g e :
  told r g e ->
  let '(g', e') := update_interest r g e in
  reg_ok r g' e' /\ rg_fd g' = rg_fd g /\ rg_read_waiter g' = rg_read_waiter g /\ rg_write_waiter g' = rg_write_waiter g /\
  forall fd, fd <> rg_fd g -> e' !! fd = e !! fd.
Proof.
  unfold told, update_interest, reactor_add, reactor_modify, reactor_remove. intros [Ht Hsome].
  destruct (is_set (rg_read_waiter g)) eqn:Er, (is_set (rg_write_waiter g)) eqn:Ew, (rg_registered g) eqn:Eg;
    cbn [negb orb andb]; rewrite ?Ht.
  all: try (destruct (Bool.eqb _ _ && Bool.eqb _ _) eqn:Eb;
    [apply andb_true_iff in Eb as [?%eqb_prop ?%eqb_prop]|]).
  all: unfold reg_ok; cbn; rewrite ?Er, ?Ew, ?Eg; cbn; rewrite ?lookup_insert_eq, ?lookup_delete_eq.
  all: split_and!; try done; try (intros; by rewrite ?lookup_insert_ne, ?lookup_delete_ne by congruence).
  all: try (rewrite Ht; congruence).
  all: specialize (Hsome eq_refl); destruct (rg_interest_read g), (rg_interest_write g); done.
Qed.

(** A registration whose waiters have changed is updated. *)
Lemma set_reg_inv r g0 g s :
  io_inv s -> io_regs s !! r = Some g0 -> rg_fd g = rg_fd g0 -> rg_registered g = rg_registered g0 ->
  rg_interest_read g = rg_interest_read g0 -> rg_interest_write g = rg_interest_write g0 -> io_inv (set_reg r g s).
Proof.
  intros [H1 H2 H3] Hr Hfd Hreg Hir Hiw. unfold set_reg.
  assert (told r g (io_epoll s)) as Ht.
  { pose proof (reg_ok_told _ _ _ (H1 r g0 Hr)) as Ht. unfold told in *. by rewrite Hfd, Hreg, Hir, Hiw. }
  pose proof (update_interest_ok r g (io_epoll s) Ht) as Hu. destruct (update_interest r g (io_epoll s)) as [g' e].
  destruct Hu as (Hok & Hfd' & _ & _ & Hother). split; cbn.
  - intros r1 g1 [[<- <-]|[Hne Hr1]]%lookup_insert_Some; [done|]. destruct (H1 r1 g1 Hr1) as (E1 & E2 & E3).
    split_and!; [done|done|]. rewrite Hother; [done|]. intros E. apply Hne. apply (H3 r r1 g0 g1); [done|done|congruence].
  - intros fd rd wr r1. destruct (decide (fd = rg_fd g)) as [->|Hne].
    + destruct Hok as (_ & _ & E). rewrite Hfd' in E. rewrite E. destruct (_ || _); [|done]. intros [= <- <- <-].
      exists g'. by rewrite lookup_insert_eq.
    + rewrite Hother by done. intros E. destruct (H2 _ _ _ _ E) as (g1 & Hg1 & Hf1). exists g1.
      rewrite lookup_insert_ne; [done|]. intros <-. congruence.
  - intros r1 r2 g1 g2 [[<- <-]|[Hn1 Hr1]]%lookup_insert_Some [[<- <-]|[Hn2 Hr2]]%lookup_insert_Some E; try done.
    + apply (H3 r r2 g0 g2); [done|done|congruence].
    + apply (H3 r1 r g1 g0); [done|done|congruence].
    + by apply (H3 r1 r2 g1 g2).
Qed.

(** The fd of a new socket is not open yet, nor its registration in use. *)
Definition fresh (op : io_op) (s : io_context) : Prop :=
  match op with
  | OOpen r fd => io_regs s !! r = None /\ forall r' g, io_regs s !! r' = Some g -> rg_fd g <> fd
  | _ => True
  end.

Lemma io_do_inv op s s' : io_inv s -> fresh op s -> io_do op s = Some s' -> io_inv s'.
Proof.
  intros H Hf. pose proof H as [H1 H2 H3]. destruct op as [r h|r h|r fd|r|d h]; cbn.
  - unfold watch_readable. destruct (io_regs s !! r) as [g|] eqn:E; [|done]. intros [= <-].
    by eapply set_reg_inv.
  - unfold watch_writable. destruct (io_regs s !! r) as [g|] eqn:E; [|done]. intros [= <-].
    by eapply set_reg_inv.
  - intros [= <-]. destruct Hf as [Hn Hfd].
    assert (io_epoll s !! fd = None) as He.
    { destruct (io_epoll s !! fd) as [[[rd wr] r']|] eqn:E; [|done].
      destruct (H2 _ _ _ _ E) as (g & Hg & Hg'). by destruct (Hfd r' g Hg). }
    split; cbn.
    + intros r1 g1 [[<- <-]|[_ Hr1]]%lookup_insert_Some; [|by apply H1]. by split_and!.
    + intros fd1 rd wr r1 E. destruct (H2 _ _ _ _ E) as (g & Hg & Hg'). exists g.
      rewrite lookup_insert_ne; [done|congruence].
    + intros r1 r2 g1 g2 [[<- <-]|[Hn1 Hr1]]%lookup_insert_Some [[<- <-]|[Hn2 Hr2]]%lookup_insert_Some E; try done.
      * by destruct (Hfd r2 g2 Hr2).
      * by destruct (Hfd r1 g1 Hr1).
      * by apply (H3 r1 r2 g1 g2).
  - unfold close_socket. destruct (io_regs s !! r) as [g|] eqn:E; [|done]. intros [= <-].
    destruct (H1 r g E) as (E1 & E2 & E3).
    assert (forall fd, forget g (io_epoll s) !! fd = if decide (fd = rg_fd g) then None else io_epoll s !! fd) as He.
    { intros fd. unfold forget, reactor_remove. case_decide as Ed; destruct (rg_registered g) eqn:Eg.
      - subst fd. by rewrite lookup_delete_eq.
      - subst fd. by rewrite E3, <-E1.
      - by rewrite lookup_delete_ne.
      - done. }
    split; cbn.
    + intros r1 g1 [Hne Hr1]%lookup_delete_Some. destruct (H1 r1 g1 Hr1) as (F1 & F2 & F3).
      split_and!; [done|done|]. rewrite He, decide_False; [done|]. intros Ef. apply Hne. by apply (H3 r r1 g g1).
    + intros fd rd wr r1. rewrite He. case_decide as Ed; [done|]. intros Ee.
      destruct (H2 _ _ _ _ Ee) as (g1 & Hg1 & Hf1). exists g1. split; [|done].
      rewrite lookup_delete_ne; [done|]. intros <-. congruence.
    + intros r1 r2 g1 g2 [_ Hr1]%lookup_delete_Some [_ Hr2]%lookup_delete_Some. by apply H3.
  - intros [= <-]. by split.
Qed.

Lemma take_event_inv e s hs s' : io_inv s -> take_event e s = Some (hs, s') -> io_inv s'.
Proof.
  intros H. unfold take_event. destruct (io_regs s !! ev_user_data e) as [g|] eqn:E; [|done]. cbn [mbind option_bind].
  destruct (take_waiters e g) as [hs1 g1] eqn:Et. intros [= <- <-].
  unfold take_waiters in Et. destruct (ev_readable e && _); destruct (ev_writable e && _); injection Et as <- <-;
    by eapply set_reg_inv.
Qed.

(** The runs of the loop's own thread: events and what the coroutines do. *)
Inductive io_run : io_context -> Prop :=
| run_start : io_run (mk_io ∅ ∅ [] [])
| run_op s op s' : io_run s -> fresh op s -> io_do op s = Some s' -> io_run s'
| run_event s e hs s' : io_run s -> take_event e s = Some (hs, s') -> io_run s'.

Lemma io_run_inv s : io_run s -> io_inv s.
Proof.
  induction 1 as [|s op s' _ IH Hf Hd|s e hs s' _ IH Ht].
  - split; cbn; intros *; by rewrite lookup_empty.
  - by eapply io_do_inv.
  - by eapply take_event_inv.
Qed.

(** C32: In every state the event loop reaches, the reactor is told exactly what the suspended
    coroutines wait for: a socket is registered iff it has a waiter, with exactly the
    directions waited for and a pointer to its own registration, and the reactor keeps no
    pointer to a registration that is gone. *)
Theorem io_interest_exact s :
  io_run s ->
  (forall r g, io_regs s !! r = Some g ->
     io_epoll s !! rg_fd g =
       match rg_read_waiter g, rg_write_waiter g with
       | None, None => None
       | rd, wr => Some (is_set rd, is_set wr, r)
       end) /\
  (forall fd rd wr r, io_epoll s !! fd = Some (rd, wr, r) -> exists g, io_regs s !! r = Some g /\ rg_fd g = fd).
Proof.
  intros Hr. destruct (io_run_inv s Hr) as [H1 H2 _].
  split; [|done]. intros r g Hg. destruct (H1 r g Hg) as (_ & _ & ->).
  by destruct (rg_read_waiter g), (rg_write_waiter g).
Qed.

(** ** Timers *)

Lemma earliest_spec ts t : earliest ts = Some t -> t ∈ ts /\ Forall (fun u => t.1 <= u.1) ts.
Proof.
  revert t. induction ts as [|u ts IH]; intros t; cbn; [done|].
  destruct (earliest ts) as [v|] eqn:E.
  - destruct (IH v eq_refl) as [Hin Hall]. destruct (Z.ltb_spec v.1 u.1); intros [= <-].
    + split; [by right|]. constructor; [lia|done].
    + split; [by left|]. constructor; [lia|]. eapply Forall_impl; [done|]. cbn. lia.
  - destruct ts as [|w ts]; [|cbn in E; by destruct (earliest ts) as [x|]; [destruct (x.1 <? w.1)|]].
    intros [= <-]. split; [by left|]. constructor; [lia|done].
Qed.

Lemma earliest_none ts : earliest ts = None -> ts = [].
Proof.
  destruct ts as [|u ts]; [done|]. cbn. destruct (earliest ts) as [v|]; [destruct (v.1 <? u.1)|]; done.
Qed.

Lemma remove_timer_perm t ts : t ∈ ts -> ts ≡ₚ t :: remove_timer t ts.
Proof.
  induction ts as [|u ts IH]; [by intros ?%elem_of_nil|]. cbn. case_bool_decide as E; [by subst|].
  intros [->|Hin]%elem_of_cons; [done|]. rewrite (IH Hin) at 1. apply Permutation_swap.
Qed.

Section Timers.
Context (behaviour : nat -> list io_op) (now : Z).

(** A coroutine that is resumed only asks for later timers. *)
Hypothesis later : forall h s, exists s' new, io_do_all (behaviour h) s = Some s' /\
  io_timers s' = io_timers s ++ new /\ Forall (fun t => now < t.1) new.

Definition due (ts : list (Z * nat)) : list (Z * nat) := base.filter (fun t => t.1 <= now) ts.

Lemma due_later ts : Forall (fun t => now < t.1) ts -> due ts = [].
Proof. intros H. unfold due. induction H as [|t ts Ht _ IH]; [done|]. rewrite filter_cons_False by lia. done. Qed.

Lemma due_perm ts ts' : ts ≡ₚ ts' -> due ts ≡ₚ due ts'.
Proof. intros H. unfold due. by rewrite H. Qed.

Definition before (t u : Z * nat) : Prop := t.1 <= u.1.

(** process_timers resumes exactly the timers that are due, in the order of their deadlines, and
    leaves only later ones, also when the resumed coroutines ask for further timers. *)
Lemma timers_fire_in_order s fuel :
  (length (due (io_timers s)) <= fuel)%nat ->
  exists fired s', process_timers behaviour fuel now s = Some (fired, s') /\
    fired ≡ₚ due (io_timers s) /\ StronglySorted before fired /\ Forall (fun t => now < t.1) (io_timers s').
Proof.
  revert s. induction fuel as [|f IH]; intros s Hf; cbn [process_timers];
    destruct (earliest (io_timers s)) as [t|] eqn:Et.
  2, 4: exists [], s; apply earliest_none in Et; rewrite Et; repeat constructor.
  all: destruct (earliest_spec _ _ Et) as [Hin Hmin]; destruct (Z.leb_spec t.1 now) as [Hle|Hlt].
  2, 4: exists [], s; assert (Forall (fun u => now < u.1) (io_timers s)) as Hl
      by (eapply Forall_impl; [exact Hmin|]; cbn; lia); rewrite (due_later _ Hl); repeat constructor; done.
  - assert (t ∈ due (io_timers s)) as Hd by (unfold due; by apply list_elem_of_filter).
    destruct (due (io_timers s)); [by apply elem_of_nil in Hd|cbn in Hf; lia].
  - pose proof (remove_timer_perm t _ Hin) as Hp.
    assert (due (io_timers s) ≡ₚ t :: due (remove_timer t (io_timers s))) as Hd.
    { rewrite (due_perm _ _ Hp). unfold due. by rewrite filter_cons_True. }
    set (s0 := mk_io _ _ _ _). destruct (later t.2 s0) as (s1 & new & -> & Ht1 & Hnew). cbn [mbind option_bind].
    assert (due (io_timers s1) = due (remove_timer t (io_timers s))) as Hd1.
    { rewrite Ht1. unfold due in *. rewrite filter_app. cbn [io_timers s0].
      pose proof (due_later new Hnew) as E. unfold due in E. by rewrite E, app_nil_r. }
    destruct (IH s1) as (fired & s' & -> & Hfp & Hsort & Hrest).
    { rewrite Hd1. apply Permutation_length in Hd. cbn in Hd. lia. }
    cbn [mbind option_bind]. exists (t :: fired), s'. split; [done|]. rewrite Hd1 in Hfp. split; [by rewrite Hd, Hfp|].
    split; [|done]. constructor; [done|]. rewrite Hfp. unfold due. apply Forall_forall. intros u Hu.
    apply list_elem_of_filter in Hu as [_ Hu]. unfold before. rewrite Forall_forall in Hmin. apply Hmin.
    rewrite Hp. by right.
Qed.
End Timers.

(** The timeout given to the reactor fits its type and never outlasts the earliest deadline. *)
Lemma timeout_never_late now s t :
  earliest (io_timers s) = Some t ->
  0 <= compute_timeout_ms now s <= int_max /\ compute_timeout_ms now s * 1000000 <= Z.max 0 (t.1 - now).
Proof.
  intros Et. unfold compute_timeout_ms, int_max. rewrite Et.
  destruct (Z.le_gt_cases 0 (t.1 - now)) as [Hd|Hd].
  - rewrite Z.quot_div_nonneg by lia. pose proof (Z.div_pos (t.1 - now) 1000000 ltac:(lia) ltac:(lia)) as Hq.
    pose proof (Z.mul_div_le (t.1 - now) 1000000 ltac:(lia)).
    destruct (Z.ltb_spec ((t.1 - now) / 1000000) 0); [lia|].
    destruct (Z.ltb_spec 2147483647 ((t.1 - now) / 1000000)); lia.
  - assert (Z.quot (t.1 - now) 1000000 <= 0) as Hq.
    { replace (t.1 - now) with (- (now - t.1)) by lia. rewrite Z.quot_opp_l by lia.
      pose proof (Z.quot_pos (now - t.1) 1000000 ltac:(lia) ltac:(lia)). lia. }
    destruct (Z.ltb_spec (Z.quot (t.1 - now) 1000000) 0).
    + destruct (Z.ltb_spec 2147483647 0); lia.
    + destruct (Z.ltb_spec 2147483647 (Z.quot (t.1 - now) 1000000)); lia.
Qed.

(** ** Posts *)

Definition waking (p : post_pc) : bool := match p with PostWake => true | _ => false end.
Definition to_push (p : post_pc) : option nat := match p with PostPush h => Some h | _ => None end.

Definition some_waking (s : threads) : Prop := exists j, th_posters s !! j = Some PostWake.

Record th_inv (hs : list nat) (s : threads) : Prop := mk_th_inv {
  ti_posts : th_resumed s ++ th_posted s ++ omap to_push (th_posters s) ≡ₚ hs;
  ti_posted : th_posted s <> [] -> th_signalled s = true \/ some_waking s \/ th_loop s = LDrain;
  ti_halt : th_stopping s = true -> th_signalled s = true \/ th_halt s = HaltWake \/
    th_loop s = LDrain \/ th_loop s = LTest \/ th_loop s = LReturned;
  ti_store : th_halt s <> HaltStore -> th_stopping s = true;
}.

Lemma some_waking_insert s j p p' posted sig stop loop halt res :
  th_posters s !! j = Some p -> waking p' = true \/ (waking p = false /\ some_waking s) ->
  some_waking (mk_threads posted sig stop loop (<[j := p']> (th_posters s)) halt res).
Proof.
  intros Hj [Hp'|[Hp (i & Hi)]].
  - exists j. cbn. rewrite list_lookup_insert_eq by (by eapply lookup_lt_Some). by destruct p'.
  - exists i. cbn. rewrite list_lookup_insert_ne; [done|]. intros <-. rewrite Hj in Hi. injection Hi as ->. done.
Qed.

Lemma push_insert (l : list post_pc) j p p' :
  l !! j = Some p -> option_list (to_push p) ++ omap to_push (<[j := p']> l) ≡ₚ option_list (to_push p') ++ omap to_push l.
Proof.
  intros Hj. rewrite <-(take_drop_middle l j p Hj) at 2. rewrite insert_take_drop by (by eapply lookup_lt_Some).
  rewrite !omap_app. cbn. destruct (to_push p), (to_push p'); cbn; solve_Permutation.
Qed.

Lemma loop_inv hs seen other s s' : th_inv hs s -> loop_step seen other s = Some s' -> th_inv hs s'.
Proof.
  intros [H1 H2 H3 H4]. unfold loop_step. destruct (th_loop s) eqn:El; try done.
  - intros [= <-]. split; cbn; try done.
    + intros Hne. destruct (H2 Hne) as [?|[?|?]]; auto. done.
    + destruct (th_stopping s); [|done]. intros _. auto.
  - destruct ((th_signalled s && seen) || other); [|done]. intros [= <-]. split; cbn; auto.
  - intros [= <-]. split; cbn; auto. rewrite <-H1, <-!app_assoc. done.
Qed.

Lemma post_inv hs j s s' : th_inv hs s -> post_step j s = Some s' -> th_inv hs s'.
Proof.
  intros [H1 H2 H3 H4]. unfold post_step. destruct (th_posters s !! j) as [p|] eqn:Hj; [|done].
  cbn [mbind option_bind]. destruct p as [h| |]; try done; intros [= <-]; split; cbn; auto.
  - pose proof (push_insert _ _ _ PostWake Hj) as Hp. cbn in Hp. rewrite <-H1, <-Hp, <-!app_assoc. done.
  - intros _. right. left. eapply some_waking_insert; [done|]. by left.
  - pose proof (push_insert _ _ _ PostReturned Hj) as Hp. cbn in Hp. by rewrite Hp.
Qed.

Lemma halt_inv hs s s' : th_inv hs s -> halt_step s = Some s' -> th_inv hs s'.
Proof.
  intros [H1 H2 H3 H4]. unfold halt_step. destruct (th_halt s) eqn:Eh; try done; intros [= <-]; split; cbn; auto.
Qed.

Lemma th_inv_reach hs s : io_reach (threads_new hs) s -> th_inv hs s.
Proof.
  intros Hr. induction Hr as [|s seen other s' _ IH Hs|s j s' _ IH Hs|s s' _ IH Hs].
  - split; cbn; try done. induction hs as [|h hs IH]; [done|]. cbn. by rewrite IH.
  - by eapply loop_inv.
  - by eapply post_inv.
  - by eapply halt_inv.
Qed.

(** C34: Every coroutine posted from another thread is resumed at most once and none is lost:
    while the loop sleeps unsignalled, a pending coroutine means its poster is about to wake
    the reactor, and a stop request means stop() is; what is resumed, pending and still to be
    posted is always exactly what was given. *)
Theorem io_no_lost_post hs s :
  io_reach (threads_new hs) s ->
  th_resumed s ++ th_posted s ++ omap to_push (th_posters s) ≡ₚ hs /\
  (th_loop s = LWait -> th_signalled s = false ->
   (th_posted s <> [] -> some_waking s) /\ (th_stopping s = true -> th_halt s = HaltWake)).
Proof.
  intros Hr. destruct (th_inv_reach hs s Hr) as [H1 H2 H3 _]. split; [done|]. intros El Es. rewrite El, Es in H2, H3. split.
  - intros Hne. by destruct (H2 Hne) as [?|[?|?]].
  - intros Hst. by destruct (H3 Hst) as [?|[?|[?|[?|?]]]].
Qed.

(** ** Runs *)

(** A socket of fd 5 whose reader waits. *)
Definition demo_io : io_context :=
  default (mk_io ∅ ∅ [] []) (io_do_all [OOpen 0 5; OWatchRead 0 1] (mk_io ∅ ∅ [] [])).

Lemma demo_io_run : io_run demo_io.
Proof.
  apply (run_op (open_socket 0 5 (mk_io ∅ ∅ [] [])) (OWatchRead 0 1)); [|exact I|reflexivity].
  apply (run_op (mk_io ∅ ∅ [] []) (OOpen 0 5)); [constructor| |reflexivity].
  split; [done|]. cbn [io_regs]. intros r g. by rewrite lookup_empty.
Qed.

Lemma io_interest_exact_witness : io_epoll demo_io !! 5 = Some (true, false, 0%nat).
Proof.
  destruct (io_interest_exact demo_io demo_io_run) as [H _].
  exact (H 0%nat (mk_reg 5 (Some 1%nat) None true true false) eq_refl).
Defined.

Lemma timers_fire_in_order_witness :
  exists fired s', process_timers (fun _ => [OTimer 30 9]) 2 20 (mk_io ∅ ∅ [(25, 1%nat); (20, 2%nat); (10, 3%nat)] []) =
      Some (fired, s') /\ StronglySorted before fired.
Proof.
  destruct (timers_fire_in_order (fun _ => [OTimer 30 9]) 20) with
    (s := mk_io ∅ ∅ [(25, 1%nat); (20, 2%nat); (10, 3%nat)] []) (fuel := 2%nat) as (fired & s' & Hr & _ & Hs & _).
  - intros h s. exists (add_timer 30 9 s), [(30, 9%nat)]. split; [reflexivity|]. split; [reflexivity|].
    repeat constructor.
  - vm_compute. constructor.
  - exists fired, s'. split; [exact Hr|exact Hs].
Defined.

Lemma timeout_never_late_witness :
  compute_timeout_ms 0 (mk_io ∅ ∅ [(2500000, 1%nat)] []) = 2 /\
  compute_timeout_ms 0 (mk_io ∅ ∅ [(2500000, 1%nat)] []) * 1000000 <= 2500000.
Proof.
  split; [reflexivity|].
  exact (proj2 (timeout_never_late 0 (mk_io ∅ ∅ [(2500000, 1%nat)] []) (2500000, 1%nat) eq_refl)).
Defined.

(** A coroutine has been posted and not woken for. *)
Definition demo_threads : threads := mk_threads [7%nat] false false LWait [PostWake] HaltStore [].

Lemma demo_threads_reach : io_reach (threads_new [7%nat]) demo_threads.
Proof.
  apply (io_post _ (mk_threads [] false false LWait [PostPush 7] HaltStore []) 0); [|reflexivity].
  apply (io_loop _ (threads_new [7%nat]) false false); [apply io_refl|reflexivity].
Qed.

Lemma io_no_lost_post_witness : th_loop demo_threads = LWait /\ some_waking demo_threads.
Proof.
  split; [reflexivity|]. destruct (io_no_lost_post [7%nat] demo_threads demo_threads_reach) as [_ H].
  apply (proj1 (H eq_refl eq_refl)). discriminate.
Defined.

(** Two sockets are ready in one batch, and the coroutine resumed for the
    first closes the second: the second event's [user_data] is dangling. *)
Example event_after_close :
  let s := default (mk_io ∅ ∅ [] []) (io_do_all [OOpen 0 5; OOpen 1 6; OWatchRead 0 1; OWatchRead 1 2] (mk_io ∅ ∅ [] [])) in
  let behaviour h := if (h =? 1)%nat then [OClose 1] else [] in
  process_ready_events behaviour [mk_event 0 true false] s <> None /\
  process_ready_events behaviour [mk_event 0 true false; mk_event 1 true false] s = None.
Proof. vm_compute. split; [discriminate|reflexivity]. Qed.
