(* ===== verification/Reactor.v ===== *)
(** * Reactor: the interface of include/nhttp/platform/reactor.hpp

    [Reactor] is [platform::reactor]; [ReactorSpec] is what [io_context] relies on:
    a reactor keeps the registrations it is told, reports events of registered
    sockets only, and its wait never touches anything else.  [IoContext] is
    verified over the abstract table of registrations; here [io_context]'s calls
    are made on any reactor, and the two are shown to run in step. *)

From S2P Require Import Prelude IoContext IoContextFacts.

#[local] Open Scope Z_scope.

Class Reactor (R : Type) := {
  r_new : R;
  r_add : Z -> bool -> bool -> nat -> R -> option (bool * R);
  r_modify : Z -> bool -> bool -> nat -> R -> option (bool * R);
  r_remove : Z -> R -> option R;
  r_wait : nat -> R -> option (list ready_event * R);
  r_wake : R -> R;
  r_network : R -> R -> Prop;        (** the system's own steps: readiness changes *)
}.

(** An event is for a socket that is registered, with its user data. *)
Definition event_for (regs : gmap Z (bool * bool * nat)) (ev : ready_event) : Prop :=
  exists fd rd wr, regs !! fd = Some (rd, wr, ev_user_data ev) /\ ev_readable ev || ev_writable ev = true.

Class ReactorSpec (R : Type) `{Reactor R} := {
  r_ok : R -> Prop;
  r_regs : R -> gmap Z (bool * bool * nat);
  r_own : Z -> Prop;                 (** descriptors of the reactor itself *)
  r_quiet : Z -> R -> Prop;          (** the socket may be removed *)
  r_new_spec : r_ok r_new /\ r_regs r_new = ∅;
  r_add_spec fd rd wr u s :
    r_ok s -> ~ r_own fd -> r_regs s !! fd = None ->
    exists b s', r_add fd rd wr u s = Some (b, s') /\ r_ok s' /\ r_regs s' = reactor_add fd rd wr u (r_regs s);
  r_modify_spec fd rd wr u s :
    r_ok s -> ~ r_own fd -> rd || wr = true -> is_Some (r_regs s !! fd) ->
    exists b s', r_modify fd rd wr u s = Some (b, s') /\ r_ok s' /\ r_regs s' = reactor_modify fd rd wr u (r_regs s);
  r_remove_spec fd s :
    r_ok s -> ~ r_own fd -> r_quiet fd s ->
    exists s', r_remove fd s = Some s' /\ r_ok s' /\ r_regs s' = reactor_remove fd (r_regs s);
  r_wait_spec max_events s :
    r_ok s -> exists evs s', r_wait max_events s = Some (evs, s') /\ r_ok s' /\ r_regs s' = r_regs s /\
      (length evs <= max_events)%nat /\ Forall (event_for (r_regs s)) evs;
  r_wake_spec s : r_ok s -> r_ok (r_wake s) /\ r_regs (r_wake s) = r_regs s;
  r_network_spec s s' : r_ok s -> r_network s s' -> r_ok s' /\ r_regs s' = r_regs s;
}.

(** ** [io_context] over a reactor *)
Section Client.
Context {R : Type} `{ReactorSpec R}.

Record context := mk_context {
  cx_regs : gmap nat io_registration;
  cx_reactor : R;
  cx_timers : list (Z * nat);
  cx_posted : list nat;
}.

(** [update_interest], calling the reactor. *)
Definition update_interest_on (r : nat) (g : io_registration) (e : R) : option (io_registration * R) :=
  let want_read := is_set (rg_read_waiter g) in
  let want_write := is_set (rg_write_waiter g) in
  let with_interest registered :=
    mk_reg (rg_fd g) (rg_read_waiter g) (rg_write_waiter g) registered want_read want_write in
  if negb (rg_registered g) then
    if want_read || want_write then '(_, e') ← r_add (rg_fd g) want_read want_write r e; Some (with_interest true, e')
    else Some (g, e)
  else if Bool.eqb want_read (rg_interest_read g) && Bool.eqb want_write (rg_interest_write g) then Some (g, e)
  else if negb want_read && negb want_write then e' ← r_remove (rg_fd g) e; Some (with_interest false, e')
  else '(_, e') ← r_modify (rg_fd g) want_read want_write r e; Some (with_interest true, e').

Definition set_reg_on (r : nat) (g : io_registration) (c : context) : option context :=
  '(g', e) ← update_interest_on r g (cx_reactor c);
  Some (mk_context (<[r := g']> (cx_regs c)) e (cx_timers c) (cx_posted c)).

(** [forget]. *)
Definition forget_on (g : io_registration) (e : R) : option R :=
  if rg_registered g then r_remove (rg_fd g) e else Some e.

(** What a coroutine asks of the context. *)
Definition context_do (op : io_op) (c : context) : option context :=
  match op with
  | OWatchRead r h =>
      g ← cx_regs c !! r;
      set_reg_on r (mk_reg (rg_fd g) (Some h) (rg_write_waiter g) (rg_registered g) (rg_interest_read g) (rg_interest_write g)) c
  | OWatchWrite r h =>
      g ← cx_regs c !! r;
      set_reg_on r (mk_reg (rg_fd g) (rg_read_waiter g) (Some h) (rg_registered g) (rg_interest_read g) (rg_interest_write g)) c
  | OOpen r fd => Some (mk_context (<[r := reg_new fd]> (cx_regs c)) (cx_reactor c) (cx_timers c) (cx_posted c))
  | OClose r =>
      g ← cx_regs c !! r;
      e ← forget_on g (cx_reactor c);
      Some (mk_context (delete r (cx_regs c)) e (cx_timers c) (cx_posted c))
  | OTimer d h => Some (mk_context (cx_regs c) (cx_reactor c) (cx_timers c ++ [(d, h)]) (cx_posted c))
  end.

(** One event of [process_ready_events], up to the resumptions. *)
Definition context_event (ev : ready_event) (c : context) : option (list nat * context) :=
  g ← cx_regs c !! ev_user_data ev;
  let '(hs, g') := take_waiters ev g in
  c' ← set_reg_on (ev_user_data ev) g' c;
  Some (hs, c').

Definition with_reactor (e : R) (c : context) : context := mk_context (cx_regs c) e (cx_timers c) (cx_posted c).

(** ** Simulation *)

Record sim (c : context) (s : io_context) : Prop := mk_sim {
  si_regs : cx_regs c = io_regs s;
  si_timers : cx_timers c = io_timers s;
  si_posted : cx_posted c = io_posted s;
  si_ok : r_ok (cx_reactor c);
  si_epoll : r_regs (cx_reactor c) = io_epoll s;
  si_own : forall r g, io_regs s !! r = Some g -> ~ r_own (rg_fd g);
}.

Lemma update_interest_sim r g e m :
  told r g m -> r_ok e -> r_regs e = m -> ~ r_own (rg_fd g) ->
  (rg_registered g = true -> is_set (rg_read_waiter g) || is_set (rg_write_waiter g) = false -> r_quiet (rg_fd g) e) ->
  exists e', update_interest_on r g e = Some (fst (update_interest r g m), e') /\ r_ok e' /\
    r_regs e' = snd (update_interest r g m).
Proof.
  intros [Ht _] Hok Hm Hown Hq. unfold update_interest_on, update_interest.
  destruct (rg_registered g) eqn:Er; cbn [negb].
  - destruct (Bool.eqb _ _ && _); [by exists e|]. destruct (is_set (rg_read_waiter g)) eqn:E1, (is_set (rg_write_waiter g)) eqn:E2; cbn [negb andb].
    4: destruct (r_remove_spec (rg_fd g) e Hok Hown) as (e' & -> & Ho' & Hr'); [by apply Hq|]; exists e'; by rewrite Hr', Hm.
    all: match goal with |- context [r_modify _ ?a ?b _ _] =>
      destruct (r_modify_spec (rg_fd g) a b r e Hok Hown eq_refl) as (b' & e' & -> & Ho' & Hr') end; [rewrite Hm, Ht; by eexists|];
      exists e'; by rewrite Hr', Hm.
  - destruct (is_set (rg_read_waiter g) || is_set (rg_write_waiter g)); [|by exists e].
    destruct (r_add_spec (rg_fd g) (is_set (rg_read_waiter g)) (is_set (rg_write_waiter g)) r e Hok Hown) as (b & e' & -> & Ho' & Hr');
      [by rewrite Hm, Ht|]. exists e'. by rewrite Hr', Hm.
Qed.

Lemma set_reg_sim r g0 g c s :
  io_inv s -> sim c s -> io_regs s !! r = Some g0 -> rg_fd g = rg_fd g0 -> rg_registered g = rg_registered g0 ->
  rg_interest_read g = rg_interest_read g0 -> rg_interest_write g = rg_interest_write g0 ->
  (rg_registered g = true -> is_set (rg_read_waiter g) || is_set (rg_write_waiter g) = false -> r_quiet (rg_fd g) (cx_reactor c)) ->
  exists c', set_reg_on r g c = Some c' /\ sim c' (set_reg r g s).
Proof.
  intros [H1 _ _] [S1 S2 S3 S4 S5 S6] Hr Hfd Hreg Hir Hiw Hq. unfold set_reg_on, set_reg.
  assert (told r g (io_epoll s)) as Ht.
  { pose proof (reg_ok_told _ _ _ (H1 r g0 Hr)) as Ht. unfold told in *. by rewrite Hfd, Hreg, Hir, Hiw. }
  pose proof (update_interest_ok r g _ Ht) as Hu.
  destruct (update_interest_sim r g (cx_reactor c) (io_epoll s) Ht S4 S5) as (e' & -> & Ho & He); [rewrite Hfd; by eapply S6|done|].
  destruct (update_interest r g (io_epoll s)) as [g' m]. destruct Hu as (_ & Hfd' & _). cbn in *. eexists. split; [done|].
  split; cbn; try done; [by rewrite S1|]. intros r1 g1 [[<- <-]|[_ Hg1]]%lookup_insert_Some; [|by eapply S6].
  rewrite Hfd', Hfd. by eapply S6.
Qed.

(** What the context must not do: register a descriptor of the reactor's own,
    remove a socket that is not quiet. *)
Definition permitted (op : io_op) (c : context) : Prop :=
  match op with
  | OOpen r fd => ~ r_own fd
  | OClose r => forall g, cx_regs c !! r = Some g -> r_quiet (rg_fd g) (cx_reactor c)
  | _ => True
  end.

Lemma context_do_sim op c s s' :
  io_inv s -> sim c s -> permitted op c -> io_do op s = Some s' -> exists c', context_do op c = Some c' /\ sim c' s'.
Proof.
  intros Hi Hs Hp Hd. pose proof Hs as [S1 S2 S3 S4 S5 S6]. destruct op as [r h|r h|r fd|r|d h]; cbn in *.
  1, 2: unfold watch_readable, watch_writable in Hd; rewrite S1; destruct (io_regs s !! r) as [g|] eqn:E; [|done]; cbn in *;
    injection Hd as <-; eapply set_reg_sim; try done; cbn; by rewrite ?orb_true_r.
  - injection Hd as <-. eexists. split; [done|]. split; cbn; try done; [by rewrite S1|].
    intros r1 g1 [[<- <-]|[_ Hg1]]%lookup_insert_Some; [done|by eapply S6].
  - unfold close_socket in Hd. rewrite S1 in *. destruct (io_regs s !! r) as [g|] eqn:E; [|done]. cbn in *. injection Hd as <-.
    assert (exists e, forget_on g (cx_reactor c) = Some e /\ r_ok e /\ r_regs e = forget g (io_epoll s)) as (e & -> & He & Hr).
    { unfold forget_on, forget. destruct (rg_registered g); [|by exists (cx_reactor c)].
      destruct (r_remove_spec (rg_fd g) (cx_reactor c) S4) as (e & -> & He & Hr); [by eapply S6|by apply Hp|].
      exists e. by rewrite Hr, S5. }
    eexists. split; [done|]. split; cbn; try done. intros r1 g1 [_ Hg1]%lookup_delete_Some. by eapply S6.
  - injection Hd as <-. eexists. split; [done|]. split; cbn; try done. by rewrite S2.
Qed.

Lemma context_event_sim ev c s hs s' :
  io_inv s -> sim c s -> (forall g, cx_regs c !! ev_user_data ev = Some g -> r_quiet (rg_fd g) (cx_reactor c)) ->
  take_event ev s = Some (hs, s') -> exists c', context_event ev c = Some (hs, c') /\ sim c' s'.
Proof.
  intros Hi Hs Hq Ht. pose proof Hs as [S1 _ _ _ _ _]. unfold take_event in Ht. unfold context_event. rewrite S1 in *.
  destruct (io_regs s !! ev_user_data ev) as [g|] eqn:E; [|done]. cbn in *. specialize (Hq g eq_refl).
  destruct (take_waiters ev g) as [hs1 g1] eqn:Et. injection Ht as <- <-.
  assert (rg_fd g1 = rg_fd g /\ rg_registered g1 = rg_registered g /\ rg_interest_read g1 = rg_interest_read g /\
    rg_interest_write g1 = rg_interest_write g) as (E1 & E2 & E3 & E4).
  { unfold take_waiters in Et. destruct (ev_readable ev && _); destruct (ev_writable ev && _); by injection Et as <- <-. }
  destruct (set_reg_sim (ev_user_data ev) g g1 c s) as (c' & -> & Hc'); try done; [by rewrite E1|]. by exists c'.
Qed.

(** ** Runs *)

(** The loop's thread over a reactor: requests of coroutines, waits and events,
    and around them wake-ups and the network. *)
Inductive context_run : context -> Prop :=
| cr_start : context_run (mk_context ∅ r_new [] [])
| cr_op c op c' : context_run c -> fresh op (mk_io (cx_regs c) ∅ [] []) -> permitted op c -> context_do op c = Some c' -> context_run c'
| cr_event c ev hs c' : context_run c ->
    (forall g, cx_regs c !! ev_user_data ev = Some g -> r_quiet (rg_fd g) (cx_reactor c)) ->
    context_event ev c = Some (hs, c') -> context_run c'
| cr_wait c max_events evs e : context_run c -> r_wait max_events (cx_reactor c) = Some (evs, e) -> context_run (with_reactor e c)
| cr_wake c : context_run c -> context_run (with_reactor (r_wake (cx_reactor c)) c)
| cr_network c e : context_run c -> r_network (cx_reactor c) e -> context_run (with_reactor e c).

Lemma with_reactor_sim c s e : sim c s -> r_ok e -> r_regs e = r_regs (cx_reactor c) -> sim (with_reactor e c) s.
Proof. intros [S1 S2 S3 S4 S5 S6] He Hr. split; cbn; try done. by rewrite Hr. Qed.

(** The abstract context follows: it is stuck only where the other is. *)
Lemma io_do_defined op c c' s : sim c s -> context_do op c = Some c' -> exists s', io_do op s = Some s'.
Proof.
  intros [S1 _ _ _ _ _]. destruct op as [r h|r h|r fd|r|d h]; cbn; unfold watch_readable, watch_writable, close_socket; rewrite ?S1; eauto;
    (destruct (io_regs s !! r); [eauto|done]).
Qed.

Lemma take_event_defined ev c hs c' s : sim c s -> context_event ev c = Some (hs, c') -> exists hs s', take_event ev s = Some (hs, s').
Proof.
  intros [S1 _ _ _ _ _]. unfold context_event, take_event. rewrite S1. destruct (io_regs s !! ev_user_data ev) as [g|]; [cbn|done].
  destruct (take_waiters ev g). eauto.
Qed.

Lemma context_run_sim c : context_run c -> exists s, io_run s /\ sim c s.
Proof.
  induction 1 as [|c op c' _ (s & Hr & Hs) Hf Hp Hd|c ev hs c' _ (s & Hr & Hs) Hq Hd|c m evs e _ (s & Hr & Hs) Hw|c _ (s & Hr & Hs)|c e _ (s & Hr & Hs) Hn].
  - exists (mk_io ∅ ∅ [] []). destruct r_new_spec. split; [constructor|]. by split.
  - destruct (io_do_defined op c c' s Hs Hd) as [s' Hs'].
    destruct (context_do_sim op c s s' (io_run_inv s Hr) Hs Hp Hs') as (c'' & E & Hs''). exists s'. split; [|congruence].
    eapply run_op; [done| |done]. destruct Hs as [S1 _ _ _ _ _]. unfold fresh in *. destruct op; try done. cbn in Hf. by rewrite S1 in Hf.
  - destruct (take_event_defined ev c hs c' s Hs Hd) as (hs' & s' & Hs').
    destruct (context_event_sim ev c s hs' s' (io_run_inv s Hr) Hs Hq Hs') as (c'' & E & Hs''). exists s'. split; [by eapply run_event|congruence].
  - exists s. split; [done|]. destruct (r_wait_spec m (cx_reactor c) (si_ok _ _ Hs)) as (evs' & e' & E & Ho & Hre & _).
    rewrite E in Hw. injection Hw as <- <-. by apply with_reactor_sim.
  - exists s. split; [done|]. destruct (r_wake_spec (cx_reactor c) (si_ok _ _ Hs)). by apply with_reactor_sim.
  - exists s. split; [done|]. destruct (r_network_spec (cx_reactor c) e (si_ok _ _ Hs) Hn). by apply with_reactor_sim.
Qed.

(** A coroutine is suspended on the socket of the event. *)
Definition awaited_event (c : context) (ev : ready_event) : Prop :=
  exists g, cx_regs c !! ev_user_data ev = Some g /\ is_set (rg_read_waiter g) || is_set (rg_write_waiter g) = true.

Lemma event_awaited c s ev : io_inv s -> sim c s -> event_for (r_regs (cx_reactor c)) ev -> awaited_event c ev.
Proof.
  intros [H1 H2 _] [S1 _ _ _ S5 _] (fd & rd & wr & He & _). rewrite S5 in He. destruct (H2 _ _ _ _ He) as (g & Hg & <-).
  exists g. rewrite S1. split; [done|]. destruct (H1 _ g Hg) as (_ & _ & E). rewrite He in E. by destruct (_ || _).
Qed.

(** C13: io_context over any reactor that keeps the contract of platform::reactor (epoll does; the
    Windows completion port does as long as no socket is removed while a readiness packet of
    it is queued) refines io_context over an abstract table of registrations: whatever the
    coroutines, the network and the waits do, the reactor's registrations are the table, every
    request defined on the table is carried out by the reactor, and a wait gives back at most
    the events asked for, all of them for live registrations on which a coroutine is
    suspended. *)
Theorem context_refines_table c :
  context_run c ->
  exists s, io_run s /\ sim c s /\
    (forall op s', permitted op c -> io_do op s = Some s' -> exists c', context_do op c = Some c' /\ sim c' s') /\
    (forall max_events, exists evs e, r_wait max_events (cx_reactor c) = Some (evs, e) /\ sim (with_reactor e c) s /\
       (length evs <= max_events)%nat /\ Forall (awaited_event c) evs).
Proof.
  intros Hc. destruct (context_run_sim c Hc) as (s & Hr & Hs). pose proof (io_run_inv s Hr) as Hi. exists s. split_and!; [done|done| |].
  - intros op s' Hp Hd. by eapply context_do_sim.
  - intros m. destruct (r_wait_spec m (cx_reactor c) (si_ok _ _ Hs)) as (evs & e & E & Ho & Hre & Hl & Hf).
    exists evs, e. split_and!; [done|by apply with_reactor_sim|done|]. eapply Forall_impl; [done|]. intros ev He. by eapply event_awaited.
Qed.
End Client.
#[global] Arguments context : clear implicits.
