(* ===== verification/Coroutine.v ===== *)
(** * Coroutine: include/nhttp/async/task.hpp

    [task<T>], [detached_task] and [co_await] between them, on one thread.

    A coroutine's body is its code: [code l] is what it does next when its
    locals (with the point it has reached) are [l].  Frames live in a heap; a
    [std::coroutine_handle] is the frame's address.  [m_stack] is the stack of
    the coroutines that are executing on the thread, the topmost first: a
    [resume()] or the call of a [detached_task] function pushes, suspending pops,
    and symmetric transfer replaces the top.

    Reading or destroying a frame that is not in the heap is undefined
    behaviour ([Undefined]); an exception that leaves a [detached_task] is
    [std::terminate] ([Terminated]). *)

From S2P Require Import Prelude.

(** What an awaited coroutine gives back: [result_] or [exception_]. *)
Inductive result (V E : Type) :=
| Value (v : V)
| Raised (e : E).
#[global] Arguments Value {V E} v.
#[global] Arguments Raised {V E} e.

(** One step of a body. *)
Inductive instr (V E L : Type) :=
| IReturn (v : V)                                  (** [co_return v] *)
| IThrow (e : E)
| IAwait (callee : L) (k : result V E -> L)        (** [co_await f(...)]: [k] is the rest, with its handlers *)
| ISuspend (k : V -> L)                            (** an awaiter of the event loop; resumed with a value *)
| ISpawn (callee : L) (k : L)                      (** the call of a [detached_task] function *)
| ISignal (r : result V E) (k : L).                (** [sync_wait_driver]: store the outcome, [ev.set()] *)
#[global] Arguments IReturn {V E L} v.
#[global] Arguments IThrow {V E L} e.
#[global] Arguments IAwait {V E L} callee k.
#[global] Arguments ISuspend {V E L} k.
#[global] Arguments ISpawn {V E L} callee k.
#[global] Arguments ISignal {V E L} r k.

Section Machine.
Context {V E L : Type} (code : L -> instr V E L).

(** Where a frame is.  A frame that awaits holds, as a temporary, the [task]
    that owns the callee's frame. *)
Inductive frame_state :=
| FInitial (l : L)                                 (** [initial_suspend] *)
| FRunning (l : L)
| FAwaiting (callee : nat) (k : result V E -> L)
| FSuspended (k : V -> L)
| FFinal.                                          (** [final_suspend]: [done()] *)

(** [task_promise]; a [detached_task] has no continuation and no result. *)
Record frame := mk_frame {
  fr_state : frame_state;
  fr_detached : bool;
  fr_continuation : option nat;
  fr_result : option (result V E);
}.

Record machine := mk_machine {
  m_heap : gmap nat frame;
  m_fresh : nat;
  m_stack : list nat;
  m_out : option (result V E);      (** the [out] and [eptr] of [sync_wait] *)
}.

Inductive outcome := Next (m : machine) | Terminated | Undefined.

Definition machine_new : machine := mk_machine ∅ 0 [] None.

Definition with_frame (h : nat) (f : frame) (m : machine) : machine :=
  mk_machine (<[h := f]> (m_heap m)) (m_fresh m) (m_stack m) (m_out m).
Definition with_stack (st : list nat) (m : machine) : machine :=
  mk_machine (m_heap m) (m_fresh m) st (m_out m).
Definition with_state (s : frame_state) (f : frame) : frame :=
  mk_frame s (fr_detached f) (fr_continuation f) (fr_result f).

(** The call of a coroutine: its frame is allocated and [get_return_object]
    wraps its handle. *)
Definition get_return_object (detached : bool) (l : L) (m : machine) : nat * machine :=
  (m_fresh m,
   mk_machine (<[m_fresh m := mk_frame (FInitial l) detached None None]> (m_heap m)) (S (m_fresh m))
     (m_stack m) (m_out m)).

(** [handle.done()]. *)
Definition done (f : frame) : bool := match fr_state f with FFinal => true | _ => false end.

(** [~task]: [handle_.destroy()].  Destroying a suspended frame destroys its
    locals, so also the task it awaits. *)
Fixpoint destroy (fuel : nat) (h : nat) (heap : gmap nat frame) : option (gmap nat frame) :=
  f ← heap !! h;
  match fr_state f, fuel with
  | FRunning _, _ => None
  | FAwaiting callee _, S n => heap' ← destroy n callee heap; Some (delete h heap')
  | FAwaiting _ _, O => None
  | _, _ => Some (delete h heap)
  end.

(** [awaiter::await_ready]. *)
Definition await_ready (f : frame) : bool := done f.

(** [awaiter::await_suspend]: the caller becomes the continuation, and the
    thread transfers to the callee. *)
Definition await_suspend (callee awaiting : nat) (m : machine) : option machine :=
  f ← m_heap m !! callee;
  match fr_state f with
  | FInitial l =>
      Some (with_frame callee (mk_frame (FRunning l) (fr_detached f) (Some awaiting) (fr_result f)) m)
  | _ => None
  end.

(** [awaiter::await_resume] is [promise().result()]: rethrow, or move the value
    out; [std::move( *result_)] of an empty optional is undefined. *)
Definition await_resume (callee : nat) (m : machine) : option (result V E) :=
  f ← m_heap m !! callee; fr_result f.

(** The awaiting coroutine goes on: [await_resume], then the temporary [task]
    dies at the end of the full expression. *)
Definition resume_await (h : nat) (m : machine) : option machine :=
  f ← m_heap m !! h;
  match fr_state f with
  | FAwaiting callee k =>
      r ← await_resume callee m;
      heap ← destroy (size (m_heap m)) callee (m_heap m);
      Some (mk_machine (<[h := with_state (FRunning (k r)) f]> heap) (m_fresh m) (m_stack m) (m_out m))
  | _ => None
  end.

(** [final_suspend] of a [task]: [final_awaiter::await_suspend] returns the
    continuation, or the no-op coroutine. *)
Definition final_suspend (h : nat) (f : frame) (rest : list nat) (m : machine) : option machine :=
  let m1 := with_frame h (with_state FFinal f) m in
  match fr_continuation f with
  | Some c => resume_await c (with_stack (c :: rest) m1)
  | None => Some (with_stack rest m1)
  end.

(** [return_value] / [return_void] and [unhandled_exception], then
    [final_suspend]; a [detached_task] frees its own frame. *)
Definition finish (h : nat) (f : frame) (r : result V E) (rest : list nat) (m : machine) : outcome :=
  if fr_detached f then
    match r with
    | Raised _ => Terminated
    | Value _ => Next (mk_machine (delete h (m_heap m)) (m_fresh m) rest (m_out m))
    end
  else
    match final_suspend h (mk_frame (fr_state f) false (fr_continuation f) (Some r)) rest m with
    | Some m' => Next m'
    | None => Undefined
    end.

(** [co_await f(...)]. *)
Definition do_await (h : nat) (f : frame) (callee : L) (k : result V E -> L) (rest : list nat) (m : machine)
  : option machine :=
  let '(t, m1) := get_return_object false callee m in
  g ← m_heap m1 !! t;
  let m2 := with_frame h (with_state (FAwaiting t k) f) m1 in
  if await_ready g then resume_await h m2
  else m3 ← await_suspend t h m2; Some (with_stack (t :: rest) m3).

(** The call of a [detached_task] function: [suspend_never], so that it runs at
    once, inside its caller. *)
Definition do_spawn (h : nat) (f : frame) (callee : L) (k : L) (m : machine) : machine :=
  let '(t, m1) := get_return_object true callee m in
  with_stack (t :: m_stack m)
    (with_frame t (mk_frame (FRunning callee) true None None)
      (with_frame h (with_state (FRunning k) f) m1)).

Definition or_undefined (o : option machine) : outcome :=
  match o with Some m => Next m | None => Undefined end.

(** The coroutine on top of the stack does its next step. *)
Definition run_step (m : machine) : outcome :=
  match m_stack m with
  | [] => Undefined
  | h :: rest =>
      match m_heap m !! h with
      | None => Undefined
      | Some f =>
          match fr_state f with
          | FRunning l =>
              match code l with
              | IReturn v => finish h f (Value v) rest m
              | IThrow e => finish h f (Raised e) rest m
              | IAwait callee k => or_undefined (do_await h f callee k rest m)
              | ISuspend k => Next (with_stack rest (with_frame h (with_state (FSuspended k) f) m))
              | ISpawn callee k => Next (do_spawn h f callee k m)
              | ISignal r k =>
                  Next (mk_machine (<[h := with_state (FRunning k) f]> (m_heap m)) (m_fresh m) (m_stack m) (Some r))
              end
          | _ => Undefined
          end
      end
  end.

(** The event loop's [h.resume()] of a coroutine that is suspended in it. *)
Definition resume (h : nat) (v : V) (m : machine) : option machine :=
  f ← m_heap m !! h;
  match fr_state f with
  | FSuspended k => Some (with_stack (h :: m_stack m) (with_frame h (with_state (FRunning (k v)) f) m))
  | _ => None
  end.

(** The call of a [detached_task] function by code that is not a coroutine. *)
Definition spawn (callee : L) (m : machine) : machine :=
  let '(t, m1) := get_return_object true callee m in
  with_stack (t :: m_stack m) (with_frame t (mk_frame (FRunning callee) true None None) m1).

(** Everything the thread can do: run what is on its stack, and, when that is
    empty, resume a suspended coroutine or start one. *)
Inductive reach (m0 : machine) : machine -> Prop :=
| reach_refl : reach m0 m0
| reach_run m m' : reach m0 m -> m_stack m <> [] -> run_step m = Next m' -> reach m0 m'
| reach_resume m h v m' : reach m0 m -> m_stack m = [] -> resume h v m = Some m' -> reach m0 m'
| reach_spawn m l : reach m0 m -> m_stack m = [] -> reach m0 (spawn l m).

(** A run with the values the event loop gives to the coroutines it resumes:
    the thread executes what is on its stack ([run_step] is a function), and
    resumes a coroutine when it has nothing left to execute. *)
Inductive solo : machine -> list V -> machine -> Prop :=
| solo_refl m : solo m [] m
| solo_run m m' m'' vs : m_stack m <> [] -> run_step m = Next m' -> solo m' vs m'' -> solo m vs m''
| solo_wait m h v m' m'' vs :
    m_stack m = [] -> resume h v m = Some m' -> solo m' vs m'' -> solo m (v :: vs) m''.

(** ** The specification: calls

    What the same program does when [co_await f(...)] is a call: [eval l vs r]
    when running from [l], with [vs] the values the event loop gives it, ends
    with [r]. *)
Inductive eval : L -> list V -> result V E -> Prop :=
| ev_return l v : code l = IReturn v -> eval l [] (Value v)
| ev_throw l e : code l = IThrow e -> eval l [] (Raised e)
| ev_await l callee k vs ws r r' :
    code l = IAwait callee k -> eval callee vs r -> eval (k r) ws r' -> eval l (vs ++ ws) r'
| ev_suspend l k v vs r : code l = ISuspend k -> eval (k v) vs r -> eval l (v :: vs) r.
End Machine.
