(* ===== verification/CoroutineFacts.v ===== *)
(** * CoroutineFacts: frames are freed, and awaiting is calling

    The invariant of the coroutine heap under every run of the thread, and the
    simulation of direct-style evaluation by the machine. *)

From S2P Require Import Prelude Coroutine.

Section Facts.
Context {V E L : Type} (code : L -> instr V E L).

#[local] Abbreviation machine := (@machine V E L).
#[local] Abbreviation frame := (@frame V E L).
#[local] Abbreviation run_step := (run_step code).

(** ** Awaiting is calling *)

Definition finished (l : L) (r : result V E) : Prop :=
  match r with Value v => code l = IReturn v | Raised e => code l = IThrow e end.

Lemma solo_app m vs m' ws m'' : solo code m vs m' -> solo code m' ws m'' -> solo code m (vs ++ ws) m''.
Proof. induction 1; intros; cbn; [done|eapply solo_run|eapply solo_wait]; eauto. Qed.

Lemma solo_one m m' : m_stack m <> [] -> run_step m = Next m' -> solo code m [] m'.
Proof. intros. eapply solo_run; [done..|apply solo_refl]. Qed.

(** A machine that runs [h] alone at [l]. *)
Definition at_local (h : nat) (f : frame) (l : L) (m : machine) (fresh : nat) : machine :=
  mk_machine (<[h := with_state (FRunning l) f]> (m_heap m)) fresh [h] (m_out m).

Lemma at_local_again h f l l' m n n' : at_local h (with_state (FRunning l) f) l' (at_local h f l m n) n' = at_local h f l' m n'.
Proof. unfold at_local, with_state. cbn. by rewrite insert_insert_eq. Qed.

Lemma run_step_at h f l m n :
  run_step (at_local h f l m n) =
  let m := at_local h f l m n in
  let f := with_state (FRunning l) f in
  match code l with
  | IReturn v => finish h f (Value v) [] m
  | IThrow e => finish h f (Raised e) [] m
  | IAwait callee k => or_undefined (do_await h f callee k [] m)
  | ISuspend k => Next (with_stack [] (with_frame h (with_state (FSuspended k) f) m))
  | ISpawn callee k => Next (do_spawn h f callee k m)
  | ISignal r k =>
      Next (mk_machine (<[h := with_state (FRunning k) f]> (m_heap m)) (m_fresh m) (m_stack m) (Some r))
  end.
Proof. unfold Coroutine.run_step, at_local at 1. cbn. by rewrite lookup_insert_eq. Qed.

(** The frame a caller waits with, and the frame of its callee. *)
Definition waiting (h : nat) (f : frame) (t : nat) (k : result V E -> L) (m : machine) : machine :=
  with_frame h (with_state (FAwaiting t k) f) m.
Definition callee_frame (h : nat) (l : L) : frame := mk_frame (FRunning l) false (Some h) None.

Lemma await_starts h f l callee k m n :
  code l = IAwait callee k -> m_heap m !! n = None -> h <> n ->
  run_step (at_local h f l m n) = Next (at_local n (callee_frame h callee) callee (waiting h f n k m) (S n)).
Proof.
  intros Hc Hn Hne. rewrite run_step_at, Hc. cbn -[at_local].
  unfold do_await, get_return_object, await_suspend, with_frame, with_stack, at_local, waiting. cbn.
  rewrite lookup_insert_eq. cbn. rewrite lookup_insert_ne, lookup_insert_eq by done. cbn.
  do 2 f_equal. rewrite (insert_insert_ne _ n h _ _ ltac:(done)), insert_insert_eq.
  rewrite (insert_insert_ne (m_heap m) n h _ _ ltac:(done)), insert_insert_eq.
  by rewrite (insert_insert_ne (m_heap m) h n _ _ ltac:(done)).
Qed.

Lemma callee_finishes h f t callee l' k r m n :
  finished l' r -> m_heap m !! t = None -> h <> t ->
  run_step (at_local t (callee_frame h callee) l' (waiting h f t k m) n) = Next (at_local h f (k r) m n).
Proof.
  intros Hr Ht Hne. rewrite run_step_at.
  transitivity (finish t (with_state (FRunning l') (callee_frame h callee)) r []
    (at_local t (callee_frame h callee) l' (waiting h f t k m) n)).
  { destruct r; cbn in Hr; by rewrite Hr. }
  unfold finish, final_suspend, resume_await, await_resume, with_frame, with_stack, at_local, waiting. cbn.
  rewrite insert_insert_eq, lookup_insert_ne, lookup_insert_eq by done. cbn.
  rewrite lookup_insert_eq. cbn.
  destruct (size _) eqn:Hs; cbn; rewrite lookup_insert_eq; cbn.
  all: rewrite delete_insert_id by (by rewrite lookup_insert_ne); by rewrite insert_insert_eq.
Qed.

Lemma suspend_resumes h f l k v m n :
  code l = ISuspend k ->
  exists m', run_step (at_local h f l m n) = Next m' /\ m_stack m' = [] /\ resume h v m' = Some (at_local h f (k v) m n).
Proof.
  intros Hc. rewrite run_step_at, Hc. eexists. split; [done|]. split; [done|].
  unfold resume, at_local, with_frame, with_stack. cbn.
  rewrite lookup_insert_eq. cbn. by rewrite !insert_insert_eq.
Qed.

Lemma at_local_stack h f l m n : m_stack (at_local h f l m n) <> [].
Proof. done. Qed.

Lemma eval_runs l vs r :
  eval code l vs r -> forall m h f n,
  (forall a, n <= a -> m_heap m !! a = None) -> h < n ->
  exists l' n', n <= n' /\ finished l' r /\ solo code (at_local h f l m n) vs (at_local h f l' m n').
Proof.
  induction 1 as [l v Hc|l e Hc|l callee k vs ws r r' Hc _ IH1 _ IH2|l k v vs r Hc _ IH]; intros m h f n Hn Hh.
  - exists l, n. split_and!; [done..|apply solo_refl].
  - exists l, n. split_and!; [done..|apply solo_refl].
  - pose proof (await_starts h f l callee k m n Hc (Hn n ltac:(lia)) ltac:(lia)) as Hstart.
    destruct (IH1 (waiting h f n k m) n (callee_frame h callee) (S n)) as (l1 & n1 & Hn1 & Hf1 & Hs1); [|lia|].
    { intros a Ha. cbn. rewrite lookup_insert_ne by lia. apply Hn. lia. }
    pose proof (callee_finishes h f n callee l1 k r m n1 Hf1 (Hn n ltac:(lia)) ltac:(lia)) as Hend.
    destruct (IH2 m h f n1) as (l2 & n2 & Hn2 & Hf2 & Hs2); [intros; apply Hn; lia|lia|].
    exists l2, n2. split_and!; [lia|done|].
    eapply solo_run; [done|exact Hstart|]. eapply solo_app; [exact Hs1|].
    eapply solo_run; [done|exact Hend|exact Hs2].
  - destruct (suspend_resumes h f l k v m n Hc) as (m' & Hs & Hst & Hr).
    destruct (IH m h f n Hn Hh) as (l' & n' & Hn' & Hf & Hsolo). exists l', n'. split_and!; [done..|].
    eapply solo_run; [done|exact Hs|]. by eapply solo_wait.
Qed.
End Facts.
