(* ===== verification/CoroutineSafety.v ===== *)
(** * CoroutineSafety: no frame is used after it is freed, and none is lost

    The invariant of the coroutine heap: every [task] frame is owned by the one
    frame that awaits it, awaiting frames form chains of growing addresses, and
    the coroutines that execute are those on the thread's stack. *)

From S2P Require Import Prelude Coroutine.

Section Safety.
Context {V E L : Type} (code : L -> instr V E L).

#[local] Abbreviation machine := (@machine V E L).
#[local] Abbreviation frame := (@frame V E L).
#[local] Abbreviation run_step := (run_step code).

(** ** The invariant *)

(** The frame at [h] is where it may be between two steps. *)
Definition state_ok (m : machine) (h : nat) (f : frame) : Prop :=
  match fr_state f with
  | FInitial _ | FFinal => False
  | FRunning _ => h ∈ m_stack m
  | FSuspended _ => True
  | FAwaiting c _ => h < c /\ exists g, m_heap m !! c = Some g /\ fr_continuation g = Some h /\ fr_detached g = false
  end.

(** A task is owned by the frame its continuation names. *)
Definition owner_ok (m : machine) (h : nat) (f : frame) : Prop :=
  if fr_detached f then fr_continuation f = None
  else exists p g k, fr_continuation f = Some p /\ m_heap m !! p = Some g /\ fr_state g = FAwaiting h k.

Record wf (m : machine) : Prop := {
  wf_alloc h f : m_heap m !! h = Some f -> h < m_fresh m;
  wf_state h f : m_heap m !! h = Some f -> state_ok m h f;
  wf_owner h f : m_heap m !! h = Some f -> owner_ok m h f;
  wf_nodup : NoDup (m_stack m);
  wf_stack h : h ∈ m_stack m -> exists f l, m_heap m !! h = Some f /\ fr_state f = FRunning l;
}.

Lemma wf_new : wf machine_new.
Proof. split; cbn; try done; [constructor|]. intros h Hh. by apply not_elem_of_nil in Hh. Qed.

(** Split on the addresses of a lookup in an updated heap. *)
Ltac heap_cases :=
  repeat match goal with
  | H : _ ∈ _ :: _ |- _ => apply elem_of_cons in H as [->|H]
  | H : NoDup (_ :: _) |- _ => apply NoDup_cons in H as [??]
  | H : <[?a := _]> _ !! ?b = Some _ |- _ =>
      destruct (decide (a = b)) as [<-|]; [rewrite lookup_insert_eq in H|rewrite lookup_insert_ne in H by done]
  | H : delete ?a _ !! ?b = Some _ |- _ => apply lookup_delete_Some in H as [??]
  end; simplify_eq; cbn in *.

Lemma fresh_none m : wf m -> m_heap m !! m_fresh m = None.
Proof. intros Hw. destruct (m_heap m !! m_fresh m) eqn:Ef; [|done]. apply (wf_alloc _ Hw) in Ef. lia. Qed.

(** ** Steps that move one frame *)

(** What other frames see of a frame that is not awaiting: its continuation and
    whether it is detached. *)
Lemma wf_move m h f s st out :
  wf m -> m_heap m !! h = Some f ->
  (match fr_state f with FAwaiting _ _ => False | _ => True end) ->
  (match s with FRunning _ => h ∈ st | FSuspended _ => h ∉ st | _ => False end) ->
  NoDup st -> (forall a, a <> h -> a ∈ st <-> a ∈ m_stack m) ->
  wf (mk_machine (<[h := with_state s f]> (m_heap m)) (m_fresh m) st out).
Proof.
  intros Hw Hf Hs Hs' Hnd Hst. split; cbn.
  - intros a g Ha. heap_cases; by eapply wf_alloc.
  - intros a g Ha. heap_cases.
    + unfold state_ok. cbn. by destruct s.
    + pose proof (wf_state _ Hw _ _ Ha) as Hok. unfold state_ok in *. cbn. destruct (fr_state g) as [| |c k| |]; try done.
      * by apply Hst.
      * destruct Hok as (Hlt & g' & Hg' & Hc & Hd). split; [done|].
        destruct (decide (h = c)) as [->|]; [rewrite lookup_insert_eq|rewrite lookup_insert_ne by done; eauto].
        simplify_eq. eauto.
  - intros a g Ha.
    assert (exists g0, m_heap m !! a = Some g0 /\ fr_detached g = fr_detached g0 /\ fr_continuation g = fr_continuation g0)
      as (g0 & Hg0 & Hd & Hc) by (heap_cases; eauto).
    pose proof (wf_owner _ Hw _ _ Hg0) as Ho. unfold owner_ok in *. rewrite Hd, Hc. cbn.
    destruct (fr_detached g0); [done|]. destruct Ho as (p & q & k & Hp & Hq & Hk). exists p, q, k.
    split_and!; [done| |done]. rewrite lookup_insert_ne; [done|]. intros ->. simplify_eq. by rewrite Hk in Hs.
  - done.
  - intros a Ha. destruct (decide (h = a)) as [->|]; [rewrite lookup_insert_eq|rewrite lookup_insert_ne by done].
    + destruct s; try done. eauto.
    + apply (wf_stack _ Hw), Hst; done.
Qed.

(** A frame starts, awaited by nobody ([detached]). *)
Lemma wf_spawn m l : wf m -> wf (spawn l m).
Proof.
  intros Hw. pose proof (fresh_none m Hw) as Hn. unfold spawn, with_stack, with_frame. cbn. rewrite insert_insert_eq.
  split; cbn.
  - intros a g Ha. heap_cases; [lia|]. apply (wf_alloc _ Hw) in Ha. lia.
  - intros a g Ha. heap_cases; [by left|]. pose proof (wf_state _ Hw _ _ Ha) as Hok. unfold state_ok in *. cbn.
    destruct (fr_state g) as [| |c k| |]; try done; [by right|].
    destruct Hok as (Hlt & g' & Hg' & Hc & Hd). split; [done|]. rewrite lookup_insert_ne; [eauto|congruence].
  - intros a g Ha. heap_cases; [done|]. pose proof (wf_owner _ Hw _ _ Ha) as Ho. unfold owner_ok in *. cbn.
    destruct (fr_detached g); [done|]. destruct Ho as (p & q & k & Hp & Hq & Hk). exists p, q, k.
    rewrite lookup_insert_ne; [done|congruence].
  - apply NoDup_cons. split; [|apply (wf_nodup _ Hw)].
    intros (f & ? & Hf & _)%(wf_stack _ Hw). congruence.
  - intros a Ha. heap_cases; [rewrite lookup_insert_eq; eauto|].
    destruct (wf_stack _ Hw a Ha) as (f & l' & Hf & Hl). exists f, l'. rewrite lookup_insert_ne; [done|congruence].
Qed.

(** ** Awaiting and finishing *)

(** Owners survive when a running frame changes its state and a frame is added. *)
Lemma owner_keep m h f l (a : nat) (q q0 : frame) heap' fresh st out :
  wf m -> m_heap m !! h = Some f -> fr_state f = FRunning l ->
  (forall b g, b <> h -> m_heap m !! b = Some g -> heap' !! b = Some g) ->
  m_heap m !! a = Some q0 -> fr_detached q = fr_detached q0 -> fr_continuation q = fr_continuation q0 ->
  owner_ok (mk_machine heap' fresh st out) a q.
Proof.
  intros Hw Hf Hl Hk Ha Hd Hc. pose proof (wf_owner _ Hw _ _ Ha) as Ho. unfold owner_ok in *. rewrite Hd, Hc.
  destruct (fr_detached q0); [done|]. destruct Ho as (p & g & k & Hp & Hg & Hs). exists p, g, k. cbn.
  split_and!; [done| |done]. apply Hk; [congruence|done].
Qed.

Definition awaited (m : machine) (h : nat) (f : frame) (callee : L) (k : result V E -> L) (rest : list nat) : machine :=
  mk_machine (<[m_fresh m := mk_frame (FRunning callee) false (Some h) None]>
               (<[h := with_state (FAwaiting (m_fresh m) k) f]> (m_heap m)))
    (S (m_fresh m)) (m_fresh m :: rest) (m_out m).

Lemma do_await_awaited m h f callee k rest :
  wf m -> m_heap m !! h = Some f -> do_await h f callee k rest m = Some (awaited m h f callee k rest).
Proof.
  intros Hw Hf. pose proof (wf_alloc _ Hw _ _ Hf) as Hlt. unfold do_await, get_return_object. cbn.
  rewrite lookup_insert_eq. cbn. unfold await_suspend, with_frame, with_stack. cbn.
  rewrite lookup_insert_ne, lookup_insert_eq by lia. cbn. unfold awaited.
  rewrite (insert_insert_ne _ (m_fresh m) h) by lia. rewrite insert_insert_eq.
  by rewrite (insert_insert_ne (m_heap m) (m_fresh m) h) by lia.
Qed.

Lemma wf_awaited m h f l callee k rest :
  wf m -> m_stack m = h :: rest -> m_heap m !! h = Some f -> fr_state f = FRunning l ->
  wf (awaited m h f callee k rest).
Proof.
  intros Hw Hst Hf Hl. pose proof (fresh_none m Hw) as Hn. pose proof (wf_alloc _ Hw _ _ Hf) as Hlt.
  pose proof (wf_nodup _ Hw) as Hnd. rewrite Hst in Hnd. apply NoDup_cons in Hnd as [Hnotin Hnd].
  assert (m_fresh m <> h) as Hne by lia. split; cbn.
  - intros a g Ha. heap_cases; [lia|lia|]. apply (wf_alloc _ Hw) in Ha. lia.
  - intros a g Ha. heap_cases; [by left|split; [done|]; rewrite lookup_insert_eq; eauto|].
    pose proof (wf_state _ Hw _ _ Ha) as Hok. unfold state_ok in *. cbn.
    destruct (fr_state g) as [| |c k'| |]; try done.
    { rewrite Hst in Hok. apply elem_of_cons in Hok as [->|Hok]; [done|by right]. }
    destruct Hok as (Hac & g' & Hg' & Hc & Hd). split; [done|]. rewrite lookup_insert_ne by congruence.
    destruct (decide (h = c)) as [->|]; [rewrite lookup_insert_eq; simplify_eq; eauto|rewrite lookup_insert_ne by done; eauto].
  - intros a g Ha.
    assert (forall b q, b <> h -> m_heap m !! b = Some q -> m_heap (awaited m h f callee k rest) !! b = Some q) as Hkeep
      by (intros b q Hb Hq; cbn; rewrite !lookup_insert_ne; congruence).
    heap_cases.
    + unfold owner_ok. cbn. exists h, (with_state (FAwaiting (m_fresh m) k) f), k. rewrite lookup_insert_ne, lookup_insert_eq by done. done.
    + by eapply (owner_keep m h f l).
    + by eapply (owner_keep m h f l).
  - apply NoDup_cons. split; [|done]. intros Hin.
    destruct (wf_stack _ Hw (m_fresh m)) as (? & ? & ? & _); [rewrite Hst; by right|congruence].
  - intros a Ha. heap_cases; [rewrite lookup_insert_eq; eauto|].
    destruct (wf_stack _ Hw a) as (g & l' & Hg & Hl'); [rewrite Hst; by right|].
    exists g, l'. rewrite !lookup_insert_ne; [done|congruence|congruence].
Qed.

Definition finished_task (m : machine) (h p : nat) (g : frame) (l : L) (rest : list nat) : machine :=
  mk_machine (<[p := with_state (FRunning l) g]> (delete h (m_heap m))) (m_fresh m) (p :: rest) (m_out m).

Lemma finish_task m h f l r rest :
  wf m -> m_heap m !! h = Some f -> fr_state f = FRunning l -> fr_detached f = false ->
  exists p g k, m_heap m !! p = Some g /\ fr_state g = FAwaiting h k /\ p <> h /\
    finish h f r rest m = Next (finished_task m h p g (k r) rest).
Proof.
  intros Hw Hf Hl Hd. pose proof (wf_owner _ Hw _ _ Hf) as Ho. unfold owner_ok in Ho. rewrite Hd in Ho.
  destruct Ho as (p & g & k & Hp & Hg & Hk). exists p, g, k.
  assert (p <> h) as Hne by congruence. split_and!; [done..|].
  unfold finish, final_suspend, with_frame, with_stack. rewrite Hd, Hp. cbn.
  unfold resume_await. cbn. rewrite lookup_insert_ne, Hg by done. cbn. rewrite Hk.
  unfold await_resume. cbn. rewrite lookup_insert_eq. cbn.
  destruct (size _); cbn; rewrite lookup_insert_eq; cbn; unfold finished_task; by rewrite delete_insert_eq.
Qed.

Lemma wf_finished_task m h f l p g k l' rest :
  wf m -> m_stack m = h :: rest -> m_heap m !! h = Some f -> fr_state f = FRunning l -> fr_detached f = false ->
  m_heap m !! p = Some g -> fr_state g = FAwaiting h k -> p <> h ->
  wf (finished_task m h p g l' rest).
Proof.
  intros Hw Hst Hf Hl Hd Hg Hk Hne.
  pose proof (wf_nodup _ Hw) as Hnd. rewrite Hst in Hnd. apply NoDup_cons in Hnd as [Hnotin Hnd].
  split; cbn.
  - intros a q Ha. heap_cases; by eapply wf_alloc.
  - intros a q Ha. heap_cases; [by left|]. pose proof (wf_state _ Hw _ _ H0) as Hok. unfold state_ok in *. cbn.
    destruct (fr_state q) as [| |c k'| |] eqn:Hq; try done.
    { rewrite Hst in Hok. apply elem_of_cons in Hok as [->|Hok]; [done|by right]. }
    destruct Hok as (Hac & g' & Hg' & Hc & Hdd). split; [done|].
    assert (c <> h) as Hch.
    { intros ->. pose proof (wf_state _ Hw _ _ Hg) as Hok'. unfold state_ok in Hok'. rewrite Hk in Hok'.
      destruct Hok' as (_ & ? & ? & ? & _). congruence. }
    destruct (decide (p = c)) as [->|]; [rewrite lookup_insert_eq; simplify_eq; eauto|].
    rewrite lookup_insert_ne, lookup_delete_ne by done. eauto.
  - intros a q Ha.
    assert (exists q0, m_heap m !! a = Some q0 /\ a <> h /\ fr_detached q = fr_detached q0 /\ fr_continuation q = fr_continuation q0)
      as (q0 & Hq0 & Hah & Hdq & Hcq) by (heap_cases; eauto 6).
    pose proof (wf_owner _ Hw _ _ Hq0) as Ho. unfold owner_ok in *. rewrite Hdq, Hcq.
    destruct (fr_detached q0); [done|]. destruct Ho as (p' & g' & k' & Hp' & Hg' & Hk'). exists p', g', k'. cbn.
    assert (p' <> h) by congruence. assert (p' <> p) by congruence.
    by rewrite lookup_insert_ne, lookup_delete_ne by done.
  - apply NoDup_cons. split; [|done]. intros Hin.
    destruct (wf_stack _ Hw p) as (? & ? & ? & ?); [rewrite Hst; by right|congruence].
  - intros a Ha. heap_cases; [rewrite lookup_insert_eq; eauto|].
    destruct (wf_stack _ Hw a) as (q & l'' & Hq & Hl''); [rewrite Hst; by right|].
    exists q, l''. rewrite lookup_insert_ne, lookup_delete_ne; [done|congruence..].
Qed.

Lemma wf_finished_detached m h f l rest :
  wf m -> m_stack m = h :: rest -> m_heap m !! h = Some f -> fr_state f = FRunning l -> fr_detached f = true ->
  wf (mk_machine (delete h (m_heap m)) (m_fresh m) rest (m_out m)).
Proof.
  intros Hw Hst Hf Hl Hd.
  pose proof (wf_nodup _ Hw) as Hnd. rewrite Hst in Hnd. apply NoDup_cons in Hnd as [Hnotin Hnd].
  split; cbn; try done.
  - intros a q Ha. heap_cases. by eapply wf_alloc.
  - intros a q Ha. heap_cases. pose proof (wf_state _ Hw _ _ H0) as Hok. unfold state_ok in *. cbn.
    destruct (fr_state q) as [| |c k'| |]; try done.
    { rewrite Hst in Hok. apply elem_of_cons in Hok as [->|Hok]; done. }
    destruct Hok as (Hac & g' & Hg' & Hc & Hdd). split; [done|]. rewrite lookup_delete_ne; [eauto|congruence].
  - intros a q Ha. heap_cases. pose proof (wf_owner _ Hw _ _ H0) as Ho. unfold owner_ok in *.
    destruct (fr_detached q); [done|]. destruct Ho as (p' & g' & k' & Hp' & Hg' & Hk'). exists p', g', k'. cbn.
    rewrite lookup_delete_ne; [done|congruence].
  - intros a Ha. destruct (wf_stack _ Hw a) as (q & l'' & Hq & Hl''); [rewrite Hst; by right|].
    exists q, l''. rewrite lookup_delete_ne; [done|congruence].
Qed.

(** ** Every step keeps the invariant *)

Lemma do_spawn_spawn (m : machine) h f callee k :
  h <> m_fresh m ->
  do_spawn h f callee k m = spawn callee (mk_machine (<[h := with_state (FRunning k) f]> (m_heap m)) (m_fresh m) (m_stack m) (m_out m)).
Proof.
  intros Hne. unfold do_spawn, spawn, with_stack, with_frame. cbn. f_equal.
  by rewrite (insert_insert_ne _ h (m_fresh m)).
Qed.

Lemma wf_run_step m :
  wf m -> m_stack m <> [] -> run_step m <> Undefined /\ forall m', run_step m = Next m' -> wf m'.
Proof.
  intros Hw Hne. destruct (m_stack m) as [|h rest] eqn:Hst; [done|]. clear Hne.
  pose proof (wf_nodup _ Hw) as Hnd. rewrite Hst in Hnd.
  destruct (wf_stack _ Hw h) as (f & l & Hf & Hl); [rewrite Hst; by left|].
  assert (h <> m_fresh m) as Hfr by (apply (wf_alloc _ Hw) in Hf; lia).
  assert (forall r, finish h f r rest m <> Undefined /\ forall m', finish h f r rest m = Next m' -> wf m') as Hfin.
  { intros r. destruct (fr_detached f) eqn:Hd.
    - unfold finish. rewrite Hd. destruct r; split; try done. intros m' [= <-]. by eapply wf_finished_detached.
    - destruct (finish_task m h f l r rest) as (p & g & k & Hg & Hk & Hp & ->); [done..|].
      split; [done|]. intros m' [= <-]. by eapply wf_finished_task. }
  unfold Coroutine.run_step. rewrite Hst, Hf, Hl. destruct (code l) as [v|e|callee k|k|callee k|r k]; [apply Hfin..| | | |].
  - rewrite do_await_awaited by done. cbn. split; [done|]. intros m' [= <-]. by eapply wf_awaited.
  - split; [done|]. intros m' [= <-]. apply NoDup_cons in Hnd as [Hni Hnd].
    eapply (wf_move m h f (FSuspended k) rest); [done..|by rewrite Hl|done|done|].
    intros a Ha. rewrite Hst, elem_of_cons. naive_solver.
  - split; [done|]. intros m' [= <-]. rewrite do_spawn_spawn by done. apply wf_spawn.
    eapply wf_move; [done..|by rewrite Hl|cbn; rewrite Hst; by left|by rewrite Hst|done].
  - split; [done|]. intros m' [= <-].
    eapply wf_move; [done..|by rewrite Hl|cbn; by left|done|]. by rewrite Hst.
Qed.

Lemma wf_resume m h v m' : wf m -> m_stack m = [] -> resume h v m = Some m' -> wf m'.
Proof.
  unfold resume. intros Hw Hst. destruct (m_heap m !! h) as [f|] eqn:Hf; [|done]. cbn.
  destruct (fr_state f) eqn:Hs; try done. intros [= <-]. unfold with_stack, with_frame. cbn. rewrite Hst.
  eapply wf_move; [done..|by rewrite Hs|cbn; by left|apply NoDup_singleton|].
  intros a Ha. rewrite Hst. set_solver.
Qed.

Lemma reach_wf m : reach code machine_new m -> wf m.
Proof.
  induction 1 as [|m m' _ IH Hne Hs|m h v m' _ IH Hst Hr|m l _ IH Hst].
  - apply wf_new.
  - by eapply (proj2 (wf_run_step m IH Hne)).
  - by eapply wf_resume.
  - by apply wf_spawn.
Qed.

(** ** Chains *)

Definition awaits (m : machine) (h c : nat) : Prop :=
  exists f k, m_heap m !! h = Some f /\ fr_state f = FAwaiting c k.

Definition live (m : machine) (h : nat) : Prop :=
  exists f, m_heap m !! h = Some f /\ (h ∈ m_stack m \/ exists k, fr_state f = FSuspended k).

Lemma leaf_exists m : wf m -> forall n h f, m_fresh m - h <= n -> m_heap m !! h = Some f ->
  exists leaf, rtc (awaits m) h leaf /\ live m leaf.
Proof.
  intros Hw. induction n as [|n IH]; intros h f Hn Hf.
  { apply (wf_alloc _ Hw) in Hf. lia. }
  pose proof (wf_state _ Hw _ _ Hf) as Hok. unfold state_ok in Hok.
  destruct (fr_state f) as [|l|c k|k|] eqn:Hs; try done.
  - exists h. split; [done|]. exists f. eauto.
  - destruct Hok as (Hlt & g & Hg & _). destruct (IH c g) as (leaf & Hr & Hl); [lia|done|].
    exists leaf. split; [|done]. eapply rtc_l; [|done]. by exists f, k.
  - exists h. split; [done|]. exists f. eauto.
Qed.

Lemma root_exists m : wf m -> forall n h f, h <= n -> m_heap m !! h = Some f ->
  exists root g, rtc (awaits m) root h /\ m_heap m !! root = Some g /\ fr_detached g = true.
Proof.
  intros Hw. induction n as [|n IH]; intros h f Hn Hf.
  all: pose proof (wf_owner _ Hw _ _ Hf) as Ho; unfold owner_ok in Ho; destruct (fr_detached f) eqn:Hd;
    [exists h, f; done|]; destruct Ho as (p & g & k & _ & Hg & Hk);
    pose proof (wf_state _ Hw _ _ Hg) as Hok; unfold state_ok in Hok; rewrite Hk in Hok; destruct Hok as [Hlt _].
  { lia. }
  destruct (IH p g) as (root & r & Hr & Hrr & Hrd); [lia|done|]. exists root, r. split; [|done].
  eapply rtc_r; [done|]. by exists g, k.
Qed.

(** C9: Whatever the coroutines of a program do (await, throw, suspend in the event loop, start
    detached tasks), the thread never reads, resumes or destroys a frame that is gone; every
    frame belongs to the chain of awaits of a detached task whose innermost coroutine is
    executing or suspended in the event loop; and when none is, no frame is left: co_await
    neither leaks nor frees twice. *)
Theorem coroutine_frames_safe m :
  reach code machine_new m ->
  (m_stack m <> [] -> run_step m <> Undefined) /\
  (forall h f, m_heap m !! h = Some f ->
     exists root g leaf, rtc (awaits m) root h /\ rtc (awaits m) h leaf /\
       m_heap m !! root = Some g /\ fr_detached g = true /\ live m leaf) /\
  (m_stack m = [] -> (forall h f k, m_heap m !! h = Some f -> fr_state f <> FSuspended k) -> m_heap m = ∅).
Proof.
  intros Hw%reach_wf. split_and!.
  - intros Hne. by apply wf_run_step.
  - intros h f Hf. destruct (root_exists m Hw h h f) as (root & g & Hr & Hg & Hd); [lia|done|].
    destruct (leaf_exists m Hw (m_fresh m - h) h f) as (leaf & Hl & Hlive); [lia|done|]. by exists root, g, leaf.
  - intros Hst Hns. apply map_empty. intros h. destruct (m_heap m !! h) as [f|] eqn:Hf; [|done].
    destruct (leaf_exists m Hw (m_fresh m - h) h f) as (leaf & _ & q & Hq & [Hin|[k Hk]]); [lia|done|..].
    + rewrite Hst in Hin. by apply not_elem_of_nil in Hin.
    + by eapply Hns in Hq.
Qed.
End Safety.
