(* ===== verification/SyncWait.v ===== *)
(** * SyncWait: include/nhttp/async/sync_wait.hpp

    The driver coroutine that carries a task's outcome out of the coroutine
    world, and [sync_wait_event], the mutex, flag and condition variable it
    signals, as two threads: the one blocked in [wait], which destroys the event
    when it returns, and the one inside [set]. *)

From S2P Require Import Prelude Coroutine CoroutineFacts CoroutineSafety.

(** ** sync_wait.hpp: the driver coroutine

    [sync_wait_driver(t, ev, out, eptr)] awaits the task inside a [try], stores
    its value or its exception and signals the event.  The source's driver is
    given the task, and frees its frame with its own, after [ev.set()]; here the
    frame is freed at the end of the [co_await], and nothing reads it between. *)
Inductive driver (V E L : Type) :=
| DUser (l : L)
| DStart (l : L)
| DSet (r : result V E)
| DEnd.
#[global] Arguments DUser {V E L} l.
#[global] Arguments DStart {V E L} l.
#[global] Arguments DSet {V E L} r.
#[global] Arguments DEnd {V E L}.

Definition instr_map {V E L L'} (f : L -> L') (i : instr V E L) : instr V E L' :=
  match i with
  | IReturn v => IReturn v
  | IThrow e => IThrow e
  | IAwait callee k => IAwait (f callee) (fun r => f (k r))
  | ISuspend k => ISuspend (fun v => f (k v))
  | ISpawn callee k => ISpawn (f callee) (f k)
  | ISignal r k => ISignal r (f k)
  end.

Definition sync_wait_driver {V E L} (void : V) (code : L -> instr V E L) (d : driver V E L)
  : instr V E (driver V E L) :=
  match d with
  | DUser l => instr_map DUser (code l)
  | DStart l => IAwait (DUser l) DSet
  | DSet r => ISignal r DEnd
  | DEnd => IReturn void
  end.

(** ** sync_wait *)
Section SyncWait.
Context {V E L : Type} (code : L -> instr V E L) (void : V).

#[local] Abbreviation driven := (sync_wait_driver void code).

Lemma eval_driven l vs r : eval code l vs r -> eval driven (DUser l) vs r.
Proof.
  induction 1 as [l v Hc|l e Hc|l callee k vs ws r r' Hc _ IH1 _ IH2|l k v vs r Hc _ IH].
  - apply ev_return. cbn. by rewrite Hc.
  - apply ev_throw. cbn. by rewrite Hc.
  - eapply (ev_await _ _ (DUser callee) (fun r => DUser (k r))); [cbn; by rewrite Hc|done..].
  - eapply (ev_suspend _ _ (fun v => DUser (k v))); [cbn; by rewrite Hc|done].
Qed.

Definition driver_frame : @frame V E (driver V E L) := mk_frame FFinal true None None.

Lemma spawn_at l : spawn (DStart l) machine_new = at_local 0 driver_frame (DStart l) machine_new 1.
Proof. unfold spawn, at_local, with_stack, with_frame. cbn. by rewrite insert_insert_eq. Qed.

Lemma driver_ends r (m : @machine V E (driver V E L)) n :
  m_heap m !! 0 = None ->
  exists m', solo driven (at_local 0 driver_frame (DSet r) m n) [] m' /\
    m_heap m' = m_heap m /\ m_stack m' = [] /\ m_out m' = Some r.
Proof.
  intros H0. eexists. split.
  - eapply solo_run; [done|by rewrite run_step_at|].
    eapply solo_one; [done|]. unfold run_step. cbn. by rewrite insert_insert_eq, lookup_insert_eq.
  - cbn. split_and!; [|done..]. by rewrite delete_insert_id.
Qed.

(** C21: Awaiting is calling: when a program, read with co_await as an ordinary call, ends with a
    value or an exception, sync_wait on its task runs to the end, gives the thread that value
    or exception, and has freed every coroutine frame. *)
Theorem sync_wait_returns l vs r :
  eval code l vs r ->
  exists m, solo driven (spawn (DStart l) machine_new) vs m /\
    m_heap m = ∅ /\ m_stack m = [] /\ m_out m = Some r.
Proof.
  intros He%eval_driven. rewrite spawn_at. set (m0 := machine_new).
  pose proof (await_starts driven 0 driver_frame (DStart l) (DUser l) DSet m0 1 eq_refl eq_refl ltac:(done)) as Hst.
  destruct (eval_runs driven _ _ _ He (waiting 0 driver_frame 1 DSet m0) 1 (callee_frame 0 (DUser l)) 2)
    as (l' & n & Hn & Hf & Hs); [|lia|].
  { intros a Ha. cbn. rewrite lookup_insert_ne by lia. apply lookup_empty. }
  pose proof (callee_finishes driven 0 driver_frame 1 (DUser l) l' DSet r m0 n Hf eq_refl ltac:(done)) as Hend.
  destruct (driver_ends r m0 n eq_refl) as (m & Hm & Hh & Hk & Ho).
  exists m. split_and!; [|done..].
  eapply solo_run; [done|exact Hst|]. rewrite <-(app_nil_r vs). eapply solo_app; [exact Hs|].
  eapply solo_run; [done|exact Hend|exact Hm].
Qed.
End SyncWait.

(** ** The event *)

Inductive waiter :=
| WLock                  (** [unique_lock lock(mutex_)] *)
| WTest                  (** the predicate, locked *)
| WWaiting
| WRelock                (** woken, needs the mutex *)
| WReturned.             (** [wait] has returned: the event is destroyed *)

Inductive setter :=
| SLock                  (** [lock_guard lock(mutex_)] *)
| SStore                 (** [signaled_ = true], locked *)
| SNotify                (** [notify_all], locked *)
| SUnlock
| SReturned.

Inductive holder := HWaiter | HSetter.

Record event := mk_event {
  ev_mutex : option holder;
  ev_signaled : bool;
  ev_waiter : waiter;
  ev_setter : setter;
}.

Definition event_new : event := mk_event None false WLock SLock.

Definition is_free (m : option holder) : bool := match m with None => true | Some _ => false end.

(** [sync_wait_event::wait]; the last step unlocks and returns. *)
Definition wait_step (s : event) : option event :=
  match ev_waiter s with
  | WLock | WRelock =>
      if is_free (ev_mutex s) then Some (mk_event (Some HWaiter) (ev_signaled s) WTest (ev_setter s)) else None
  | WTest =>
      Some (mk_event None (ev_signaled s) (if ev_signaled s then WReturned else WWaiting) (ev_setter s))
  | WWaiting | WReturned => None
  end.

(** A wait may end without a notification. *)
Definition spurious_step (s : event) : option event :=
  match ev_waiter s with
  | WWaiting => Some (mk_event (ev_mutex s) (ev_signaled s) WRelock (ev_setter s))
  | _ => None
  end.

(** [sync_wait_event::set]. *)
Definition set_step (s : event) : option event :=
  match ev_setter s with
  | SLock =>
      if is_free (ev_mutex s) then Some (mk_event (Some HSetter) (ev_signaled s) (ev_waiter s) SStore) else None
  | SStore => Some (mk_event (ev_mutex s) true (ev_waiter s) SNotify)
  | SNotify =>
      Some (mk_event (ev_mutex s) (ev_signaled s)
              (match ev_waiter s with WWaiting => WRelock | w => w end) SUnlock)
  | SUnlock => Some (mk_event None (ev_signaled s) (ev_waiter s) SReturned)
  | SReturned => None
  end.

Inductive event_reach : event -> Prop :=
| er_new : event_reach event_new
| er_wait s s' : event_reach s -> wait_step s = Some s' -> event_reach s'
| er_spurious s s' : event_reach s -> spurious_step s = Some s' -> event_reach s'
| er_set s s' : event_reach s -> set_step s = Some s' -> event_reach s'.

(** Who holds the mutex, and what the flag says. *)
Definition event_inv (s : event) : Prop :=
  (match ev_setter s with SStore | SNotify | SUnlock => ev_mutex s = Some HSetter
   | SLock | SReturned => ev_mutex s <> Some HSetter end) /\
  (match ev_waiter s with WTest => ev_mutex s = Some HWaiter | _ => ev_mutex s <> Some HWaiter end) /\
  (ev_signaled s = match ev_setter s with SLock | SStore => false | _ => true end) /\
  (ev_waiter s = WReturned -> ev_setter s = SReturned) /\
  (ev_waiter s = WWaiting -> match ev_setter s with SUnlock | SReturned => False | _ => True end).

Lemma event_reach_inv s : event_reach s -> event_inv s.
Proof.
  induction 1 as [|s s' _ IH Hs|s s' _ IH Hs|s s' _ IH Hs]; [done|..].
  all: destruct s as [[[]|] [] [] []]; cbn in *; unfold event_inv in *; cbn in *; destruct_and!; simplify_eq; naive_solver.
Qed.

(** The thread that waits returns, and so destroys the event, only when
    the thread inside [set] will not touch it again; and as long as it has not
    returned, one of the two can go on, whatever notifications were missed. *)
Lemma sync_wait_event_sound s :
  event_reach s ->
  (ev_waiter s = WReturned -> ev_setter s = SReturned) /\
  (wait_step s = None -> set_step s = None -> ev_waiter s = WReturned).
Proof.
  intros Hi%event_reach_inv. destruct s as [[[]|] [] [] []]; unfold event_inv in Hi; cbn in *;
    destruct_and!; simplify_eq; naive_solver.
Qed.

(** ** A program

    [main] awaits [fetch] twice, handling what it throws; [fetch] awaits the
    event loop in a callee of its own. *)
Inductive demo :=
| Main | MainSecond (first : result nat nat) | MainEnd (a b : result nat nat)
| Fetch | FetchEnd (r : result nat nat) | Leaf | LeafEnd (v : nat).

Definition demo_code (d : demo) : instr nat nat demo :=
  match d with
  | Main => IAwait Fetch MainSecond
  | MainSecond a => IAwait Fetch (MainEnd a)
  | MainEnd (Value a) (Value b) => IReturn (a + b)
  | MainEnd (Value a) (Raised _) => IReturn a
  | MainEnd (Raised e) _ => IThrow e
  | Fetch => IAwait Leaf FetchEnd
  | FetchEnd (Value v) => IReturn (S v)
  | FetchEnd (Raised e) => IThrow e
  | Leaf => ISuspend LeafEnd
  | LeafEnd O => IThrow 7
  | LeafEnd v => IReturn v
  end.

Lemma demo_fetch v : eval demo_code Fetch [S v] (Value (S (S v))).
Proof.
  eapply (ev_await _ _ Leaf FetchEnd [S v] [] (Value (S v))); [done| |by apply ev_return].
  eapply ev_suspend; [done|]. by apply ev_return.
Defined.

Lemma demo_fetch_throws : eval demo_code Fetch [0] (Raised 7).
Proof.
  eapply (ev_await _ _ Leaf FetchEnd [0] [] (Raised 7)); [done| |by apply ev_throw].
  eapply ev_suspend; [done|]. by apply ev_throw.
Defined.

(** The second [fetch] throws; the first one's value is returned. *)
Lemma demo_main : eval demo_code Main [4; 0] (Value 5).
Proof.
  eapply (ev_await _ _ Fetch MainSecond [4] [0] (Value 5)); [done|apply demo_fetch|].
  eapply (ev_await _ _ Fetch _ [0] [] (Raised 7)); [done|apply demo_fetch_throws|by apply ev_return].
Defined.

Lemma sync_wait_returns_witness :
  exists m, solo (sync_wait_driver 0 demo_code) (spawn (DStart Main) machine_new) [4; 0] m /\
    m_heap m = ∅ /\ m_stack m = [] /\ m_out m = Some (Value 5).
Proof. apply (sync_wait_returns demo_code 0 Main), demo_main. Defined.

(** Two coroutines in flight, both suspended in the event loop. *)
Fixpoint run_for (n : nat) (m : @machine nat nat demo) : @machine nat nat demo :=
  match n, m_stack m with
  | S k, _ :: _ => match run_step demo_code m with Next m' => run_for k m' | _ => m end
  | _, _ => m
  end.

Lemma run_for_reach n m : reach demo_code machine_new m -> reach demo_code machine_new (run_for n m).
Proof.
  revert m. induction n as [|n IH]; intros m Hm; cbn; [done|].
  destruct (m_stack m) eqn:Hst; [done|]. destruct (run_step demo_code m) eqn:Hr; try done.
  apply IH. eapply reach_run; [done| |done]. by rewrite Hst.
Defined.

Definition demo_machine : @machine nat nat demo := run_for 9 (spawn Main (run_for 9 (spawn Main machine_new))).

Lemma demo_machine_reach : reach demo_code machine_new demo_machine.
Proof.
  apply run_for_reach, reach_spawn; [|reflexivity].
  apply run_for_reach, reach_spawn; [apply reach_refl|reflexivity].
Defined.

Lemma coroutine_frames_safe_witness :
  reach demo_code machine_new demo_machine /\ size (m_heap demo_machine) = 6 /\
  (exists root g leaf, rtc (awaits demo_machine) root 4 /\ rtc (awaits demo_machine) 4 leaf /\
     m_heap demo_machine !! root = Some g /\ fr_detached g = true /\ live demo_machine leaf).
Proof.
  split; [apply demo_machine_reach|]. split; [vm_compute; reflexivity|].
  destruct (coroutine_frames_safe demo_code demo_machine demo_machine_reach) as (_ & Hc & _).
  eapply Hc. vm_compute. reflexivity.
Defined.

Lemma sync_wait_event_sound_witness :
  exists s, event_reach s /\ ev_waiter s = WReturned /\ ev_setter s = SReturned.
Proof.
  pose proof (er_wait _ _ (er_wait _ _ er_new eq_refl) eq_refl) as H0.
  pose proof (er_set _ _ (er_set _ _ (er_set _ _ (er_set _ _ H0 eq_refl) eq_refl) eq_refl) eq_refl) as H1.
  pose proof (er_wait _ _ (er_wait _ _ H1 eq_refl) eq_refl) as H.
  eexists. split; [exact H|]. split; [reflexivity|]. by apply (sync_wait_event_sound _ H).
Defined.
