(* ===== verification/BlockingCall.v ===== *)
(** * BlockingCall: [thread_pool::run] (include/nhttp/async/thread_pool.hpp)

    [co_await pool.run(ctx, fn)]: the awaiter enqueues a job that calls [fn] on
    a pool thread, stores its value or its exception and posts the coroutine
    back to its context, whose loop resumes it.  The model puts the pool
    ([ThreadPool]) and the event loop's threads ([IoContext]) side by side: the
    job number [j] belongs to the [j]-th call, and it is the [j]-th poster of the
    loop, which moves only while a worker runs that job. *)

From S2P Require Import Prelude MpmcQueue ThreadPool ThreadPoolFacts IoContext IoContextFacts Coroutine.

Section Run.
Context {V E : Type} (fn : nat -> result V E).

Record blocking := mk_blocking {
  bl_pool : pool;
  bl_loop : threads;
  bl_storage : gmap nat (result V E);     (** [storage] or [eptr] of the awaiters *)
}.

(** [calls] coroutines are in [await_suspend]: job [j] is enqueued, handle [j]
    will be posted. *)
Definition blocking_new (worker_count calls : nat) : blocking :=
  mk_blocking (pool_new worker_count (seq 0 calls)) (threads_new (seq 0 calls)) ∅.

Definition is_running (i j : nat) (s : blocking) : bool :=
  match pool_workers (bl_pool s) !! i with Some (WRun k) => (k =? j)%nat | _ => false end.

(** The job: [try { storage.emplace(fn()); } catch (...) { eptr = ...; }]. *)
Definition job_call (i j : nat) (s : blocking) : option blocking :=
  if is_running i j s then
    match bl_storage s !! j with
    | None => Some (mk_blocking (bl_pool s) (bl_loop s) (<[j := fn j]> (bl_storage s)))
    | Some _ => None
    end
  else None.

(** ... then [ctx.post(h)], in its two accesses. *)
Definition job_post (i j : nat) (s : blocking) : option blocking :=
  if is_running i j s then
    match bl_storage s !! j with
    | Some _ => t ← post_step j (bl_loop s); Some (mk_blocking (bl_pool s) t (bl_storage s))
    | None => None
    end
  else None.

(** ... and it returns to [worker_loop]. *)
Definition job_return (i j : nat) (s : blocking) : option blocking :=
  if is_running i j s then
    match th_posters (bl_loop s) !! j with
    | Some PostReturned => p ← worker_step i (bl_pool s); Some (mk_blocking p (bl_loop s) (bl_storage s))
    | _ => None
    end
  else None.

(** Every other thread of the pool. *)
Definition pool_other (x : who) (c : choice) (s : blocking) : option blocking :=
  match x with
  | Worker i =>
      match pool_workers (bl_pool s) !! i with
      | Some (WRun _) => None
      | _ => p ← pool_step x c (bl_pool s); Some (mk_blocking p (bl_loop s) (bl_storage s))
      end
  | _ => p ← pool_step x c (bl_pool s); Some (mk_blocking p (bl_loop s) (bl_storage s))
  end.

(** [await_resume], run by the loop: rethrow or move the value out; an empty
    optional is undefined. *)
Definition run_await_resume (j : nat) (s : blocking) : option (result V E) := bl_storage s !! j.

Inductive bl_reach (s0 : blocking) : blocking -> Prop :=
| bl_refl : bl_reach s0 s0
| bl_call s i j s' : bl_reach s0 s -> job_call i j s = Some s' -> bl_reach s0 s'
| bl_post s i j s' : bl_reach s0 s -> job_post i j s = Some s' -> bl_reach s0 s'
| bl_return s i j s' : bl_reach s0 s -> job_return i j s = Some s' -> bl_reach s0 s'
| bl_other s x c s' : bl_reach s0 s -> pool_other x c s = Some s' -> bl_reach s0 s'
| bl_spurious s i p : bl_reach s0 s -> wake_up i (bl_pool s) = Some p ->
    bl_reach s0 (mk_blocking p (bl_loop s) (bl_storage s))
| bl_loop_step s seen other t : bl_reach s0 s -> loop_step seen other (bl_loop s) = Some t ->
    bl_reach s0 (mk_blocking (bl_pool s) t (bl_storage s))
| bl_halt s t : bl_reach s0 s -> halt_step (bl_loop s) = Some t ->
    bl_reach s0 (mk_blocking (bl_pool s) t (bl_storage s)).

(** ** The two halves are runs of their own *)

Record bl_inv (workers calls : nat) (s : blocking) : Prop := mk_bl_inv {
  bi_pool : pool_reach (pool_new workers (seq 0 calls)) (bl_pool s);
  bi_loop : io_reach (threads_new (seq 0 calls)) (bl_loop s);
  bi_stored : forall j r, bl_storage s !! j = Some r -> r = fn j;
  bi_posted : forall j p, th_posters (bl_loop s) !! j = Some p -> p = PostPush j \/ is_Some (bl_storage s !! j);
  bi_len : length (th_posters (bl_loop s)) = calls;
  bi_ran : forall j, j ∈ pool_ran (bl_pool s) -> th_posters (bl_loop s) !! j = Some PostReturned;
}.

Lemma is_running_job i j s : is_running i j s = true -> pool_workers (bl_pool s) !! i = Some (WRun j).
Proof.
  unfold is_running. destruct (pool_workers (bl_pool s) !! i) as [[]|]; try done. intros H. bool_to_prop. by subst.
Qed.

(** Only the end of a job adds to the jobs that have run. *)
Lemma pool_other_ran x c s p :
  (forall i j, x = Worker i -> pool_workers s !! i <> Some (WRun j)) ->
  pool_step x c s = Some p -> pool_ran p = pool_ran s.
Proof.
  intros Hx. destruct x as [i|j|]; cbn.
  - unfold worker_step. destruct (pool_workers s !! i) as [w|] eqn:Hw; [|done]. cbn [mbind option_bind].
    destruct w as [|lk q|job| | | | | | | |]; try (by destruct (Hx i job)); try done; try (by intros [= <-]).
    + destruct (try_pop _ _) as [[??]|]; by intros [= <-].
    + destruct (f_owed (pool_jobs s) !! q) as [v|]; [cbn [mbind option_bind]|done].
      destruct (fifo_step _ _ _); [cbn|done]. destruct lk; by intros [= <-].
    + unfold acquire. destruct (pool_mutex s); [done|]. by intros [= <-].
    + destruct (try_pop _ _) as [[??]|]; by intros [= <-].
    + destruct (pool_stopping s); by intros [= <-].
    + unfold acquire. destruct (pool_mutex s); [done|]. by intros [= <-].
  - unfold producer_step. destruct (pool_producers s !! j) as [w|]; [|done]. cbn [mbind option_bind].
    destruct w; try done; try (by intros [= <-]).
    + destruct (ch_full c); destruct (fifo_step _ _ _); try done; by intros [= <-].
    + destruct (fifo_step _ _ _); [|done]. by intros [= <-].
    + unfold acquire. destruct (pool_mutex s); [done|]. by intros [= <-].
    + unfold notify_one. destruct (pool_workers s !! ch_wake c) as [[]|]; try destruct (existsb _ _); try done; by intros [= <-].
  - unfold dtor_step. destruct (pool_dtor s); try destruct (forallb _ _); try done; try (by intros [= <-]).
    unfold acquire. destruct (pool_mutex s); [done|]. by intros [= <-].
Qed.

Lemma post_step_posters j t t' :
  post_step j t = Some t' ->
  exists p p', th_posters t !! j = Some p /\ p <> PostReturned /\ th_posters t' = <[j := p']> (th_posters t).
Proof.
  unfold post_step. destruct (th_posters t !! j) as [p|] eqn:Hp; [cbn|done].
  destruct p; try done; intros [= <-]; eauto 7.
Qed.

Lemma loop_step_posters seen other t t' : loop_step seen other t = Some t' -> th_posters t' = th_posters t.
Proof. unfold loop_step. destruct (th_loop t); repeat case_match; try done; by intros [= <-]. Qed.

Lemma halt_step_posters t t' : halt_step t = Some t' -> th_posters t' = th_posters t.
Proof. unfold halt_step. destruct (th_halt t); try done; by intros [= <-]. Qed.

Lemma bl_inv_new n calls : bl_inv n calls (blocking_new n calls).
Proof.
  split; cbn.
  - apply pool_refl.
  - apply io_refl.
  - intros j r. by rewrite lookup_empty.
  - intros j p Hp. left. apply list_lookup_fmap_Some in Hp as (x & -> & Hx).
    apply lookup_seq in Hx as [-> _]. done.
  - by rewrite length_fmap, length_seq.
  - intros j Hj. by apply not_elem_of_nil in Hj.
Qed.

Lemma bl_inv_call n calls i j s s' : bl_inv n calls s -> job_call i j s = Some s' -> bl_inv n calls s'.
Proof.
  intros [Hp Hl Hs Hq Hn Hr] E1. unfold job_call in E1. destruct (is_running i j s); [|done].
  destruct (bl_storage s !! j) eqn:Hj; [done|]. injection E1 as <-. split; cbn; [done..| | |done|done].
  - intros k r. destruct (decide (j = k)) as [->|]; [rewrite lookup_insert_eq; by intros [= <-]|].
    rewrite lookup_insert_ne by done. apply Hs.
  - intros k p Hk. destruct (Hq k p Hk) as [?|Hk']; [by left|right].
    destruct (decide (j = k)) as [->|]; [by rewrite lookup_insert_eq|by rewrite lookup_insert_ne].
Qed.

Lemma bl_inv_post n calls i j s s' : bl_inv n calls s -> job_post i j s = Some s' -> bl_inv n calls s'.
Proof.
  intros [Hp Hl Hs Hq Hn Hr] E1. unfold job_post in E1. destruct (is_running i j s); [|done].
  destruct (bl_storage s !! j) eqn:Hj; [|done].
  destruct (post_step j (bl_loop s)) as [t|] eqn:Ht; [|done]. injection E1 as <-.
  destruct (post_step_posters _ _ _ Ht) as (p & p' & Hpj & Hne & Hps). split; cbn; [done|by eapply io_post|done|..].
  - intros k q. rewrite Hps. intros [(<- & _)|[_ Hk]]%list_lookup_insert_Some; [right; by rewrite Hj|by apply Hq].
  - by rewrite Hps, length_insert.
  - intros k Hk. rewrite Hps, list_lookup_insert_ne; [by apply Hr|]. intros ->. pose proof (Hr k Hk). congruence.
Qed.

Lemma bl_inv_return n calls i j s s' : bl_inv n calls s -> job_return i j s = Some s' -> bl_inv n calls s'.
Proof.
  intros [Hp Hl Hs Hq Hn Hr] E1. unfold job_return in E1.
  destruct (is_running i j s) eqn:Hrun; [|done]. apply is_running_job in Hrun.
  destruct (th_posters (bl_loop s) !! j) as [[]|] eqn:Hj; try done.
  unfold worker_step in E1. rewrite Hrun in E1. injection E1 as <-. split; cbn; [|done..|].
  - eapply (pool_go _ _ (Worker i) (mk_choice false 0)); [done|]. cbn. unfold worker_step. by rewrite Hrun.
  - intros k [Hk| ->%list_elem_of_singleton]%elem_of_app; [by apply Hr|done].
Qed.

Lemma bl_inv_other n calls x c s s' : bl_inv n calls s -> pool_other x c s = Some s' -> bl_inv n calls s'.
Proof.
  intros [Hp Hl Hs Hq Hn Hr] E1.
  assert (exists p, pool_step x c (bl_pool s) = Some p /\ s' = mk_blocking p (bl_loop s) (bl_storage s) /\
    forall i j, x = Worker i -> pool_workers (bl_pool s) !! i <> Some (WRun j)) as (p & Hstep & -> & Hx).
  { unfold pool_other in E1.
    destruct (pool_step x c (bl_pool s)) as [p|] eqn:Hst; cbn [mbind option_bind] in E1; [|by repeat case_match].
    exists p. split; [done|]. destruct x as [i|j|]; [|by injection E1..].
    destruct (pool_workers (bl_pool s) !! i) as [[]|] eqn:Hw; try done.
    all: injection E1 as <-; split; [done|]; intros ? ? [= <-]; congruence. }
  split; cbn; [by eapply pool_go|done..|]. by rewrite (pool_other_ran _ _ _ _ Hx Hstep).
Qed.

Lemma bl_inv_reach n calls s : bl_reach (blocking_new n calls) s -> bl_inv n calls s.
Proof.
  induction 1 as [| | | | |s i p _ [Hp Hl Hs Hq Hn Hr] E1|s seen other t _ [Hp Hl Hs Hq Hn Hr] E1|s t _ [Hp Hl Hs Hq Hn Hr] E1];
    eauto using bl_inv_new, bl_inv_call, bl_inv_post, bl_inv_return, bl_inv_other.
  - split; cbn; try done; [by eapply pool_spurious|]. unfold wake_up in E1.
    destruct (pool_workers (bl_pool s) !! i) as [[]|]; try done. by injection E1 as <-.
  - pose proof (loop_step_posters _ _ _ _ E1) as Et. split; cbn; rewrite ?Et; try done. by eapply io_loop.
  - pose proof (halt_step_posters _ _ E1) as Et. split; cbn; rewrite ?Et; try done. by eapply io_halt.
Qed.

(** C20: Awaiting thread_pool::run: for every schedule of the pool and the event loop, a coroutine
    is resumed at most once, and then with what its function returned or threw; and when every
    enqueue is over, the workers sleep and the loop is blocked in its wait, every such
    coroutine has been resumed. *)
Theorem blocking_calls_return n calls s :
  bl_reach (blocking_new n calls) s ->
  NoDup (th_resumed (bl_loop s)) /\
  (forall j, j ∈ th_resumed (bl_loop s) -> run_await_resume j s = Some (fn j)) /\
  (Forall (eq PDone) (pool_producers (bl_pool s)) -> Forall (eq WWaiting) (pool_workers (bl_pool s)) ->
   th_loop (bl_loop s) = LWait -> th_signalled (bl_loop s) = false ->
   th_resumed (bl_loop s) ≡ₚ seq 0 calls).
Proof.
  intros [Hp Hl Hs Hq Hn Hr]%bl_inv_reach. destruct (th_inv_reach _ _ Hl) as [H1 H2 _ _].
  pose proof (NoDup_seq 0 calls) as Hnd. rewrite <-H1 in Hnd. apply NoDup_app in Hnd as (Hnd & Hdis & _).
  split; [done|]. split.
  - intros j Hj. assert (j < calls) as Hlt.
    { apply elem_of_seq with (j := 0). rewrite <-H1. apply elem_of_app. by left. }
    destruct (lookup_lt_is_Some_2 (th_posters (bl_loop s)) j) as [p Hpj]; [lia|].
    destruct (Hq j p Hpj) as [->|[r Hst]].
    + destruct (Hdis j Hj). apply elem_of_app. right. apply list_elem_of_omap. exists (PostPush j).
      split; [by eapply list_elem_of_lookup_2|done].
    + unfold run_await_resume. by rewrite Hst, (Hs j r Hst).
  - intros Hpd Hww Hlw Hsig. pose proof (asleep_ran _ _ _ Hp Hpd Hww) as Hran.
    assert (Forall (eq PostReturned) (th_posters (bl_loop s))) as Hall.
    { apply Forall_lookup. intros j p Hj. assert (j ∈ pool_ran (bl_pool s)) as Hin.
      { rewrite Hran. apply elem_of_seq. apply lookup_lt_Some in Hj. lia. }
      rewrite (Hr j Hin) in Hj. congruence. }
    assert (th_posted (bl_loop s) = []) as Hpo.
    { destruct (th_posted (bl_loop s)) eqn:Epo; [done|]. destruct H2 as [?|[[j Hj]|?]]; [done|congruence| |congruence].
      rewrite Forall_lookup in Hall. by apply Hall in Hj. }
    assert (omap to_push (th_posters (bl_loop s)) = []) as Hom by (clear -Hall; by induction Hall as [|? ? <- _ IH]).
    by rewrite Hpo, Hom, !app_nil_r in H1.
Qed.
End Run.

(** ** A run *)

Inductive move_of := GoCall (i j : nat) | GoPost (i j : nat) | GoReturn (i j : nat) | GoPool (x : who) | GoLoop.

Definition bl_do {V E} (fn : nat -> result V E) (m : move_of) (s : blocking) : option blocking :=
  match m with
  | GoCall i j => job_call fn i j s
  | GoPost i j => job_post i j s
  | GoReturn i j => job_return i j s
  | GoPool x => pool_other x (mk_choice false 0) s
  | GoLoop => t ← loop_step true false (bl_loop s); Some (mk_blocking (bl_pool s) t (bl_storage s))
  end.

Fixpoint bl_run {V E} (fn : nat -> result V E) (ms : list move_of) (s : blocking) : option blocking :=
  match ms with [] => Some s | m :: r => s1 ← bl_do fn m s; bl_run fn r s1 end.

Lemma bl_run_reach {V E} (fn : nat -> result V E) ms s0 s s' :
  bl_reach fn s0 s -> bl_run fn ms s = Some s' -> bl_reach fn s0 s'.
Proof.
  revert s. induction ms as [|m r IH]; intros s Hs; cbn; [by intros [= <-]|].
  destruct (bl_do fn m s) as [s1|] eqn:Em; [cbn|done]. apply IH.
  destruct m; cbn in Em; [by eapply bl_call|by eapply bl_post|by eapply bl_return|by eapply bl_other|].
  destruct (loop_step true false (bl_loop s)) as [t|] eqn:Et; [|done]. injection Em as <-. by eapply bl_loop_step.
Defined.

(** One worker, asleep when the call is made, and the loop asleep when the
    function has thrown. *)
Definition demo_moves : list move_of :=
  replicate 5 (GoPool (Worker 0)) ++ replicate 5 (GoPool (Producer 0)) ++ replicate 4 (GoPool (Worker 0)) ++
  [GoLoop; GoCall 0 0; GoPost 0 0; GoPost 0 0; GoLoop; GoLoop; GoLoop; GoReturn 0 0] ++
  replicate 5 (GoPool (Worker 0)).

Definition demo_fn (j : nat) : result nat nat := Raised 9.

Lemma blocking_calls_return_witness :
  exists s, bl_reach demo_fn (blocking_new 1 1) s /\ th_resumed (bl_loop s) ≡ₚ [0] /\
    run_await_resume 0 s = Some (Raised 9).
Proof.
  destruct (bl_run demo_fn demo_moves (blocking_new 1 1)) as [s|] eqn:Er; [|by vm_compute in Er].
  pose proof (bl_run_reach _ _ _ _ _ (bl_refl _ _) Er) as Hs. exists s. split; [exact Hs|].
  destruct (blocking_calls_return demo_fn 1 1 s Hs) as (_ & Hv & Hall).
  vm_compute in Er. injection Er as <-. split; [apply Hall; repeat constructor|]. apply Hv. by left.
Defined.
