(* ===== verification/Tls.v ===== *)
(** * Tls: src/tls/context.cpp and src/tls/stream.cpp

    [tls_stream] drives OpenSSL through two memory BIOs over any other stream.
    OpenSSL itself is a parameter: [ssl_call] is one call of [SSL_accept],
    [SSL_connect], [SSL_read], [SSL_write] or [SSL_shutdown], with the bytes the
    call finds in [rbio_], and gives back [SSL_get_error]'s verdict, what it left
    in [rbio_] and what it appended to [wbio_].  The sizes a caller passes are
    below 2^31, so that the casts to [int] keep them. *)

From S2P Require Import Prelude Bytes Stream.

#[local] Open Scope Z_scope.

Inductive ssl_op :=
| SslAccept
| SslConnect (sni_hostname : bytes)
| SslRead (n : nat)
| SslWrite (bs : bytes)
| SslShutdown.

(** The return code: positive, with what [SSL_read] put into the caller's
    buffer; or the error [SSL_get_error] names. *)
Inductive ssl_rc :=
| RcPositive (rc : nat) (buf : bytes)
| RcWantRead
| RcWantWrite
| RcOther.                  (** [SSL_ERROR_ZERO_RETURN], or a failure *)

Class SslEngine (SSL : Type) := {
  ssl_call : ssl_op -> bytes -> SSL -> ssl_rc * bytes * bytes * SSL;
}.

(** ** The stream *)
Section TlsStream.
Context {W SSL : Type} `{Stream W} `{SslEngine SSL}.

Record tls_stream := mk_tls {
  tls_inner : W;
  tls_ssl : SSL;
  tls_rbio : bytes;
  tls_wbio : bytes;
}.

Definition tls_stream_new (inner : W) (ssl : SSL) : tls_stream := mk_tls inner ssl [] [].

(** [flush_wbio]: read [wbio_] in pieces of 4096 and write each completely. *)
Fixpoint flush_wbio (fuel : nat) (s : tls_stream) : option tls_stream :=
  match take chunk_size (tls_wbio s), fuel with
  | [], _ => Some s
  | _, O => None
  | buf, S f =>
      w ← write_all (length buf) (tls_inner s) buf;
      flush_wbio f (mk_tls w (tls_ssl s) (tls_rbio s) (drop chunk_size (tls_wbio s)))
  end.

(** [feed_rbio_from_network]. *)
Definition feed_rbio_from_network (s : tls_stream) : bool * tls_stream :=
  let '(buf, w) := st_read chunk_size (tls_inner s) in
  match buf with
  | [] => (false, mk_tls w (tls_ssl s) (tls_rbio s) (tls_wbio s))
  | _ => (true, mk_tls w (tls_ssl s) (tls_rbio s ++ buf) (tls_wbio s))
  end.

(** One call into OpenSSL, then [flush_wbio]. *)
Definition ssl_attempt (op : ssl_op) (s : tls_stream) : option (ssl_rc * tls_stream) :=
  let '(rc, rbio, out, ssl) := ssl_call op (tls_rbio s) (tls_ssl s) in
  let wbio := tls_wbio s ++ out in
  s' ← flush_wbio (length wbio) (mk_tls (tls_inner s) ssl rbio wbio);
  Some (rc, s').

(** The loop of [accept], [connect], [read] and [write]: [Some] of the positive
    return code, or [None] for the [false] or 0 they return. *)
Fixpoint ssl_loop (fuel : nat) (op : ssl_op) (s : tls_stream) : option (option (nat * bytes) * tls_stream) :=
  match fuel with
  | O => None
  | S f =>
      '(rc, s1) ← ssl_attempt op s;
      match rc with
      | RcPositive n buf => Some (Some (n, buf), s1)
      | RcWantRead =>
          let '(more, s2) := feed_rbio_from_network s1 in
          if more then ssl_loop f op s2 else Some (None, s2)
      | RcWantWrite => ssl_loop f op s1
      | RcOther => Some (None, s1)
      end
  end.

Definition tls_accept (fuel : nat) (s : tls_stream) : option (bool * tls_stream) :=
  '(r, s') ← ssl_loop fuel SslAccept s; Some (match r with Some _ => true | None => false end, s').

Definition tls_connect (fuel : nat) (sni_hostname : bytes) (s : tls_stream) : option (bool * tls_stream) :=
  '(r, s') ← ssl_loop fuel (SslConnect sni_hostname) s; Some (match r with Some _ => true | None => false end, s').

Definition tls_read (fuel : nat) (n : nat) (s : tls_stream) : option (bytes * tls_stream) :=
  '(r, s') ← ssl_loop fuel (SslRead n) s; Some (match r with Some (_, buf) => buf | None => [] end, s').

Definition tls_write (fuel : nat) (bs : bytes) (s : tls_stream) : option (nat * tls_stream) :=
  '(r, s') ← ssl_loop fuel (SslWrite bs) s; Some (match r with Some (rc, _) => rc | None => O end, s').

(** [close]: one [SSL_shutdown], not repeated, then the inner stream. *)
Definition tls_close (s : tls_stream) : option tls_stream :=
  '(_, s1) ← ssl_attempt SslShutdown s; Some s1.

Definition tls_seek (offset : Z) (o : seek_origin) (s : tls_stream) : Z * tls_stream := (-1, s).
End TlsStream.
#[global] Arguments tls_stream : clear implicits.

(** ** What OpenSSL promises

    [unseal_in ssl cipher] is the plaintext that a session in state [ssl] will
    accept from [cipher], from the handshake on; [unseal_out cipher] is the
    plaintext the peer reads from everything the session has sent.
    [ssl_shaking ssl sent] and [ssl_synced ssl sent] hold of a session, before and
    after its handshake, that has produced [sent].  Memory BIOs take every write:
    [RcWantWrite] is reported at most [ssl_busy] times in a row.

    Any call may fail: after a failed [SSL_read] (the peer's close_notify, a
    forged record) nothing more is read, and a later [SSL_write] may succeed or
    fail; nothing is promised of a session whose [SSL_write] has failed, except
    that the peer has read nothing of what was to be written.  [ssl_honest ssl
    cipher]: [cipher] is what a peer that keeps to the protocol, and asks for no
    renegotiation, sends to a session in state [ssl]; while it does, [SSL_write]
    succeeds.  Nothing is promised of writes of no bytes. *)
Class SslSession (SSL : Type) `{SslEngine SSL} := {
  unseal_in : SSL -> bytes -> bytes;
  unseal_out : bytes -> bytes;
  ssl_shaking : SSL -> bytes -> Prop;
  ssl_synced : SSL -> bytes -> Prop;
  ssl_honest : SSL -> bytes -> Prop;
  ssl_busy : SSL -> nat;
  ssl_accept_spec cipher ssl sent rc rest out ssl' :
    ssl_shaking ssl sent -> ssl_call SslAccept cipher ssl = (rc, rest, out, ssl') ->
    unseal_out (sent ++ out) = unseal_out sent /\
    match rc with
    | RcPositive _ _ =>
        ssl_synced ssl' (sent ++ out) /\ forall more, unseal_in ssl (cipher ++ more) = unseal_in ssl' (rest ++ more)
    | RcWantRead =>
        ssl_shaking ssl' (sent ++ out) /\ ssl_busy ssl' = ssl_busy ssl /\
        forall more, unseal_in ssl (cipher ++ more) = unseal_in ssl' (rest ++ more)
    | RcWantWrite =>
        ssl_shaking ssl' (sent ++ out) /\ (ssl_busy ssl' < ssl_busy ssl)%nat /\
        forall more, unseal_in ssl (cipher ++ more) = unseal_in ssl' (rest ++ more)
    | RcOther => True
    end;
  ssl_read_spec n cipher ssl sent rc rest out ssl' :
    (0 < n)%nat -> ssl_synced ssl sent -> ssl_call (SslRead n) cipher ssl = (rc, rest, out, ssl') ->
    ssl_synced ssl' (sent ++ out) /\ unseal_out (sent ++ out) = unseal_out sent /\
    match rc with
    | RcPositive k buf =>
        buf <> [] /\ (length buf <= n)%nat /\ forall more, unseal_in ssl (cipher ++ more) = buf ++ unseal_in ssl' (rest ++ more)
    | RcWantRead =>
        unseal_in ssl' rest = [] /\ ssl_busy ssl' = ssl_busy ssl /\
        forall more, unseal_in ssl (cipher ++ more) = unseal_in ssl' (rest ++ more)
    | RcWantWrite =>
        (ssl_busy ssl' < ssl_busy ssl)%nat /\ forall more, unseal_in ssl (cipher ++ more) = unseal_in ssl' (rest ++ more)
    | RcOther => forall more, unseal_in ssl (cipher ++ more) = [] /\ unseal_in ssl' (rest ++ more) = []
    end;
  ssl_write_spec bs cipher ssl sent rc rest out ssl' :
    bs <> [] -> ssl_synced ssl sent -> ssl_call (SslWrite bs) cipher ssl = (rc, rest, out, ssl') ->
    match rc with
    | RcPositive k _ =>
        ssl_synced ssl' (sent ++ out) /\ (0 < k <= length bs)%nat /\ unseal_out (sent ++ out) = unseal_out sent ++ take k bs /\
        forall more, unseal_in ssl (cipher ++ more) = unseal_in ssl' (rest ++ more)
    | RcWantRead =>
        ssl_synced ssl' (sent ++ out) /\ unseal_out (sent ++ out) = unseal_out sent /\ ssl_busy ssl' = ssl_busy ssl /\
        forall more, unseal_in ssl (cipher ++ more) = unseal_in ssl' (rest ++ more)
    | RcWantWrite =>
        ssl_synced ssl' (sent ++ out) /\ unseal_out (sent ++ out) = unseal_out sent /\ (ssl_busy ssl' < ssl_busy ssl)%nat /\
        forall more, unseal_in ssl (cipher ++ more) = unseal_in ssl' (rest ++ more)
    | RcOther => unseal_out (sent ++ out) = unseal_out sent
    end;
  ssl_honest_call op cipher more ssl rc rest out ssl' :
    ssl_honest ssl (cipher ++ more) -> op <> SslShutdown -> ssl_call op cipher ssl = (rc, rest, out, ssl') ->
    ssl_honest ssl' (rest ++ more);
  ssl_honest_write bs cipher more ssl sent rc rest out ssl' :
    bs <> [] -> ssl_synced ssl sent -> ssl_honest ssl (cipher ++ more) ->
    ssl_call (SslWrite bs) cipher ssl = (rc, rest, out, ssl') -> rc <> RcOther /\ rc <> RcWantRead;
}.

(** ** The loop *)
Section TlsFacts.
Context {W SSL : Type} `{StreamDuplex W} `{SslSession SSL}.

#[local] Abbreviation tls := (tls_stream W SSL).

Lemma chunk_take_nil {A} (l : list A) : take chunk_size l = [] -> l = [].
Proof. pose proof chunk_size_pos. destruct chunk_size; [lia|]. by destruct l. Qed.

(** Everything OpenSSL has produced is on the wire before the loop waits or
    returns. *)
Lemma flush_wbio_ok fuel (s : tls) :
  (length (tls_wbio s) <= fuel)%nat -> st_ok (tls_inner s) ->
  exists w, flush_wbio fuel s = Some (mk_tls w (tls_ssl s) (tls_rbio s) []) /\ st_ok w /\
    st_data w = st_data (tls_inner s) /\ st_written w = st_written (tls_inner s) ++ tls_wbio s.
Proof.
  revert s. induction fuel as [|f IH]; intros [w ssl rbio wbio] Hf Hok; cbn [flush_wbio tls_wbio tls_inner tls_ssl tls_rbio] in *;
    destruct (take chunk_size wbio) as [|b buf] eqn:Hb.
  - apply chunk_take_nil in Hb as ->. exists w. by rewrite app_nil_r.
  - destruct wbio; [by rewrite take_nil in Hb|cbn in Hf; lia].
  - apply chunk_take_nil in Hb as ->. exists w. by rewrite app_nil_r.
  - destruct (write_all_spec (length (b :: buf)) w (b :: buf)) as (w1 & Hw & Hwr); [done|].
    rewrite Hw. cbn [mbind option_bind]. destruct (write_all_data _ _ _ _ Hok Hw) as [Hok1 Hd1].
    destruct (IH (mk_tls w1 ssl rbio (drop chunk_size wbio))) as (w2 & -> & Hok2 & Hd2 & Hw2); [|done|].
    { cbn. rewrite length_drop. pose proof chunk_size_pos. destruct wbio; [by rewrite take_nil in Hb|cbn in *; lia]. }
    cbn in *. exists w2. split_and!; [done|done|congruence|].
    by rewrite Hw2, Hwr, <-app_assoc, <-Hb, take_drop.
Qed.

Lemma ssl_attempt_ok op (s : tls) rc rest out ssl' :
  tls_wbio s = [] -> st_ok (tls_inner s) -> ssl_call op (tls_rbio s) (tls_ssl s) = (rc, rest, out, ssl') ->
  exists w, ssl_attempt op s = Some (rc, mk_tls w ssl' rest []) /\ st_ok w /\
    st_data w = st_data (tls_inner s) /\ st_written w = st_written (tls_inner s) ++ out.
Proof.
  intros Hwb Hok Hc. unfold ssl_attempt. rewrite Hc, Hwb. cbn [app].
  destruct (flush_wbio_ok (length out) (mk_tls (tls_inner s) ssl' rest out)) as (w & -> & ? & ? & ?); [done|done|].
  cbn. by exists w.
Qed.

(** What the application will still read. *)
Definition tls_plain (s : tls) : bytes := unseal_in (tls_ssl s) (tls_rbio s ++ st_data (tls_inner s)).

Definition tls_idle (I : SSL -> bytes -> Prop) (s : tls) : Prop :=
  tls_wbio s = [] /\ st_ok (tls_inner s) /\ I (tls_ssl s) (st_written (tls_inner s)).

Definition tls_fuel (s : tls) : nat := S (length (st_data (tls_inner s)) + ssl_busy (tls_ssl s)).

(** Whether the peer keeps to the protocol in what the session has not seen yet. *)
Definition tls_honest (s : tls) : Prop := ssl_honest (tls_ssl s) (tls_rbio s ++ st_data (tls_inner s)).

(** The calls of an operation that do not end it keep an invariant of the
    session and the plaintext to come. *)
Definition keeps (op : ssl_op) (I : SSL -> bytes -> Prop) : Prop :=
  forall cipher ssl sent rc rest out ssl',
  I ssl sent -> ssl_call op cipher ssl = (rc, rest, out, ssl') -> rc = RcWantRead \/ rc = RcWantWrite ->
  I ssl' (sent ++ out) /\ unseal_out (sent ++ out) = unseal_out sent /\
  (forall more, unseal_in ssl (cipher ++ more) = unseal_in ssl' (rest ++ more)) /\
  (rc = RcWantRead -> ssl_busy ssl' = ssl_busy ssl) /\ (rc = RcWantWrite -> (ssl_busy ssl' < ssl_busy ssl)%nat).

(** How the loop ends: with a call in a state [s1] that has seen the same
    plaintext, and that either ended it or wanted more than the network had. *)
Definition ends (op : ssl_op) (I : SSL -> bytes -> Prop) (s : tls) (r : option (nat * bytes)) (s' : tls) : Prop :=
  exists s1 rc rest out ssl',
    tls_idle I s1 /\ tls_plain s1 = tls_plain s /\ (tls_honest s -> tls_honest s1) /\
    unseal_out (st_written (tls_inner s1)) = unseal_out (st_written (tls_inner s)) /\
    ssl_call op (tls_rbio s1) (tls_ssl s1) = (rc, rest, out, ssl') /\
    tls_ssl s' = ssl' /\ tls_rbio s' = rest /\ tls_wbio s' = [] /\ st_ok (tls_inner s') /\
    st_data (tls_inner s') = st_data (tls_inner s1) /\ st_written (tls_inner s') = st_written (tls_inner s1) ++ out /\
    match rc with
    | RcPositive n buf => r = Some (n, buf)
    | RcWantRead => r = None /\ st_data (tls_inner s') = []
    | RcWantWrite => False
    | RcOther => r = None
    end.

Lemma ssl_loop_ends op I fuel (s : tls) :
  keeps op I -> op <> SslShutdown -> tls_idle I s -> (tls_fuel s <= fuel)%nat ->
  exists r s', ssl_loop fuel op s = Some (r, s') /\ ends op I s r s'.
Proof.
  intros Hk Hop. revert s. induction fuel as [|f IH]; intros s (Hwb & Hok & HI) Hf; [unfold tls_fuel in Hf; lia|].
  destruct (ssl_call op (tls_rbio s) (tls_ssl s)) as [[[rc rest] out] ssl'] eqn:Hc.
  destruct (ssl_attempt_ok op s rc rest out ssl' Hwb Hok Hc) as (w & Ha & Hokw & Hdw & Hww).
  cbn [ssl_loop]. rewrite Ha. cbn [mbind option_bind].
  assert (forall r w', st_ok w' -> st_data w' = st_data (tls_inner s) -> st_written w' = st_written (tls_inner s) ++ out ->
    match rc with RcPositive n buf => r = Some (n, buf) | RcWantRead => r = None /\ st_data w' = []
      | RcWantWrite => False | RcOther => r = None end -> ends op I s r (mk_tls w' ssl' rest [])) as Hend
    by (intros r w' ? ? ? ?; exists s, rc, rest, out, ssl'; cbn; split_and!; done).
  assert (forall s2, tls_ssl s2 = ssl' -> st_written (tls_inner s2) = st_written (tls_inner s) ++ out ->
    tls_rbio s2 ++ st_data (tls_inner s2) = rest ++ st_data (tls_inner s) -> tls_wbio s2 = [] -> st_ok (tls_inner s2) ->
    (rc = RcWantRead \/ rc = RcWantWrite) -> (tls_fuel s2 <= f)%nat ->
    exists r s', ssl_loop f op s2 = Some (r, s') /\ ends op I s r s') as Hgo.
  { intros s2 E1 E2 E3 E4 E5 Hrc Hf2. destruct (Hk _ _ _ _ _ _ _ HI Hc Hrc) as (HI' & Hu & Hp & _).
    destruct (IH s2) as (r & s' & Hl & Hen); [unfold tls_idle; by rewrite E1, E2|done|]. exists r, s'. split; [done|].
    destruct Hen as (s3 & rc3 & rest3 & out3 & ssl3 & Hi3 & Hp3 & Hh3 & Hu3 & Hrest). exists s3, rc3, rest3, out3, ssl3.
    split_and!; [done| | |by rewrite Hu3, E2|apply Hrest..].
    - rewrite Hp3. unfold tls_plain. rewrite E1, E3. symmetry. apply Hp.
    - intros Hh. apply Hh3. unfold tls_honest. rewrite E1, E3. by eapply ssl_honest_call. }
  unfold tls_fuel in *. destruct rc as [n buf| | |].
  - eexists _, _. split; [done|]. by apply Hend.
  - destruct (Hk _ _ _ _ _ _ _ HI Hc (or_introl eq_refl)) as (_ & _ & _ & Hb & _). specialize (Hb eq_refl).
    unfold feed_rbio_from_network. cbn. destruct (st_read chunk_size w) as [buf w1] eqn:Hr.
    destruct (st_read_spec _ _ _ _ chunk_size_pos Hokw Hr) as (Hok1 & Hd1 & _ & Hne).
    pose proof (st_read_written _ _ _ _ Hr) as Hw1. destruct buf as [|b buf].
    + eexists _, _. split; [done|]. apply Hend; [done|by rewrite <-Hdw, Hd1|congruence|]. split; [done|].
      destruct (decide (st_data w = [])) as [E|E]; [by rewrite E in Hd1|by destruct (Hne E)].
    + apply Hgo; cbn; try done; [congruence|by rewrite <-app_assoc, <-Hdw, Hd1|by left|].
      rewrite Hdw in Hd1. rewrite Hd1 in Hf. cbn in Hf. rewrite length_app in Hf. lia.
  - destruct (Hk _ _ _ _ _ _ _ HI Hc (or_intror eq_refl)) as (_ & _ & _ & _ & Hb). specialize (Hb eq_refl).
    apply Hgo; cbn; try done; [by rewrite Hdw|by right|]. rewrite Hdw. lia.
  - eexists _, _. split; [done|]. by apply Hend.
Qed.

Lemma keeps_accept : keeps SslAccept ssl_shaking.
Proof.
  intros cipher ssl sent rc rest out ssl' HI Hc Hrc. destruct (ssl_accept_spec _ _ _ _ _ _ _ HI Hc) as [Hu Hrest].
  destruct Hrc as [-> | ->]; destruct Hrest as (? & ? & ?); by split_and!.
Qed.

Lemma keeps_read n : (0 < n)%nat -> keeps (SslRead n) ssl_synced.
Proof.
  intros Hn cipher ssl sent rc rest out ssl' HI Hc Hrc.
  destruct (ssl_read_spec _ _ _ _ _ _ _ _ Hn HI Hc) as (Hs & Hu & Hrest).
  destruct Hrc as [-> | ->]; destruct_and! Hrest; by split_and!.
Qed.

Lemma keeps_write bs : bs <> [] -> keeps (SslWrite bs) ssl_synced.
Proof.
  intros Hne cipher ssl sent rc rest out ssl' HI Hc Hrc. pose proof (ssl_write_spec _ _ _ _ _ _ _ _ Hne HI Hc) as Hspec.
  destruct Hrc as [-> | ->]; destruct Hspec as (? & ? & ? & ?); by split_and!.
Qed.

(** The last call, as the other ones, keeps the peer's part. *)
Lemma ends_honest op I s r s' : op <> SslShutdown -> ends op I s r s' -> tls_honest s -> tls_honest s'.
Proof.
  intros Hop (s1 & rc & rest & out & ssl' & _ & _ & Hh & _ & Hc & E1 & E2 & _ & _ & E5 & _) Hs.
  unfold tls_honest. rewrite E1, E2, E5. eapply ssl_honest_call; [by apply Hh|done|exact Hc].
Qed.

Lemma tls_accept_ok fuel (s : tls) :
  tls_idle ssl_shaking s -> (tls_fuel s <= fuel)%nat ->
  exists ok s', tls_accept fuel s = Some (ok, s') /\ tls_wbio s' = [] /\
    (ok = true -> tls_idle ssl_synced s' /\ tls_plain s' = tls_plain s /\ (tls_honest s -> tls_honest s') /\
       unseal_out (st_written (tls_inner s')) = unseal_out (st_written (tls_inner s))).
Proof.
  intros Hi Hf. destruct (ssl_loop_ends SslAccept ssl_shaking fuel s keeps_accept ltac:(done) Hi Hf) as (r & s' & Hl & Hen).
  unfold tls_accept. rewrite Hl. cbn. eexists _, s'. split; [done|]. assert (tls_honest s -> tls_honest s') as Hho by (eapply ends_honest; [|exact Hen]; done).
  destruct Hen as (s1 & rc & rest & out & ssl' & (_ & _ & HI) & Hp & _ & Hu & Hc & E1 & E2 & E3 & E4 & E5 & E6 & Hrc).
  split; [done|]. destruct (ssl_accept_spec _ _ _ _ _ _ _ HI Hc) as [Hu' Hspec].
  destruct rc as [n buf| | |]; [|by destruct Hrc as [-> _]|done|by subst]. subst. intros _.
  destruct Hspec as [Hs Hpl]. unfold tls_idle, tls_plain in *. rewrite E5, E6. split_and!; (done || congruence).
Qed.

Lemma tls_read_ok fuel n (s : tls) :
  (0 < n)%nat -> tls_idle ssl_synced s -> (tls_fuel s <= fuel)%nat ->
  exists buf s', tls_read fuel n s = Some (buf, s') /\ tls_idle ssl_synced s' /\ (tls_honest s -> tls_honest s') /\
    tls_plain s = buf ++ tls_plain s' /\ (length buf <= n)%nat /\ (tls_plain s <> [] -> buf <> []) /\
    unseal_out (st_written (tls_inner s')) = unseal_out (st_written (tls_inner s)).
Proof.
  intros Hn Hi Hf. destruct (ssl_loop_ends (SslRead n) ssl_synced fuel s (keeps_read n Hn) ltac:(done) Hi Hf) as (r & s' & Hl & Hen).
  unfold tls_read. rewrite Hl. cbn. eexists _, s'. split; [done|]. assert (tls_honest s -> tls_honest s') as Hho by (eapply ends_honest; [|exact Hen]; done).
  destruct Hen as (s1 & rc & rest & out & ssl' & (_ & _ & HI) & Hp & _ & Hu & Hc & E1 & E2 & E3 & E4 & E5 & E6 & Hrc).
  destruct (ssl_read_spec _ _ _ _ _ _ _ _ Hn HI Hc) as (Hs & Hu' & Hspec).
  assert (tls_idle ssl_synced s') as Hi' by (unfold tls_idle; rewrite E1, E6; by split_and!).
  split; [done|]. split; [done|]. rewrite E6, Hu', Hu, <-Hp. unfold tls_plain in *. rewrite E1, E2, E5.
  destruct rc as [k buf| | |]; [|destruct Hrc as [-> Hnil]|done|]; subst; cbn.
  - destruct Hspec as (Hne & Hlen & Hpl). by rewrite Hpl.
  - destruct Hspec as (Hz & _ & Hpl). rewrite Hpl. rewrite E5 in Hnil. rewrite Hnil, app_nil_r, Hz. split_and!; [done|lia|done..].
  - destruct (Hspec (st_data (tls_inner s1))) as [-> ->]. split_and!; [done|lia|done..].
Qed.

(** A write that makes progress, or one that returns 0 because the session has
    failed: then the peer has read nothing of it, and did not keep to the protocol. *)
Lemma tls_write_ok fuel bs (s : tls) :
  bs <> [] -> tls_idle ssl_synced s -> (tls_fuel s <= fuel)%nat ->
  exists k s', tls_write fuel bs s = Some (k, s') /\ (k <= length bs)%nat /\
    unseal_out (st_written (tls_inner s')) = unseal_out (st_written (tls_inner s)) ++ take k bs /\
    if (0 <? k)%nat then tls_idle ssl_synced s' /\ (tls_honest s -> tls_honest s') /\ tls_plain s' = tls_plain s
    else ~ tls_honest s.
Proof.
  intros Hne Hi Hf.
  destruct (ssl_loop_ends (SslWrite bs) ssl_synced fuel s (keeps_write bs Hne) ltac:(done) Hi Hf) as (r & s' & Hl & Hen).
  unfold tls_write. rewrite Hl. cbn [mbind option_bind]. eexists _, s'. split; [done|]. assert (tls_honest s -> tls_honest s') as Hho by (eapply ends_honest; [|exact Hen]; done).
  destruct Hen as (s1 & rc & rest & out & ssl' & (_ & _ & HI) & Hp & Hh & Hu & Hc & E1 & E2 & E3 & E4 & E5 & E6 & Hrc).
  pose proof (ssl_write_spec _ _ _ _ _ _ _ _ Hne HI Hc) as Hspec. rewrite E6.
  assert (tls_honest s -> rc <> RcOther /\ rc <> RcWantRead) as Hwr.
  { intros Hs%Hh. by eapply ssl_honest_write. }
  destruct rc as [k buf| | |]; [subst r|destruct Hrc as [-> _]|done|subst r].
  - destruct Hspec as (Hs & Hk & Hu' & Hpl). rewrite (proj2 (Nat.ltb_lt 0 k)) by lia.
    split_and!; [lia|by rewrite Hu', Hu| |done|].
    + unfold tls_idle. rewrite E1, E6. by split_and!.
    + rewrite <-Hp. unfold tls_plain. by rewrite E1, E2, E5.
  - destruct Hspec as (_ & Hu' & _). split_and!; [lia|by rewrite app_nil_r, Hu'|]. intros Hs%Hwr. tauto.
  - split_and!; [lia|by rewrite app_nil_r, Hspec|]. intros Hs%Hwr. tauto.
Qed.

(** ** An established session is a stream

    Between two operations of a session after its handshake, [tls_idle] holds;
    the loop's fuel is what the network still holds and OpenSSL's own retries.

    A write that returns 0 leaves the connection [Stuck]: the loops that call it
    ([http1_io::write_all], [ws_connection::write_all]) call it again without end
    ([TlsServer.tls_write_failure_spins]), so nothing that comes after it in the
    program happens.  [Stuck s unread claimed] holds the stream as it was left, and
    what the rest of the program would have read and written: in it [secure_Stream]
    is not [tls_stream] but a stand-in that lets the program's text be read to its
    end; what the peer has got is what [s] has sent.

    [honest] says that the peer keeps to the protocol, [base] is what it had read
    when the handshake began. *)
Section Secure.
Context (honest : Prop) (base : bytes).

Record live (s : tls) : Prop := mk_live {
  lv_idle : tls_idle ssl_synced s;
  lv_honest : honest -> tls_honest s;
  lv_base : base `prefix_of` unseal_out (st_written (tls_inner s));
}.

Record stuck (s : tls) : Prop := mk_stuck {
  sk_dishonest : ~ honest;
  sk_base : base `prefix_of` unseal_out (st_written (tls_inner s));
}.

Inductive secure :=
| Live (s : tls) (Hs : live s)
| Stuck (s : tls) (Hs : stuck s) (unread claimed : bytes).

(** The stream of [tls_stream] itself. *)
Definition secure_tls (x : secure) : tls := match x with Live s _ => s | Stuck s _ _ _ => s end.

Lemma read_live n s buf s' : (0 < n)%nat -> live s -> tls_read (tls_fuel s) n s = Some (buf, s') -> live s'.
Proof.
  intros Hn [Hi Hh Hb] E. destruct (tls_read_ok _ n s Hn Hi (Nat.le_refl _)) as (? & ? & E' & ? & ? & _ & _ & _ & Hu).
  rewrite E in E'. simplify_eq. split; [done|auto|by rewrite Hu].
Qed.

Lemma write_live bs s k s' : bs <> [] -> live s -> tls_write (tls_fuel s) bs s = Some (S k, s') -> live s'.
Proof.
  intros Hne [Hi Hh Hb] E. destruct (tls_write_ok _ bs s Hne Hi (Nat.le_refl _)) as (? & ? & E' & _ & Hu & Hk).
  rewrite E in E'. simplify_eq. destruct Hk as (? & ? & _). split; [done|auto|]. rewrite Hu. by apply prefix_app_r.
Qed.

Lemma write_stuck bs s s' : bs <> [] -> live s -> tls_write (tls_fuel s) bs s = Some (O, s') -> stuck s'.
Proof.
  intros Hne [Hi Hh Hb] E. destruct (tls_write_ok _ bs s Hne Hi (Nat.le_refl _)) as (? & ? & E' & _ & Hu & Hk).
  rewrite E in E'. simplify_eq. cbn in Hk. split; [auto|]. by rewrite Hu, app_nil_r.
Qed.

Definition secure_read (n : nat) (x : secure) : bytes * secure :=
  match x with
  | Live s Hs =>
      match decide (0 < n)%nat with
      | left Hn =>
          match tls_read (tls_fuel s) n s as r return (tls_read (tls_fuel s) n s = r -> bytes * secure) with
          | Some (buf, s') => fun E => (buf, Live s' (read_live n s buf s' Hn Hs E))
          | None => fun _ => ([], x)
          end eq_refl
      | right _ => ([], x)
      end
  | Stuck s Hs unread claimed => (take n unread, Stuck s Hs (drop n unread) claimed)
  end.

Definition secure_write (bs : bytes) (x : secure) : nat * secure :=
  match x with
  | Live s Hs =>
      match decide (bs <> []) with
      | left Hne =>
          match tls_write (tls_fuel s) bs s as r return (tls_write (tls_fuel s) bs s = r -> nat * secure) with
          | Some (S k, s') => fun E => (S k, Live s' (write_live bs s k s' Hne Hs E))
          | Some (O, s') => fun E => (length bs, Stuck s' (write_stuck bs s s' Hne Hs E) (tls_plain s) bs)
          | None => fun _ => (O, x)
          end eq_refl
      | right _ => (O, x)
      end
  | Stuck s Hs unread claimed => (length bs, Stuck s Hs unread (claimed ++ bs))
  end.

#[global] Instance secure_Stream : Stream secure := {
  st_get_length := fun _ => -1;
  st_can_seek := fun _ => false;
  st_seek := fun _ _ s => (-1, s);
  st_read := secure_read;
  st_write := secure_write;
}.

(** On a live session they are [tls_stream]'s. *)
Lemma secure_read_eq n s Hs buf x :
  (0 < n)%nat -> secure_read n (Live s Hs) = (buf, x) ->
  exists s' Hs', x = Live s' Hs' /\ tls_read (tls_fuel s) n s = Some (buf, s').
Proof.
  intros Hn. unfold secure_read. destruct (decide (0 < n)%nat) as [Hn'|]; [|done]. generalize (read_live n s).
  destruct (tls_read_ok _ n s Hn (lv_idle _ Hs) (Nat.le_refl _)) as (b & s' & Er & _).
  destruct (tls_read (tls_fuel s) n s) as [[b' s2]|]; [|done]. intros f. intros [= <- <-]. eauto.
Qed.

Lemma secure_write_eq bs s Hs k x :
  bs <> [] -> secure_write bs (Live s Hs) = (k, x) ->
  (0 < k)%nat /\
  ((exists s' Hs', x = Live s' Hs' /\ tls_write (tls_fuel s) bs s = Some (k, s')) \/
   (exists s' Hs', x = Stuck s' Hs' (tls_plain s) bs /\ k = length bs /\ tls_write (tls_fuel s) bs s = Some (0%nat, s'))).
Proof.
  intros Hne. unfold secure_write. destruct (decide (bs <> [])) as [Hne'|]; [|done]. generalize (write_live bs s) (write_stuck bs s).
  destruct (tls_write_ok _ bs s Hne (lv_idle _ Hs) (Nat.le_refl _)) as (b & s' & Er & _).
  destruct (tls_write (tls_fuel s) bs s) as [[[|k'] s2]|]; [| |done]; intros f g [= <- <-].
  - split; [destruct bs; [done|cbn; lia]|]. right. eauto 10.
  - split; [lia|]. left. eauto.
Qed.

Lemma secure_write_nil x : secure_write [] x = (0%nat, x) \/ exists s Hs u c, x = Stuck s Hs u c /\ secure_write [] x = (0%nat, Stuck s Hs u (c ++ [])).
Proof. destruct x as [s Hs|s Hs u c]; [left|right; by eauto 10]. unfold secure_write. by destruct (decide _). Qed.

#[global, refine] Instance secure_StreamReads : StreamReads secure := {
  st_data := fun x => match x with Live s _ => tls_plain s | Stuck _ _ unread _ => unread end;
  st_ok := fun _ => True;
}.
Proof.
  intros n [s Hs|s Hs u c] out x Hn _ E.
  - apply secure_read_eq in E as (s' & Hs' & -> & E); [|done].
    destruct (tls_read_ok _ n s Hn (lv_idle _ Hs) (Nat.le_refl _)) as (b & s2 & E' & _ & _ & Hp & Hl & Hne & _).
    rewrite E in E'. by simplify_eq.
  - cbn in E. injection E as <- <-. split; [done|]. split; [by rewrite take_drop|]. rewrite length_take. split; [lia|].
    intros Hu Ht. destruct u, n; try done. lia.
Defined.

#[global, refine] Instance secure_StreamWrites : StreamWrites secure := {
  st_written := fun x =>
    match x with
    | Live s _ => unseal_out (st_written (tls_inner s))
    | Stuck s _ _ claimed => unseal_out (st_written (tls_inner s)) ++ claimed
    end;
}.
Proof.
  intros bs x k x' E. destruct (decide (bs = [])) as [->|Hne].
  { cbn [st_write secure_Stream] in E. destruct (secure_write_nil x) as [E'|(s & Hs & u & c & -> & E')]; rewrite E in E'; simplify_eq; cbn;
      (split_and!; [done|done|by rewrite ?app_nil_r]). }
  destruct x as [s Hs|s Hs u c].
  - destruct (tls_write_ok _ bs s Hne (lv_idle _ Hs) (Nat.le_refl _)) as (b & s2 & E2 & Hk & Hu & _).
    apply secure_write_eq in E as (Hk0 & [(s' & Hs' & -> & E)|(s' & Hs' & -> & -> & E)]); [..|done]; rewrite E in E2; simplify_eq.
    + by split_and!.
    + split_and!; [done|done|]. by rewrite Hu, app_nil_r, firstn_all.
  - cbn in E. injection E as <- <-. split_and!; [done|by destruct bs; cbn; [|lia]|]. by rewrite <-app_assoc, firstn_all.
Defined.

#[global, refine] Instance secure_StreamDuplex : StreamDuplex secure := {}.
Proof.
  - intros n [s Hs|s Hs u c] out x E; [|by injection E as <- <-]. destruct (decide (0 < n)%nat) as [Hn|Hn].
    + apply secure_read_eq in E as (s' & Hs' & -> & E); [|done].
      destruct (tls_read_ok _ n s Hn (lv_idle _ Hs) (Nat.le_refl _)) as (b & s2 & E' & _ & _ & _ & _ & _ & Hu).
      rewrite E in E'. by simplify_eq.
    + cbn [st_read secure_Stream] in E. unfold secure_read in E. destruct (decide (0 < n)%nat); [done|]. by simplify_eq.
  - intros bs x k x' _ E. split; [done|]. destruct (decide (bs = [])) as [->|Hne].
    { cbn [st_write secure_Stream] in E. destruct (secure_write_nil x) as [E'|(s & Hs & u & c & -> & E')]; rewrite E in E'; by simplify_eq. }
    destruct x as [s Hs|s Hs u c]; [|by injection E as <- <-].
    destruct (tls_write_ok _ bs s Hne (lv_idle _ Hs) (Nat.le_refl _)) as (b & s2 & E2 & Hk & Hu & Hc).
    apply secure_write_eq in E as (Hk0 & [(s' & Hs' & -> & E)|(s' & Hs' & -> & -> & E)]); [..|done]; rewrite E in E2; simplify_eq; [|done].
    rewrite (proj2 (Nat.ltb_lt _ _) Hk0) in Hc. apply Hc.
Defined.
End Secure.
End TlsFacts.
