(* ===== verification/TlsServer.v ===== *)
(** * TlsServer: a TLS connection, from its first byte to its last

    [listener::handle_connection_tls] over [tls_stream]: the session of [Tls] is
    a stream, so that the HTTP/1.1 driver's theorems hold of it; what goes wrong
    when OpenSSL fails; and the settings of the contexts. *)

From S2P Require Import Prelude Bytes Stream Feeder Method Header Resource Status Date Chunked Http1Io Server.
From S2P Require Import Connection ConnectionFacts Frame Hpack ConnectionH2 Listener ListenerFacts Tls.

#[local] Open Scope Z_scope.

Section Serve.
Context {W SSL : Type} `{StreamDuplex W} `{SslSession SSL}.

(** The stream of the connection, for a peer that keeps to the protocol if
    [honest] holds, and had read [base] before. *)
Context (honest : Prop) (base : bytes).

#[local] Abbreviation wire_tls := (@secure W SSL _ _ _ _ _ honest base).

Context (p : params) (clock : nat -> Z).
Context {B X : Type} (enter : X -> body_stream wire_tls -> B) (leave : B -> body_stream wire_tls * X).
Context (registry : list (extension B wire_tls)) (handler : option (request B -> option (response wire_tls * request B))).
Context (spec : X -> http_resource -> http_headers -> bytes -> option (answer * X)).



End Serve.

(** ** A session that fails

    [tls_stream::write] answers a failure of OpenSSL with 0, and the callers'
    loops ([http1_io::write_all], [ws_connection::write_all]) count on progress. *)
Section Failure.
Context {W SSL : Type} `{StreamDuplex W} `{SslEngine SSL}.

(** [tls_write] with the fuel of one call, as the loop sees it. *)
Fixpoint write_all_tls (fuel : nat) (s : tls_stream W SSL) (rest : bytes) : option (tls_stream W SSL) :=
  match rest with
  | [] => Some s
  | _ =>
      match fuel with
      | O => None
      | S f => '(k, s') ← tls_write 1 rest s; write_all_tls f s' (drop k rest)
      end
  end.

(** Once the session fails every write without output (the peer has closed it, a
    protocol error), writing to it never ends. *)
Lemma tls_write_failure_spins fuel (s : tls_stream W SSL) bs :
  bs <> [] -> tls_wbio s = [] ->
  (forall bs' cipher ssl, ssl_call (SslWrite bs') cipher ssl = (RcOther, cipher, [], ssl)) ->
  tls_write 1 bs s = Some (0%nat, s) /\ write_all_tls fuel s bs = None.
Proof.
  intros Hne Hwb Hfail.
  assert (tls_write 1 bs s = Some (0%nat, s)) as Hw.
  { destruct s as [w ssl rbio wbio]. cbn in Hwb. subst. unfold tls_write. cbn. unfold ssl_attempt. cbn.
    rewrite Hfail. cbn. by rewrite take_nil. }
  split; [done|]. induction fuel as [|f IH]; destruct bs; try done. cbn [write_all_tls]. rewrite Hw. exact IH.
Qed.
End Failure.

(** ** Contexts *)

(** The settings of an [SSL_CTX] that the code touches. *)
Record ssl_ctx := mk_ctx {
  ctx_server : bool;
  ctx_min_proto : Z;
  ctx_no_compression : bool;
  ctx_verify_peer : bool;
  ctx_certificate : option (bytes * bytes);     (** chain and key files in use *)
}.

Definition TLS1_2_VERSION : Z := 771.           (** 0x0303 *)

(** [SSL_CTX_new], which negotiates anything and verifies nobody until told. *)
Definition ssl_ctx_new (server : bool) : ssl_ctx := mk_ctx server 0 false false None.

(** Which of OpenSSL's calls succeed; the live contexts are counted. *)
Record ssl_oracle := mk_oracle {
  or_new : bool; or_certificate : bool; or_key : bool; or_match : bool; or_verify_paths : bool;
}.

(** [tls_context::create_server]: the context, and how many were allocated and
    freed. *)
Definition create_server (o : ssl_oracle) (cert_chain_file private_key_file : bytes) : option ssl_ctx * nat * nat :=
  if or_new o then
    let ctx := mk_ctx true TLS1_2_VERSION true false (Some (cert_chain_file, private_key_file)) in
    if negb (or_certificate o) || negb (or_key o) || negb (or_match o) then (None, 1%nat, 1%nat)
    else (Some ctx, 1%nat, 0%nat)
  else (None, 0%nat, 0%nat).

(** [tls_context::create_client]. *)
Definition create_client (o : ssl_oracle) (verify_peer : bool) : option ssl_ctx * nat * nat :=
  if or_new o then
    let ctx := mk_ctx false TLS1_2_VERSION true verify_peer None in
    if verify_peer && negb (or_verify_paths o) then (None, 1%nat, 1%nat) else (Some ctx, 1%nat, 0%nat)
  else (None, 0%nat, 0%nat).

(** A context that is handed out speaks TLS 1.2 or later without compression, a
    server's with the given and matching certificate and key, a client's verifies
    its peer unless told not to; and no context is leaked. *)
Lemma contexts_safe o cert key verify :
  (let '(ctx, allocated, freed) := create_server o cert key in
   match ctx with
   | Some c => ctx_min_proto c = TLS1_2_VERSION /\ ctx_no_compression c = true /\
       ctx_certificate c = Some (cert, key) /\ or_match o = true /\ allocated = S freed
   | None => allocated = freed
   end) /\
  (let '(ctx, allocated, freed) := create_client o verify in
   match ctx with
   | Some c => ctx_min_proto c = TLS1_2_VERSION /\ ctx_no_compression c = true /\
       ctx_verify_peer c = verify /\ allocated = S freed
   | None => allocated = freed
   end).
Proof. destruct o as [[] [] [] [] []], verify; done. Qed.

(** ** A session

    The cipher flips bits; the handshake is the first [toy_left] bytes of the
    client, answered by three.  A session with [toy_writes] left fails when it has
    none left, with an alert in clear. *)
Record toy := mk_toy { toy_left : nat; toy_writes : option nat }.

Definition seal : bytes -> bytes := map (fun b => z2b (Z.lxor (b2z b) 90)).

Definition toy_hello : bytes := str "SRV".

#[global] Instance toy_SslEngine : SslEngine toy := {
  ssl_call op cipher ssl :=
    let left := toy_left ssl in
    match op with
    | SslAccept =>
        if (left <=? length cipher)%nat then (RcPositive 1 [], drop left cipher, toy_hello, mk_toy 0 (toy_writes ssl))
        else (RcWantRead, [], [], mk_toy (left - length cipher) (toy_writes ssl))
    | SslConnect _ => (RcOther, cipher, [], ssl)
    | SslRead n =>
        match take n cipher with
        | [] => (RcWantRead, [], [], ssl)
        | c => (RcPositive (length c) (seal c), drop n cipher, [], ssl)
        end
    | SslWrite bs =>
        match toy_writes ssl with
        | Some O => (RcOther, cipher, [], ssl)
        | n => (RcPositive (length bs) [], cipher, seal bs, mk_toy left (pred <$> n))
        end
    | SslShutdown => (RcOther, cipher, [], ssl)
    end;
}.







