(* ===== verification/Address.v ===== *)
(** * Address: include/nhttp/platform/address.hpp and src/platform/{posix,win32}/{address.cpp,sockaddr_convert.hpp}

    Addresses, endpoints and their conversion to the operating system's
    [sockaddr], as the bytes of a [sockaddr_storage].  The two platforms have the
    same code over different constants; [inet_pton], [inet_ntop] and
    [getaddrinfo] are parameters. *)

From S2P Require Import Prelude Bytes.

#[local] Open Scope Z_scope.

Inductive ip_version := v4 | v6.

#[global] Instance ip_version_eq_dec : EqDecision ip_version.
Proof. solve_decision. Defined.

Record ip_address := mk_ip {
  ip_version_ : ip_version;
  ip_v4 : bytes;            (** [std::array<std::uint8_t, 4>] *)
  ip_v6 : bytes;            (** [std::array<std::uint8_t, 16>] *)
}.

Record endpoint := mk_ep { ep_address : ip_address; ep_port : Z }.

Definition zeros (n : nat) : bytes := replicate n x00.

(** The default constructor. *)
Definition ip_address_new : ip_address := mk_ip v4 (zeros 4) (zeros 16).

Definition from_v4_bytes (b : bytes) : ip_address := mk_ip v4 b (ip_v6 ip_address_new).
Definition from_v6_bytes (b : bytes) : ip_address := mk_ip v6 (ip_v4 ip_address_new) b.

Definition is_v4 (a : ip_address) : bool := match ip_version_ a with v4 => true | v6 => false end.
Definition is_v6 (a : ip_address) : bool := match ip_version_ a with v6 => true | v4 => false end.

(** Network byte order. *)
Definition be16 (v : Z) : bytes := [z2b (v / 256); z2b v].
Definition be32 (v : Z) : bytes := [z2b (v / 16777216); z2b (v / 65536); z2b (v / 256); z2b v].
Definition of_be16 (b : bytes) : Z := match b with [hi; lo] => b2z hi * 256 + b2z lo | _ => 0 end.
(** [sa_family_t] in host order (both platforms run little-endian). *)
Definition le16 (v : Z) : bytes := [z2b v; z2b (v / 256)].
Definition of_le16 (b : bytes) : Z := match b with [lo; hi] => b2z hi * 256 + b2z lo | _ => 0 end.

Definition INADDR_ANY : Z := 0.
Definition INADDR_LOOPBACK : Z := 2130706433.  (** 0x7f000001 *)

Definition any_v4 : ip_address := from_v4_bytes (be32 INADDR_ANY).
Definition any_v6 : ip_address := from_v6_bytes (zeros 16).
Definition loopback_v4 : ip_address := from_v4_bytes (be32 INADDR_LOOPBACK).
Definition loopback_v6 : ip_address := from_v6_bytes (zeros 15 ++ [x01]).

(** ** sockaddr *)

Definition AF_INET : Z := 2.

(** [memcpy] of [d] to offset [off], and from it. *)
Definition blit (off : nat) (d : bytes) (s : bytes) : bytes := take off s ++ d ++ drop (off + length d) s.
Definition slice (off n : nat) (s : bytes) : bytes := take n (drop off s).

Definition sizeof_sockaddr_storage : nat := 128.
Definition sizeof_sockaddr_in : nat := 16.
Definition sizeof_sockaddr_in6 : nat := 28.

Section Convert.
Context (AF_INET6 : Z).

(** Family at 0, port at 2, [sin_addr] at 4, [sin6_addr] at 8. *)
Definition endpoint_to_sockaddr (ep : endpoint) : bytes * nat :=
  let out := zeros sizeof_sockaddr_storage in
  if is_v4 (ep_address ep) then
    let out := blit 0 (le16 AF_INET) out in
    let out := blit 4 (ip_v4 (ep_address ep)) out in
    (blit 2 (be16 (ep_port ep)) out, sizeof_sockaddr_in)
  else
    let out := blit 0 (le16 AF_INET6) out in
    let out := blit 8 (ip_v6 (ep_address ep)) out in
    (blit 2 (be16 (ep_port ep)) out, sizeof_sockaddr_in6).

Definition endpoint_from_sockaddr (addr : bytes) (len : nat) : option endpoint :=
  let family := of_le16 (slice 0 2 addr) in
  if (family =? AF_INET) && (sizeof_sockaddr_in <=? len)%nat then
    Some (mk_ep (from_v4_bytes (slice 4 4 addr)) (of_be16 (slice 2 2 addr)))
  else if (family =? AF_INET6) && (sizeof_sockaddr_in6 <=? len)%nat then
    Some (mk_ep (from_v6_bytes (slice 8 16 addr)) (of_be16 (slice 2 2 addr)))
  else None.
End Convert.

(** The two platforms. *)
Definition posix_endpoint_to_sockaddr := endpoint_to_sockaddr 10.
Definition posix_endpoint_from_sockaddr := endpoint_from_sockaddr 10.
Definition win32_endpoint_to_sockaddr := endpoint_to_sockaddr 23.
Definition win32_endpoint_from_sockaddr := endpoint_from_sockaddr 23.

(** ** Text and names *)

(** [owned.c_str()] stops at a NUL. *)
Definition c_str (s : bytes) : bytes := match find_byte x00 s with Some i => take i s | None => s end.

Section Text.
Context (inet_pton : ip_version -> bytes -> option bytes) (inet_ntop : ip_version -> bytes -> bytes).

Definition ip_parse (text : bytes) : option ip_address :=
  match inet_pton v4 (c_str text) with
  | Some b => Some (from_v4_bytes b)
  | None => match inet_pton v6 (c_str text) with Some b => Some (from_v6_bytes b) | None => None end
  end.

Definition ip_to_string (a : ip_address) : bytes :=
  if is_v4 a then inet_ntop v4 (ip_v4 a) else inet_ntop v6 (ip_v6 a).

Definition endpoint_to_string (ep : endpoint) : bytes :=
  if is_v6 (ep_address ep) then str "[" ++ ip_to_string (ep_address ep) ++ str "]:" ++ to_string (ep_port ep)
  else ip_to_string (ep_address ep) ++ str ":" ++ to_string (ep_port ep).

(** [resolve]: [getaddrinfo]'s answer is a list of addresses with their lengths,
    or a failure. *)
Definition resolve (AF_INET6 : Z) (getaddrinfo : bytes -> option (list (bytes * nat))) (host : bytes) (port : Z)
  : list endpoint :=
  match getaddrinfo (c_str host) with
  | None => []
  | Some result =>
      omap (fun '(addr, len) => ep ← endpoint_from_sockaddr AF_INET6 addr len; Some (mk_ep (ep_address ep) port)) result
  end.
End Text.

(** The two platforms' [resolve]. *)
Definition posix_resolve := resolve 10.
Definition win32_resolve := resolve 23.

(** ** Facts *)

(** An address as the constructors make it. *)
Definition ip_wf (a : ip_address) : Prop :=
  length (ip_v4 a) = 4%nat /\ length (ip_v6 a) = 16%nat /\
  (if is_v4 a then ip_v6 a = zeros 16 else ip_v4 a = zeros 4).

Lemma from_v4_wf b : length b = 4%nat -> ip_wf (from_v4_bytes b).
Proof. by intros. Qed.
Lemma from_v6_wf b : length b = 16%nat -> ip_wf (from_v6_bytes b).
Proof. by intros. Qed.

Lemma of_be16_be16 v : in_u 16 v -> of_be16 (be16 v) = v.
Proof.
  unfold in_u, of_be16, be16. change (2 ^ 16) with 65536. intros Hv. rewrite !b2z_z2b.
  rewrite (Z.mod_small (v / 256)); [|split; [apply Z.div_pos; lia|apply Z.div_lt_upper_bound; lia]].
  pose proof (Z.div_mod v 256). lia.
Qed.

Lemma slice_blit off n d s : length d = n -> (off + n <= length s)%nat -> slice off n (blit off d s) = d.
Proof.
  intros <- Hl. unfold slice, blit. rewrite drop_app_le by (rewrite length_take; lia).
  rewrite drop_ge by (rewrite length_take; lia). cbn. by rewrite take_app_length.
Qed.

Lemma length_blit off d s : (off + length d <= length s)%nat -> length (blit off d s) = length s.
Proof. intros Hl. unfold blit. rewrite !length_app, length_take, length_drop. lia. Qed.

(** A slice before or after what was copied. *)
Lemma slice_blit_other off n off' d s :
  (off' + length d <= length s)%nat -> (off + n <= off' \/ off' + length d <= off)%nat ->
  slice off n (blit off' d s) = slice off n s.
Proof.
  intros Hl Hd. apply list_eq. intros i. unfold slice, blit.
  destruct (decide (i < n)%nat) as [Hi|Hi]; [|by rewrite !lookup_take_ge by lia].
  rewrite !lookup_take_lt, !lookup_drop by done. destruct Hd as [Hd|Hd].
  - rewrite lookup_app_l by (rewrite length_take; lia). by rewrite lookup_take_lt by lia.
  - rewrite lookup_app_r by (rewrite length_take; lia).
    rewrite lookup_app_r by (rewrite length_take; lia). rewrite lookup_drop, length_take. f_equal. lia.
Qed.

(** The fields of a filled [sockaddr_storage]. *)
Lemma sockaddr_fields f port o d :
  (4 <= o)%nat -> (o + length d <= 128)%nat ->
  let out := blit 2 (be16 port) (blit o d (blit 0 (le16 f) (zeros 128))) in
  length out = 128%nat /\ slice 0 2 out = le16 f /\ slice 2 2 out = be16 port /\ slice o (length d) out = d.
Proof.
  intros Ho Hl. cbn zeta. assert (length (zeros 128) = 128%nat) as L0 by done.
  pose proof (length_blit 0 (le16 f) _ ltac:(rewrite L0; cbn; lia)) as L1. rewrite L0 in L1.
  pose proof (length_blit o d _ ltac:(rewrite L1; lia)) as L2. rewrite L1 in L2.
  split_and!.
  - rewrite length_blit; [done|rewrite L2; cbn; lia].
  - rewrite !slice_blit_other by (rewrite ?L1, ?L2; cbn; lia). apply slice_blit; [done|rewrite L0; lia].
  - apply slice_blit; [done|rewrite L2; lia].
  - rewrite slice_blit_other by (rewrite ?L2; cbn; lia). apply slice_blit; [done|rewrite L1; lia].
Qed.

Lemma of_le16_le16 f : in_u 16 f -> of_le16 (le16 f) = f.
Proof. exact (of_be16_be16 f). Qed.

Lemma sockaddr_back (AF_INET6 : Z) ep :
  ip_wf (ep_address ep) -> in_u 16 (ep_port ep) -> in_u 16 AF_INET6 -> AF_INET6 <> AF_INET ->
  let '(addr, len) := endpoint_to_sockaddr AF_INET6 ep in endpoint_from_sockaddr AF_INET6 addr len = Some ep.
Proof.
  destruct ep as [[ver b4 b6] port]. intros (H4 & H6 & Hz) Hp Haf Hne.
  cbn [ep_address ip_v4 ip_v6 ip_version_ ep_port is_v4] in *.
  unfold endpoint_to_sockaddr, endpoint_from_sockaddr, sizeof_sockaddr_storage. cbn [ep_address ep_port ip_v4 ip_v6].
  destruct ver; cbn in Hz; subst; cbn [is_v4 ip_version_].
  - destruct (sockaddr_fields AF_INET port 4 b4) as (Hl & Hf & Hpt & Hd); [lia|lia|]. rewrite H4 in Hd.
    rewrite Hf, Hpt, Hd, of_le16_le16, of_be16_be16 by done. done.
  - destruct (sockaddr_fields AF_INET6 port 8 b6) as (Hl & Hf & Hpt & Hd); [lia|lia|]. rewrite H6 in Hd.
    rewrite Hf, Hpt, Hd, of_le16_le16, of_be16_be16 by done.
    rewrite (proj2 (Z.eqb_neq _ _) Hne), Z.eqb_refl. done.
Qed.

(** An endpoint survives the operating system: what [bind], [connect],
    [accept] and [getsockname] exchange with it fills a [sockaddr_storage] and
    converts back to the endpoint, whatever number the platform gives to IPv6. *)
Lemma endpoint_sockaddr_roundtrip (AF_INET6 : Z) ep :
  ip_wf (ep_address ep) -> in_u 16 (ep_port ep) -> in_u 16 AF_INET6 -> AF_INET6 <> AF_INET ->
  let '(addr, len) := endpoint_to_sockaddr AF_INET6 ep in
  length addr = sizeof_sockaddr_storage /\ endpoint_from_sockaddr AF_INET6 addr len = Some ep.
Proof.
  intros Ha Hp Haf Hne. pose proof (sockaddr_back _ ep Ha Hp Haf Hne) as Hb. pose proof Ha as (H4 & H6 & _).
  assert (length (fst (endpoint_to_sockaddr AF_INET6 ep)) = sizeof_sockaddr_storage) as Hl; [|by destruct (endpoint_to_sockaddr _ _)].
  unfold endpoint_to_sockaddr, sizeof_sockaddr_storage. destruct (is_v4 (ep_address ep)); apply sockaddr_fields; lia.
Qed.

Lemma endpoint_sockaddr_roundtrip_witness :
  win32_endpoint_from_sockaddr (fst (win32_endpoint_to_sockaddr (mk_ep loopback_v6 8080)))
    (snd (win32_endpoint_to_sockaddr (mk_ep loopback_v6 8080))) = Some (mk_ep loopback_v6 8080).
Proof. apply (endpoint_sockaddr_roundtrip 23 (mk_ep loopback_v6 8080)); done. Defined.

(** Every endpoint [resolve] gives has the port asked for. *)
Lemma resolve_port AF_INET6 getaddrinfo host port ep :
  ep ∈ resolve AF_INET6 getaddrinfo host port -> ep_port ep = port.
Proof.
  unfold resolve. destruct (getaddrinfo (c_str host)) as [r|]; [|by intros ?%not_elem_of_nil].
  intros ([addr len] & _ & He)%list_elem_of_omap. destruct (endpoint_from_sockaddr _ _ _); [|done]. by injection He as <-.
Qed.

(** Printing and parsing an address, when [inet_pton] reads what [inet_ntop]
    prints and no text is an address of both kinds. *)
Lemma ip_parse_to_string inet_pton inet_ntop a :
  (forall v b, inet_pton v (c_str (inet_ntop v b)) = Some b) ->
  (forall b, inet_pton v4 (c_str (inet_ntop v6 b)) = None) ->
  ip_wf a -> ip_parse inet_pton (ip_to_string inet_ntop a) = Some a.
Proof.
  intros Hrt Hno (_ & _ & Hz). destruct a as [[] b4 b6]; cbn in Hz; subst; unfold ip_parse, ip_to_string; cbn.
  - by rewrite Hrt.
  - by rewrite Hno, Hrt.
Qed.
