(* ===== verification/Socket.v ===== *)
(** * Socket: src/platform/{posix,win32}/socket.cpp and src/async/socket.cpp

    [socket_handle], the owner of one file descriptor, as objects over the
    process's table of open descriptors; and the operations of [async_socket],
    loops over one non-blocking system call.

    [Platform] is what the two implementations of socket.hpp differ in; a system
    call is a parameter that gives a result or an error code. *)

From S2P Require Import Prelude Bytes Address Coroutine.

#[local] Open Scope Z_scope.

(** ** Platforms *)

Inductive connect_result := connected | in_progress | failed.

Class Platform := {
  would_block : Z -> bool;              (** of the last error *)
  was_interrupted : Z -> bool;
  connect_pending : Z -> bool;          (** an error of [connect] that means it goes on *)
  io_cap : nat -> nat;                  (** how much of a length one call takes *)
  supports_reuse_port : bool;
}.

Definition EINTR : Z := 4.
Definition EAGAIN : Z := 11.
Definition EWOULDBLOCK : Z := 11.
Definition EINPROGRESS : Z := 115.
Definition WSAEINTR : Z := 10004.
Definition WSAEWOULDBLOCK : Z := 10035.

Definition posix_would_block (errno : Z) : bool := (errno =? EAGAIN) || (errno =? EWOULDBLOCK).
Definition posix_was_interrupted (errno : Z) : bool := errno =? EINTR.
Definition win32_would_block (error : Z) : bool := error =? WSAEWOULDBLOCK.
Definition win32_was_interrupted (error : Z) : bool := error =? WSAEINTR.

(** [INT_MAX], to which [recv] and [send] are capped. *)
Definition win32_io_cap (n : nat) : nat := if 2147483647 <? Z.of_nat n then Z.to_nat 2147483647 else n.

Definition posix_Platform : Platform := {|
  would_block := posix_would_block;
  was_interrupted := posix_was_interrupted;
  connect_pending := fun errno => errno =? EINPROGRESS;
  io_cap := fun n => n;
  supports_reuse_port := true;
|}.

Definition win32_Platform : Platform := {|
  would_block := win32_would_block;
  was_interrupted := win32_was_interrupted;
  connect_pending := fun error => error =? WSAEWOULDBLOCK;
  io_cap := win32_io_cap;
  supports_reuse_port := false;
|}.

(** ** Handles *)

Definition invalid_native_socket : Z := -1.

(** The program's [socket_handle] objects, the descriptors that are open, those
    that were released to other owners, and whether one was closed that was not
    open. *)
Record handles := mk_handles {
  hd_objs : gmap nat Z;
  hd_open : gset Z;
  hd_raw : gset Z;
  hd_misclosed : bool;
}.

Definition handles_new : handles := mk_handles ∅ ∅ ∅ false.

(** [::close]. *)
Definition sys_close (fd : Z) (s : handles) : handles :=
  mk_handles (hd_objs s) (hd_open s ∖ {[fd]}) (hd_raw s) (hd_misclosed s || negb (bool_decide (fd ∈ hd_open s))).

Definition set_obj (o : nat) (fd : Z) (s : handles) : handles :=
  mk_handles (<[o := fd]> (hd_objs s)) (hd_open s) (hd_raw s) (hd_misclosed s).

(** A descriptor the kernel has just opened. *)
Definition sys_open (fd : Z) (s : handles) : handles :=
  mk_handles (hd_objs s) (hd_open s ∪ {[fd]}) (hd_raw s) (hd_misclosed s).

(** [socket_handle::create]: [::socket] gives a new descriptor or fails, and the
    object is constructed with it. *)
Definition handle_create (o : nat) (result : option Z) (s : handles) : handles :=
  match result with
  | Some fd => set_obj o fd (sys_open fd s)
  | None => set_obj o invalid_native_socket s
  end.

Definition handle_valid (o : nat) (s : handles) : bool :=
  match hd_objs s !! o with Some fd => negb (fd =? invalid_native_socket) | None => false end.

(** [release]: [std::exchange(fd_, invalid)]; the value goes to [k]. *)
Definition handle_release {A} (o : nat) (s : handles) (k : Z -> handles -> option A) : option A :=
  fd ← hd_objs s !! o; k fd (set_obj o invalid_native_socket s).

(** [release()] by a caller that keeps the raw descriptor. *)
Definition handle_release_raw (o : nat) (s : handles) : option handles :=
  handle_release o s (fun fd s =>
    Some (if fd =? invalid_native_socket then s
          else mk_handles (hd_objs s) (hd_open s) (hd_raw s ∪ {[fd]}) (hd_misclosed s))).

(** [socket_handle(fd)] with such a descriptor. *)
Definition handle_adopt (o : nat) (fd : Z) (s : handles) : handles :=
  set_obj o fd (mk_handles (hd_objs s) (hd_open s) (hd_raw s ∖ {[fd]}) (hd_misclosed s)).

Definition handle_close (o : nat) (s : handles) : option handles :=
  fd ← hd_objs s !! o;
  Some (if fd =? invalid_native_socket then s else set_obj o invalid_native_socket (sys_close fd s)).

(** The move constructor. *)
Definition handle_move (o other : nat) (s : handles) : option handles :=
  handle_release other s (fun fd s => Some (set_obj o fd s)).

(** [operator=(socket_handle&&)]. *)
Definition handle_assign (o other : nat) (s : handles) : option handles :=
  if (o =? other)%nat then Some s
  else s1 ← handle_close o s; handle_release other s1 (fun fd s => Some (set_obj o fd s)).

(** The destructor, and the end of the object. *)
Definition handle_destroy (o : nat) (s : handles) : option handles :=
  s1 ← handle_close o s; Some (mk_handles (delete o (hd_objs s1)) (hd_open s1) (hd_raw s1) (hd_misclosed s1)).

(** [accept]: the accepted descriptor is closed again when its peer's address
    cannot be read. *)
Definition handle_accept (o : nat) (result : option (Z * option endpoint)) (s : handles) : option endpoint * handles :=
  match result with
  | None => (None, s)
  | Some (fd, None) => (None, sys_close fd (sys_open fd s))
  | Some (fd, Some ep) => (Some ep, set_obj o fd (sys_open fd s))
  end.

(** What a program may do with its handles: a new object has a new name, and the
    kernel gives out descriptors that are not in use. *)
Inductive handle_step : handles -> handles -> Prop :=
| hs_default o s : hd_objs s !! o = None -> handle_step s (set_obj o invalid_native_socket s)
| hs_create o r s : hd_objs s !! o = None -> (forall fd, r = Some fd -> 0 <= fd /\ fd ∉ hd_open s) ->
    handle_step s (handle_create o r s)
| hs_accept o r s : hd_objs s !! o = None -> (forall fd ep, r = Some (fd, ep) -> 0 <= fd /\ fd ∉ hd_open s) ->
    handle_step s (snd (handle_accept o r s))
| hs_release o s s' : handle_release_raw o s = Some s' -> handle_step s s'
| hs_adopt o fd s : hd_objs s !! o = None -> fd ∈ hd_raw s -> handle_step s (handle_adopt o fd s)
| hs_close o s s' : handle_close o s = Some s' -> handle_step s s'
| hs_move o other s s' : hd_objs s !! o = None -> o <> other -> handle_move o other s = Some s' -> handle_step s s'
| hs_assign o other s s' : handle_assign o other s = Some s' -> handle_step s s'
| hs_destroy o s s' : handle_destroy o s = Some s' -> handle_step s s'.

(** ** Operations of [async_socket] *)

(** What one system call reports. *)
Inductive sys_result (A : Type) := SysOk (a : A) | SysErr (error : Z).
#[global] Arguments SysOk {A} a.
#[global] Arguments SysErr {A} error.

(** The loop of [read_some], [write_some], [send_file] and [accept]: the call is
    repeated after a wait when it would block, and at once when it was
    interrupted; another error is thrown. *)
Fixpoint retry `{Platform} {K A : Type} (call : K -> sys_result A * K) (wait : K -> K) (fuel : nat) (k : K) : option (result A Z * K) :=
  match fuel with
  | O => None
  | S f =>
      let '(r, k1) := call k in
      match r with
      | SysOk a => Some (Value a, k1)
      | SysErr e =>
          if would_block e then retry call wait f (wait k1)
          else if was_interrupted e then retry call wait f k1
          else Some (Raised e, k1)
      end
  end.

Section Async.
Context `{Platform} {K : Type}.
(** The coroutine is suspended until the descriptor is readable or writable;
    meanwhile the world goes on. *)
Context (wait_readable wait_writable : K -> K).

Definition async_read_some (sys_read : nat -> K -> sys_result bytes * K) (n fuel : nat) (k : K)
  : option (result bytes Z * K) :=
  retry (sys_read (io_cap n)) wait_readable fuel k.

Definition async_write_some (sys_write : bytes -> K -> sys_result nat * K) (bs : bytes) (fuel : nat) (k : K)
  : option (result nat Z * K) :=
  retry (sys_write (take (io_cap (length bs)) bs)) wait_writable fuel k.

(** [sendfile(2)]: the offset is advanced by the call. *)
Definition async_send_file (sys_sendfile : Z -> nat -> K -> sys_result nat * Z * K) (offset : Z) (count fuel : nat) (k : K)
  : option (result nat Z * (Z * K)) :=
  retry (fun '(off, k) => let '(r, off', k') := sys_sendfile off count k in (r, (off', k')))
    (fun '(off, k) => (off, wait_writable k)) fuel (offset, k).

(** [accept] gives the new [async_socket]'s descriptor; an accepted socket whose
    address is unknown is closed, and the error reported is the last one. *)
Definition async_accept (sys_accept : K -> sys_result (Z * endpoint) * K) (fuel : nat) (k : K)
  : option (result (Z * endpoint) Z * K) :=
  retry sys_accept wait_readable fuel k.

(** [socket_handle::connect]. *)
Definition handle_connect (r : sys_result unit) : connect_result :=
  match r with
  | SysOk _ => connected
  | SysErr e => if connect_pending e then in_progress else failed
  end.

Definition async_connect (sys_connect : K -> sys_result unit * K) (sys_so_error : K -> Z * K) (k : K) : bool * K :=
  let '(r, k1) := sys_connect k in
  match handle_connect r with
  | failed => (false, k1)
  | connected => (true, k1)
  | in_progress => let '(e, k2) := sys_so_error (wait_writable k1) in (e =? 0, k2)
  end.
End Async.
