(* ===== verification/SocketFacts.v ===== *)
(** * SocketFacts: descriptors are closed once, and calls are retried exactly *)

From S2P Require Import Prelude Bytes Address Coroutine Socket.

#[local] Open Scope Z_scope.

(** ** Ownership *)

Definition holds (s : handles) (o : nat) (fd : Z) : Prop := hd_objs s !! o = Some fd /\ fd <> invalid_native_socket.

Record owned (s : handles) : Prop := mk_owned {
  ow_held o fd : holds s o fd -> 0 <= fd /\ fd ∈ hd_open s /\ fd ∉ hd_raw s;
  ow_unique o o' fd : holds s o fd -> holds s o' fd -> o = o';
  ow_open fd : fd ∈ hd_open s -> fd ∈ hd_raw s \/ exists o, holds s o fd;
  ow_raw fd : fd ∈ hd_raw s -> fd ∈ hd_open s /\ 0 <= fd;
  ow_closed : hd_misclosed s = false;
}.

Lemma owned_new : owned handles_new.
Proof. split; try done; unfold holds; cbn; set_solver. Qed.

Lemma holds_set s o fd o' fd' :
  holds (set_obj o fd s) o' fd' <-> (o' = o /\ fd' = fd /\ fd <> invalid_native_socket) \/ (o' <> o /\ holds s o' fd').
Proof.
  unfold holds, set_obj. cbn. destruct (decide (o = o')) as [->|Hne].
  - rewrite lookup_insert_eq. naive_solver.
  - rewrite lookup_insert_ne by done. naive_solver.
Qed.

(** An object that holds nothing is made, emptied or dropped. *)
Lemma owned_empty_obj s o : owned s -> (forall fd, ~ holds s o fd) -> owned (set_obj o invalid_native_socket s).
Proof.
  intros [H1 H2 H3 H4 H5] Ho. split; try done.
  - intros o' fd [(_ & _ & ?)|[_ Hh]]%holds_set; [done|]. by eapply H1.
  - intros o1 o2 fd [(_ & _ & ?)|[_ Ha]]%holds_set [(_ & _ & ?)|[_ Hb]]%holds_set; try done. by eapply H2.
  - intros fd Hfd. destruct (H3 fd Hfd) as [?|[o' Hh]]; [by left|]. right. exists o'. apply holds_set. right.
    split; [|done]. intros ->. by eapply Ho.
Qed.

(** A descriptor changes hands: from an object, from the kernel or from a raw
    owner, to an object that holds nothing. *)
Lemma owned_give s o fd :
  owned s -> (forall fd, ~ holds s o fd) -> 0 <= fd -> fd ∉ hd_open s ->
  owned (set_obj o fd (sys_open fd s)).
Proof.
  intros [H1 H2 H3 H4 H5] Ho Hfd Hn.
  assert (forall o' fd', holds (sys_open fd s) o' fd' <-> holds s o' fd') as Hs by done.
  split; try done.
  - intros o' fd' [(-> & -> & _)|[_ Hh]]%holds_set; cbn.
    + split; [done|]. split; [set_solver|]. intros Hr. by apply H4 in Hr as [].
    + destruct (H1 _ _ Hh) as (? & ? & ?). split; [done|]. set_solver.
  - intros o1 o2 fd' [(-> & -> & _)|[_ Ha]]%holds_set [(-> & E & _)|[_ Hb]]%holds_set; try done.
    + by destruct (H1 _ _ Hb) as (_ & ? & _).
    + subst. by destruct (H1 _ _ Ha) as (_ & ? & _).
    + by eapply H2.
  - cbn. intros fd' [Hf|Hf%elem_of_singleton]%elem_of_union.
    + destruct (H3 _ Hf) as [?|[o' Hh]]; [by left|right]. exists o'. apply holds_set. right. split; [|done]. intros ->. by eapply Ho.
    + subst. right. exists o. apply holds_set. left. unfold invalid_native_socket. split_and!; [done..|lia].
  - cbn. intros fd' Hr. apply H4 in Hr as [??]. split; [set_solver|done].
Qed.

(** [close] of a held descriptor. *)
Lemma owned_close s o s' : owned s -> handle_close o s = Some s' ->
  owned s' /\ (forall fd, ~ holds s' o fd) /\ (forall o' fd, o' <> o -> holds s' o' fd <-> holds s o' fd) /\
  hd_raw s' = hd_raw s.
Proof.
  intros Hw. unfold handle_close. destruct (hd_objs s !! o) as [fd|] eqn:Ho; [cbn|done]. intros [= <-].
  destruct (Z.eqb_spec fd invalid_native_socket) as [->|Hne].
  { split_and!; try done. intros fd [? ?]. congruence. }
  assert (holds s o fd) as Hh by done. destruct Hw as [H1 H2 H3 H4 H5]. destruct (H1 _ _ Hh) as (Hpos & Hop & Hnr).
  assert (forall o' fd', holds (sys_close fd s) o' fd' <-> holds s o' fd') as Hs by done.
  split_and!.
  - split.
    + intros o' fd' [(_ & _ & ?)|[Hne' Hh']]%holds_set; [done|]. destruct (H1 _ _ Hh') as (? & ? & ?). cbn.
      split_and!; [done| |done]. apply elem_of_difference. split; [done|]. intros ->%elem_of_singleton.
      by apply Hne', (H2 o' o fd).
    + intros o1 o2 fd' [(_ & _ & ?)|[_ Ha]]%holds_set [(_ & _ & ?)|[_ Hb]]%holds_set; try done. by eapply H2.
    + cbn. intros fd' [Hf Hf']%elem_of_difference. destruct (H3 _ Hf) as [?|[o' Hh']]; [by left|right].
      exists o'. apply holds_set. right. split; [|done]. intros ->. destruct Hh, Hh'. set_solver.
    + cbn. intros fd' Hr. destruct (H4 _ Hr) as [? ?]. split; [|done]. apply elem_of_difference. split; [done|].
      intros ->%elem_of_singleton. done.
    + cbn. rewrite H5, bool_decide_eq_true_2 by done. done.
  - intros fd' [(_ & _ & ?)|[? _]]%holds_set; done.
  - intros o' fd' Hne'. rewrite holds_set, Hs. naive_solver.
  - done.
Qed.

(** [release] into an object that holds nothing. *)
Lemma owned_transfer s o other fd :
  owned s -> o <> other -> (forall fd, ~ holds s o fd) -> hd_objs s !! other = Some fd ->
  owned (set_obj o fd (set_obj other invalid_native_socket s)).
Proof.
  intros [H1 H2 H3 H4 H5] Hne Ho Hfd.
  assert (forall o' fd', holds (set_obj o fd (set_obj other invalid_native_socket s)) o' fd' <->
    (o' = o /\ fd' = fd /\ fd <> invalid_native_socket) \/ (o' <> o /\ o' <> other /\ holds s o' fd')) as Hh.
  { intros o' fd'. rewrite !holds_set. naive_solver. }
  split; try done.
  - intros o' fd' [(-> & -> & ?)|(_ & _ & Ha)]%Hh; [by apply (H1 other)|by eapply H1].
  - intros o1 o2 fd' [(-> & -> & ?)|(? & ? & Ha)]%Hh [(-> & E & ?)|(? & ? & Hb)]%Hh; try done.
    + assert (o2 = other) by (by eapply H2). done.
    + subst. assert (o1 = other) by (by eapply H2). done.
    + by eapply H2.
  - intros fd' Hf. cbn in Hf. destruct (H3 _ Hf) as [?|[o' Ha]]; [by left|right].
    destruct (decide (o' = other)) as [->|].
    + exists o. apply Hh. left. destruct Ha. naive_solver.
    + exists o'. apply Hh. right. split_and!; [|done|done]. intros ->. by eapply Ho.
Qed.

Lemma owned_release s o s' : owned s -> handle_release_raw o s = Some s' -> owned s'.
Proof.
  intros Hw. unfold handle_release_raw, handle_release. destruct (hd_objs s !! o) as [fd|] eqn:Ho; [cbn|done]. intros [= <-].
  destruct (Z.eqb_spec fd invalid_native_socket) as [->|Hne].
  { apply owned_empty_obj; [done|]. intros fd [? ?]. congruence. }
  assert (holds s o fd) as Hh by done. destruct Hw as [H1 H2 H3 H4 H5]. destruct (H1 _ _ Hh) as (Hpos & Hop & Hnr).
  set (s1 := set_obj o invalid_native_socket s).
  assert (forall o' fd', holds s1 o' fd' <-> o' <> o /\ holds s o' fd') as Hs by (intros o' fd'; unfold s1; rewrite holds_set; naive_solver).
  split; try done; cbn.
  - intros o' fd' [Hne' Ha]%Hs. destruct (H1 _ _ Ha) as (? & ? & ?). split_and!; [done..|].
    intros [?| ->%elem_of_singleton]%elem_of_union; [done|]. by apply Hne', (H2 o' o fd).
  - intros o1 o2 fd' [_ Ha]%Hs [_ Hb]%Hs. by eapply H2.
  - intros fd' Hf. destruct (decide (fd' = fd)) as [->|]; [left; set_solver|].
    destruct (H3 _ Hf) as [?|[o' Ha]]; [left; set_solver|right]. exists o'. apply Hs. split; [|done].
    intros ->. destruct Hh, Ha. congruence.
  - intros fd' [Hf| ->%elem_of_singleton]%elem_of_union; [by apply H4|done].
Qed.

Lemma owned_adopt s o fd : owned s -> hd_objs s !! o = None -> fd ∈ hd_raw s -> owned (handle_adopt o fd s).
Proof.
  intros [H1 H2 H3 H4 H5] Ho Hr. destruct (H4 _ Hr) as [Hop Hpos].
  set (s1 := mk_handles (hd_objs s) (hd_open s) (hd_raw s ∖ {[fd]}) (hd_misclosed s)).
  assert (forall o' fd', holds (handle_adopt o fd s) o' fd' <->
    (o' = o /\ fd' = fd /\ fd <> invalid_native_socket) \/ (o' <> o /\ holds s o' fd')) as Hs by (intros; apply (holds_set s1)).
  split; try done; cbn.
  - intros o' fd' [(-> & -> & _)|[_ Ha]]%Hs; [split_and!; [done..|set_solver]|].
    destruct (H1 _ _ Ha) as (? & ? & ?). split_and!; [done..|set_solver].
  - intros o1 o2 fd' [(-> & -> & _)|[_ Ha]]%Hs [(-> & E & _)|[_ Hb]]%Hs; try done.
    + by destruct (H1 _ _ Hb) as (_ & _ & ?).
    + subst. by destruct (H1 _ _ Ha) as (_ & _ & ?).
    + by eapply H2.
  - intros fd' Hf. destruct (decide (fd' = fd)) as [->|].
    + right. exists o. apply Hs. left. unfold invalid_native_socket. split_and!; [done..|lia].
    + destruct (H3 _ Hf) as [?|[o' Ha]]; [left; set_solver|right]. exists o'. apply Hs. right. split; [|done].
      intros ->. destruct Ha. congruence.
  - intros fd' [Hf _]%elem_of_difference. by apply H4.
Qed.

Lemma owned_step s s' : owned s -> handle_step s s' -> owned s'.
Proof.
  intros Hw.
  assert (forall o, hd_objs s !! o = None -> forall fd, ~ holds s o fd) as Hnone by (intros o Ho fd [? _]; congruence).
  destruct 1 as [o s Ho|o r s Ho Hr|o r s Ho Hr|o s s' Hr|o fd s Ho Hf|o s s' Hc|o other s s' Ho Hne Hm|o other s s' Ha|o s s' Hd].
  - apply owned_empty_obj; auto.
  - destruct r as [fd|]; cbn; [|apply owned_empty_obj; auto]. destruct (Hr fd eq_refl). apply owned_give; auto.
  - destruct r as [[fd [ep|]]|]; cbn; [destruct (Hr fd _ eq_refl); apply owned_give; auto| |done].
    destruct (Hr fd None eq_refl) as [_ Hn]. destruct s as [ob op raw mis]. unfold sys_close, sys_open. cbn in *.
    assert ((op ∪ {[fd]}) ∖ {[fd]} = op) as -> by set_solver.
    rewrite bool_decide_eq_true_2 by set_solver. by rewrite orb_false_r.
  - by eapply owned_release.
  - by apply owned_adopt.
  - by apply (owned_close s o s').
  - unfold handle_move, handle_release in Hm. destruct (hd_objs s !! other) as [fd|] eqn:Hfd; [cbn in Hm|done].
    injection Hm as <-. apply owned_transfer; auto.
  - unfold handle_assign in Ha. destruct (Nat.eqb_spec o other) as [->|Hne]; [by injection Ha as <-|].
    destruct (handle_close o s) as [s1|] eqn:Hc; [cbn in Ha|done]. destruct (owned_close s o s1 Hw Hc) as (Hw1 & Hn1 & _).
    unfold handle_release in Ha. destruct (hd_objs s1 !! other) as [fd|] eqn:Hfd; [cbn in Ha|done].
    injection Ha as <-. by apply owned_transfer.
  - unfold handle_destroy in Hd. destruct (handle_close o s) as [s1|] eqn:Hc; [cbn in Hd|done]. injection Hd as <-.
    destruct (owned_close s o s1 Hw Hc) as ([H1 H2 H3 H4 H5] & Hn1 & _).
    assert (forall o' fd, holds (mk_handles (delete o (hd_objs s1)) (hd_open s1) (hd_raw s1) (hd_misclosed s1)) o' fd <-> holds s1 o' fd) as Hs.
    { intros o' fd. unfold holds. cbn. destruct (decide (o = o')) as [->|]; [|by rewrite lookup_delete_ne].
      rewrite lookup_delete_eq. split; [by intros [? _]|]. intros Hh. by destruct (Hn1 fd). }
    split; cbn; try done; setoid_rewrite Hs; eauto.
Qed.

(** C29: Whatever a program does with its socket handles (creating, moving, assigning, releasing,
    accepting, closing and destroying them), no descriptor is closed twice or after it was
    given away, every open one belongs to exactly one handle or was released, and once the
    handles are gone only released ones are open. *)
Theorem socket_handles_close_once s :
  rtc handle_step handles_new s ->
  hd_misclosed s = false /\
  (forall fd, fd ∈ hd_open s -> fd ∈ hd_raw s \/ exists o, holds s o fd /\ forall o', holds s o' fd -> o' = o) /\
  (hd_objs s = ∅ -> hd_open s = hd_raw s).
Proof.
  intros Hr. assert (owned s) as [H1 H2 H3 H4 H5].
  { remember handles_new as s0 eqn:E. assert (owned s0) as Hw by (subst; apply owned_new). clear E.
    induction Hr as [|x y z Hs _ IH]; [done|]. by eapply IH, owned_step. }
  split_and!; [done| |].
  - intros fd Hf. destruct (H3 fd Hf) as [?|[o Ho]]; [by left|right]. exists o. split; [done|]. intros o' Ho'. by eapply H2.
  - intros He. apply set_eq. intros fd. split; [|intros ?; by apply H4].
    intros Hf. destruct (H3 fd Hf) as [?|[o [Ho _]]]; [done|]. by rewrite He, lookup_empty in Ho.
Qed.

(** ** Retries *)
Section Retry.
Context `{Platform} {K A : Type} (call : K -> sys_result A * K) (wait : K -> K).

(** [n] calls that report nothing final lead from [k] to [k']. *)
Inductive transient : nat -> K -> K -> Prop :=
| tr_none k : transient 0 k k
| tr_blocked n k e k1 k' : call k = (SysErr e, k1) -> would_block e = true -> transient n (wait k1) k' -> transient (S n) k k'
| tr_interrupted n k e k1 k' :
    call k = (SysErr e, k1) -> would_block e = false -> was_interrupted e = true -> transient n k1 k' -> transient (S n) k k'.

(** The outcome of a final call. *)
Definition final (r : sys_result A) : option (result A Z) :=
  match r with
  | SysOk a => Some (Value a)
  | SysErr e => if would_block e || was_interrupted e then None else Some (Raised e)
  end.

(** An operation of async_socket ends with the first system call that neither would block nor was
    interrupted: its value is returned, its error thrown; it waits once for each call that
    would block; and nothing else ends it. *)
Lemma async_retry_exact fuel k r k' :
  retry call wait fuel k = Some (r, k') <->
  exists n k1 out, (n < fuel)%nat /\ transient n k k1 /\ call k1 = (out, k') /\ final out = Some r.
Proof.
  split.
  - revert k. induction fuel as [|f IH]; intros k; cbn; [done|]. destruct (call k) as [out k1] eqn:Hc.
    destruct out as [a|e]; [intros [= <- <-]; exists 0%nat, k, (SysOk a); split_and!; [lia|constructor|done..]|].
    destruct (would_block e) eqn:Hb; [|destruct (was_interrupted e) eqn:Hi].
    + intros (n & k2 & out & Hn & Ht & Hc' & Hf)%IH. exists (S n), k2, out. split_and!; [lia|by eapply tr_blocked|done..].
    + intros (n & k2 & out & Hn & Ht & Hc' & Hf)%IH. exists (S n), k2, out. split_and!; [lia|by eapply tr_interrupted|done..].
    + intros [= <- <-]. exists 0%nat, k, (SysErr e). split_and!; [lia|constructor|done|]. cbn. by rewrite Hb, Hi.
  - intros (n & k1 & out & Hn & Ht & Hc & Hf). revert fuel Hn.
    induction Ht as [k|n k e k1 k2 Hc1 Hb _ IH|n k e k1 k2 Hc1 Hb Hi _ IH]; intros [|fuel] Hn; try lia; cbn.
    + rewrite Hc. destruct out as [a|e]; cbn in Hf; [by injection Hf as <-|].
      destruct (would_block e), (was_interrupted e); try done. by injection Hf as <-.
    + rewrite Hc1, Hb. apply IH; [done|lia].
    + rewrite Hc1, Hb, Hi. apply IH; [done|lia].
Qed.
End Retry.

(** ** Runs *)

(** A socket that is moved out of a temporary, handed over raw and adopted by
    another thread's handle, while the temporary is destroyed. *)
Definition demo_handles : handles :=
  mk_handles {[2%nat := 5]} {[5]} ∅ false.

Lemma demo_handles_reach : rtc handle_step handles_new demo_handles.
Proof.
  eapply rtc_l; [apply (hs_create 0 (Some 5) handles_new); [done|intros fd [= <-]; split; [lia|set_solver]]|].
  eapply rtc_l; [eapply (hs_move 1 0); [done|done|reflexivity]|].
  eapply rtc_l; [eapply (hs_release 1); reflexivity|].
  eapply rtc_l; [eapply (hs_destroy 0); reflexivity|].
  eapply rtc_l; [eapply (hs_adopt 2 5); [done|cbn; set_solver]|].
  eapply rtc_l; [eapply (hs_destroy 1); reflexivity|].
  replace demo_handles with (mk_handles
    (delete 1%nat (<[2%nat := 5]> (<[1%nat := -1]> (delete 0%nat (<[1%nat := 5]> (<[0%nat := -1]> (<[0%nat := 5]> ∅)))))))
    (∅ ∪ {[5]}) ((∅ ∪ {[5]}) ∖ {[5]}) false); [apply rtc_refl|].
  reflexivity.
Qed.

Lemma socket_handles_close_once_witness :
  exists o, holds demo_handles o 5 /\ forall o', holds demo_handles o' 5 -> o' = o.
Proof.
  destruct (socket_handles_close_once demo_handles demo_handles_reach) as (_ & Ho & _).
  destruct (Ho 5) as [Hr|?]; [cbn; set_solver|cbn in Hr; set_solver|done].
Defined.

(** A read that is interrupted, then would block, then succeeds. *)
Definition demo_read (_ : nat) (k : list (sys_result bytes)) : sys_result bytes * list (sys_result bytes) :=
  match k with [] => (SysOk [], []) | r :: rest => (r, rest) end.

Example read_retries :
  async_read_some (H := posix_Platform) (fun k => k) demo_read 10 4 [SysErr EINTR; SysErr EAGAIN; SysOk (str "hi")] = Some (Value (str "hi"), []).
Proof. reflexivity. Qed.
