(* ===== verification/AsyncSocket.v ===== *)
(** * AsyncSocket: the objects of class [async_socket] (src/async/socket.cpp)

    An [async_socket] owns a descriptor and, on the heap, its [io_registration]
    with one [io_context]; coroutines suspend through it, the reactor keeps the
    registration's address.  Objects are constructed, moved, assigned, closed and
    destroyed; [IoContext] is what they do to their context. *)

From S2P Require Import Prelude IoContext IoContextFacts Socket.

#[local] Open Scope Z_scope.

(** [ctx_] (set or null), [handle_], [reg_]. *)
Record async_socket := mk_async { as_ctx : bool; as_fd : Z; as_reg : option nat }.

Record sockets := mk_sockets {
  ss_objs : gmap nat async_socket;
  ss_io : io_context;
  ss_open : gset Z;
  ss_bad : bool;                (** a descriptor was closed that was not open *)
}.

Definition sockets_new : sockets := mk_sockets ∅ (mk_io ∅ ∅ [] []) ∅ false.

Definition set_async (o : nat) (a : async_socket) (s : sockets) : sockets :=
  mk_sockets (<[o := a]> (ss_objs s)) (ss_io s) (ss_open s) (ss_bad s).

(** [async_socket()] and what a move leaves behind. *)
Definition async_none (ctx : bool) : async_socket := mk_async ctx invalid_native_socket None.

(** [async_socket(ctx, handle)] with a descriptor the system has just opened. *)
Definition async_open (o r : nat) (fd : Z) (s : sockets) : sockets :=
  mk_sockets (<[o := mk_async true fd (Some r)]> (ss_objs s)) (open_socket r fd (ss_io s)) (ss_open s ∪ {[fd]}) (ss_bad s).

(** [close]: [forget] when there is a registration and a context, the descriptor,
    then the registration is freed. *)
Definition async_close (o : nat) (s : sockets) : option sockets :=
  a ← ss_objs s !! o;
  io ← match as_reg a with
       | Some r =>
           if as_ctx a then close_socket r (ss_io s)
           else Some (mk_io (delete r (io_regs (ss_io s))) (io_epoll (ss_io s)) (io_timers (ss_io s)) (io_posted (ss_io s)))
       | None => Some (ss_io s)
       end;
  let s1 := if as_fd a =? invalid_native_socket then mk_sockets (ss_objs s) io (ss_open s) (ss_bad s)
            else mk_sockets (ss_objs s) io (ss_open s ∖ {[as_fd a]}) (ss_bad s || negb (bool_decide (as_fd a ∈ ss_open s))) in
  Some (set_async o (async_none (as_ctx a)) s1).

(** The move constructor. *)
Definition async_move (o other : nat) (s : sockets) : option sockets :=
  a ← ss_objs s !! other; Some (set_async o a (set_async other (async_none false) s)).

(** [operator=(async_socket&&)]. *)
Definition async_assign (o other : nat) (s : sockets) : option sockets :=
  if (o =? other)%nat then Some s else s1 ← async_close o s; async_move o other s1.

Definition async_destroy (o : nat) (s : sockets) : option sockets :=
  s1 ← async_close o s; Some (mk_sockets (delete o (ss_objs s1)) (ss_io s1) (ss_open s1) (ss_bad s1)).

(** What a coroutine does on a socket it holds, and timers. *)
Definition async_watch (write : bool) (o h : nat) (s : sockets) : option sockets :=
  a ← ss_objs s !! o;
  r ← as_reg a;
  io ← io_do (if write then OWatchWrite r h else OWatchRead r h) (ss_io s);
  Some (mk_sockets (ss_objs s) io (ss_open s) (ss_bad s)).

Inductive socket_step : sockets -> sockets -> Prop :=
| st_default o s : ss_objs s !! o = None -> socket_step s (set_async o (async_none false) s)
| st_open o r fd s : ss_objs s !! o = None -> io_regs (ss_io s) !! r = None -> 0 <= fd -> fd ∉ ss_open s ->
    socket_step s (async_open o r fd s)
| st_close o s s' : async_close o s = Some s' -> socket_step s s'
| st_move o other s s' : ss_objs s !! o = None -> o <> other -> async_move o other s = Some s' -> socket_step s s'
| st_assign o other s s' : async_assign o other s = Some s' -> socket_step s s'
| st_destroy o s s' : async_destroy o s = Some s' -> socket_step s s'
| st_watch write o h s s' : async_watch write o h s = Some s' -> socket_step s s'
| st_event e hs io s : take_event e (ss_io s) = Some (hs, io) ->
    socket_step s (mk_sockets (ss_objs s) io (ss_open s) (ss_bad s)).

(** ** Ownership *)

(** Registration [r] with descriptor [fd] is object [o]'s. *)
Definition owns (s : sockets) (o r : nat) (fd : Z) : Prop := ss_objs s !! o = Some (mk_async true fd (Some r)).

Record owned_sockets (s : sockets) : Prop := mk_owned_sockets {
  ow_io : io_inv (ss_io s);
  ow_shape o a : ss_objs s !! o = Some a -> (exists r fd, a = mk_async true fd (Some r)) \/ exists c, a = async_none c;
  ow_regs o r fd : owns s o r fd -> 0 <= fd /\ fd ∈ ss_open s /\ exists g, io_regs (ss_io s) !! r = Some g /\ rg_fd g = fd;
  ow_once o o' r fd fd' : owns s o r fd -> owns s o' r fd' -> o = o';
  ow_reg r g : io_regs (ss_io s) !! r = Some g -> exists o, owns s o r (rg_fd g);
  ow_open fd : fd ∈ ss_open s -> exists o r, owns s o r fd;
  ow_good : ss_bad s = false;
}.

(** Objects without a registration come, go and change without effect. *)
Lemma owned_objs s objs :
  owned_sockets s -> (forall o r fd, objs !! o = Some (mk_async true fd (Some r)) <-> owns s o r fd) ->
  (forall o a, objs !! o = Some a -> (exists r fd, a = mk_async true fd (Some r)) \/ exists c, a = async_none c) ->
  owned_sockets (mk_sockets objs (ss_io s) (ss_open s) (ss_bad s)).
Proof.
  intros [H1 H2 H3 H4 H5 H6 H7] Hs Hsh. split; cbn; try done; unfold owns; cbn; setoid_rewrite Hs; eauto.
Qed.

Lemma none_ne c r fd : async_none c <> mk_async true fd (Some r).
Proof. done. Qed.

(** The context changes, but neither its registrations' names nor their descriptors. *)
Lemma owned_io s io :
  owned_sockets s -> io_inv io -> (forall r, rg_fd <$> io_regs io !! r = rg_fd <$> io_regs (ss_io s) !! r) ->
  owned_sockets (mk_sockets (ss_objs s) io (ss_open s) (ss_bad s)).
Proof.
  intros [H1 H2 H3 H4 H5 H6 H7] Hi Hr. split; cbn; try done.
  - intros o r fd Ho. destruct (H3 o r fd Ho) as (? & ? & g & Hg & Hf). split_and!; [done..|]. specialize (Hr r). rewrite Hg in Hr.
    destruct (io_regs io !! r) as [g'|]; [|done]. cbn in Hr. exists g'. split; [done|]. congruence.
  - intros r g Hg. specialize (Hr r). rewrite Hg in Hr. destruct (io_regs (ss_io s) !! r) as [g'|] eqn:E; [|done]. cbn in Hr.
    destruct (H5 r g' E) as [o Ho]. exists o. replace (rg_fd g) with (rg_fd g') by congruence. exact Ho.
Qed.

Lemma set_reg_fd r g s r' :
  io_inv s -> (exists g0, io_regs s !! r = Some g0 /\ rg_fd g = rg_fd g0) ->
  rg_fd <$> io_regs (set_reg r g s) !! r' = rg_fd <$> io_regs s !! r'.
Proof.
  intros _ (g0 & Hg0 & Hf). unfold set_reg. destruct (update_interest r g (io_epoll s)) as [g' e] eqn:E. cbn.
  assert (rg_fd g' = rg_fd g) as Hg'.
  { unfold update_interest in E. repeat case_match; by injection E as <- <-. }
  destruct (decide (r = r')) as [<-|]; [rewrite lookup_insert_eq, Hg0; cbn; congruence|by rewrite lookup_insert_ne].
Qed.

(** An object that owns nothing is written over. *)
Lemma owned_insert_none s o c :
  owned_sockets s -> (forall r fd, ~ owns s o r fd) -> owned_sockets (set_async o (async_none c) s).
Proof.
  intros Hw Hn. apply owned_objs; [done| |].
  - intros o' r fd. destruct (decide (o = o')) as [<-|]; [rewrite lookup_insert_eq|by rewrite lookup_insert_ne].
    split; [by intros [= ]|]. intros Ho. by destruct (Hn r fd).
  - intros o' a. destruct (decide (o = o')) as [<-|]; [rewrite lookup_insert_eq; intros [= <-]; eauto|].
    rewrite lookup_insert_ne by done. apply (ow_shape s Hw).
Qed.

Lemma owned_close_reg s o r fd g io :
  owned_sockets s -> owns s o r fd -> io_regs (ss_io s) !! r = Some g -> rg_fd g = fd -> close_socket r (ss_io s) = Some io ->
  owned_sockets (set_async o (async_none true) (mk_sockets (ss_objs s) io (ss_open s ∖ {[fd]}) false)).
Proof.
  intros Hw Ho Hg Hf Hc. assert (io_inv io) as Hi by (eapply (io_do_inv (OClose r)); [apply (ow_io s Hw)|exact I|exact Hc]).
  assert (io_regs io = delete r (io_regs (ss_io s))) as Er.
  { unfold close_socket in Hc. rewrite Hg in Hc. by injection Hc as <-. }
  destruct Hw as [H1 H2 H3 H4 H5 H6 H7].
  assert (forall o' r' fd', owns (set_async o (async_none true) (mk_sockets (ss_objs s) io (ss_open s ∖ {[fd]}) false)) o' r' fd' <->
    o' <> o /\ owns s o' r' fd') as Hs.
  { intros o' r' fd'. unfold owns, set_async. cbn. destruct (decide (o = o')) as [<-|];
      [rewrite lookup_insert_eq; naive_solver|rewrite lookup_insert_ne by done; naive_solver]. }
  assert (forall o' r' fd', o' <> o -> owns s o' r' fd' -> r' <> r /\ fd' <> fd) as Hne.
  { intros o' r' fd' Hn Ho'. assert (r' <> r) as Hr by (intros ->; apply Hn; by eapply H4). split; [done|]. intros ->. apply Hr.
    destruct (H3 _ _ _ Ho') as (_ & _ & g' & Hg' & Hf'). eapply (ii_fds _ H1); [done|done|congruence]. }
  split; try done; try setoid_rewrite Hs; cbn.
  - intros o' a. destruct (decide (o = o')) as [<-|]; [rewrite lookup_insert_eq; intros [= <-]; eauto|]. rewrite lookup_insert_ne by done. apply H2.
  - intros o' r' fd' [Hn Ho']. destruct (Hne _ _ _ Hn Ho'). destruct (H3 _ _ _ Ho') as (? & ? & g' & Hg' & Hf').
    split_and!; [done|set_solver|]. exists g'. by rewrite Er, lookup_delete_ne.
  - intros o1 o2 r' f1 f2 [_ Ho1] [_ Ho2]. by eapply H4.
  - intros r' g'. rewrite Er. intros [Hn Hg']%lookup_delete_Some. destruct (H5 r' g' Hg') as [o' Ho']. exists o'. split; [|done].
    intros ->. unfold owns in *. congruence.
  - intros fd' [Hin Hn]%elem_of_difference. destruct (H6 fd' Hin) as (o' & r' & Ho'). exists o', r'. split; [|done].
    intros ->. unfold owns in *. set_solver.
Qed.

Lemma owned_async_close s o s' :
  owned_sockets s -> async_close o s = Some s' ->
  owned_sockets s' /\ exists c, ss_objs s' = <[o := async_none c]> (ss_objs s).
Proof.
  intros Hw Hc. unfold async_close in Hc. destruct (ss_objs s !! o) as [a|] eqn:Ho; [cbn in Hc|done].
  destruct (ow_shape s Hw o a Ho) as [(r & fd & ->)|[c ->]]; cbn in Hc.
  - destruct (ow_regs s Hw o r fd Ho) as (Hp & Hin & g & Hg & Hf). unfold close_socket in Hc. rewrite Hg in Hc. cbn in Hc.
    unfold invalid_native_socket in Hc. rewrite (proj2 (Z.eqb_neq fd (-1))) in Hc by lia. rewrite bool_decide_true in Hc by done.
    rewrite (ow_good s Hw) in Hc. injection Hc as <-. split; [|by exists true].
    eapply owned_close_reg; [done|done|done|done|]. unfold close_socket. by rewrite Hg.
  - injection Hc as <-. split; [|by exists c].
    replace (mk_sockets (ss_objs s) (ss_io s) (ss_open s) (ss_bad s)) with s by (by destruct s).
    apply owned_insert_none; [done|]. intros r fd Hr. unfold owns in Hr. rewrite Ho in Hr. by injection Hr.
Qed.

(** Everything object [other] has goes to an object that has nothing. *)
Lemma owned_move s o other s' :
  owned_sockets s -> o <> other -> (forall r fd, ~ owns s o r fd) -> async_move o other s = Some s' -> owned_sockets s'.
Proof.
  intros Hw Hne Hn Hm. unfold async_move in Hm. destruct (ss_objs s !! other) as [a|] eqn:Ha; [cbn in Hm|done]. injection Hm as <-.
  assert (forall o' r fd, owns (set_async o a (set_async other (async_none false) s)) o' r fd <->
    (o' = o /\ owns s other r fd) \/ (o' <> o /\ o' <> other /\ owns s o' r fd)) as Hs.
  { intros o' r fd. unfold owns, set_async. cbn. destruct (decide (o = o')) as [<-|].
    - rewrite lookup_insert_eq, Ha. naive_solver.
    - rewrite lookup_insert_ne by done. destruct (decide (other = o')) as [<-|];
        [rewrite lookup_insert_eq|rewrite lookup_insert_ne by done]; naive_solver. }
  assert (forall r fd, ss_objs s !! o = Some (mk_async true fd (Some r)) -> False) as Hn' by (intros r fd Hr; by destruct (Hn r fd)).
  destruct Hw as [H1 H2 H3 H4 H5 H6 H7]. split; try done; try setoid_rewrite Hs; cbn.
  - intros o' b. destruct (decide (o = o')) as [<-|]; [rewrite lookup_insert_eq; intros [= <-]; by eapply H2|]. rewrite lookup_insert_ne by done.
    destruct (decide (other = o')) as [<-|]; [rewrite lookup_insert_eq; intros [= <-]; eauto|]. rewrite lookup_insert_ne by done. apply H2.
  - intros o' r fd [[_ Ho]|(_ & _ & Ho)]; by eapply H3.
  - intros o1 o2 r f1 f2 [[-> Ho1]|(? & ? & Ho1)] [[-> Ho2]|(? & ? & Ho2)]; [done| | |by eapply H4].
    + destruct (H4 _ _ _ _ _ Ho1 Ho2). done.
    + destruct (H4 _ _ _ _ _ Ho1 Ho2). done.
  - intros r g Hg. destruct (H5 r g Hg) as [o' Ho']. destruct (decide (o' = other)) as [->|]; [exists o; by left|].
    exists o'. right. split_and!; [|done|done]. intros ->. by destruct (Hn r (rg_fd g)).
  - intros fd Hf. destruct (H6 fd Hf) as (o' & r & Ho'). destruct (decide (o' = other)) as [->|]; [exists o, r; by left|].
    exists o', r. right. split_and!; [|done|done]. intros ->. by destruct (Hn r fd).
Qed.

Lemma owned_open s o r fd :
  owned_sockets s -> ss_objs s !! o = None -> io_regs (ss_io s) !! r = None -> 0 <= fd -> fd ∉ ss_open s ->
  owned_sockets (async_open o r fd s).
Proof.
  intros Hw Ho Hr Hp Hf. destruct Hw as [H1 H2 H3 H4 H5 H6 H7].
  assert (forall o' r' fd', owns (async_open o r fd s) o' r' fd' <-> (o' = o /\ r' = r /\ fd' = fd) \/ (o' <> o /\ owns s o' r' fd')) as Hs.
  { intros o' r' fd'. unfold owns, async_open. cbn. destruct (decide (o = o')) as [<-|];
      [rewrite lookup_insert_eq|rewrite lookup_insert_ne by done]; naive_solver. }
  assert (forall o' r' fd', owns s o' r' fd' -> r' <> r /\ fd' <> fd) as Hne.
  { intros o' r' fd' Ho'. destruct (H3 _ _ _ Ho') as (_ & ? & g & Hg & _). split; [congruence|set_solver]. }
  split; try done; try setoid_rewrite Hs; cbn.
  - eapply (io_do_inv (OOpen r fd)); [done| |done]. split; [done|]. intros r' g Hg Hfd. destruct (H5 r' g Hg) as [o' Ho'].
    destruct (Hne _ _ _ Ho'). done.
  - intros o' b. destruct (decide (o = o')) as [<-|]; [rewrite lookup_insert_eq; intros [= <-]; eauto|]. rewrite lookup_insert_ne by done. apply H2.
  - intros o' r' fd' [(-> & -> & ->)|[_ Ho']]; [split_and!; [done|set_solver|]; exists (reg_new fd); by rewrite lookup_insert_eq|].
    destruct (Hne _ _ _ Ho'). destruct (H3 _ _ _ Ho') as (? & ? & g & Hg & ?). split_and!; [done|set_solver|]. exists g. by rewrite lookup_insert_ne.
  - intros o1 o2 r' f1 f2 [(-> & -> & ->)|[? Ho1]] [(-> & Er & ->)|[? Ho2]]; [done| | |by eapply H4].
    + by destruct (Hne _ _ _ Ho2).
    + by destruct (Hne _ _ _ Ho1).
  - intros r' g [[<- <-]|[Hn Hg]]%lookup_insert_Some; [exists o; by left|]. destruct (H5 r' g Hg) as [o' Ho']. exists o'. right.
    split; [|done]. intros ->. unfold owns in Ho'. congruence.
  - intros fd' [Hin|Hin]%elem_of_union; [|exists o, r; left; set_solver]. destruct (H6 fd' Hin) as (o' & r' & Ho'). exists o', r'. right.
    split; [|done]. intros ->. unfold owns in Ho'. congruence.
Qed.

Lemma watch_fd (write : bool) r h io io' r' :
  io_inv io -> io_do (if write then OWatchWrite r h else OWatchRead r h) io = Some io' ->
  rg_fd <$> io_regs io' !! r' = rg_fd <$> io_regs io !! r'.
Proof.
  intros Hi. destruct write; cbn; unfold watch_readable, watch_writable; destruct (io_regs io !! r) as [g|] eqn:E; try done; cbn;
    intros [= <-]; apply set_reg_fd; eauto.
Qed.

Lemma event_fd e io hs io' r' :
  io_inv io -> take_event e io = Some (hs, io') -> rg_fd <$> io_regs io' !! r' = rg_fd <$> io_regs io !! r'.
Proof.
  intros Hi. unfold take_event. destruct (io_regs io !! ev_user_data e) as [g|] eqn:E; [cbn|done].
  destruct (take_waiters e g) as [hs1 g1] eqn:Et. intros [= <- <-]. apply set_reg_fd; [done|]. exists g. split; [done|].
  unfold take_waiters in Et. destruct (ev_readable e && _); destruct (ev_writable e && _); by injection Et as <- <-.
Qed.

Lemma owned_socket_step s s' : owned_sockets s -> socket_step s s' -> owned_sockets s'.
Proof.
  intros Hw. destruct 1 as [o s Ho|o r fd s Ho Hr Hp Hf|o s s' Hc|o other s s' Ho Hne Hm|o other s s' Ha|o s s' Hd|write o h s s' Hx|e hs io s Hx].
  - apply owned_insert_none; [done|]. intros r fd Hr. unfold owns in Hr. congruence.
  - by apply owned_open.
  - by eapply owned_async_close.
  - eapply owned_move; [done|done| |done]. intros r fd Hr. unfold owns in Hr. congruence.
  - unfold async_assign in Ha. destruct (Nat.eqb_spec o other) as [->|Hne]; [by injection Ha as <-|].
    destruct (async_close o s) as [s1|] eqn:Hc; [cbn in Ha|done]. destruct (owned_async_close s o s1 Hw Hc) as [Hw1 [c Ho]].
    eapply owned_move; [done|done| |done]. intros r fd Hr. unfold owns in Hr. rewrite Ho, lookup_insert_eq in Hr. by injection Hr.
  - unfold async_destroy in Hd. destruct (async_close o s) as [s1|] eqn:Hc; [cbn in Hd|done]. injection Hd as <-.
    destruct (owned_async_close s o s1 Hw Hc) as [Hw1 [c Ho]]. apply owned_objs; [done| |].
    + intros o' r fd. unfold owns. rewrite Ho. destruct (decide (o = o')) as [<-|];
        [rewrite lookup_delete_eq, lookup_insert_eq; naive_solver|by rewrite lookup_delete_ne].
    + intros o' a [_ Hl]%lookup_delete_Some. by eapply (ow_shape s1 Hw1).
  - unfold async_watch in Hx. destruct (ss_objs s !! o) as [a|]; [cbn in Hx|done]. destruct (as_reg a) as [r|]; [cbn in Hx|done].
    destruct (io_do (if write then OWatchWrite r h else OWatchRead r h) (ss_io s)) as [io|] eqn:E; [|done]. cbn in Hx. injection Hx as <-. pose proof (ow_io s Hw) as Hi.
    apply owned_io; [done| |]; [|intros r'; by eapply watch_fd]. eapply io_do_inv; [done| |exact E]. by destruct write.
  - pose proof (ow_io s Hw) as Hi. apply owned_io; [done|by eapply take_event_inv|]. intros r'. by eapply event_fd.
Qed.

(** C33: Sockets of an event loop: however async_socket objects are constructed, moved, assigned,
    closed and destroyed while coroutines wait on them and events arrive, every registration
    belongs to exactly one object, which holds the descriptor it names, no descriptor is
    closed twice, and when the objects are gone no registration, no interest in the reactor
    and no descriptor is left. *)
Theorem async_sockets_owned s :
  rtc socket_step sockets_new s ->
  ss_bad s = false /\
  (forall r g, io_regs (ss_io s) !! r = Some g ->
     rg_fd g ∈ ss_open s /\ exists o, owns s o r (rg_fd g) /\ forall o' fd, owns s o' r fd -> o' = o) /\
  (ss_objs s = ∅ -> io_regs (ss_io s) = ∅ /\ io_epoll (ss_io s) = ∅ /\ ss_open s = ∅).
Proof.
  intros Hr. assert (owned_sockets s) as [H1 H2 H3 H4 H5 H6 H7].
  { remember sockets_new as s0 eqn:E. assert (owned_sockets s0) as Hw.
    { subst. split; cbn; try done; try set_solver. }
    clear E. induction Hr as [|x y z Hs _ IH]; [done|]. by eapply IH, owned_socket_step. }
  split_and!; [done| |].
  - intros r g Hg. destruct (H5 r g Hg) as [o Ho]. split; [by destruct (H3 _ _ _ Ho) as (_ & ? & _)|]. exists o. split; [done|].
    intros o' fd Ho'. by eapply H4.
  - intros He. assert (forall o r fd, ~ owns s o r fd) as Hn by (intros o r fd; unfold owns; by rewrite He, lookup_empty).
    assert (io_regs (ss_io s) = ∅) as Hregs.
    { apply map_empty. intros r. destruct (io_regs (ss_io s) !! r) as [g|] eqn:E; [|done]. destruct (H5 r g E) as [o Ho]. by destruct (Hn _ _ _ Ho). }
    split_and!; [done| |].
    + apply map_empty. intros fd. destruct (io_epoll (ss_io s) !! fd) as [[[rd wr] r]|] eqn:E; [|done].
      destruct (ii_epoll _ H1 _ _ _ _ E) as (g & Hg & _). by rewrite Hregs, lookup_empty in Hg.
    + apply set_eq. intros fd. split; [|set_solver]. intros Hf. destruct (H6 fd Hf) as (o & r & Ho). by destruct (Hn _ _ _ Ho).
Qed.

(** ** A run *)

(** A socket is opened, waited on and moved into another object. *)
Definition demo_sockets : sockets :=
  default sockets_new (s ← async_watch false 0 9 (async_open 0 0 5 sockets_new); async_move 1 0 s).

Lemma demo_sockets_reach : rtc socket_step sockets_new demo_sockets.
Proof.
  eapply rtc_l; [apply (st_open 0 0 5); [done|done|lia|set_solver]|].
  eapply rtc_l; [eapply (st_watch false 0 9); reflexivity|].
  eapply rtc_l; [eapply (st_move 1 0); [done|done|reflexivity]|]. reflexivity.
Qed.

Lemma async_sockets_owned_witness : exists o, owns demo_sockets o 0 5 /\ o = 1%nat.
Proof.
  destruct (async_sockets_owned demo_sockets demo_sockets_reach) as (_ & H & _).
  destruct (H 0%nat (mk_reg 5 (Some 9%nat) None true true false)) as (_ & o & Ho & Hu); [reflexivity|].
  exists o. split; [exact Ho|]. symmetry. apply (Hu 1%nat 5). reflexivity.
Defined.
