(* ===== verification/IocpReactor.v ===== *)
(** * IocpReactor: src/platform/win32/reactor.cpp

    The reactor of Windows: readiness is a Win32 event object per socket, a
    thread-pool wait on it that posts a packet to the completion port, and
    [wait], which turns packets into ready events.

    [socket_state] objects live in a heap and are named by their address, which
    is the completion key of their packets.  Network events and the thread pool
    are steps of the operating system: an event of the selected kinds is recorded
    and signals the event object, and a registered wait on a signalled object
    posts once ([WT_EXECUTEONLYONCE]). *)

From S2P Require Import Prelude IoContext.

#[local] Open Scope Z_scope.

Definition FD_READ : Z := 1.
Definition FD_WRITE : Z := 2.
Definition FD_ACCEPT : Z := 8.
Definition FD_CONNECT : Z := 16.
Definition FD_CLOSE : Z := 32.

Record socket_state := mk_ss {
  ss_fd : Z;
  ss_user_data : nat;
  ss_want_read : bool;
  ss_want_write : bool;
  ss_mask : Z;               (** what [WSAEventSelect] selected *)
  ss_events : Z;             (** what was recorded since [WSAEnumNetworkEvents] *)
  ss_waiting : bool;         (** a thread-pool wait is registered *)
}.

(** A packet of the port: the wake sentinel, a readiness packet with its
    [socket_state], the completion of an overlapped operation. *)
Inductive packet := PWake | PReady (st : nat) | PDone (op : nat) (transferred error : Z).

#[global] Instance packet_eq_dec : EqDecision packet.
Proof. solve_decision. Defined.

Record iocp := mk_iocp {
  ic_states : gmap Z nat;
  ic_heap : gmap nat socket_state;
  ic_fresh : nat;
  ic_queue : list packet;
}.

Definition iocp_new : iocp := mk_iocp ∅ ∅ 0 [].

Definition read_bits : Z := Z.lor FD_READ (Z.lor FD_ACCEPT FD_CLOSE).
Definition write_bits : Z := Z.lor FD_WRITE (Z.lor FD_CONNECT FD_CLOSE).

(** [arm].  [WSAEventSelect] clears what was recorded; what is still so is recorded
    again, a [net_event]. *)
Definition arm (want_read want_write : bool) (st : socket_state) : socket_state :=
  if negb want_read && negb want_write then
    mk_ss (ss_fd st) (ss_user_data st) want_read want_write (ss_mask st) (ss_events st) (ss_waiting st)
  else
    let mask := Z.lor (if want_read then read_bits else 0) (if want_write then write_bits else 0) in
    mk_ss (ss_fd st) (ss_user_data st) want_read want_write mask 0 true.

(** [add]: [created] is the outcome of [WSACreateEvent].  A second [add] of a
    descriptor would arm a state that [emplace] has not kept: undefined. *)
Definition iocp_add (created : bool) (fd : Z) (want_read want_write : bool) (user_data : nat) (s : iocp)
  : option (bool * iocp) :=
  if created then
    match ic_states s !! fd with
    | Some _ => None
    | None =>
        let st := mk_ss fd user_data false false 0 0 false in
        Some (true, mk_iocp (<[fd := ic_fresh s]> (ic_states s))
                      (<[ic_fresh s := arm want_read want_write st]> (ic_heap s)) (S (ic_fresh s)) (ic_queue s))
    end
  else Some (false, s).

Definition iocp_modify (fd : Z) (want_read want_write : bool) (user_data : nat) (s : iocp) : option (bool * iocp) :=
  match ic_states s !! fd with
  | None => Some (false, s)
  | Some a =>
      st ← ic_heap s !! a;
      let st := mk_ss (ss_fd st) user_data (ss_want_read st) (ss_want_write st) (ss_mask st) (ss_events st) (ss_waiting st) in
      Some (true, mk_iocp (ic_states s) (<[a := arm want_read want_write st]> (ic_heap s)) (ic_fresh s) (ic_queue s))
  end.

(** [remove]: the flag [retired] is set on the state, its wait is unregistered
    (callbacks in progress have ended), and erasing the entry frees it. *)
Definition iocp_remove (fd : Z) (s : iocp) : option iocp :=
  match ic_states s !! fd with
  | None => Some s
  | Some a =>
      _ ← ic_heap s !! a;
      Some (mk_iocp (delete fd (ic_states s)) (delete a (ic_heap s)) (ic_fresh s) (ic_queue s))
  end.

Definition iocp_wake (s : iocp) : iocp :=
  mk_iocp (ic_states s) (ic_heap s) (ic_fresh s) (ic_queue s ++ [PWake]).

(** The network reports [bits] on the socket of [a]. *)
Definition net_event (a : nat) (bits : Z) (s : iocp) : option iocp :=
  st ← ic_heap s !! a;
  Some (mk_iocp (ic_states s)
          (<[a := mk_ss (ss_fd st) (ss_user_data st) (ss_want_read st) (ss_want_write st) (ss_mask st)
                    (Z.lor (ss_events st) (Z.land bits (ss_mask st))) (ss_waiting st)]> (ic_heap s))
          (ic_fresh s) (ic_queue s)).

(** The thread pool calls [on_ready]. *)
Definition on_ready (a : nat) (s : iocp) : option iocp :=
  st ← ic_heap s !! a;
  if ss_waiting st && negb (ss_events st =? 0) then
    Some (mk_iocp (ic_states s)
            (<[a := mk_ss (ss_fd st) (ss_user_data st) (ss_want_read st) (ss_want_write st) (ss_mask st)
                      (ss_events st) false]> (ic_heap s))
            (ic_fresh s) (ic_queue s ++ [PReady a]))
  else None.

(** An overlapped operation completes. *)
Definition op_done (op : nat) (transferred error : Z) (s : iocp) : iocp :=
  mk_iocp (ic_states s) (ic_heap s) (ic_fresh s) (ic_queue s ++ [PDone op transferred error]).

(** One readiness packet: [None] when its state is gone (the test of [retired]
    reads it), else the event it makes, if any, and the state with its record
    cleared. *)
Definition ready_of (a : nat) (heap : gmap nat socket_state) : option (option ready_event * gmap nat socket_state) :=
  st ← heap !! a;
  let bits := ss_events st in
  let readable := ss_want_read st && negb (Z.land bits read_bits =? 0) in
  let writable := ss_want_write st && negb (Z.land bits write_bits =? 0) in
  let heap' := <[a := mk_ss (ss_fd st) (ss_user_data st) (ss_want_read st) (ss_want_write st) (ss_mask st) 0
                        (ss_waiting st)]> heap in
  Some (if negb readable && negb writable then None else Some (mk_event (ss_user_data st) readable writable), heap').

(** The loop of [wait]: the events, the operations to resume afterwards, the
    heap and the packets left. *)
Fixpoint drain (room : nat) (queue : list packet) (heap : gmap nat socket_state)
  : option (list ready_event * list (nat * Z * Z) * gmap nat socket_state * list packet) :=
  match room, queue with
  | O, _ | _, [] => Some ([], [], heap, queue)
  | S _, PWake :: q => drain room q heap
  | S _, PDone op n e :: q =>
      '(evs, ops, heap', rest) ← drain room q heap; Some (evs, (op, n, e) :: ops, heap', rest)
  | S r, PReady a :: q =>
      '(ev, heap1) ← ready_of a heap;
      match ev with
      | None => drain room q heap1
      | Some ev => '(evs, ops, heap', rest) ← drain r q heap1; Some (ev :: evs, ops, heap', rest)
      end
  end.

(** [wait]: the ready events, and the operations whose coroutines it resumes. *)
Definition iocp_wait (max_events : nat) (s : iocp) : option (list ready_event * list (nat * Z * Z) * iocp) :=
  '(evs, ops, heap, rest) ← drain max_events (ic_queue s) (ic_heap s);
  Some (evs, ops, mk_iocp (ic_states s) heap (ic_fresh s) rest).

(** What the loop's thread, the thread pool and the network do.  [careful]: a
    descriptor is only removed when no packet of its state is left. *)
Definition pending (fd : Z) (s : iocp) : bool :=
  match ic_states s !! fd with Some a => bool_decide (PReady a ∈ ic_queue s) | None => false end.

Inductive iocp_step (careful : bool) : iocp -> iocp -> Prop :=
| is_add created fd r w u b s s' : ic_states s !! fd = None -> iocp_add created fd r w u s = Some (b, s') -> iocp_step careful s s'
| is_modify fd r w u b s s' : iocp_modify fd r w u s = Some (b, s') -> iocp_step careful s s'
| is_remove fd s s' : (careful = true -> pending fd s = false) -> iocp_remove fd s = Some s' -> iocp_step careful s s'
| is_wake s : iocp_step careful s (iocp_wake s)
| is_net a bits s s' : net_event a bits s = Some s' -> iocp_step careful s s'
| is_ready a s s' : on_ready a s = Some s' -> iocp_step careful s s'
| is_done op n e s : iocp_step careful s (op_done op n e s)
| is_wait m evs ops s s' : iocp_wait m s = Some (evs, ops, s') -> iocp_step careful s s'.

(** ** Waiting *)

(** What a registration says of a state; waiting changes none of it. *)
Definition registered (st : socket_state) : Z * nat * bool * bool :=
  (ss_fd st, ss_user_data st, ss_want_read st, ss_want_write st).

Definition same_regs (h h' : gmap nat socket_state) : Prop := forall a, registered <$> h !! a = registered <$> h' !! a.

#[global] Instance same_regs_equiv : Equivalence same_regs.
Proof. split; [by intros h a|by intros h h' H a|intros h1 h2 h3 H1 H2 a; by rewrite H1]. Qed.

Lemma same_regs_live h h' a : same_regs h h' -> is_Some (h !! a) -> is_Some (h' !! a).
Proof. intros Hs [st Hst]. specialize (Hs a). rewrite Hst in Hs. destruct (h' !! a); [eauto|done]. Qed.

(** The event tells of a state that is registered with that interest. *)
Definition sound_event (h : gmap nat socket_state) (ev : ready_event) : Prop :=
  exists a st, h !! a = Some st /\ ev_user_data ev = ss_user_data st /\
    (ev_readable ev = true -> ss_want_read st = true) /\ (ev_writable ev = true -> ss_want_write st = true) /\
    ev_readable ev || ev_writable ev = true.

Lemma sound_event_same h h' ev : same_regs h h' -> sound_event h' ev -> sound_event h ev.
Proof.
  intros Hs (a & st' & Ha & Hu & Hr & Hw & Hor). specialize (Hs a). rewrite Ha in Hs.
  destruct (h !! a) as [st|] eqn:Hst; [|done]. cbn in Hs. injection Hs as Hfd Hud Hrd Hwr.
  exists a, st. rewrite Hud, Hrd, Hwr. by split_and!.
Qed.

Lemma ready_of_sound a h : is_Some (h !! a) ->
  exists ev h', ready_of a h = Some (ev, h') /\ same_regs h h' /\ (forall e, ev = Some e -> sound_event h e).
Proof.
  intros [st Hst]. unfold ready_of. rewrite Hst. cbn. eexists _, _. split; [done|]. split.
  - intros b. destruct (decide (a = b)) as [->|]; [by rewrite lookup_insert_eq, Hst|by rewrite lookup_insert_ne].
  - intros e. destruct (negb _ && negb _) eqn:Hn; [done|]. intros [= <-]. exists a, st. cbn. split_and!; [done..| | |].
    + by intros [? _]%andb_prop.
    + by intros [? _]%andb_prop.
    + by destruct (ss_want_read st && _), (ss_want_write st && _).
Qed.

Definition dones (q : list packet) : list (nat * Z * Z) :=
  omap (fun p => match p with PDone op n e => Some (op, n, e) | _ => None end) q.

Lemma drain_sound q room h :
  (forall a, PReady a ∈ q -> is_Some (h !! a)) ->
  exists evs ops h' rest pre, drain room q h = Some (evs, ops, h', rest) /\ q = pre ++ rest /\
    same_regs h h' /\ Forall (sound_event h) evs /\ ops = dones pre /\
    (length evs <= room)%nat /\ ((length evs < room)%nat -> rest = []).
Proof.
  revert room h. induction q as [|pkt q IH]; intros room h Hl.
  { exists [], [], h, [], []. destruct room; split_and!; try done; cbn; lia. }
  destruct room as [|r]; [exists [], [], h, (pkt :: q), []; split_and!; try done; cbn; lia|].
  destruct pkt as [|a|op n e]; cbn [drain].
  - destruct (IH (S r) h) as (evs & ops & h' & rest & pre & -> & -> & ?); [intros; apply Hl; by right|].
    exists evs, ops, h', rest, (PWake :: pre). split_and!; try done; apply H.
  - destruct (ready_of_sound a h) as (ev & h1 & -> & Hs1 & Hev); [apply Hl; by left|]. cbn.
    assert (forall b, PReady b ∈ q -> is_Some (h1 !! b)) as Hl1.
    { intros b Hb. eapply same_regs_live; [done|]. apply Hl. by right. }
    destruct ev as [ev|].
    + destruct (IH r h1 Hl1) as (evs & ops & h' & rest & pre & -> & -> & Hs & Hf & Ho & Hle & Hr). cbn.
      exists (ev :: evs), ops, h', rest, (PReady a :: pre). split_and!; try done; cbn; try lia.
      * by etrans.
      * constructor; [by apply Hev|]. eapply Forall_impl; [done|]. intros e He. by eapply sound_event_same.
      * intros ?. apply Hr. lia.
    + destruct (IH (S r) h1 Hl1) as (evs & ops & h' & rest & pre & -> & -> & Hs & Hf & Ho & Hle & Hr).
      exists evs, ops, h', rest, (PReady a :: pre). split_and!; try done; [by etrans|].
      eapply Forall_impl; [done|]. intros e He. by eapply sound_event_same.
  - destruct (IH (S r) h) as (evs & ops & h' & rest & pre & -> & -> & Hs & Hf & -> & Hle & Hr); [intros; apply Hl; by right|].
    cbn. exists evs, ((op, n, e) :: dones pre), h', rest, (PDone op n e :: pre). by split_and!.
Qed.

(** ** Invariant *)

Record iocp_inv (s : iocp) : Prop := mk_iocp_inv {
  ii_heap a st : ic_heap s !! a = Some st -> (a < ic_fresh s)%nat /\ ic_states s !! ss_fd st = Some a;
  ii_states fd a : ic_states s !! fd = Some a -> exists st, ic_heap s !! a = Some st /\ ss_fd st = fd;
  ii_queue a : PReady a ∈ ic_queue s -> is_Some (ic_heap s !! a);
}.

Lemma arm_fd r w st : ss_fd (arm r w st) = ss_fd st.
Proof. unfold arm. by destruct (negb r && negb w). Qed.

(** A state changes, but not its descriptor; packets of live states are queued. *)
Lemma inv_update s a st st' q :
  iocp_inv s -> ic_heap s !! a = Some st -> ss_fd st' = ss_fd st ->
  (forall b, PReady b ∈ q -> PReady b ∈ ic_queue s \/ b = a) ->
  iocp_inv (mk_iocp (ic_states s) (<[a := st']> (ic_heap s)) (ic_fresh s) q).
Proof.
  intros [H1 H2 H3] Ha Hfd Hq. split; cbn.
  - intros b st0. destruct (decide (a = b)) as [->|]; [rewrite lookup_insert_eq; intros [= <-]; rewrite Hfd|rewrite lookup_insert_ne by done]; by apply H1.
  - intros fd b Hb. destruct (H2 fd b Hb) as (st0 & Hst0 & Hf). destruct (decide (a = b)) as [->|].
    + exists st'. rewrite lookup_insert_eq. split; [done|]. congruence.
    + exists st0. by rewrite lookup_insert_ne.
  - intros b Hb. destruct (decide (a = b)) as [->|]; [by rewrite lookup_insert_eq|]. rewrite lookup_insert_ne by done.
    destruct (Hq b Hb) as [?|?]; [by apply H3|done].
Qed.

Lemma inv_queue s q : iocp_inv s -> (forall b, PReady b ∈ q -> PReady b ∈ ic_queue s) ->
  iocp_inv (mk_iocp (ic_states s) (ic_heap s) (ic_fresh s) q).
Proof. intros [H1 H2 H3] Hq. split; cbn; auto. Qed.

Lemma inv_add s fd st :
  iocp_inv s -> ic_states s !! fd = None -> ss_fd st = fd ->
  iocp_inv (mk_iocp (<[fd := ic_fresh s]> (ic_states s)) (<[ic_fresh s := st]> (ic_heap s)) (S (ic_fresh s)) (ic_queue s)).
Proof.
  intros [H1 H2 H3] Hn Hfd.
  assert (forall a st0, ic_heap s !! a = Some st0 -> a <> ic_fresh s /\ ss_fd st0 <> fd) as Hold.
  { intros a st0 Ha. destruct (H1 a st0 Ha) as [? ?]. split; [lia|congruence]. }
  split; cbn.
  - intros a st0. destruct (decide (ic_fresh s = a)) as [<-|]; [rewrite lookup_insert_eq; intros [= <-]; rewrite Hfd, lookup_insert_eq; split; [lia|done]|].
    rewrite lookup_insert_ne by done. intros Ha. destruct (H1 a st0 Ha), (Hold a st0 Ha). split; [lia|]. by rewrite lookup_insert_ne.
  - intros fd' a. destruct (decide (fd = fd')) as [<-|]; [rewrite lookup_insert_eq; intros [= <-]; rewrite lookup_insert_eq; eauto|].
    rewrite lookup_insert_ne by done. intros Ha. destruct (H2 fd' a Ha) as (st0 & Hst0 & Hf). exists st0.
    destruct (Hold a st0 Hst0). by rewrite lookup_insert_ne.
  - intros a Ha. destruct (H3 a Ha) as [st0 Hst0]. destruct (Hold a st0 Hst0). rewrite lookup_insert_ne by done. eauto.
Qed.

Lemma inv_remove s fd s' : iocp_inv s -> pending fd s = false -> iocp_remove fd s = Some s' -> iocp_inv s'.
Proof.
  intros Hi. unfold pending, iocp_remove. destruct (ic_states s !! fd) as [a|] eqn:Hfd; [|by intros _ [= <-]].
  intros Hp%bool_decide_eq_false. destruct Hi as [H1 H2 H3]. destruct (H2 fd a Hfd) as (st & Hst & Hsf). rewrite Hst. cbn. intros [= <-].
  split; cbn.
  - intros b st0 [Hne Hb]%lookup_delete_Some. destruct (H1 b st0 Hb) as [? Hs]. split; [done|].
    rewrite lookup_delete_ne; [done|]. intros ->. congruence.
  - intros fd' b [Hne Hb]%lookup_delete_Some. destruct (H2 fd' b Hb) as (st0 & Hst0 & Hf). exists st0.
    rewrite lookup_delete_ne; [done|]. intros ->. congruence.
  - intros b Hb. destruct (H3 b Hb) as [st0 Hst0]. rewrite lookup_delete_ne; [eauto|]. by intros ->.
Qed.

Lemma inv_step s s' : iocp_inv s -> iocp_step true s s' -> iocp_inv s'.
Proof.
  intros Hi. destruct 1 as [created fd r w u b s s' Hn Ha|fd r w u b s s' Hm|fd s s' Hp Hr|s|a bits s s' Hn|a s s' Hn|op n e s|m evs ops s s' Hw].
  - unfold iocp_add in Ha. destruct created; [|by injection Ha as <- <-]. rewrite Hn in Ha. injection Ha as <- <-.
    apply inv_add; [done|done|by rewrite arm_fd].
  - unfold iocp_modify in Hm. destruct (ic_states s !! fd) as [a|]; [|by injection Hm as <- <-].
    destruct (ic_heap s !! a) as [st|] eqn:Hst; [|done]. injection Hm as <- <-.
    eapply inv_update; [done|done|by rewrite arm_fd|auto].
  - eapply inv_remove; [done|by apply Hp|done].
  - apply inv_queue; [done|]. intros b [?|Hb%list_elem_of_singleton]%elem_of_app; done.
  - unfold net_event in Hn. destruct (ic_heap s !! a) as [st|] eqn:Hst; [|done]. injection Hn as <-.
    eapply inv_update; [done|done|done|auto].
  - unfold on_ready in Hn. destruct (ic_heap s !! a) as [st|] eqn:Hst; [cbn in Hn|done].
    destruct (ss_waiting st && _); [|done]. injection Hn as <-. eapply inv_update; [done|done|done|].
    intros b [?|Hb%list_elem_of_singleton]%elem_of_app; [by left|right; by injection Hb].
  - apply inv_queue; [done|]. intros b [?|Hb%list_elem_of_singleton]%elem_of_app; done.
  - unfold iocp_wait in Hw. destruct Hi as [H1 H2 H3].
    destruct (drain_sound (ic_queue s) m (ic_heap s) H3) as (evs' & ops' & h & rest & pre & Hd & Hq & Hs & _).
    rewrite Hd in Hw. injection Hw as <- <- <-. split; cbn.
    + intros a st Ha. pose proof (Hs a) as E. rewrite Ha in E. destruct (ic_heap s !! a) as [st0|] eqn:H0; [|done].
      cbn in E. injection E as Hf _ _ _. rewrite <-Hf. by apply H1.
    + intros fd a Ha. destruct (H2 fd a Ha) as (st & Hst & Hf). pose proof (Hs a) as E. rewrite Hst in E.
      destruct (h !! a) as [st0|]; [|done]. cbn in E. injection E as Hf' _ _ _. exists st0. split; [done|congruence].
    + intros a Ha. eapply same_regs_live; [done|]. apply H3. rewrite Hq. apply elem_of_app. by right.
Qed.

Lemma reach_inv s : rtc (iocp_step true) iocp_new s -> iocp_inv s.
Proof.
  intros Hr. remember iocp_new as s0 eqn:E. assert (iocp_inv s0) as Hi by (subst; split; cbn; set_solver). clear E.
  induction Hr as [|x y z Hs _ IH]; [done|]. by eapply IH, inv_step.
Qed.

(** As long as no readiness packet of a socket is left in the port when
    it is removed, the reactor's wait never touches a freed state: it reports
    at most the events asked for, each for a registered socket with its current
    user data and only for the interest it has; wake-ups are swallowed; every
    overlapped completion it consumes is resumed once, in order; and it leaves
    packets only when it is full. *)
Lemma iocp_wait_sound s max_events :
  rtc (iocp_step true) iocp_new s ->
  exists evs ops s' pre, iocp_wait max_events s = Some (evs, ops, s') /\
    Forall (sound_event (ic_heap s)) evs /\ (length evs <= max_events)%nat /\
    ic_queue s = pre ++ ic_queue s' /\ ops = dones pre /\ ((length evs < max_events)%nat -> ic_queue s' = []).
Proof.
  intros Hr. destruct (reach_inv s Hr) as [_ _ H3].
  destruct (drain_sound (ic_queue s) max_events (ic_heap s) H3) as (evs & ops & h & rest & pre & Hd & Hq & _ & Hf & Ho & Hl & Hre).
  exists evs, ops, (mk_iocp (ic_states s) h (ic_fresh s) rest), pre. unfold iocp_wait. rewrite Hd. by split_and!.
Qed.

(** ** Runs *)

Definition after (o : option (bool * iocp)) : iocp := match o with Some (_, s) => s | None => iocp_new end.

(** Socket 5 is registered for reading and data arrives. *)
Definition demo_armed : iocp := after (iocp_add true 5 true false 70 iocp_new).
Definition demo_ready : iocp := default iocp_new (s ← net_event 0 FD_READ demo_armed; on_ready 0 s).

Lemma demo_ready_reach careful : rtc (iocp_step careful) iocp_new demo_ready.
Proof.
  eapply rtc_l; [eapply (is_add careful true 5 true false 70 true); reflexivity|].
  eapply rtc_l; [eapply (is_net careful 0 FD_READ); reflexivity|].
  eapply rtc_l; [eapply (is_ready careful 0); reflexivity|].
  replace demo_ready with (mk_iocp (ic_states demo_ready) (ic_heap demo_ready) 1 [PReady 0]) by reflexivity. reflexivity.
Qed.

Lemma iocp_wait_sound_witness :
  exists ops s' pre, iocp_wait 64 demo_ready = Some ([mk_event 70 true false], ops, s') /\
    ic_queue demo_ready = pre ++ ic_queue s' /\ ops = dones pre.
Proof.
  destruct (iocp_wait_sound demo_ready 64 (demo_ready_reach true)) as (evs & ops & s' & pre & Hw & _ & _ & Hq & Ho & _).
  exists ops, s', pre. split_and!; [|exact Hq|exact Ho]. rewrite Hw. vm_compute in Hw. congruence.
Defined.

(** The socket is closed before the loop waits again: [remove] frees the state
    that the queued packet names, and [wait] reads it. *)
Example stale_completion_read_after_free :
  exists s, rtc (iocp_step false) iocp_new s /\ ic_queue s = [PReady 0] /\ ic_heap s = ∅ /\ iocp_wait 64 s = None.
Proof.
  exists (default iocp_new (iocp_remove 5 demo_ready)). split_and!; [|reflexivity..].
  eapply rtc_r; [apply demo_ready_reach|]. eapply (is_remove false 5); [done|reflexivity].
Qed.
