(* ===== verification/EpollReactor.v ===== *)
(** * EpollReactor: src/platform/posix/reactor.cpp, and both reactors as [Reactor]s

    [epoll_reactor]: the interest list of the epoll instance with the pointer given
    for each descriptor, the eventfd's counter, and the kernel's side: which
    conditions hold on each descriptor and in which order ready ones are
    reported.  The eventfd is registered with a null pointer.

    The file ends with the instances of the interface for it and for the Windows
    reactor ([IocpReactor]). *)

From S2P Require Import Prelude IoContext IoContextFacts Reactor IocpReactor.

#[local] Open Scope Z_scope.

Definition EPOLLIN : Z := 1.
Definition EPOLLOUT : Z := 4.
Definition EPOLLERR : Z := 8.
Definition EPOLLHUP : Z := 16.

(** What epoll reports whether or not it was asked for. *)
Definition always : Z := Z.lor EPOLLHUP EPOLLERR.

Definition to_epoll_events (want_read want_write : bool) : Z :=
  Z.lor (if want_read then EPOLLIN else 0) (if want_write then EPOLLOUT else 0).

Record epoll_reactor := mk_epoll {
  ep_list : gmap Z (Z * option nat);     (** events and [data.ptr] *)
  ep_counter : Z;                        (** the eventfd *)
  ep_flags : gmap Z Z;                   (** the conditions that hold *)
  ep_order : list Z;
}.

Section Epoll.
Context (wake_fd : Z).

Definition epoll_new : epoll_reactor := mk_epoll {[ wake_fd := (EPOLLIN, None) ]} 0 ∅ [].

Definition with_list (l : gmap Z (Z * option nat)) (s : epoll_reactor) : epoll_reactor :=
  mk_epoll l (ep_counter s) (ep_flags s) (ep_order s).

(** [add] and [modify]: EPOLL_CTL_ADD of a known descriptor fails, EPOLL_CTL_MOD of
    an unknown one. *)
Definition epoll_add (fd : Z) (want_read want_write : bool) (user_data : nat) (s : epoll_reactor) : bool * epoll_reactor :=
  match ep_list s !! fd with
  | Some _ => (false, s)
  | None => (true, with_list (<[fd := (to_epoll_events want_read want_write, Some user_data)]> (ep_list s)) s)
  end.

Definition epoll_modify (fd : Z) (want_read want_write : bool) (user_data : nat) (s : epoll_reactor) : bool * epoll_reactor :=
  match ep_list s !! fd with
  | Some _ => (true, with_list (<[fd := (to_epoll_events want_read want_write, Some user_data)]> (ep_list s)) s)
  | None => (false, s)
  end.

Definition epoll_remove (fd : Z) (s : epoll_reactor) : epoll_reactor := with_list (delete fd (ep_list s)) s.

(** The conditions of a descriptor: the eventfd is readable when it was written. *)
Definition conditions (s : epoll_reactor) (fd : Z) : Z :=
  if fd =? wake_fd then (if 0 <? ep_counter s then EPOLLIN else 0) else default 0 (ep_flags s !! fd).

(** [epoll_wait]: the pointer and the events of ready descriptors. *)
Definition ready_fd (s : epoll_reactor) (fd : Z) : option (option nat * Z) :=
  '(mask, data) ← ep_list s !! fd;
  let events := Z.land (conditions s fd) (Z.lor mask always) in
  if events =? 0 then None else Some (data, events).

Definition epoll_wait (max_events : nat) (s : epoll_reactor) : list (option nat * Z) :=
  take max_events (omap (ready_fd s) (ep_order s)).

(** The loop of [wait]: the eventfd is read, which resets it, and not reported. *)
Definition to_event (x : option nat * Z) : option ready_event :=
  let '(data, flags) := x in
  u ← data;
  Some (IoContext.mk_event u (negb (Z.land flags (Z.lor EPOLLIN always) =? 0)) (negb (Z.land flags (Z.lor EPOLLOUT always) =? 0))).

Definition is_eventfd (x : option nat * Z) : bool := match fst x with None => true | Some _ => false end.

Definition epoll_reactor_wait (max_events : nat) (s : epoll_reactor) : list ready_event * epoll_reactor :=
  let scratch := epoll_wait max_events s in
  (omap to_event scratch,
   mk_epoll (ep_list s) (if existsb is_eventfd scratch then 0 else ep_counter s) (ep_flags s) (ep_order s)).

(** [wake]: an eventfd counts to 2^64 - 2, and a write beyond that fails. *)
Definition epoll_wake (s : epoll_reactor) : epoll_reactor :=
  mk_epoll (ep_list s) (if ep_counter s <? 2 ^ 64 - 2 then ep_counter s + 1 else ep_counter s) (ep_flags s) (ep_order s).

(** Conditions change, in any way. *)
Inductive epoll_network : epoll_reactor -> epoll_reactor -> Prop :=
| en_any s flags order : epoll_network s (mk_epoll (ep_list s) (ep_counter s) flags order).

(** ** Facts *)

(** The registrations: every entry but the eventfd's. *)
Definition reg_of (x : Z * option nat) : option (bool * bool * nat) :=
  let '(mask, data) := x in u ← data; Some (Z.testbit mask 0, Z.testbit mask 2, u).

Definition epoll_regs (s : epoll_reactor) : gmap Z (bool * bool * nat) := omap reg_of (ep_list s).

Record epoll_ok (s : epoll_reactor) : Prop := mk_epoll_ok {
  eo_wake : ep_list s !! wake_fd = Some (EPOLLIN, None);
  eo_data fd mask data : ep_list s !! fd = Some (mask, data) -> fd <> wake_fd ->
    exists rd wr u, mask = to_epoll_events rd wr /\ data = Some u;
  eo_counter : 0 <= ep_counter s;
}.

Lemma reg_of_events rd wr u : reg_of (to_epoll_events rd wr, Some u) = Some (rd, wr, u).
Proof. by destruct rd, wr. Qed.

Lemma regs_lookup s fd : epoll_regs s !! fd = ep_list s !! fd ≫= reg_of.
Proof. apply lookup_omap. Qed.

Lemma regs_none s fd : epoll_ok s -> fd <> wake_fd -> epoll_regs s !! fd = None -> ep_list s !! fd = None.
Proof.
  intros [_ Hd _] Hn. rewrite regs_lookup. destruct (ep_list s !! fd) as [[m d]|] eqn:E; [|done].
  destruct (Hd _ _ _ E Hn) as (rd & wr & u & -> & ->). by cbn [mbind option_bind]; rewrite reg_of_events.
Qed.

(** An entry other than the eventfd's is written. *)
Lemma epoll_ok_insert fd rd wr u s :
  epoll_ok s -> fd <> wake_fd ->
  epoll_ok (with_list (<[fd := (to_epoll_events rd wr, Some u)]> (ep_list s)) s) /\
  epoll_regs (with_list (<[fd := (to_epoll_events rd wr, Some u)]> (ep_list s)) s) = <[fd := (rd, wr, u)]> (epoll_regs s).
Proof.
  intros [H1 H2 H3] Hn. split.
  - split; cbn; [by rewrite lookup_insert_ne| |done].
    intros fd' m d [[<- [= <- <-]]|[_ Hl]]%lookup_insert_Some Hw; [by eexists _, _, _|by eapply H2].
  - unfold epoll_regs. cbn [ep_list with_list]. apply omap_insert_Some. apply reg_of_events.
Qed.

Lemma events_nonzero f m : Z.land f (Z.lor m always) <> 0 -> m = 0 \/ m = EPOLLIN \/ m = EPOLLOUT \/ m = Z.lor EPOLLIN EPOLLOUT ->
  let flags := Z.land f (Z.lor m always) in
  negb (Z.land flags (Z.lor EPOLLIN always) =? 0) || negb (Z.land flags (Z.lor EPOLLOUT always) =? 0) = true.
Proof.
  intros Hf Hm. cbn zeta. destruct (Z.eqb_spec (Z.land (Z.land f (Z.lor m always)) (Z.lor EPOLLIN always)) 0) as [E1|]; [|done].
  destruct (Z.eqb_spec (Z.land (Z.land f (Z.lor m always)) (Z.lor EPOLLOUT always)) 0) as [E2|]; [|done]. destruct Hf.
  set (x := Z.land f (Z.lor m always)) in *.
  assert (Z.land x (Z.lor (Z.lor EPOLLIN always) (Z.lor EPOLLOUT always)) = 0) as E by (by rewrite Z.land_lor_distr_r, E1, E2).
  rewrite <-E. subst x. rewrite <-Z.land_assoc. f_equal. destruct Hm as [E0|[E0|[E0|E0]]]; rewrite E0; reflexivity.
Qed.

Lemma ready_event_for s fd x ev :
  epoll_ok s -> ready_fd s fd = Some x -> to_event x = Some ev -> event_for (epoll_regs s) ev.
Proof.
  intros [H1 H2 _] Hr He. unfold ready_fd in Hr. destruct (ep_list s !! fd) as [[m d]|] eqn:El; [cbn in Hr|done].
  destruct (Z.eqb_spec (Z.land (conditions s fd) (Z.lor m always)) 0) as [E0|Hnz]; [done|]. injection Hr as <-.
  destruct (decide (fd = wake_fd)) as [->|Hn].
  { rewrite H1 in El. by injection El as <- <-. }
  destruct (H2 _ _ _ El Hn) as (rd & wr & u & -> & ->). cbn in He. injection He as <-.
  exists fd, rd, wr. split; [rewrite regs_lookup, El; cbn [mbind option_bind]; apply reg_of_events|].
  apply events_nonzero; [done|]. destruct rd, wr; auto.
Qed.

Lemma length_omap_le {A B} (f : A -> option B) (l : list A) : (length (omap f l) <= length l)%nat.
Proof. induction l as [|x l IH]; [done|]. cbn. destruct (f x); cbn; lia. Qed.

(** After a [wake] the eventfd is ready: the wait does not block. *)
Lemma epoll_wake_ready s : epoll_ok s -> ready_fd (epoll_wake s) wake_fd = Some (None, EPOLLIN).
Proof.
  intros [H1 _ H3]. unfold ready_fd, conditions, epoll_wake. cbn [ep_list ep_counter]. rewrite H1, Z.eqb_refl. cbn [mbind option_bind].
  destruct (Z.ltb_spec (ep_counter s) (2 ^ 64 - 2)); [rewrite (proj2 (Z.ltb_lt 0 _)) by lia|rewrite (proj2 (Z.ltb_lt 0 _)) by lia]; done.
Qed.

#[global] Instance epoll_Reactor : Reactor epoll_reactor := {
  r_new := epoll_new;
  r_add fd rd wr u s := Some (epoll_add fd rd wr u s);
  r_modify fd rd wr u s := Some (epoll_modify fd rd wr u s);
  r_remove fd s := Some (epoll_remove fd s);
  r_wait max_events s := Some (epoll_reactor_wait max_events s);
  r_wake := epoll_wake;
  r_network := epoll_network;
}.

#[global, refine] Instance epoll_ReactorSpec : ReactorSpec epoll_reactor := {
  r_ok := epoll_ok;
  r_regs := epoll_regs;
  r_own fd := fd = wake_fd;
  r_quiet fd s := True;
}.
Proof.
  - split.
    + split; cbn; [apply lookup_singleton_eq| |done]. intros fd m d [<- _]%lookup_singleton_Some. done.
    + apply map_eq. intros fd. rewrite regs_lookup. cbn. destruct (decide (fd = wake_fd)) as [->|Hn];
        [by rewrite lookup_singleton_eq|by rewrite lookup_singleton_ne].
  - intros fd rd wr u s Hok Hown Hn. cbn [r_add epoll_Reactor]. unfold epoll_add. rewrite (regs_none s fd Hok Hown Hn).
    eexists _, _. split; [done|]. unfold reactor_add. rewrite Hn. by apply epoll_ok_insert.
  - intros fd rd wr u s Hok Hown _ [x Hx]. cbn [r_modify epoll_Reactor]. unfold epoll_modify, reactor_modify. rewrite Hx.
    rewrite regs_lookup in Hx. destruct (ep_list s !! fd); [|done]. eexists _, _. split; [done|]. by apply epoll_ok_insert.
  - intros fd s [H1 H2 H3] Hown _. eexists. split; [done|]. split.
    + split; cbn; [by rewrite lookup_delete_ne| |done]. intros fd' m d [_ Hl]%lookup_delete_Some. by eapply H2.
    + unfold epoll_regs, reactor_remove. apply omap_delete.
  - intros m s Hok. cbn [r_wait epoll_Reactor]. eexists _, _. split; [done|]. destruct Hok as [H1 H2 H3]. split_and!.
    + split; cbn; [done|done|]. by destruct (existsb _ _).
    + done.
    + assert (length (epoll_wait m s) <= m)%nat as Hl by (unfold epoll_wait; rewrite length_take; lia).
      etrans; [apply length_omap_le|exact Hl].
    + apply Forall_forall. intros ev (x & Hx & He)%list_elem_of_omap. unfold epoll_wait in Hx.
      apply elem_of_take in Hx as (i & Hx & _). apply list_elem_of_lookup_2, list_elem_of_omap in Hx as (fd & _ & Hx).
      eapply ready_event_for; done.
  - intros s [H1 H2 H3]. split; [|done]. split; cbn; try done. destruct (_ <? _); lia.
  - intros s s' [H1 H2 H3] Hn. destruct Hn as [s flags order]. by split.
Defined.
End Epoll.

(** ** The Windows reactor *)

Definition state_reg (st : socket_state) : bool * bool * nat := (ss_want_read st, ss_want_write st, ss_user_data st).

Definition iocp_regs (s : iocp) : gmap Z (bool * bool * nat) := omap (fun a => state_reg <$> ic_heap s !! a) (ic_states s).

Lemma iocp_regs_lookup s fd : iocp_regs s !! fd = (a ← ic_states s !! fd; state_reg <$> ic_heap s !! a).
Proof. apply lookup_omap. Qed.

Lemma iocp_regs_none s fd : iocp_inv s -> iocp_regs s !! fd = None -> ic_states s !! fd = None.
Proof.
  intros [_ H2 _]. rewrite iocp_regs_lookup. destruct (ic_states s !! fd) as [a|] eqn:E; [|done].
  destruct (H2 fd a E) as (st & Hst & _). cbn. by rewrite Hst.
Qed.

(** States that keep their registrations keep the table. *)
Lemma iocp_regs_same s heap fresh q :
  same_regs (ic_heap s) heap -> iocp_regs (mk_iocp (ic_states s) heap fresh q) = iocp_regs s.
Proof.
  intros Hs. apply map_eq. intros fd. rewrite !iocp_regs_lookup. cbn. destruct (ic_states s !! fd) as [a|]; [cbn|done].
  specialize (Hs a). unfold registered in Hs. destruct (ic_heap s !! a) as [st|], (heap !! a) as [st'|]; cbn in *; try done.
  unfold state_reg. congruence.
Qed.

Lemma same_regs_insert heap a st st' :
  heap !! a = Some st -> registered st = registered st' -> same_regs heap (<[a := st']> heap).
Proof.
  intros Ha E b. destruct (decide (a = b)) as [->|]; [rewrite lookup_insert_eq, Ha; cbn; by rewrite E|by rewrite lookup_insert_ne].
Qed.

Inductive iocp_network : iocp -> iocp -> Prop :=
| in_net a bits s s' : net_event a bits s = Some s' -> iocp_network s s'
| in_ready a s s' : on_ready a s = Some s' -> iocp_network s s'
| in_done op n e s : iocp_network s (op_done op n e s).

Lemma iocp_network_ok s s' : iocp_inv s -> iocp_network s s' -> iocp_inv s' /\ iocp_regs s' = iocp_regs s.
Proof.
  intros Hi Hn. destruct Hn as [a bits s s' Hn|a s s' Hn|op n e s].
  - split; [eapply inv_step, is_net; done|]. unfold net_event in Hn. destruct (ic_heap s !! a) as [st|] eqn:E; [|done].
    injection Hn as <-. apply iocp_regs_same. by eapply same_regs_insert.
  - split; [eapply inv_step, is_ready; done|]. unfold on_ready in Hn. destruct (ic_heap s !! a) as [st|] eqn:E; [cbn in Hn|done].
    destruct (ss_waiting st && _); [|done]. injection Hn as <-. apply iocp_regs_same. by eapply same_regs_insert.
  - split; [by eapply inv_step, is_done|]. by apply iocp_regs_same.
Qed.

Lemma arm_reg rd wr st : state_reg (arm rd wr st) = (rd, wr, ss_user_data st).
Proof. unfold arm. by destruct (negb rd && negb wr). Qed.

#[global] Instance iocp_Reactor : Reactor iocp := {
  r_new := iocp_new;
  r_add := iocp_add true;
  r_modify := iocp_modify;
  r_remove := iocp_remove;
  r_wait max_events s := '(evs, _, s') ← iocp_wait max_events s; Some (evs, s');
  r_wake := iocp_wake;
  r_network := iocp_network;
}.

Lemma iocp_add_ok fd rd wr u s :
  iocp_inv s -> iocp_regs s !! fd = None ->
  exists b s', iocp_add true fd rd wr u s = Some (b, s') /\ iocp_inv s' /\ iocp_regs s' = reactor_add fd rd wr u (iocp_regs s).
Proof.
  intros Hi Hn. pose proof (iocp_regs_none s fd Hi Hn) as Hf.
  destruct (iocp_add true fd rd wr u s) as [[b s']|] eqn:E; [|unfold iocp_add in E; by rewrite Hf in E].
  exists b, s'. split; [done|]. split; [by eapply inv_step, is_add|]. unfold iocp_add in E. rewrite Hf in E. injection E as <- <-.
  unfold reactor_add. rewrite Hn. apply map_eq. intros fd'. rewrite iocp_regs_lookup. cbn. destruct Hi as [H1 H2 _].
  destruct (decide (fd = fd')) as [<-|Hne].
  - rewrite !lookup_insert_eq. cbn. rewrite lookup_insert_eq. cbn. by rewrite arm_reg.
  - rewrite !(lookup_insert_ne _ fd) by done. rewrite iocp_regs_lookup. destruct (ic_states s !! fd') as [a|] eqn:Ea; [cbn|done].
    rewrite lookup_insert_ne; [done|]. destruct (H2 _ _ Ea) as (st & Hst & _). destruct (H1 _ _ Hst). lia.
Qed.

Lemma iocp_modify_ok fd rd wr u s :
  iocp_inv s -> is_Some (iocp_regs s !! fd) ->
  exists b s', iocp_modify fd rd wr u s = Some (b, s') /\ iocp_inv s' /\ iocp_regs s' = reactor_modify fd rd wr u (iocp_regs s).
Proof.
  intros Hi [x Hx]. unfold reactor_modify. rewrite Hx. rewrite iocp_regs_lookup in Hx.
  destruct (ic_states s !! fd) as [a|] eqn:Hf; [cbn in Hx|done]. destruct (ic_heap s !! a) as [st|] eqn:Hst; [|done].
  destruct (iocp_modify fd rd wr u s) as [[b s']|] eqn:E; [|unfold iocp_modify in E; by rewrite Hf, Hst in E].
  exists b, s'. split; [done|]. split; [by eapply inv_step, is_modify|]. unfold iocp_modify in E. rewrite Hf, Hst in E. injection E as <- <-.
  apply map_eq. intros fd'. rewrite iocp_regs_lookup. cbn. destruct Hi as [H1 H2 _]. destruct (decide (fd = fd')) as [<-|Hne].
  - rewrite Hf, !lookup_insert_eq. cbn. rewrite lookup_insert_eq. cbn. by rewrite arm_reg.
  - rewrite (lookup_insert_ne (iocp_regs s)) by done. rewrite iocp_regs_lookup. destruct (ic_states s !! fd') as [a'|] eqn:Ea; [cbn|done].
    rewrite lookup_insert_ne; [done|]. intros <-. destruct (H2 _ _ Ea) as (st' & Hst' & E'), (H2 _ _ Hf) as (st'' & Hst'' & E'').
    congruence.
Qed.

Lemma iocp_remove_ok fd s :
  iocp_inv s -> pending fd s = false ->
  exists s', iocp_remove fd s = Some s' /\ iocp_inv s' /\ iocp_regs s' = reactor_remove fd (iocp_regs s).
Proof.
  intros Hi Hp. destruct (iocp_remove fd s) as [s'|] eqn:E.
  2: { unfold iocp_remove in E. destruct (ic_states s !! fd) as [a|] eqn:Hf; [|done].
       destruct Hi as [_ H2 _]. destruct (H2 _ _ Hf) as (st & Hst & _). by rewrite Hst in E. }
  exists s'. split; [done|]. split; [by eapply inv_remove|]. unfold reactor_remove. destruct Hi as [H1 H2 _].
  unfold iocp_remove in E. destruct (ic_states s !! fd) as [a|] eqn:Hf.
  - destruct (ic_heap s !! a) as [st|] eqn:Hst; [|done]. injection E as <-. apply map_eq. intros fd'. rewrite iocp_regs_lookup. cbn.
    destruct (decide (fd = fd')) as [<-|Hne]; [by rewrite !lookup_delete_eq|]. rewrite !(lookup_delete_ne _ fd) by done.
    rewrite iocp_regs_lookup. destruct (ic_states s !! fd') as [a'|] eqn:Ea; [cbn|done]. rewrite lookup_delete_ne; [done|]. intros <-.
    destruct (H2 _ _ Ea) as (st' & Hst' & E'), (H2 _ _ Hf) as (st'' & Hst'' & E''). congruence.
  - injection E as <-. rewrite delete_id; [done|]. by rewrite iocp_regs_lookup, Hf.
Qed.

Lemma iocp_wait_ok max_events s :
  iocp_inv s ->
  exists evs ops s', iocp_wait max_events s = Some (evs, ops, s') /\ iocp_inv s' /\ iocp_regs s' = iocp_regs s /\
    (length evs <= max_events)%nat /\ Forall (event_for (iocp_regs s)) evs.
Proof.
  intros Hi. destruct (iocp_wait max_events s) as [[[evs ops] s']|] eqn:E.
  2: { destruct Hi as [_ _ H3]. destruct (drain_sound _ max_events _ H3) as (? & ? & ? & ? & ? & Hd & _). unfold iocp_wait in E.
       by rewrite Hd in E. }
  exists evs, ops, s'. split; [done|]. split; [by eapply inv_step, is_wait|]. destruct Hi as [H1 H2 H3]. unfold iocp_wait in E.
  destruct (drain_sound _ max_events _ H3) as (evs' & ops' & h & rest & pre & Hd & _ & Hs & Hf & _ & Hl & _). rewrite Hd in E.
  injection E as <- <- <-. split_and!; [by apply iocp_regs_same|done|]. eapply Forall_impl; [done|].
  intros ev (a & st & Ha & Hu & _ & _ & Hor). exists (ss_fd st), (ss_want_read st), (ss_want_write st). split; [|done].
  rewrite iocp_regs_lookup. destruct (H1 _ _ Ha) as [_ ->]. cbn. by rewrite Ha, Hu.
Qed.

#[global, refine] Instance iocp_ReactorSpec : ReactorSpec iocp := {
  r_ok := iocp_inv;
  r_regs := iocp_regs;
  r_own fd := False;
  r_quiet fd s := pending fd s = false;
}.
Proof.
  - split; [split; cbn; set_solver|done].
  - intros fd rd wr u s Hi _. by apply iocp_add_ok.
  - intros fd rd wr u s Hi _ _. by apply iocp_modify_ok.
  - intros fd s Hi _. by apply iocp_remove_ok.
  - intros m s Hi. destruct (iocp_wait_ok m s Hi) as (evs & ops & s' & E & Hr). exists evs, s'. cbn [r_wait iocp_Reactor]. by rewrite E.
  - intros s Hi. split; [eapply inv_step, is_wake; done|by apply iocp_regs_same].
  - apply iocp_network_ok.
Defined.

(** ** Runs on both platforms *)

Section Demo.
Context {R : Type} `{ReactorSpec R} (Hown : ~ r_own 5).

(** Socket 5 is opened and a coroutine waits to read from it. *)
Definition demo_context : option (context R) :=
  c ← context_do (OOpen 0 5) (mk_context ∅ r_new [] []); context_do (OWatchRead 0 1) c.

Lemma demo_context_run c : demo_context = Some c -> context_run c.
Proof.
  intros Hc. eapply (cr_op (mk_context (<[0%nat := reg_new 5]> ∅) r_new [] []) (OWatchRead 0 1)); [|exact I|exact I|exact Hc].
  eapply (cr_op _ (OOpen 0 5)); [constructor| |exact Hown|reflexivity]. split; [done|]. cbn [io_regs cx_regs]. intros r g. by rewrite lookup_empty.
Qed.
End Demo.

Definition demo_epoll : context epoll_reactor :=
  mk_context {[ 0%nat := mk_reg 5 (Some 1%nat) None true true false ]}
    (mk_epoll {[ 3 := (EPOLLIN, None); 5 := (EPOLLIN, Some 0%nat) ]} 0 ∅ []) [] [].

Lemma context_refines_table_witness :
  exists s evs e, io_run s /\ io_epoll s !! 5 = Some (true, false, 0%nat) /\
    epoll_reactor_wait 3 8 (cx_reactor demo_epoll) = (evs, e) /\ Forall (awaited_event demo_epoll) evs.
Proof.
  destruct (@context_refines_table _ (epoll_Reactor 3) (epoll_ReactorSpec 3) demo_epoll) as (s & Hr & Hs & _ & Hw).
  - apply (@demo_context_run _ (epoll_Reactor 3) (epoll_ReactorSpec 3)); [done|]. vm_compute. reflexivity.
  - destruct (Hw 8%nat) as (evs & e & E & _ & _ & Hf). exists s, evs, e. split; [done|]. split.
    + rewrite <-(si_epoll _ _ Hs). vm_compute. reflexivity.
    + split; [|done]. change (Some (epoll_reactor_wait 3 8 (cx_reactor demo_epoll)) = Some (evs, e)) in E. congruence.
Defined.

(** Data arrives and the wait reports it, on either system. *)
Example both_report_readable :
  (c ← @demo_context _ (epoll_Reactor 3);
   Some (fst (epoll_reactor_wait 3 8 (let e := cx_reactor c in mk_epoll (ep_list e) (ep_counter e) {[ 5 := EPOLLIN ]} [3; 5])))) =
    Some [IoContext.mk_event 0 true false] /\
  (c ← @demo_context _ iocp_Reactor;
   s ← net_event 0 FD_READ (cx_reactor c); s ← on_ready 0 s; '(evs, _, _) ← iocp_wait 8 s; Some evs) =
    Some [IoContext.mk_event 0 true false].
Proof. by vm_compute. Qed.

(** A reset shows as readable and writable on epoll, whatever was asked for; the
    Windows reactor reports only what was asked for. *)
Example reset_reported :
  fst (epoll_reactor_wait 3 8 (mk_epoll {[ 3 := (EPOLLIN, None); 5 := (EPOLLIN, Some 0%nat) ]} 0 {[ 5 := EPOLLHUP ]} [5])) =
    [IoContext.mk_event 0 true true].
Proof. by vm_compute. Qed.
