(* ===== verification/FileMapping.v ===== *)
(** * FileMapping: the system resources of src/platform/{posix,win32}/file_mapping.cpp

    [FileStream] models what a mapping reads; this file models what it holds:
    the descriptor (POSIX) or the file and mapping handles (Windows), and the
    mapped view.  Objects of class [file_mapping] are opened, moved, assigned,
    remapped and destroyed; the system keeps what is open. *)

From S2P Require Import Prelude Bytes FileStream.

#[local] Open Scope Z_scope.

(** A descriptor or handle, or the base address of a view. *)
Abbreviation resource := (Z + Z)%type.

(** The members that name resources, with [total_size_]. *)
Record mapping := mk_map {
  mp_view : option Z;          (** [window_data_] *)
  mp_handles : list Z;         (** [fd_]; or [mapping_handle_] and [file_handle_] *)
  mp_total : Z;
}.

Definition mapping_none : mapping := mk_map None [] 0.

Record system := mk_sys {
  sy_objs : gmap nat mapping;
  sy_live : gset resource;
  sy_bad : bool;               (** something was released that was not held *)
}.

Definition resources (m : mapping) : list resource := (inr <$> option_list (mp_view m)) ++ (inl <$> mp_handles m).

Definition set_map (o : nat) (m : mapping) (s : system) : system := mk_sys (<[o := m]> (sy_objs s)) (sy_live s) (sy_bad s).

(** [munmap]/[UnmapViewOfFile] and [close]/[CloseHandle]. *)
Definition release_resource (r : resource) (s : system) : system :=
  mk_sys (sy_objs s) (sy_live s ∖ {[r]}) (sy_bad s || negb (bool_decide (r ∈ sy_live s))).

Definition acquire_resource (r : resource) (s : system) : system :=
  mk_sys (sy_objs s) (sy_live s ∪ {[r]}) (sy_bad s).

Definition release_all (rs : list resource) (s : system) : system := foldl (fun s r => release_resource r s) s rs.

(** [reset]: the view first, then the handles. *)
Definition mapping_reset (o : nat) (s : system) : option system :=
  m ← sy_objs s !! o; Some (set_map o mapping_none (release_all (resources m) s)).

(** The move constructor: every member is exchanged for its default. *)
Definition mapping_move (o other : nat) (s : system) : option system :=
  m ← sy_objs s !! other; Some (set_map o m (set_map other mapping_none s)).

Definition mapping_assign (o other : nat) (s : system) : option system :=
  if (o =? other)%nat then Some s else s1 ← mapping_reset o s; mapping_move o other s1.

Definition mapping_destroy (o : nat) (s : system) : option system :=
  s1 ← mapping_reset o s; Some (mk_sys (delete o (sy_objs s1)) (sy_live s1) (sy_bad s1)).

(** POSIX [open]: [fd] is what [::open] gives, [size] what [fstat] says. *)
Definition posix_mapping_open (o : nat) (fd : option Z) (size : option Z) (s : system) : system :=
  match fd with
  | None => set_map o mapping_none s
  | Some fd =>
      let s := acquire_resource (inl fd) s in
      match size with
      | Some n => if n <=? 0 then set_map o mapping_none (release_resource (inl fd) s)
                  else set_map o (mk_map None [fd] n) s
      | None => set_map o mapping_none (release_resource (inl fd) s)
      end
  end.

(** Windows [open]: the file, its size, the mapping object. *)
Definition win32_mapping_open (o : nat) (file : option Z) (size : option Z) (mapping_handle : option Z) (s : system) : system :=
  match file with
  | None => set_map o mapping_none s
  | Some f =>
      let s := acquire_resource (inl f) s in
      match size with
      | Some n =>
          if n <=? 0 then set_map o mapping_none (release_resource (inl f) s)
          else
            match mapping_handle with
            | None => set_map o mapping_none (release_resource (inl f) s)
            | Some h => set_map o (mk_map None [h; f] n) (acquire_resource (inl h) s)
            end
      | None => set_map o mapping_none (release_resource (inl f) s)
      end
  end.

(** [remap]: the new view is mapped before the old one is unmapped. *)
Definition mapping_remap (o : nat) (addr : option Z) (s : system) : option (bool * system) :=
  m ← sy_objs s !! o;
  match addr with
  | None => Some (false, s)
  | Some a =>
      let s1 := acquire_resource (inr a) s in
      let s2 := match mp_view m with Some v => release_resource (inr v) s1 | None => s1 end in
      Some (true, set_map o (mk_map (Some a) (mp_handles m) (mp_total m)) s2)
  end.

(** Windows maps at multiples of the allocation granularity; otherwise its
    window slides as on POSIX. *)
Definition win32_ensure_window (allocation_granularity : Z) := ensure_window allocation_granularity.

Inductive mapping_step : system -> system -> Prop :=
| ms_default o s : sy_objs s !! o = None -> mapping_step s (set_map o mapping_none s)
| ms_posix o fd size s : sy_objs s !! o = None -> (forall h, fd = Some h -> inl h ∉ sy_live s) ->
    mapping_step s (posix_mapping_open o fd size s)
| ms_win32 o f size h s : sy_objs s !! o = None ->
    (forall x, f = Some x -> inl x ∉ sy_live s) -> (forall x, h = Some x -> (inl x ∉ sy_live s) /\ f <> h) ->
    mapping_step s (win32_mapping_open o f size h s)
| ms_remap o addr b s s' : (forall a, addr = Some a -> inr a ∉ sy_live s) -> mapping_remap o addr s = Some (b, s') -> mapping_step s s'
| ms_move o other s s' : sy_objs s !! o = None -> o <> other -> mapping_move o other s = Some s' -> mapping_step s s'
| ms_assign o other s s' : mapping_assign o other s = Some s' -> mapping_step s s'
| ms_destroy o s s' : mapping_destroy o s = Some s' -> mapping_step s s'.

(** ** Facts *)

(** Everything the objects hold. *)
Definition held (objs : gmap nat mapping) : list resource := concat (resources <$> (map_to_list objs).*2).

Lemma held_delete objs o m : objs !! o = Some m -> held objs ≡ₚ resources m ++ held (delete o objs).
Proof. intros Ho. unfold held. rewrite <-(map_to_list_delete objs o m Ho). done. Qed.

Lemma held_insert objs o m : held (<[o := m]> objs) ≡ₚ resources m ++ held (delete o objs).
Proof.
  rewrite (held_delete (<[o := m]> objs) o m) by apply lookup_insert_eq. by rewrite delete_insert_eq.
Qed.

Lemma held_none objs o : objs !! o = None -> held (delete o objs) = held objs.
Proof. intros Ho. by rewrite delete_id. Qed.

(** [L] is exactly what is open, and nothing was released that was not. *)
Record bal (L : list resource) (s : system) : Prop := mk_bal {
  ba_nodup : NoDup L;
  ba_live r : r ∈ sy_live s <-> r ∈ L;
  ba_good : sy_bad s = false;
}.

#[global] Instance bal_Proper : Proper ((≡ₚ) ==> eq ==> iff) bal.
Proof.
  assert (forall L L' s, L ≡ₚ L' -> bal L s -> bal L' s) as H.
  { intros L L' s Hp [H1 H2 H3]. split; [by rewrite <-Hp|intros r; by rewrite <-Hp|done]. }
  intros L L' Hp s ? <-. split; by apply H.
Qed.

Lemma bal_objs L s s' : sy_live s' = sy_live s -> sy_bad s' = sy_bad s -> bal L s -> bal L s'.
Proof. intros E1 E2 [H1 H2 H3]. split; [done|by rewrite E1|by rewrite E2]. Qed.

Lemma bal_set L o m s : bal L s -> bal L (set_map o m s).
Proof. by apply bal_objs. Qed.

Lemma bal_release r L s : bal (r :: L) s -> bal L (release_resource r s).
Proof.
  intros [[Hni H1]%NoDup_cons H2 H3]. split; cbn; [done| |].
  - intros r'. rewrite elem_of_difference, H2, elem_of_cons, elem_of_singleton. split; [tauto|].
    intros Hr. split; [by right|]. by intros ->.
  - rewrite H3, bool_decide_eq_true_2; [done|]. apply H2. by left.
Qed.

Lemma bal_release_all rs L s : bal (rs ++ L) s -> bal L (release_all rs s).
Proof. revert s. induction rs as [|r rs IH]; intros s Hb; [done|]. cbn. by apply IH, bal_release. Qed.

Lemma bal_acquire r L s : r ∉ sy_live s -> bal L s -> bal (r :: L) (acquire_resource r s).
Proof.
  intros Hr [H1 H2 H3]. split; cbn; [|intros r'; rewrite elem_of_union, H2, elem_of_cons, elem_of_singleton; tauto|done].
  apply NoDup_cons. split; [|done]. by rewrite <-H2.
Qed.

Definition balanced (s : system) : Prop := bal (held (sy_objs s)) s.

Lemma release_all_objs rs s : sy_objs (release_all rs s) = sy_objs s.
Proof. revert s. induction rs as [|r rs IH]; intros s; [done|]. exact (IH (release_resource r s)). Qed.

(** A new object. *)
Lemma balanced_new o m s objs :
  objs !! o = None -> sy_objs s = objs -> bal (resources m ++ held objs) s -> balanced (set_map o m s).
Proof.
  intros Ho <- Hb. unfold balanced. cbn. rewrite held_insert, held_none by done. by apply bal_set.
Qed.

Lemma balanced_reset o s s' : balanced s -> mapping_reset o s = Some s' ->
  balanced s' /\ sy_objs s' = <[o := mapping_none]> (sy_objs s).
Proof.
  unfold mapping_reset. intros Hb. destruct (sy_objs s !! o) as [m|] eqn:Ho; [cbn|done]. intros [= <-].
  split; [|cbn; by rewrite release_all_objs]. unfold balanced in *. cbn. rewrite release_all_objs, held_insert. cbn.
  apply bal_set, bal_release_all. by rewrite <-(held_delete _ _ _ Ho).
Qed.

(** The moved-to object holds nothing before. *)
Lemma balanced_move o other s s' :
  balanced s -> o <> other -> resources (default mapping_none (sy_objs s !! o)) = [] ->
  mapping_move o other s = Some s' -> balanced s'.
Proof.
  unfold mapping_move. intros Hb Hne Ho. destruct (sy_objs s !! other) as [m|] eqn:Hm; [cbn|done]. intros [= <-].
  unfold balanced in *. cbn. apply bal_set, bal_set. rewrite held_insert, delete_insert_ne, held_insert by done. cbn.
  rewrite (held_delete _ _ _ Hm) in Hb.
  destruct (sy_objs s !! o) as [m'|] eqn:Ho'; cbn in Ho.
  - rewrite (held_delete (delete other (sy_objs s)) o m') in Hb by (by rewrite lookup_delete_ne).
    rewrite Ho in Hb. cbn in Hb. by rewrite delete_delete.
  - by rewrite (delete_id (sy_objs s) o).
Qed.

Lemma balanced_step s s' : balanced s -> mapping_step s s' -> balanced s'.
Proof.
  intros Hb. destruct 1 as [o s Ho|o fd size s Ho Hf|o f size h s Ho Hf Hh|o addr b s s' Ha Hr|o other s s' Ho Hne Hm|o other s s' Ha|o s s' Hd].
  - by eapply balanced_new.
  - unfold posix_mapping_open. destruct fd as [fd|]; [|by eapply balanced_new].
    specialize (Hf fd eq_refl). pose proof (bal_acquire _ _ _ Hf Hb) as Hb1. pose proof (bal_release _ _ _ Hb1) as Hb2.
    destruct size as [n|]; [destruct (n <=? 0)|]; by eapply balanced_new.
  - unfold win32_mapping_open. destruct f as [f|]; [|by eapply balanced_new].
    specialize (Hf f eq_refl). pose proof (bal_acquire _ _ _ Hf Hb) as Hb1. pose proof (bal_release _ _ _ Hb1) as Hb2.
    destruct size as [n|]; [destruct (n <=? 0)|]; [by eapply balanced_new| |by eapply balanced_new].
    destruct h as [h|]; [|by eapply balanced_new]. destruct (Hh h eq_refl) as [Hn Hne].
    eapply balanced_new; [done|done|]. apply bal_acquire; [|done]. cbn. set_solver.
  - unfold mapping_remap in Hr. destruct (sy_objs s !! o) as [m|] eqn:Ho; [cbn in Hr|done].
    destruct addr as [a|]; [|by injection Hr as _ <-]. specialize (Ha a eq_refl). injection Hr as _ <-.
    unfold balanced in *. rewrite (held_delete _ _ _ Ho) in Hb. pose proof (bal_acquire _ _ _ Ha Hb) as Hb1.
    destruct m as [[v|] hs n]; cbn in *; rewrite held_insert; apply bal_set; [|exact Hb1].
    apply bal_release. rewrite Permutation_swap in Hb1. exact Hb1.
  - eapply balanced_move; [done|done| |done]. by rewrite Ho.
  - unfold mapping_assign in Ha. destruct (Nat.eqb_spec o other) as [->|Hne]; [by injection Ha as <-|].
    destruct (mapping_reset o s) as [s1|] eqn:Hr; [cbn in Ha|done]. destruct (balanced_reset o s s1 Hb Hr) as [Hb1 Ho1].
    eapply balanced_move; [done|done| |done]. by rewrite Ho1, lookup_insert_eq.
  - unfold mapping_destroy in Hd. destruct (mapping_reset o s) as [s1|] eqn:Hr; [cbn in Hd|done]. injection Hd as <-.
    destruct (balanced_reset o s s1 Hb Hr) as [Hb1 Ho1]. unfold balanced in *. cbn.
    apply (bal_objs _ s1); [done|done|]. rewrite Ho1 in *. by rewrite held_insert, delete_insert_eq in *.
Qed.

(** File mappings release what they hold: however they are opened, moved, assigned, remapped
    and destroyed, on either platform, every view and every handle is released exactly once,
    what is open is what the live objects hold, and nothing is left when they are gone. *)
Lemma mappings_release_all s :
  rtc mapping_step (mk_sys ∅ ∅ false) s ->
  sy_bad s = false /\ NoDup (held (sy_objs s)) /\ (forall r, r ∈ sy_live s <-> r ∈ held (sy_objs s)) /\
  (sy_objs s = ∅ -> sy_live s = ∅).
Proof.
  intros Hr. assert (balanced s) as [H1 H2 H3].
  { remember (mk_sys ∅ ∅ false) as s0 eqn:E. assert (balanced s0) as Hb.
    { subst. split; [constructor|intros r; set_solver|done]. }
    clear E. induction Hr as [|x y z Hs _ IH]; [done|]. by eapply IH, balanced_step. }
  split_and!; [done..|]. intros He. apply set_eq. intros r. rewrite H2, He. set_solver.
Qed.

(** A mapping whose window has moved once, moved into another object. *)
Definition demo_system : system :=
  set_map 1 (mk_map (Some 4096) [3] 9000)
    (set_map 0 mapping_none
      (mk_sys {[0%nat := mk_map (Some 4096) [3] 9000]} ({[inl 3]} ∪ {[inr 4096]}) false)).

Lemma mappings_release_all_witness : forall r, r ∈ sy_live demo_system <-> r ∈ [inr 4096; inl 3].
Proof.
  assert (rtc mapping_step (mk_sys ∅ ∅ false) demo_system) as Hr.
  { eapply rtc_l; [eapply (ms_posix 0 (Some 3) (Some 9000)); [done|intros h _; set_solver]|].
    eapply rtc_l; [eapply (ms_remap 0 (Some 1024) true); [intros a [= <-]; cbn; set_solver|reflexivity]|].
    eapply rtc_l; [eapply (ms_remap 0 (Some 4096) true); [intros a [= <-]; cbn; set_solver|reflexivity]|].
    eapply rtc_l; [eapply (ms_move 1 0); [done|done|reflexivity]|].
    match goal with |- rtc _ ?s _ => replace s with demo_system; [apply rtc_refl|] end. reflexivity. }
  destruct (mappings_release_all _ Hr) as (_ & _ & Hl & _). exact Hl.
Defined.
