(* ===== verification/Splice.v ===== *)
(** * Splice: the two pumps of an upgraded proxied connection

    After a 101 response, [reverse_proxy] starts two detached coroutines
    (src/server/extensions/reverse_proxy.cpp, [pump]): one copies the upstream to
    the client, the other the client to the upstream.  [true] is the upstream's
    side, [false] the client's; pump [d] reads from side [d] and writes to the
    other.

    A socket that is closed forgets its registration ([IoContext.close_socket]):
    a coroutine suspended in a read of it is never resumed; a call on it fails.
    A connection that is reset is readable, and every call on it throws. *)

From S2P Require Import Prelude Bytes Stream.

Record side := mk_side {
  sd_in : list bytes;        (** segments that have arrived and were not read *)
  sd_sent : bytes;           (** everything the peer has sent *)
  sd_eof : bool;             (** the peer has closed its direction *)
  sd_out : bytes;            (** everything written to the peer *)
  sd_open : bool;
  sd_reset : bool;           (** the connection has failed *)
}.

Inductive pump :=
| PuStart (leftover : bytes)
| PuRead                     (** about to call [from->read] *)
| PuWait                     (** suspended in it *)
| PuWrite (rest : bytes)     (** inside [write_all] *)
| PuClose (lost : bytes)     (** [to->close()]; [lost] was read and could not be written *)
| PuEnd (lost : bytes).

Record splice := mk_splice { sp_side : bool -> side; sp_pump : bool -> pump }.

Definition upd {A} (f : bool -> A) (d : bool) (x : A) : bool -> A := fun e => if Bool.eqb e d then x else f e.

Definition set_side (d : bool) (x : side) (s : splice) : splice := mk_splice (upd (sp_side s) d x) (sp_pump s).
Definition set_pump (d : bool) (p : pump) (s : splice) : splice := mk_splice (sp_side s) (upd (sp_pump s) d p).

(** The upgrade handler starts both; [leftover d] was read from side [d] before. *)
Definition splice_new (leftover : bool -> bytes) : splice :=
  mk_splice (fun _ => mk_side [] [] false [] true false) (fun d => PuStart (leftover d)).

(** A call on the side goes through. *)
Definition usable (x : side) : bool := sd_open x && negb (sd_reset x).

(** One step of pump [d]; [accepted] is how much of a write is taken. *)
Definition pump_step (d : bool) (accepted : nat) (s : splice) : option splice :=
  let from := sp_side s d in
  let to := sp_side s (negb d) in
  match sp_pump s d with
  | PuStart leftover => Some (set_pump d (match leftover with [] => PuRead | _ => PuWrite leftover end) s)
  | PuRead =>
      if usable from then
        match sd_in from with
        | [] => Some (set_pump d (if sd_eof from then PuClose [] else PuWait) s)
        | seg :: r =>
            let r' := match drop chunk_size seg with [] => r | rest => rest :: r end in
            Some (set_pump d (PuWrite (take chunk_size seg))
              (set_side d (mk_side r' (sd_sent from) (sd_eof from) (sd_out from) (sd_open from) (sd_reset from)) s))
        end
      else Some (set_pump d (PuClose []) s)                        (** the read throws *)
  | PuWait =>
      if sd_open from && (sd_eof from || sd_reset from || negb (bool_decide (sd_in from = [])))
      then Some (set_pump d PuRead s) else None
  | PuWrite [] => Some (set_pump d PuRead s)
  | PuWrite rest =>
      if usable to then
        let k := Nat.max 1 accepted in
        Some (set_pump d (PuWrite (drop k rest))
          (set_side (negb d)
            (mk_side (sd_in to) (sd_sent to) (sd_eof to) (sd_out to ++ take k rest) (sd_open to) (sd_reset to)) s))
      else Some (set_pump d (PuClose rest) s)                      (** the write throws *)
  | PuClose lost =>
      Some (set_pump d (PuEnd lost)
        (set_side (negb d) (mk_side (sd_in to) (sd_sent to) (sd_eof to) (sd_out to) false (sd_reset to)) s))
  | PuEnd _ => None
  end.

(** The peers send and close, and connections fail. *)
Definition peer_sends (d : bool) (seg : bytes) (s : splice) : option splice :=
  let x := sp_side s d in
  if sd_eof x || bool_decide (seg = []) then None
  else Some (set_side d (mk_side (sd_in x ++ [seg]) (sd_sent x ++ seg) false (sd_out x) (sd_open x) (sd_reset x)) s).

Definition peer_closes (d : bool) (s : splice) : splice :=
  let x := sp_side s d in set_side d (mk_side (sd_in x) (sd_sent x) true (sd_out x) (sd_open x) (sd_reset x)) s.

Definition peer_resets (d : bool) (s : splice) : splice :=
  let x := sp_side s d in set_side d (mk_side (sd_in x) (sd_sent x) (sd_eof x) (sd_out x) (sd_open x) true) s.

Inductive splice_step : splice -> splice -> Prop :=
| sp_go d k s s' : pump_step d k s = Some s' -> splice_step s s'
| sp_sends d seg s s' : peer_sends d seg s = Some s' -> splice_step s s'
| sp_closes d s : splice_step s (peer_closes d s)
| sp_resets d s : splice_step s (peer_resets d s).

(** ** Facts *)

(** What pump [d] has read and not written yet. *)
Definition in_hand (p : pump) : bytes := match p with PuStart l | PuWrite l | PuClose l | PuEnd l => l | _ => [] end.

Definition ending (p : pump) : bool := match p with PuClose _ | PuEnd _ => true | _ => false end.

Definition ended (p : pump) : bool := match p with PuEnd _ => true | _ => false end.

Section Facts.
Context (leftover : bool -> bytes).

Record relays (s : splice) (d : bool) : Prop := mk_relays {
  re_bytes : leftover d ++ sd_sent (sp_side s d) =
    sd_out (sp_side s (negb d)) ++ in_hand (sp_pump s d) ++ concat (sd_in (sp_side s d));
  re_open : sd_open (sp_side s (negb d)) = negb (ended (sp_pump s d));
  re_end : ending (sp_pump s d) = true -> usable (sp_side s d) = true -> sd_reset (sp_side s (negb d)) = false ->
    sd_eof (sp_side s d) = true /\ sd_in (sp_side s d) = [] /\ in_hand (sp_pump s d) = [];
}.

(** One pump's relay and the other's, when pump [d] has moved. *)
Lemma relays_moved d s s' :
  (forall e, relays s e) -> relays s' d ->
  sd_sent (sp_side s' (negb d)) = sd_sent (sp_side s (negb d)) -> sd_in (sp_side s' (negb d)) = sd_in (sp_side s (negb d)) ->
  sd_eof (sp_side s' (negb d)) = sd_eof (sp_side s (negb d)) -> sd_out (sp_side s' d) = sd_out (sp_side s d) ->
  sd_open (sp_side s' d) = sd_open (sp_side s d) -> (forall e, sd_reset (sp_side s' e) = sd_reset (sp_side s e)) ->
  (sd_open (sp_side s' (negb d)) = true -> sd_open (sp_side s (negb d)) = true) ->
  sp_pump s' (negb d) = sp_pump s (negb d) -> forall e, relays s' e.
Proof.
  intros Hr Hd E1 E2 E3 E4 E5 ER E6 E7 e. destruct (decide (e = d)) as [->|Hne]; [done|].
  assert (e = negb d) as -> by (by destruct e, d). destruct (Hr (negb d)) as [O1 O2 O3]. rewrite negb_involutive in *.
  split; rewrite ?negb_involutive; rewrite ?E1, ?E2, ?E3, ?E4, ?E5, ?ER, ?E7; auto.
  intros Hend [Ho Hn]%andb_prop Hd'. apply O3; [done| |done]. unfold usable. by rewrite E6, <-ER, Hn.
Qed.

Lemma concat_chunk (seg : bytes) (r : list bytes) x :
  x ++ concat (seg :: r) =
  x ++ take chunk_size seg ++ concat (match drop chunk_size seg with [] => r | rest => rest :: r end).
Proof. rewrite <-(take_drop chunk_size seg) at 1. cbn. rewrite <-app_assoc. by destruct (drop chunk_size seg). Qed.

(** Pump [d] has moved: what it leaves alone, and the new relay of its own. *)
Ltac pump_moved d s := apply (relays_moved d s); [done| |by destruct d; try (intros []; done)..].

Lemma pump_step_relays d k s s' : (forall e, relays s e) -> pump_step d k s = Some s' -> forall e, relays s' e.
Proof.
  intros Hr Hp. destruct (Hr d) as [H1 H2 H3]. unfold pump_step in Hp.
  destruct (sp_pump s d) as [l| | |[|b rest]|lost|lost] eqn:Hpd; try done; cbn in H2.
  - injection Hp as <-. pump_moved d s. destruct d, l; split; cbn in *; done.
  - destruct (usable (sp_side s d)) eqn:Hf; [destruct (sd_in (sp_side s d)) as [|seg r] eqn:Hi|]; injection Hp as <-;
      pump_moved d s.
    + destruct (sd_eof (sp_side s d)) eqn:He, d; split; cbn in *; rewrite ?Hi; done.
    + cbn [in_hand app] in H1. rewrite concat_chunk in H1. destruct d; split; cbn -[chunk_size take drop concat] in *; done.
    + destruct d; split; cbn in *; try done; congruence.
  - destruct (sd_open (sp_side s d) && _); [|done]. injection Hp as <-. pump_moved d s. destruct d; split; cbn in *; done.
  - injection Hp as <-. pump_moved d s. destruct d; split; cbn in *; done.
  - destruct (usable (sp_side s (negb d))) eqn:Hu; injection Hp as <-; pump_moved d s.
    + assert (forall x y, (x ++ take (Nat.max 1 k) (b :: rest)) ++ drop (Nat.max 1 k) (b :: rest) ++ y = x ++ (b :: rest) ++ y) as Ht.
      { intros x y. by rewrite <-app_assoc, (app_assoc (take _ _)), take_drop. }
      destruct d; split; cbn -[take drop Nat.max] in *; try done; rewrite Ht; exact H1.
    + unfold usable in Hu. rewrite H2 in Hu. cbn in Hu. apply negb_false_iff in Hu.
      destruct d; split; cbn in *; try done; congruence.
  - injection Hp as <-. pump_moved d s. destruct d; split; cbn in *; try done; by auto.
Qed.

Lemma peer_relays s d x e :
  (forall e, relays s e) -> sd_out x = sd_out (sp_side s d) -> sd_open x = sd_open (sp_side s d) ->
  (sd_reset x = false -> sd_reset (sp_side s d) = false) ->
  (sd_eof (sp_side s d) = true -> sd_eof x = true /\ sd_in x = sd_in (sp_side s d)) ->
  (exists seg, sd_sent x = sd_sent (sp_side s d) ++ seg /\ concat (sd_in x) = concat (sd_in (sp_side s d)) ++ seg) ->
  relays (set_side d x s) e.
Proof.
  intros Hr E1 E2 ER E3 (seg & E4 & E5). destruct (Hr e) as [H1 H2 H3]. unfold usable in H3.
  destruct (decide (e = d)) as [->|Hne].
  - split; destruct d; cbn in *; rewrite ?E1, ?E2, ?E4, ?E5, ?(app_assoc _ _ seg), ?H1, <-?app_assoc; try done.
    all: unfold usable; cbn; rewrite E2; intros Ha [Hb Hn%negb_true_iff]%andb_prop Hc; rewrite Hb, ER in H3 by done.
    all: destruct (H3 Ha eq_refl Hc) as (Hd & He & Hf); destruct (E3 Hd) as [? ->]; done.
  - assert (e = negb d) as -> by (by destruct e, d).
    split; destruct d; cbn in *; rewrite ?E1, ?E2; try done; intros Ha Hb Hc; apply H3; auto.
Qed.

(** C37: The splice of an upgraded proxied connection: under every interleaving of the two pumps,
    the peers and failures of their connections, what one peer is given is, in order and
    without loss or mixture, what the other has sent (after what had been read before the
    upgrade), up to what is in flight or was in hand when a write failed; and a pump whose
    source was not closed under it ends, when no connection fails, only after it has delivered
    everything up to the end of the stream. *)
Theorem splice_relays_exactly s d :
  rtc splice_step (splice_new leftover) s ->
  leftover d ++ sd_sent (sp_side s d) =
    sd_out (sp_side s (negb d)) ++ in_hand (sp_pump s d) ++ concat (sd_in (sp_side s d)) /\
  (ended (sp_pump s d) = true -> usable (sp_side s d) = true -> sd_reset (sp_side s (negb d)) = false ->
   sd_eof (sp_side s d) = true /\ sd_out (sp_side s (negb d)) = leftover d ++ sd_sent (sp_side s d)).
Proof.
  intros Hr. assert (forall e, relays s e) as Hi.
  { remember (splice_new leftover) as s0 eqn:E.
    assert (forall e, relays s0 e) as H0 by (intros e; subst; split; cbn; by rewrite ?app_nil_r).
    clear E. induction Hr as [|x y z Hs _ IH]; [done|]. apply IH.
    destruct Hs as [d' k x y Hp|d' seg x y Hp|d' x|d' x].
    - by eapply pump_step_relays.
    - unfold peer_sends in Hp. destruct (sd_eof (sp_side x d') || _) eqn:He; [done|]. apply orb_false_elim in He as [He _].
      injection Hp as <-. intros e. apply peer_relays; cbn; try done; [by rewrite He|].
      exists seg. split; [done|]. rewrite concat_app. cbn. by rewrite app_nil_r.
    - intros e. apply peer_relays; cbn; try done. exists []. by rewrite !app_nil_r.
    - intros e. apply peer_relays; cbn; try done. exists []. by rewrite !app_nil_r. }
  destruct (Hi d) as [H1 _ H3]. split; [done|]. intros He Ho Hn.
  destruct H3 as (Hf & Hin & Hh); [by destruct (sp_pump s d)|done..|].
  split; [done|]. by rewrite H1, Hin, Hh, app_nil_r.
Qed.
End Facts.

(** ** A pump that nothing ends *)

(** A pump suspended on a socket that was closed stays so, and the socket it
    writes to stays open. *)
Lemma stranded_forever d s s' :
  sp_pump s d = PuWait -> sd_open (sp_side s d) = false -> sd_open (sp_side s (negb d)) = true ->
  ended (sp_pump s (negb d)) = true -> rtc splice_step s s' ->
  sp_pump s' d = PuWait /\ sd_open (sp_side s' d) = false /\ sd_open (sp_side s' (negb d)) = true.
Proof.
  intros H1 H2 H3 H4 Hr. induction Hr as [|x y z Hs _ IH]; [done|].
  assert (sp_pump y d = PuWait /\ sd_open (sp_side y d) = false /\ sd_open (sp_side y (negb d)) = true /\ ended (sp_pump y (negb d)) = true)
    as (? & ? & ? & ?); [|by apply IH].
  destruct Hs as [d' k x y Hp|d' seg x y Hp|d' x|d' x].
  - destruct (decide (d' = d)) as [->|Hne]; [|assert (d' = negb d) as -> by (by destruct d', d)]; unfold pump_step in Hp.
    + by rewrite H1, H2 in Hp.
    + by destruct (sp_pump x (negb d)).
  - unfold peer_sends in Hp. destruct (_ || _); [done|]. injection Hp as <-. destruct d, d'; done.
  - destruct d, d'; done.
  - destruct d, d'; done.
Qed.

(** The upstream closes after it has answered: its pump closes the client's
    socket under the other pump, which is suspended in a read of it, is never
    resumed, and keeps the upstream's socket open for ever. *)
Fixpoint splice_run (moves : list (bool + bool)) (s : splice) : option splice :=
  match moves with
  | [] => Some s
  | inl d :: r => s1 ← pump_step d 100 s; splice_run r s1
  | inr d :: r => splice_run r (peer_closes d s)
  end.

Lemma splice_run_reach moves s s' : splice_run moves s = Some s' -> rtc splice_step s s'.
Proof.
  revert s. induction moves as [|[d|d] r IH]; intros s; cbn; [by intros [= <-]| |].
  - destruct (pump_step d 100 s) as [s1|] eqn:E; [cbn|done]. intros H. eapply rtc_l; [by eapply sp_go|by apply IH].
  - intros H. eapply rtc_l; [apply (sp_closes d)|by apply IH].
Qed.

(** Both pumps start and wait; the upstream closes; its pump runs to its end. *)
Definition half_close : list (bool + bool) :=
  [inl true; inl true; inl true; inl true; inl false; inl false; inr true; inl true; inl true; inl true].

Definition half_closed : splice :=
  default (splice_new (fun _ => [])) (splice_run half_close (splice_new (fun d => if d then str "hi" else []))).

Lemma half_closed_reach : rtc splice_step (splice_new (fun d => if d then str "hi" else [])) half_closed.
Proof. apply (splice_run_reach half_close). reflexivity. Qed.

Lemma splice_relays_exactly_witness :
  sp_pump half_closed true = PuEnd [] /\ sd_out (sp_side half_closed false) = str "hi" ++ sd_sent (sp_side half_closed true).
Proof.
  split; [reflexivity|].
  apply (splice_relays_exactly (fun d => if d then str "hi" else []) half_closed true half_closed_reach); reflexivity.
Defined.

Example half_close_strands_a_pump s' :
  rtc splice_step half_closed s' ->
  sp_pump s' false = PuWait /\ sd_open (sp_side s' false) = false /\ sd_open (sp_side s' true) = true.
Proof. intros Hr. apply (stranded_forever false half_closed s'); done. Qed.
