(* ===== verification/SocketOps.v ===== *)
(** * SocketOps: options, names and listening sockets

    The rest of src/platform/{posix,win32}/socket.cpp (options, [bind], [listen],
    the endpoints of a socket), the options [handle_connection] sets, and
    [listener::listen] (src/server/listener.cpp) down to those calls, over a
    kernel that keeps for every open descriptor its flags, options and address.

    The kernel is the operating system's: a [bind] fails when an address that
    [overlap]s is bound, unless both sockets have SO_REUSEPORT; port 0 asks for
    [ephemeral], a port that is not among those in use (so that two binds to port
    0 get two ports); [::socket] fails when [k_limit] descriptors are open. *)

From S2P Require Import Prelude Bytes Address Socket.

#[local] Open Scope Z_scope.

Record sock := mk_sock {
  sk_flags : Z;                        (** [fcntl(F_GETFL)] *)
  sk_reuse_address : Z;
  sk_reuse_port : Z;
  sk_nodelay : Z;
  sk_keepalive : Z;
  sk_linger : Z * Z;                   (** [l_onoff], [l_linger] *)
  sk_local : option (bytes * nat);     (** the [sockaddr] it is bound to *)
  sk_backlog : option Z;
}.

Record kernel := mk_kernel { k_socks : gmap Z sock; k_next : Z; k_limit : nat }.

Definition sock_new : sock := mk_sock 0 0 0 0 0 (0, 0) None None.

Definition with_sock (fd : Z) (s : sock) (k : kernel) : kernel :=
  mk_kernel (<[fd := s]> (k_socks k)) (k_next k) (k_limit k).

(** A call on a descriptor: it fails when that is not open. *)
Definition on_sock (f : sock -> sock) (fd : Z) (k : kernel) : bool * kernel :=
  match k_socks k !! fd with Some s => (true, with_sock fd (f s) k) | None => (false, k) end.

(** ** Options *)

Definition O_NONBLOCK : Z := 2048.
Definition flag (enabled : bool) : Z := if enabled then 1 else 0.

Definition posix_set_nonblocking (enabled : bool) : Z -> kernel -> bool * kernel :=
  on_sock (fun s =>
    let flags := sk_flags s in
    let updated := if enabled then Z.lor flags O_NONBLOCK else Z.land flags (Z.lnot O_NONBLOCK) in
    mk_sock updated (sk_reuse_address s) (sk_reuse_port s) (sk_nodelay s) (sk_keepalive s) (sk_linger s) (sk_local s)
      (sk_backlog s)).

Definition set_reuse_address (enabled : bool) : Z -> kernel -> bool * kernel :=
  on_sock (fun s =>
    mk_sock (sk_flags s) (flag enabled) (sk_reuse_port s) (sk_nodelay s) (sk_keepalive s) (sk_linger s) (sk_local s)
      (sk_backlog s)).

Definition posix_set_reuse_port (enabled : bool) : Z -> kernel -> bool * kernel :=
  on_sock (fun s =>
    mk_sock (sk_flags s) (sk_reuse_address s) (flag enabled) (sk_nodelay s) (sk_keepalive s) (sk_linger s) (sk_local s)
      (sk_backlog s)).

Definition win32_set_reuse_port (enabled : bool) (fd : Z) (k : kernel) : bool * kernel := (false, k).

Definition set_reuse_port `{Platform} (enabled : bool) (fd : Z) (k : kernel) : bool * kernel :=
  if supports_reuse_port then posix_set_reuse_port enabled fd k else win32_set_reuse_port enabled fd k.

Definition set_nodelay (enabled : bool) : Z -> kernel -> bool * kernel :=
  on_sock (fun s =>
    mk_sock (sk_flags s) (sk_reuse_address s) (sk_reuse_port s) (flag enabled) (sk_keepalive s) (sk_linger s) (sk_local s)
      (sk_backlog s)).

Definition set_keepalive (enabled : bool) : Z -> kernel -> bool * kernel :=
  on_sock (fun s =>
    mk_sock (sk_flags s) (sk_reuse_address s) (sk_reuse_port s) (sk_nodelay s) (flag enabled) (sk_linger s) (sk_local s)
      (sk_backlog s)).

Definition posix_set_linger (enabled : bool) (timeout_seconds : Z) : Z -> kernel -> bool * kernel :=
  on_sock (fun s =>
    mk_sock (sk_flags s) (sk_reuse_address s) (sk_reuse_port s) (sk_nodelay s) (sk_keepalive s)
      (flag enabled, timeout_seconds) (sk_local s) (sk_backlog s)).

(** Windows keeps the timeout in 16 bits. *)
Definition win32_set_linger (enabled : bool) (timeout_seconds : Z) : Z -> kernel -> bool * kernel :=
  posix_set_linger enabled (uwrap 16 timeout_seconds).

(** What [handle_connection] sets on a new connection; results are not looked at. *)
Definition configure (tcp_nodelay tcp_keepalive tcp_linger : bool) (tcp_linger_seconds : Z) (fd : Z) (k : kernel) : kernel :=
  let k := snd (set_nodelay tcp_nodelay fd k) in
  let k := if tcp_keepalive then snd (set_keepalive true fd k) else k in
  if tcp_linger then snd (posix_set_linger true tcp_linger_seconds fd k) else k.

(** ** Names *)

Section Names.
Context `{Platform} (AF_INET6 : Z) (overlap : bytes -> bytes -> bool) (ephemeral : gset Z -> option Z).

(** [::socket]. *)
Definition sys_socket (k : kernel) : option Z * kernel :=
  if (size (k_socks k) <? k_limit k)%nat
  then (Some (k_next k), mk_kernel (<[k_next k := sock_new]> (k_socks k)) (k_next k + 1) (k_limit k))
  else (None, k).

Definition sys_close_sock (fd : Z) (k : kernel) : kernel := mk_kernel (delete fd (k_socks k)) (k_next k) (k_limit k).

(** A socket [t] keeps one with SO_REUSEPORT [reuse] from binding to [addr]. *)
Definition blocks (addr : bytes) (reuse : Z) (t : sock) : bool :=
  match sk_local t with
  | Some (a, _) => overlap a addr && negb ((reuse =? 1) && (sk_reuse_port t =? 1))
  | None => false
  end.

(** The ports that are bound. *)
Definition bound_port (s : sock) : option Z := '(addr, _) ← sk_local s; Some (of_be16 (slice 2 2 addr)).
Definition ports_in_use (k : kernel) : gset Z := list_to_set (omap (fun '(_, s) => bound_port s) (map_to_list (k_socks k))).

(** The address a bind to [addr] is given: port 0 stands for a port of the
    system's choice, if it has one left. *)
Definition wanted (addr : bytes) (k : kernel) : option bytes :=
  if of_be16 (slice 2 2 addr) =? 0 then p ← ephemeral (ports_in_use k); Some (blit 2 (be16 p) addr) else Some addr.

(** [::bind]. *)
Definition sys_bind (fd : Z) (addr : bytes) (len : nat) (k : kernel) : bool * kernel :=
  match k_socks k !! fd, wanted addr k with
  | Some s, Some addr =>
      if bool_decide (sk_local s = None) && forallb (fun '(_, t) => negb (blocks addr (sk_reuse_port s) t)) (map_to_list (k_socks k))
      then (true, with_sock fd (mk_sock (sk_flags s) (sk_reuse_address s) (sk_reuse_port s) (sk_nodelay s) (sk_keepalive s)
                                  (sk_linger s) (Some (addr, len)) (sk_backlog s)) k)
      else (false, k)
  | _, _ => (false, k)
  end.

(** [socket_handle::bind]. *)
Definition handle_bind (ep : endpoint) (fd : Z) (k : kernel) : bool * kernel :=
  let '(storage, len) := endpoint_to_sockaddr AF_INET6 ep in sys_bind fd storage len k.

(** [socket_handle::listen]. *)
Definition handle_listen (backlog : Z) : Z -> kernel -> bool * kernel :=
  on_sock (fun s =>
    mk_sock (sk_flags s) (sk_reuse_address s) (sk_reuse_port s) (sk_nodelay s) (sk_keepalive s) (sk_linger s) (sk_local s)
      (Some backlog)).

(** [socket_handle::local_endpoint]. *)
Definition local_endpoint (fd : Z) (k : kernel) : option endpoint :=
  s ← k_socks k !! fd;
  '(storage, len) ← sk_local s;
  endpoint_from_sockaddr AF_INET6 storage len.

(** ** [listener::listen] *)

(** A listening socket and its accept loop: the worker, the descriptor,
    [distribute]. *)
Record bound_loop := mk_bound { bd_worker : nat; bd_fd : Z; bd_distribute : bool }.

(** [create], the options and [bind] and [listen]; [handle] is destroyed when one
    of them fails. *)
Definition open_listening (reuse_port : bool) (ep : endpoint) (k : kernel) : option Z * kernel :=
  match sys_socket k with
  | (None, k) => (None, k)
  | (Some fd, k) =>
      let k := snd (set_reuse_address true fd k) in
      let k := if reuse_port then snd (set_reuse_port true fd k) else k in
      let '(bound, k) := handle_bind ep fd k in
      if bound then
        let '(ok, k) := handle_listen 128 fd k in
        if ok then (Some fd, k) else (None, sys_close_sock fd k)
      else (None, sys_close_sock fd k)
  end.

(** [actual_ep] with the port the system has assigned. *)
Definition learn_port (ep : endpoint) (fd : Z) (k : kernel) : endpoint :=
  match local_endpoint fd k with Some bound => mk_ep (ep_address ep) (ep_port bound) | None => ep end.

(** The loop over the workers, from worker [i]. *)
Fixpoint open_workers (left i : nat) (actual_ep : endpoint) (k : kernel) : bool * endpoint * list bound_loop * kernel :=
  match left with
  | O => (true, actual_ep, [], k)
  | S m =>
      match open_listening true actual_ep k with
      | (None, k) => (false, actual_ep, [], k)
      | (Some fd, k) =>
          let actual_ep := if (i =? 0)%nat then learn_port actual_ep fd k else actual_ep in
          let '(ok, ep, loops, k) := open_workers m (S i) actual_ep k in (ok, ep, mk_bound i fd false :: loops, k)
      end
  end.

(** [listen]: whether it succeeded, [bound_endpoint_] when it did, the accept loops
    that were started. *)
Definition listener_listen (n : nat) (ep : endpoint) (k : kernel) : bool * option endpoint * list bound_loop * kernel :=
  match sys_socket k with
  | (None, k) => (false, None, [], k)
  | (Some probe, k) =>
      let '(have_reuseport, k) := set_reuse_port true probe k in
      let k := sys_close_sock probe k in
      if have_reuseport then
        let '(ok, actual_ep, loops, k) := open_workers n 0 ep k in (ok, if ok then Some actual_ep else None, loops, k)
      else
        match open_listening false ep k with
        | (None, k) => (false, None, [], k)
        | (Some fd, k) => (true, Some (learn_port ep fd k), [mk_bound 0 fd true], k)
        end
  end.
End Names.

(** ** Facts *)

(** Nothing but the flag is changed. *)
Lemma set_nonblocking_exact enabled fd k s :
  k_socks k !! fd = Some s ->
  exists s', posix_set_nonblocking enabled fd k = (true, with_sock fd s' k) /\
    (forall i, 0 <= i -> Z.testbit (sk_flags s') i = if i =? 11 then enabled else Z.testbit (sk_flags s) i) /\
    sk_local s' = sk_local s /\ sk_backlog s' = sk_backlog s.
Proof.
  intros Hs. unfold posix_set_nonblocking, on_sock. rewrite Hs. eexists. split; [done|]. split; [|done].
  intros i Hi. cbn [sk_flags]. change O_NONBLOCK with (2 ^ 11). destruct enabled.
  - rewrite Z.lor_spec, Z.pow2_bits_eqb by done. rewrite (Z.eqb_sym 11 i). destruct (i =? 11); by rewrite ?orb_true_r, ?orb_false_r.
  - rewrite Z.land_spec, Z.lnot_spec, Z.pow2_bits_eqb by done. rewrite (Z.eqb_sym 11 i).
    destruct (i =? 11); by rewrite ?andb_true_r, ?andb_false_r.
Qed.

(** A new connection's options are the parameters', whatever they were before
    where the parameter says so. *)
Lemma configure_exact nodelay keepalive linger seconds fd k s :
  k_socks k !! fd = Some s ->
  k_socks (configure nodelay keepalive linger seconds fd k) !! fd =
    Some (mk_sock (sk_flags s) (sk_reuse_address s) (sk_reuse_port s) (flag nodelay)
            (if keepalive then 1 else sk_keepalive s) (if linger then (1, seconds) else sk_linger s)
            (sk_local s) (sk_backlog s)).
Proof.
  intros Hs. unfold configure, set_nodelay, set_keepalive, posix_set_linger, on_sock.
  rewrite Hs. destruct keepalive, linger; repeat (cbn; rewrite lookup_insert_eq); done.
Qed.

Section ListenFacts.
Context `{Platform} (AF_INET6 : Z) (overlap : bytes -> bytes -> bool) (ephemeral : gset Z -> option Z).
Context (Haf : in_u 16 AF_INET6) (Hne : AF_INET6 <> AF_INET).
Hypothesis Heph : forall used p, ephemeral used = Some p -> in_u 16 p /\ p <> 0 /\ p ∉ used.

#[local] Abbreviation to_sockaddr := (endpoint_to_sockaddr AF_INET6).

Lemma blit_blit off x y (s : bytes) :
  length x = length y -> (off + length x <= length s)%nat -> blit off x (blit off y s) = blit off x s.
Proof.
  intros Hl Hs. unfold blit. rewrite Hl, take_app_le, take_take, Nat.min_id by (rewrite length_take; lia). do 2 f_equal.
  rewrite app_assoc, drop_app_length'; [done|]. rewrite length_app, length_take. lia.
Qed.

(** The port a bind to [port] is given. *)
Definition chosen_port (port : Z) (k : kernel) : option Z :=
  if port =? 0 then ephemeral (ports_in_use k) else Some port.

Lemma chosen_port_wf port k p : in_u 16 port -> chosen_port port k = Some p -> in_u 16 p /\ p <> 0.
Proof.
  unfold chosen_port. destruct (Z.eqb_spec port 0); intros Hp; [intros (? & ? & _)%Heph; done|]. by intros [= <-].
Qed.

(** The system's choice of a port is what binding to that port would have given. *)
Lemma wanted_endpoint a port p k :
  ip_wf a -> in_u 16 port -> chosen_port port k = Some p ->
  wanted ephemeral (fst (to_sockaddr (mk_ep a port))) k = Some (fst (to_sockaddr (mk_ep a p))) /\
  snd (to_sockaddr (mk_ep a port)) = snd (to_sockaddr (mk_ep a p)).
Proof.
  intros (H4 & H6 & _) Hp Hc. unfold endpoint_to_sockaddr. cbn [ep_address ep_port].
  assert (forall f o d, (4 <= o)%nat -> (o + length d <= 128)%nat ->
    wanted ephemeral (blit 2 (be16 port) (blit o d (blit 0 (le16 f) (zeros 128)))) k =
    Some (blit 2 (be16 p) (blit o d (blit 0 (le16 f) (zeros 128))))) as Hw.
  { intros f o d Ho Hd. destruct (sockaddr_fields f port o d Ho Hd) as (Hl & _ & Hpt & _). unfold wanted.
    rewrite Hpt, of_be16_be16 by done. unfold chosen_port in Hc. destruct (port =? 0); [|by injection Hc as ->].
    rewrite Hc. cbn [mbind option_bind]. f_equal. apply blit_blit; [done|].
    rewrite !length_blit; rewrite ?length_blit; unfold zeros; rewrite ?length_replicate; unfold be16, le16; cbn [length]; lia. }
  unfold sizeof_sockaddr_storage in *. destruct (is_v4 a); cbn [fst snd]; split; try done; apply Hw; lia.
Qed.

(** A socket without a name uses no port. *)
Lemma ports_in_use_unbound fd s k next limit :
  k_socks k !! fd = None -> sk_local s = None ->
  ports_in_use (mk_kernel (<[fd := s]> (k_socks k)) next limit) = ports_in_use k.
Proof.
  intros Hf Hs. unfold ports_in_use. cbn [k_socks]. rewrite (map_to_list_insert _ _ _ Hf). cbn.
  unfold bound_port at 1. by rewrite Hs.
Qed.

Definition kernel_wf (k : kernel) : Prop := forall fd, is_Some (k_socks k !! fd) -> fd < k_next k.

Lemma kernel_fresh k : kernel_wf k -> k_socks k !! k_next k = None.
Proof. intros Hk. destruct (k_socks k !! k_next k) eqn:E; [|done]. specialize (Hk (k_next k) ltac:(by eexists)). lia. Qed.

(** The socket that [open_listening] leaves. *)
Definition listening (reuse_port : bool) (ep : endpoint) : sock :=
  mk_sock 0 1 (flag reuse_port) 0 0 (0, 0) (Some (to_sockaddr ep)) (Some 128).

Definition opened (fd : Z) (reuse_port : bool) (ep : endpoint) (k : kernel) : kernel :=
  mk_kernel (<[fd := listening reuse_port ep]> (k_socks k)) (fd + 1) (k_limit k).

Definition clear_for (reuse : bool) (ep : endpoint) (k : kernel) : Prop :=
  forall fd t, k_socks k !! fd = Some t -> blocks overlap (fst (to_sockaddr ep)) (flag reuse) t = false.

Lemma open_listening_ok reuse a port p k :
  (reuse = true -> supports_reuse_port = true) -> kernel_wf k -> (size (k_socks k) < k_limit k)%nat ->
  ip_wf a -> in_u 16 port -> chosen_port port k = Some p -> clear_for reuse (mk_ep a p) k ->
  open_listening AF_INET6 overlap ephemeral reuse (mk_ep a port) k =
    (Some (k_next k), opened (k_next k) reuse (mk_ep a p) k).
Proof.
  intros Hr Hk Hs Ha Hp Hch Hc. unfold open_listening, sys_socket. rewrite (proj2 (Nat.ltb_lt _ _) Hs).
  unfold set_reuse_address, on_sock. cbn [k_socks]. rewrite lookup_insert_eq. cbn [snd].
  unfold handle_bind.
  set (k1 := if reuse then _ else _).
  assert (k1 = mk_kernel (<[k_next k := mk_sock 0 1 (flag reuse) 0 0 (0, 0) None None]> (k_socks k)) (k_next k + 1) (k_limit k)) as ->.
  { subst k1. destruct reuse; unfold set_reuse_port, posix_set_reuse_port, on_sock, with_sock; cbn; [rewrite Hr by done|];
      rewrite ?lookup_insert_eq; cbn; by rewrite ?insert_insert_eq. }
  set (k2 := mk_kernel _ _ _). assert (chosen_port port k2 = Some p) as Hch2.
  { rewrite <-Hch. unfold chosen_port. subst k2. by rewrite ports_in_use_unbound by (done || by apply kernel_fresh). }
  destruct (wanted_endpoint a port p k2 Ha Hp Hch2) as [Hw Hl].
  destruct (to_sockaddr (mk_ep a port)) as [storage len] eqn:Est. cbn [fst snd] in Hw, Hl.
  unfold sys_bind. rewrite Hw. subst k2. cbn [k_socks]. rewrite lookup_insert_eq. cbn [sk_local sk_reuse_port].
  set (addr := fst _). rewrite (proj2 (forallb_forall _ _)).
  - unfold handle_listen, on_sock, with_sock. cbn. rewrite lookup_insert_eq. cbn. rewrite !insert_insert_eq.
    unfold opened, listening. subst addr. rewrite Hl. by rewrite <-surjective_pairing.
  - intros [fd t] Hin. apply list_elem_of_In, elem_of_map_to_list in Hin.
    destruct (decide (fd = k_next k)) as [->|Hn].
    + rewrite lookup_insert_eq in Hin. by injection Hin as <-.
    + rewrite lookup_insert_ne in Hin by done. unfold clear_for in Hc. subst addr. by rewrite (Hc fd t Hin).
Qed.

Lemma opened_wf reuse ep k : kernel_wf k -> kernel_wf (opened (k_next k) reuse ep k).
Proof.
  intros Hk fd [s Hs]. cbn in *. destruct (decide (fd = k_next k)) as [->|Hn]; [lia|].
  rewrite lookup_insert_ne in Hs by done. specialize (Hk fd ltac:(by eexists)). lia.
Qed.

Lemma opened_clear ep k : clear_for true ep k -> clear_for true ep (opened (k_next k) true ep k).
Proof.
  intros Hc fd t. cbn. destruct (decide (fd = k_next k)) as [->|Hn].
  - rewrite lookup_insert_eq. intros [= <-]. unfold blocks. cbn. destruct (to_sockaddr ep). cbn. by rewrite andb_false_r.
  - rewrite lookup_insert_ne by done. apply Hc.
Qed.

Lemma local_listening reuse a port fd k :
  ip_wf a -> in_u 16 port -> k_socks k !! fd = Some (listening reuse (mk_ep a port)) ->
  local_endpoint AF_INET6 fd k = Some (mk_ep a port).
Proof.
  intros Ha Hp Hk. unfold local_endpoint. rewrite Hk. cbn.
  pose proof (sockaddr_back AF_INET6 (mk_ep a port) Ha Hp Haf Hne) as Hrt. by destruct (to_sockaddr _) as [st l].
Qed.

(** What [m] workers' sockets, opened from kernel [k] on, look like. *)
Record opened_all (m i : nat) (ep : endpoint) (k k' : kernel) (loops : list bound_loop) : Prop := mk_opened_all {
  oa_loops : loops = (fun j : nat => mk_bound (i + j) (k_next k + Z.of_nat j) false) <$> seq 0 m;
  oa_socks j : (j < m)%nat -> k_socks k' !! (k_next k + Z.of_nat j) = Some (listening true ep);
  oa_old fd : fd < k_next k -> k_socks k' !! fd = k_socks k !! fd;
  oa_size : (size (k_socks k') = size (k_socks k) + m)%nat;
}.

Lemma opened_all_cons m i ep k k' loops :
  kernel_wf k -> opened_all m (S i) ep (opened (k_next k) true ep k) k' loops ->
  opened_all (S m) i ep k k' (mk_bound i (k_next k) false :: loops).
Proof.
  intros Hk [Hl Hs Ho Hz]. cbn in *. split.
  - rewrite Hl. cbn. rewrite <-fmap_S_seq, <-list_fmap_compose. f_equal; [f_equal; lia|].
    apply list_fmap_ext. intros j x _. cbn. f_equal; lia.
  - intros [|j] Hj.
    + rewrite Z.add_0_r, Ho by lia. apply lookup_insert_eq.
    + replace (k_next k + Z.of_nat (S j)) with (k_next k + 1 + Z.of_nat j) by lia. apply Hs. lia.
  - intros fd Hfd. rewrite Ho by lia. apply lookup_insert_ne. lia.
  - rewrite Hz, map_size_insert_None by (by apply kernel_fresh). lia.
Qed.

Lemma open_workers_ok m i a p k :
  supports_reuse_port = true -> kernel_wf k -> (size (k_socks k) + m <= k_limit k)%nat ->
  ip_wf a -> in_u 16 p -> p <> 0 -> clear_for true (mk_ep a p) k ->
  exists loops k', open_workers AF_INET6 overlap ephemeral m i (mk_ep a p) k = (true, mk_ep a p, loops, k') /\
    opened_all m i (mk_ep a p) k k' loops.
Proof.
  intros Hr Hk Hs Ha Hp Hp0 Hc. revert i k Hk Hs Hc. induction m as [|m IH]; intros i k Hk Hs Hc.
  { exists [], k. split; [done|]. split; [done|lia|done|lia]. }
  cbn [open_workers]. rewrite (open_listening_ok true a p p); [|done|done|lia|done|done| |done].
  2:{ unfold chosen_port. by rewrite (proj2 (Z.eqb_neq _ _) Hp0). }
  set (k1 := opened _ _ _ _). assert (learn_port AF_INET6 (mk_ep a p) (k_next k) k1 = mk_ep a p) as Hlp.
  { unfold learn_port. rewrite (local_listening true a p) by (try apply lookup_insert_eq; done). done. }
  rewrite Hlp. replace (if (i =? 0)%nat then mk_ep a p else mk_ep a p) with (mk_ep a p) by (by destruct (i =? 0)%nat).
  destruct (IH (S i) k1) as (loops & k' & -> & Hall).
  - by apply opened_wf.
  - subst k1. cbn. rewrite map_size_insert_None by (by apply kernel_fresh). lia.
  - by apply opened_clear.
  - eexists _, k'. split; [done|]. by apply opened_all_cons.
Qed.

(** The probe leaves the kernel as it was, one descriptor number further. *)
Lemma probe_closed k :
  kernel_wf k -> (size (k_socks k) < k_limit k)%nat ->
  exists k1, sys_socket k = (Some (k_next k), k1) /\
    (let '(have, k2) := set_reuse_port true (k_next k) k1 in
     have = supports_reuse_port /\
     sys_close_sock (k_next k) k2 = mk_kernel (k_socks k) (k_next k + 1) (k_limit k)).
Proof.
  intros Hk Hs. unfold sys_socket. rewrite (proj2 (Nat.ltb_lt _ _) Hs). eexists. split; [done|].
  pose proof (kernel_fresh k Hk) as Hf. unfold set_reuse_port, posix_set_reuse_port, win32_set_reuse_port, on_sock, sys_close_sock.
  destruct supports_reuse_port; cbn; rewrite ?lookup_insert_eq; split; try done; cbn; by rewrite ?insert_insert_eq, delete_insert_id.
Qed.

(** The port a loop listens on, and how. *)
Definition listens (k : kernel) (ep : endpoint) (distribute : bool) (b : bound_loop) : Prop :=
  local_endpoint AF_INET6 (bd_fd b) k = Some ep /\ bd_distribute b = distribute /\
  exists s, k_socks k !! bd_fd b = Some s /\ sk_backlog s = Some 128 /\ sk_reuse_address s = 1.

Lemma listening_listens reuse a p k b :
  ip_wf a -> in_u 16 p -> k_socks k !! bd_fd b = Some (listening reuse (mk_ep a p)) ->
  listens k (mk_ep a p) (bd_distribute b) b.
Proof. intros Ha Hp Hk. split; [by eapply local_listening|]. split; [done|]. by eexists. Qed.

Lemma opened_all_listens m a p k k' loops :
  ip_wf a -> in_u 16 p -> opened_all m 0 (mk_ep a p) k k' loops ->
  bd_worker <$> loops = seq 0 m /\ NoDup (bd_fd <$> loops) /\ Forall (listens k' (mk_ep a p) false) loops.
Proof.
  intros Ha Hp [-> Hs _ _]. rewrite <-!list_fmap_compose. split_and!.
  - cbn. apply list_fmap_id.
  - apply NoDup_fmap_2_strong; [|apply NoDup_seq]. intros x y _ _. cbn. lia.
  - apply Forall_fmap, Forall_forall. intros j Hj%elem_of_seq. eapply (listening_listens true _ _ _ (mk_bound _ _ false)); [done..|].
    apply Hs. lia.
Qed.

(** C28: listener::listen on a free address, with a free port and descriptors enough, succeeds,
    and every worker (one worker, where the platform cannot share a port) accepts on a
    listening socket of its own, all of them on the requested address with the requested port
    or, for port 0, the one the system chose for the first worker's bind, although it would
    give every further bind to port 0 another port; that is the endpoint it reports. The
    sockets that were open are left alone and the probe does not stay open. *)
Theorem listen_binds_one_port n a port p k :
  let ep := mk_ep a p in
  let m := if supports_reuse_port then n else 1%nat in
  (0 < n)%nat -> kernel_wf k -> (size (k_socks k) + n <= k_limit k)%nat ->
  ip_wf a -> in_u 16 port -> chosen_port port k = Some p ->
  (forall fd t addr len, k_socks k !! fd = Some t -> sk_local t = Some (addr, len) -> overlap addr (fst (to_sockaddr ep)) = false) ->
  exists loops k', listener_listen AF_INET6 overlap ephemeral n (mk_ep a port) k = (true, Some ep, loops, k') /\
    bd_worker <$> loops = seq 0 m /\ NoDup (bd_fd <$> loops) /\
    Forall (listens k' ep (negb supports_reuse_port)) loops /\
    (forall fd, is_Some (k_socks k !! fd) -> k_socks k' !! fd = k_socks k !! fd) /\
    (size (k_socks k') = size (k_socks k) + m)%nat.
Proof.
  cbn zeta. intros Hn Hk Hs Ha Hp Hch Hfree. set (k0 := mk_kernel (k_socks k) (k_next k + 1) (k_limit k)).
  assert (kernel_wf k0) as Hk0 by (intros fd Hfd; cbn; specialize (Hk fd Hfd); lia).
  assert (forall r, clear_for r (mk_ep a p) k0) as Hc0.
  { intros r fd t Ht. unfold blocks. destruct (sk_local t) as [[x l]|] eqn:Hl; [|done]. by rewrite (Hfree fd t x l). }
  destruct (chosen_port_wf port k p Hp Hch) as [Hfp Hf0]. change (chosen_port port k0 = Some p) in Hch.
  unfold listener_listen. destruct (probe_closed k Hk) as (k1 & -> & Hpr); [lia|].
  destruct (set_reuse_port true _ k1) as [have k2]. destruct Hpr as [-> ->]. fold k0.
  destruct supports_reuse_port eqn:Hsup.
  - destruct n as [|n]; [lia|]. cbn [open_workers].
    rewrite (open_listening_ok true a port p k0) by (done || (cbn; lia) || apply Hc0). cbn [Nat.eqb].
    set (k3 := opened _ _ _ _). unfold learn_port.
    rewrite (local_listening true a p) by (try apply lookup_insert_eq; done). cbn [ep_address ep_port].
    destruct (open_workers_ok n 1 a p k3) as (loops & k' & E & Hall); try done.
    + by apply opened_wf.
    + subst k3. cbn. rewrite map_size_insert_None by (by apply kernel_fresh in Hk0). lia.
    + apply opened_clear, Hc0.
    + rewrite E. apply opened_all_cons in Hall; [|done]. destruct (opened_all_listens _ _ _ _ _ _ Ha Hfp Hall) as (H1 & H2 & H3).
      eexists _, k'. split; [done|]. split_and!; [done..| |].
      * intros fd Hfd. apply (oa_old _ _ _ _ _ _ Hall). cbn. specialize (Hk fd Hfd). lia.
      * apply (oa_size _ _ _ _ _ _ Hall).
  - rewrite (open_listening_ok false a port p k0) by (done || (cbn; lia) || apply Hc0). set (k3 := opened _ _ _ _).
    assert (k_socks k3 !! k_next k0 = Some (listening false (mk_ep a p))) as Hk3 by apply lookup_insert_eq.
    eexists _, k3. split; [unfold learn_port; by rewrite (local_listening false a p _ _ Ha Hfp Hk3)|].
    split_and!; [done|apply NoDup_singleton| | |].
    + apply Forall_singleton. by eapply (listening_listens false _ _ _ (mk_bound 0 _ true)).
    + intros fd Hfd. cbn. apply lookup_insert_ne. specialize (Hk fd Hfd). lia.
    + subst k3. cbn. rewrite map_size_insert_None by (by apply kernel_fresh in Hk0). lia.
Qed.
End ListenFacts.

(** ** A run *)

(** Port 8080 of the loopback address is in use. *)
Definition demo_kernel : kernel :=
  mk_kernel {[ 5 := mk_sock 0 1 0 0 0 (0, 0) (Some (posix_endpoint_to_sockaddr (mk_ep loopback_v4 8080))) (Some 128) ]} 6 64.

Definition same_address (x y : bytes) : bool := bool_decide (x = y).

(** The lowest port from 40000 on that is not in use. *)
Definition lowest_free (used : gset Z) : option Z :=
  head (filter (fun p => p ∉ used) ((fun i => 40000 + Z.of_nat i) <$> seq 0 100)).

Lemma lowest_free_ok used p : lowest_free used = Some p -> in_u 16 p /\ p <> 0 /\ p ∉ used.
Proof.
  unfold lowest_free. intros Hh%head_Some_elem_of. apply list_elem_of_filter in Hh as [Hn Hh].
  apply list_elem_of_fmap in Hh as (i & -> & Hi%elem_of_seq). unfold in_u. split_and!; [lia..|done].
Qed.

Lemma listen_binds_one_port_witness :
  exists loops k', @listener_listen posix_Platform 10 same_address lowest_free 3 (mk_ep loopback_v4 0) demo_kernel =
    (true, Some (mk_ep loopback_v4 40000), loops, k') /\ bd_worker <$> loops = [0; 1; 2]%nat.
Proof.
  destruct (@listen_binds_one_port posix_Platform 10 same_address lowest_free ltac:(done) ltac:(done) lowest_free_ok
    3 loopback_v4 0 40000 demo_kernel) as (loops & k' & E & Hw & _).
  - lia.
  - intros fd [s Hs]. unfold demo_kernel in Hs. cbn [k_socks] in Hs. apply lookup_singleton_Some in Hs as [<- _]. cbn. lia.
  - cbn. rewrite map_size_singleton. lia.
  - done.
  - done.
  - vm_compute. reflexivity.
  - intros fd t addr len Ht Hl. unfold demo_kernel in Ht. cbn [k_socks] in Ht. apply lookup_singleton_Some in Ht as [_ <-]. by injection Hl as <- <-.
  - exists loops, k'. split; [exact E|exact Hw].
Defined.

(** Two sockets bound to port 0 get two ports. *)
Example two_ports :
  let bind0 k := @open_listening posix_Platform 10 same_address lowest_free true (mk_ep loopback_v4 0) k in
  let k := (bind0 (bind0 demo_kernel).2).2 in
  local_endpoint 10 6 k = Some (mk_ep loopback_v4 40000) /\ local_endpoint 10 7 k = Some (mk_ep loopback_v4 40001).
Proof. by vm_compute. Qed.

(** Binding to the port in use fails, and closes what was opened for it. *)
Example listen_on_busy_port :
  let '(ok, ep, loops, k) := @listener_listen posix_Platform 10 same_address lowest_free 3 (mk_ep loopback_v4 8080) demo_kernel in
  ok = false /\ ep = None /\ loops = [] /\ k_socks k = k_socks demo_kernel.
Proof. by vm_compute. Qed.
