(* ===== verification/Win32Socket.v ===== *)
(** * Win32Socket: src/platform/win32/socket.cpp and wsa_init.hpp

    The Winsock implementation of platform/socket.hpp, with the operations of
    src/platform/posix/socket.cpp that [Socket] and [SocketOps] leave out.

    A [SOCKET] is an unsigned 64-bit number whose invalid value is the greatest
    one, where a descriptor is an [int] whose invalid value is -1.  [posix_of]
    relates the two; [win32_handles_refine_posix] runs the same sequence of
    operations on both and compares the states they end in. *)

From S2P Require Import Prelude Bytes Address Coroutine Socket SocketFacts SocketOps.

#[local] Open Scope Z_scope.

(** [static_cast<std::uintptr_t>(-1)], and Winsock's [INVALID_SOCKET]. *)
Definition win32_invalid_native_socket : Z := uwrap 64 (-1).
Definition INVALID_SOCKET : Z := 18446744073709551615.

(** ** Starting Winsock *)

(** The function-local static of [ensure_wsa_started] and the number of calls
    of [WSAStartup] so far. *)
Record wsa := mk_wsa { wsa_result : option Z; wsa_startups : nat }.

Definition wsa_new : wsa := mk_wsa None 0.

Definition ensure_wsa_started (startup : Z) (s : wsa) : wsa :=
  match wsa_result s with Some _ => s | None => mk_wsa (Some startup) (S (wsa_startups s)) end.

(** ** The handle *)

(** [socket_handle::create]. *)
Definition win32_create (o : nat) (socket : Z) (s : handles) : handles :=
  if socket =? INVALID_SOCKET then set_obj o win32_invalid_native_socket s
  else set_obj o socket (sys_open socket s).

Definition win32_valid (o : nat) (s : handles) : bool :=
  match hd_objs s !! o with Some fd => negb (fd =? win32_invalid_native_socket) | None => false end.

Definition win32_release {A} (o : nat) (s : handles) (k : Z -> handles -> option A) : option A :=
  fd ← hd_objs s !! o; k fd (set_obj o win32_invalid_native_socket s).

Definition win32_release_raw (o : nat) (s : handles) : option handles :=
  win32_release o s (fun fd s =>
    Some (if fd =? win32_invalid_native_socket then s
          else mk_handles (hd_objs s) (hd_open s) (hd_raw s ∪ {[fd]}) (hd_misclosed s))).

(** [::closesocket] is the close of a SOCKET. *)
Definition win32_close (o : nat) (s : handles) : option handles :=
  fd ← hd_objs s !! o;
  Some (if fd =? win32_invalid_native_socket then s
        else set_obj o win32_invalid_native_socket (sys_close fd s)).

Definition win32_move (o other : nat) (s : handles) : option handles :=
  win32_release other s (fun fd s => Some (set_obj o fd s)).

Definition win32_assign (o other : nat) (s : handles) : option handles :=
  if (o =? other)%nat then Some s
  else s1 ← win32_close o s; win32_release other s1 (fun fd s => Some (set_obj o fd s)).

Definition win32_destroy (o : nat) (s : handles) : option handles :=
  s1 ← win32_close o s; Some (mk_handles (delete o (hd_objs s1)) (hd_open s1) (hd_raw s1) (hd_misclosed s1)).

(** [accept]: what [::accept] returned, with the peer's address. *)
Definition win32_accept (o : nat) (accepted : Z) (ep : option endpoint) (s : handles) : option endpoint * handles :=
  if accepted =? INVALID_SOCKET then (None, s)
  else
    match ep with
    | None => (None, sys_close accepted (sys_open accepted s))
    | Some ep => (Some ep, set_obj o accepted (sys_open accepted s))
    end.

(** ** Programs over handles *)

(** One operation of a program, with what the system answers: a socket that was
    opened, or the peer's address with it. *)
Inductive handle_op :=
| op_default (o : nat)
| op_create (o : nat) (socket : option Z)
| op_accept (o : nat) (accepted : option (Z * option endpoint))
| op_release (o : nat)
| op_adopt (o : nat) (fd : Z)
| op_close (o : nat)
| op_move (o other : nat)
| op_assign (o other : nat)
| op_destroy (o : nat).

Definition new_object (o : nat) (s : handles) : bool := bool_decide (hd_objs s !! o = None).

(** The system gives out a number that is not in use (and not Winsock's
    [INVALID_SOCKET]). *)
Definition new_socket (fd : Z) (s : handles) : bool :=
  (0 <=? fd) && (fd <? INVALID_SOCKET) && bool_decide (fd ∉ hd_open s).

(** What a program may do: a new object has a new name, and only a descriptor
    that was released is adopted. *)
Definition op_allowed (op : handle_op) (s : handles) : bool :=
  match op with
  | op_default o => new_object o s
  | op_create o r => new_object o s && match r with Some fd => new_socket fd s | None => true end
  | op_accept o r => new_object o s && match r with Some (fd, _) => new_socket fd s | None => true end
  | op_adopt o fd => new_object o s && bool_decide (fd ∈ hd_raw s)
  | op_move o other => new_object o s && negb (o =? other)%nat
  | op_release _ | op_close _ | op_assign _ _ | op_destroy _ => true
  end.

Definition posix_op (op : handle_op) (s : handles) : option handles :=
  if op_allowed op s then
    match op with
    | op_default o => Some (set_obj o invalid_native_socket s)
    | op_create o r => Some (handle_create o r s)
    | op_accept o r => Some (snd (handle_accept o r s))
    | op_release o => handle_release_raw o s
    | op_adopt o fd => Some (handle_adopt o fd s)
    | op_close o => handle_close o s
    | op_move o other => handle_move o other s
    | op_assign o other => handle_assign o other s
    | op_destroy o => handle_destroy o s
    end
  else None.

Definition win32_op (op : handle_op) (s : handles) : option handles :=
  if op_allowed op s then
    match op with
    | op_default o => Some (set_obj o win32_invalid_native_socket s)
    | op_create o r => Some (win32_create o (default INVALID_SOCKET r) s)
    | op_accept o r => Some (snd (win32_accept o (default INVALID_SOCKET (fst <$> r)) (r ≫= snd) s))
    | op_release o => win32_release_raw o s
    | op_adopt o fd => Some (handle_adopt o fd s)
    | op_close o => win32_close o s
    | op_move o other => win32_move o other s
    | op_assign o other => win32_assign o other s
    | op_destroy o => win32_destroy o s
    end
  else None.

(** The operations one after the other; [None] when one of them is not one the
    program may do, or names an object that does not exist. *)
Fixpoint run_ops (step : handle_op -> handles -> option handles) (ops : list handle_op) (s : handles) : option handles :=
  match ops with [] => Some s | op :: ops => s ← step op s; run_ops step ops s end.

(** ** Options and errors *)

(** [FormatMessageA]'s text, empty when it has none. *)
Definition win32_describe_error (format_message : Z -> bytes) (code : Z) : bytes :=
  match format_message code with [] => str "winsock error " ++ to_string code | t => t end.

(** [ioctlsocket(FIONBIO)]: a socket has one mode, in the place of the flags of
    a descriptor. *)
Definition win32_set_nonblocking (enabled : bool) : Z -> kernel -> bool * kernel :=
  on_sock (fun s =>
    mk_sock (if enabled then O_NONBLOCK else 0) (sk_reuse_address s) (sk_reuse_port s) (sk_nodelay s) (sk_keepalive s)
      (sk_linger s) (sk_local s) (sk_backlog s)).

Definition nonblocking (s : sock) : bool := Z.testbit (sk_flags s) 11.

(** ** Names *)

Definition win32_bind (overlap : bytes -> bytes -> bool) (ephemeral : gset Z -> option Z) (ep : endpoint) (fd : Z) (k : kernel) : bool * kernel :=
  let '(storage, len) := win32_endpoint_to_sockaddr ep in sys_bind overlap ephemeral fd storage len k.

Definition win32_local_endpoint : Z -> kernel -> option endpoint := local_endpoint 23.

(** [getpeername]'s answer, read back. *)
Definition posix_remote_endpoint (peer : option (bytes * nat)) : option endpoint :=
  '(storage, len) ← peer; posix_endpoint_from_sockaddr storage len.
Definition win32_remote_endpoint (peer : option (bytes * nat)) : option endpoint :=
  '(storage, len) ← peer; win32_endpoint_from_sockaddr storage len.

(** ** Data *)

(** The result of a call as [std::int64_t]. *)
Definition as_int64 (r : sys_result nat) : Z := match r with SysOk n => Z.of_nat n | SysErr _ => -1 end.

(** One [recv] or [send]: the system is asked for at most [io_cap n] bytes. *)
Definition handle_transfer `{Platform} (call : nat -> sys_result nat) (n : nat) : Z := as_int64 (call (io_cap n)).

Definition posix_read := @handle_transfer posix_Platform.
Definition posix_write := @handle_transfer posix_Platform.
Definition win32_read := @handle_transfer win32_Platform.
Definition win32_write := @handle_transfer win32_Platform.

Definition win32_connect (r : sys_result unit) : connect_result :=
  match r with
  | SysOk _ => connected
  | SysErr e => if e =? WSAEWOULDBLOCK then in_progress else failed
  end.

(** [SO_ERROR], or why it cannot be read. *)
Definition socket_error (getsockopt : sys_result Z) : Z :=
  match getsockopt with SysOk value => value | SysErr e => e end.

Definition shutdown_both (r : sys_result unit) : bool := match r with SysOk _ => true | SysErr _ => false end.

Definition WSAEOPNOTSUPP : Z := 10045.

(** [send_file]: the bytes sent, the new offset, the error set. *)
Definition posix_send_file (sendfile : Z -> nat -> sys_result nat * Z) (offset : Z) (count : nat) : Z * Z :=
  let '(r, off) := sendfile offset count in (as_int64 r, off).
Definition win32_send_file (offset : Z) (count : nat) : Z * Z * Z := (-1, offset, WSAEOPNOTSUPP).
Definition supports_send_file : bool := true.

(** ** The refinement *)

Definition posix_of (fd : Z) : Z := if fd =? INVALID_SOCKET then invalid_native_socket else fd.

Definition posix_view (s : handles) : handles :=
  mk_handles (posix_of <$> hd_objs s) (hd_open s) (hd_raw s) (hd_misclosed s).

Lemma win32_invalid : win32_invalid_native_socket = INVALID_SOCKET.
Proof. reflexivity. Qed.

Lemma posix_of_invalid fd : 0 <= fd <= INVALID_SOCKET ->
  (posix_of fd =? invalid_native_socket) = (fd =? win32_invalid_native_socket).
Proof.
  intros Hr. rewrite win32_invalid. unfold posix_of, invalid_native_socket.
  destruct (Z.eqb_spec fd INVALID_SOCKET); [done|]. apply Z.eqb_neq. lia.
Qed.

(** Every number in the program is a SOCKET; the open ones are valid. *)
Record sockets_ok (s : handles) : Prop := mk_sockets_ok {
  so_objs o fd : hd_objs s !! o = Some fd -> 0 <= fd <= INVALID_SOCKET;
  so_open fd : fd ∈ hd_open s -> 0 <= fd < INVALID_SOCKET;
}.

Lemma sockets_ok_set o fd s : 0 <= fd <= INVALID_SOCKET -> sockets_ok s -> sockets_ok (set_obj o fd s).
Proof.
  intros Hf [Ho Hop]. split; [|done]. intros o' fd' Hl. cbn in Hl. destruct (decide (o = o')) as [->|Hn].
  - rewrite lookup_insert_eq in Hl. by injection Hl as <-.
  - rewrite lookup_insert_ne in Hl by done. by eapply Ho.
Qed.

Lemma sockets_ok_same s s' : hd_objs s' = hd_objs s -> hd_open s' ⊆ hd_open s -> sockets_ok s -> sockets_ok s'.
Proof. intros E Hs [Ho Hop]. split; [by rewrite E|]. intros fd Hf. by apply Hop, Hs. Qed.

Lemma sockets_ok_open fd s : 0 <= fd < INVALID_SOCKET -> sockets_ok s -> sockets_ok (sys_open fd s).
Proof. intros Hf [Ho Hop]. split; [done|]. cbn. intros x. rewrite elem_of_union, elem_of_singleton. naive_solver. Qed.

(** What each operation is in the POSIX view. *)
Lemma view_set o fd s : posix_view (set_obj o fd s) = set_obj o (posix_of fd) (posix_view s).
Proof. unfold posix_view, set_obj. cbn. by rewrite fmap_insert. Qed.

Lemma view_lookup o s : hd_objs (posix_view s) !! o = posix_of <$> hd_objs s !! o.
Proof. apply lookup_fmap. Qed.

Lemma posix_of_valid fd : fd < INVALID_SOCKET -> posix_of fd = fd.
Proof. intros. unfold posix_of. by rewrite (proj2 (Z.eqb_neq _ _)) by lia. Qed.

(** An operation and its view agree, and numbers stay SOCKETs. *)
Definition refines (win posix : option handles) : Prop :=
  posix = posix_view <$> win /\ forall s, win = Some s -> sockets_ok s.

Lemma refines_Some win posix : sockets_ok win -> posix = posix_view win -> refines (Some win) (Some posix).
Proof. intros Hs ->. split; [done|]. by intros ? [= <-]. Qed.

Lemma view_bind win posix (f g : handles -> option handles) :
  refines win posix -> (forall s, sockets_ok s -> refines (f s) (g (posix_view s))) -> refines (win ≫= f) (posix ≫= g).
Proof. intros [-> Hs] Hf. destruct win as [s|]; [by apply Hf, Hs|by split]. Qed.

Lemma invalid_is_socket : 0 <= win32_invalid_native_socket <= INVALID_SOCKET.
Proof. by rewrite win32_invalid. Qed.

Lemma close_refines o s : sockets_ok s -> refines (win32_close o s) (handle_close o (posix_view s)).
Proof.
  intros Hs. unfold win32_close, handle_close. rewrite view_lookup.
  destruct (hd_objs s !! o) as [fd|] eqn:E; [cbn|by split].
  pose proof (so_objs s Hs o fd E) as Hr. rewrite posix_of_invalid by done.
  destruct (Z.eqb_spec fd win32_invalid_native_socket) as [->|Hn]; [by apply refines_Some|]. rewrite win32_invalid in Hn.
  apply refines_Some; [|by rewrite view_set, posix_of_valid by lia].
  apply sockets_ok_set, (sockets_ok_same s); [apply invalid_is_socket|done|cbn; set_solver|done].
Qed.

Lemma release_refines o other s : sockets_ok s ->
  refines (win32_release other s (fun fd s => Some (set_obj o fd s)))
    (handle_release other (posix_view s) (fun fd s => Some (set_obj o fd s))).
Proof.
  intros Hs. unfold win32_release, handle_release. rewrite view_lookup.
  destruct (hd_objs s !! other) as [fd|] eqn:E; [cbn|by split]. apply refines_Some; [|by rewrite !view_set].
  apply sockets_ok_set; [by apply (so_objs s Hs other)|]. by apply sockets_ok_set; [apply invalid_is_socket|].
Qed.

Lemma release_raw_refines o s : sockets_ok s -> refines (win32_release_raw o s) (handle_release_raw o (posix_view s)).
Proof.
  intros Hs. unfold win32_release_raw, handle_release_raw, win32_release, handle_release. rewrite view_lookup.
  destruct (hd_objs s !! o) as [fd|] eqn:El; [cbn|by split]. pose proof (so_objs s Hs o fd El) as Hr.
  assert (sockets_ok (set_obj o win32_invalid_native_socket s)) as Hso by by apply sockets_ok_set; [apply invalid_is_socket|].
  rewrite posix_of_invalid by done. destruct (Z.eqb_spec fd win32_invalid_native_socket) as [->|Hn].
  - apply refines_Some; [done|]. by rewrite view_set.
  - rewrite win32_invalid in Hn. rewrite (posix_of_valid fd) by lia.
    apply refines_Some; [by apply (sockets_ok_same (set_obj o win32_invalid_native_socket s))|].
    unfold posix_view. cbn. by rewrite fmap_insert.
Qed.

Lemma new_socket_range fd s : new_socket fd s = true -> 0 <= fd < INVALID_SOCKET.
Proof. unfold new_socket. rewrite !andb_true_iff, Z.leb_le, Z.ltb_lt. tauto. Qed.

Lemma create_refines o r s : sockets_ok s -> op_allowed (op_create o r) s = true ->
  refines (Some (win32_create o (default INVALID_SOCKET r) s)) (Some (handle_create o r (posix_view s))).
Proof.
  intros Hs Ha. unfold win32_create. destruct r as [fd|]; cbn [from_option id handle_create] in *.
  - cbn in Ha. apply andb_true_iff in Ha as [_ Ha%new_socket_range]. rewrite (proj2 (Z.eqb_neq _ _)) by lia.
    apply refines_Some; [by apply sockets_ok_set, sockets_ok_open; [lia|..]|by rewrite view_set, posix_of_valid by lia].
  - rewrite Z.eqb_refl. apply refines_Some; [apply sockets_ok_set; [apply invalid_is_socket|done]|by rewrite view_set].
Qed.

Lemma accept_refines o r s : sockets_ok s -> op_allowed (op_accept o r) s = true ->
  refines (Some (snd (win32_accept o (default INVALID_SOCKET (fst <$> r)) (r ≫= snd) s)))
    (Some (snd (handle_accept o r (posix_view s)))).
Proof.
  intros Hs Ha. unfold win32_accept. destruct r as [[fd ep]|]; cbn [fmap option_fmap option_map from_option id mbind option_bind fst snd].
  - cbn in Ha. apply andb_true_iff in Ha as [_ Ha%new_socket_range]. rewrite (proj2 (Z.eqb_neq _ _)) by lia.
    destruct ep as [ep|]; apply refines_Some; cbn [snd handle_accept].
    + by apply sockets_ok_set, sockets_ok_open; [lia|..].
    + by rewrite view_set, posix_of_valid by lia.
    + by apply (sockets_ok_same s); [|cbn; set_solver|].
    + done.
  - by apply refines_Some.
Qed.

Lemma op_allowed_view op s : op_allowed op (posix_view s) = op_allowed op s.
Proof.
  assert (forall o, new_object o (posix_view s) = new_object o s) as Hn.
  { intros o. apply bool_decide_ext. rewrite view_lookup. by destruct (hd_objs s !! o). }
  destruct op; cbn; by rewrite ?Hn.
Qed.

(** Each operation over Winsock is the same operation over POSIX. *)
Lemma op_refines op s : sockets_ok s -> owned (posix_view s) -> refines (win32_op op s) (posix_op op (posix_view s)).
Proof.
  intros Hs Hw. unfold win32_op, posix_op. rewrite op_allowed_view. destruct (op_allowed op s) eqn:Ha; [|by split].
  destruct op as [o|o r|o r|o|o fd|o|o other|o other|o].
  - apply refines_Some; [|by rewrite view_set]. by apply sockets_ok_set; [apply invalid_is_socket|].
  - by apply create_refines.
  - by apply accept_refines.
  - by apply release_raw_refines.
  - cbn in Ha. apply andb_true_iff in Ha as [_ Hr%bool_decide_eq_true].
    assert (0 <= fd < INVALID_SOCKET) as Hfd by by apply (so_open s Hs), (ow_raw _ Hw).
    unfold handle_adopt. apply refines_Some; [|by rewrite view_set, posix_of_valid by lia].
    by apply sockets_ok_set, (sockets_ok_same s); [lia|..].
  - by apply close_refines.
  - by apply release_refines.
  - unfold win32_assign, handle_assign. destruct (Nat.eqb_spec o other); [by apply refines_Some|].
    apply view_bind; [by apply close_refines|]. intros s1 Hs1. by apply release_refines.
  - apply view_bind; [by apply close_refines|]. intros s1 [Ho1 Hop1].
    apply refines_Some; [|unfold posix_view; cbn; by rewrite fmap_delete].
    split; [|done]. cbn. intros o' fd [_ Hl]%lookup_delete_Some. by eapply Ho1.
Qed.

(** The POSIX operations are the steps whose ownership [SocketFacts] proves. *)
Lemma posix_op_step op s s' : posix_op op s = Some s' -> handle_step s s'.
Proof.
  unfold posix_op. destruct (op_allowed op s) eqn:Ha; [|done].
  assert (forall fd, new_socket fd s = true -> 0 <= fd /\ fd ∉ hd_open s) as Hfd.
  { unfold new_socket. intros fd. rewrite !andb_true_iff, Z.leb_le, bool_decide_eq_true. tauto. }
  destruct op as [o|o r|o r|o|o fd|o|o other|o other|o]; cbn in Ha; repeat (apply andb_true_iff in Ha as [Ha ?]);
    unfold new_object in *; try apply bool_decide_eq_true in Ha; intros E;
    first [by apply (hs_release o)|by apply (hs_close o)|by apply (hs_assign o other)|by apply (hs_destroy o)|idtac].
  - injection E as <-. by apply hs_default.
  - injection E as <-. apply hs_create; [done|]. intros fd ->. by apply Hfd.
  - injection E as <-. apply hs_accept; [done|]. intros fd ep ->. by apply Hfd.
  - injection E as <-. apply hs_adopt; [done|]. by apply bool_decide_eq_true in H.
  - apply (hs_move o other); [done| |done]. by apply Nat.eqb_neq, negb_true_iff.
Qed.

Lemma run_refines ops s : sockets_ok s -> owned (posix_view s) ->
  refines (run_ops win32_op ops s) (run_ops posix_op ops (posix_view s)) /\
  forall s', run_ops win32_op ops s = Some s' -> owned (posix_view s').
Proof.
  revert s. induction ops as [|op ops IH]; intros s Hs Hw; cbn [run_ops].
  { split; [by apply refines_Some|]. by intros s' [= <-]. }
  destruct (op_refines op s Hs Hw) as [E Hok]. rewrite E. destruct (win32_op op s) as [s1|] eqn:E1; [|by split; [split|]].
  apply IH; [by apply Hok|]. eapply owned_step; [exact Hw|]. by apply (posix_op_step op).
Qed.

Lemma view_new : posix_view handles_new = handles_new.
Proof. unfold posix_view. cbn. by rewrite fmap_empty. Qed.

Lemma valid_view o s : sockets_ok s -> win32_valid o s = handle_valid o (posix_view s).
Proof.
  intros Hs. unfold win32_valid, handle_valid. rewrite view_lookup. destruct (hd_objs s !! o) as [fd|] eqn:E; [cbn|done].
  by rewrite posix_of_invalid by by apply (so_objs s Hs o).
Qed.

(** An open SOCKET belongs to one object, or was released. *)
Lemma win32_owned s fd : sockets_ok s -> owned (posix_view s) -> fd ∈ hd_open s ->
  fd ∈ hd_raw s \/ exists o, hd_objs s !! o = Some fd /\ forall o', hd_objs s !! o' = Some fd -> o' = o.
Proof.
  intros Hs Hw Hf.
  assert (forall o, hd_objs s !! o = Some fd -> holds (posix_view s) o fd) as Hh.
  { intros o Ho. unfold holds. rewrite view_lookup, Ho. cbn. destruct (so_open s Hs fd Hf).
    rewrite posix_of_valid by lia. split; [done|]. unfold invalid_native_socket. lia. }
  destruct (ow_open _ Hw fd Hf) as [?|[o [Ho Hn]]]; [by left|right]. exists o.
  rewrite view_lookup in Ho. destruct (hd_objs s !! o) as [x|] eqn:Ex; [|done]. cbn in Ho. injection Ho as Hx.
  assert (x = fd) as ->.
  { revert Hx. unfold posix_of. destruct (Z.eqb_spec x INVALID_SOCKET); [|done]. intros <-. done. }
  split; [done|]. intros o' Ho'. by apply (ow_unique _ Hw o' o fd); apply Hh.
Qed.

(** C30: The Winsock socket_handle refines the POSIX one: any sequence of operations on handles
    (creating, accepting, releasing, adopting, moving, assigning, closing, destroying), with
    the same answers of the system, is possible on Winsock exactly when it is on POSIX and
    leaves the handles in the same state, the invalid SOCKET read as -1; valid() answers the
    same on both; so no SOCKET is closed twice or after it was given away, and every open one
    belongs to exactly one handle or was released. *)
Theorem win32_handles_refine_posix (ops : list handle_op) :
  run_ops posix_op ops handles_new = posix_view <$> run_ops win32_op ops handles_new /\
  forall s, run_ops win32_op ops handles_new = Some s ->
    (forall o, win32_valid o s = handle_valid o (posix_view s)) /\
    hd_misclosed s = false /\
    forall fd, fd ∈ hd_open s -> fd ∈ hd_raw s \/
      exists o, hd_objs s !! o = Some fd /\ forall o', hd_objs s !! o' = Some fd -> o' = o.
Proof.
  destruct (run_refines ops handles_new) as [[E Hok] Hown].
  - split; cbn; set_solver.
  - rewrite view_new. apply owned_new.
  - rewrite view_new in E. split; [done|]. intros s Hs. specialize (Hok s Hs). specialize (Hown s Hs).
    split_and!; [by intros o; apply valid_view|apply (ow_closed _ Hown)|]. intros fd Hf. by apply win32_owned.
Qed.

(** ** The other operations *)

(** Only the first call starts Winsock. *)
Lemma wsa_started_once startups s : startups <> [] -> wsa_startups s = 0%nat -> wsa_result s = None ->
  wsa_startups (fold_left (fun s r => ensure_wsa_started r s) startups s) = 1%nat.
Proof.
  intros Hn H0 Hr. destruct startups as [|r rs]; [done|]. cbn. unfold ensure_wsa_started at 2. rewrite Hr, H0.
  clear. set (s1 := mk_wsa (Some r) 1).
  assert (wsa_result s1 = Some r /\ wsa_startups s1 = 1%nat) as [E1 E2] by done. revert E1 E2. generalize s1.
  induction rs as [|x rs IH]; intros s E1 E2; [done|]. cbn. apply IH; unfold ensure_wsa_started; by rewrite E1.
Qed.

(** The non-blocking mode is what was asked for, on both platforms. *)
Lemma set_nonblocking_agree enabled fd k s : k_socks k !! fd = Some s ->
  exists s1 s2, posix_set_nonblocking enabled fd k = (true, with_sock fd s1 k) /\
    win32_set_nonblocking enabled fd k = (true, with_sock fd s2 k) /\
    nonblocking s1 = enabled /\ nonblocking s2 = enabled.
Proof.
  intros Hs. destruct (set_nonblocking_exact enabled fd k s Hs) as (s1 & E & Hb & _). eexists s1, _. split; [done|].
  unfold win32_set_nonblocking, on_sock. rewrite Hs. split; [done|]. unfold nonblocking.
  split; [by rewrite Hb|]. by destruct enabled.
Qed.

(** Up to 2^31 - 1 bytes a transfer is the same call on both. *)
Lemma transfers_agree call n : Z.of_nat n <= 2147483647 -> win32_read call n = posix_read call n.
Proof.
  intros Hn. unfold win32_read, posix_read, handle_transfer. cbn. unfold win32_io_cap.
  by rewrite (proj2 (Z.ltb_ge _ _) Hn).
Qed.

(** ** A run *)

(** A socket is made, another accepted, moved and assigned over the first; one
    [accept] fails. *)
Definition demo_win32 : list handle_op :=
  [op_create 0 (Some 7); op_accept 1 (Some (9, Some (mk_ep loopback_v4 80))); op_move 2 1; op_assign 0 2;
   op_accept 3 None; op_default 4].

Lemma win32_handles_refine_posix_witness :
  run_ops posix_op demo_win32 handles_new = posix_view <$> run_ops win32_op demo_win32 handles_new /\
  exists s, run_ops win32_op demo_win32 handles_new = Some s /\ hd_open s = {[9]} /\ hd_misclosed s = false /\
    hd_objs s !! 0%nat = Some 9 /\ hd_objs s !! 2%nat = Some INVALID_SOCKET.
Proof.
  destruct (win32_handles_refine_posix demo_win32) as [E H]. split; [exact E|].
  destruct (run_ops win32_op demo_win32 handles_new) as [s|] eqn:Er; [|vm_compute in Er; discriminate Er].
  destruct (H s eq_refl) as (_ & Hm & _). exists s. split; [reflexivity|].
  assert (bool_decide ((hd_open <$> run_ops win32_op demo_win32 handles_new) = Some {[9]}) = true) as Ho by (vm_compute; reflexivity).
  apply bool_decide_eq_true in Ho. rewrite Er in Ho. injection Ho as Ho.
  split; [exact Ho|]. split; [exact Hm|].
  assert ((run_ops win32_op demo_win32 handles_new ≫= fun s => Some (hd_objs s !! 0%nat, hd_objs s !! 2%nat)) =
    Some (Some 9, Some INVALID_SOCKET)) as Hl by (vm_compute; reflexivity).
  rewrite Er in Hl. cbn in Hl. injection Hl as -> ->. by split.
Defined.
