(* ===== verification/TransmitFile.v ===== *)
(** * TransmitFile: the Windows branch of [async_socket::send_file]

    src/async/socket.cpp, [send_file_awaiter], with the completion that
    src/platform/win32/reactor.cpp delivers to it (overlapped_op.hpp), and
    [write_message_body_sendfile] (src/server/http1_io.cpp) over it.

    The kernel's part is an argument: whether the extension function and the
    file's handle can be had, what the call returns, and, when it is started, how
    much of the requested range goes out and with what error it completes.  A
    request for no bytes is one for the rest of the file, as TransmitFile has it. *)

From S2P Require Import Prelude Bytes Coroutine IocpReactor.

#[local] Open Scope Z_scope.

Definition WSAEOPNOTSUPP : Z := 10045.
Definition WSA_IO_PENDING : Z := 997.

Record overlapped_op := mk_op {
  op_Offset : Z;                (** DWORDs *)
  op_OffsetHigh : Z;
  op_bytes_transferred : Z;
  op_error : Z;
}.

(** [await_suspend]'s first lines: the offset in two halves. *)
Definition op_for (offset : Z) : overlapped_op :=
  mk_op (Z.land (uwrap 64 offset) 4294967295) (Z.shiftr (uwrap 64 offset) 32) 0 0.

Definition to_write (count : Z) : Z := Z.min count 2147483646.

Record answer := mk_answer {
  an_function : bool;           (** [get_transmitfile_fn] *)
  an_handle : bool;             (** [_get_osfhandle] *)
  an_refused : option Z;        (** the call returned FALSE, with this error *)
  an_sent : nat;
  an_error : Z;
}.

(** [await_suspend]: whether the coroutine stays suspended. *)
Definition file_await_suspend (a : answer) (offset : Z) : bool * overlapped_op :=
  let op := op_for offset in
  if negb (an_function a) || negb (an_handle a)
  then (false, mk_op (op_Offset op) (op_OffsetHigh op) 0 WSAEOPNOTSUPP)
  else
    match an_refused a with
    | Some err =>
        if err =? WSA_IO_PENDING then (true, op) else (false, mk_op (op_Offset op) (op_OffsetHigh op) 0 err)
    | None => (true, op)
    end.

(** What [iocp_reactor::wait] writes into the operation before it resumes. *)
Definition deliver (transferred error : Z) (op : overlapped_op) : overlapped_op :=
  mk_op (op_Offset op) (op_OffsetHigh op) transferred error.

(** [await_resume]: the result, and the caller's [offset]. *)
Definition file_await_resume (op : overlapped_op) (offset : Z) : result Z Z * Z :=
  if negb (op_error op =? 0) then (Raised (op_error op), offset)
  else (Value (op_bytes_transferred op), offset + op_bytes_transferred op).

(** The bytes the kernel reads for the operation. *)
Definition requested (content : bytes) (op : overlapped_op) (count : Z) : bytes :=
  let rest := drop (Z.to_nat (op_OffsetHigh op * 2 ^ 32 + op_Offset op)) content in
  if to_write count =? 0 then rest else take (Z.to_nat (to_write count)) rest.

(** [send_file]: the result, [offset] and what is on the wire afterwards. *)
Definition win32_send_file (content : bytes) (a : answer) (offset count : Z) (wire : bytes)
  : result Z Z * Z * bytes :=
  let '(suspended, op) := file_await_suspend a offset in
  if suspended then
    let sent := take (an_sent a) (requested content op count) in
    (file_await_resume (deliver (Z.of_nat (length sent)) (an_error a) op) offset, wire ++ sent)
  else (file_await_resume op offset, wire).

(** [write_message_body_sendfile]; [None] when the answers do not suffice. *)
Fixpoint transmit_body (content : bytes) (answers : list answer) (offset remaining : Z) (wire : bytes)
  : option (result unit Z * bytes) :=
  if 0 <? remaining then
    match answers with
    | [] => None
    | a :: more =>
        let '(r, offset', wire') := win32_send_file content a offset remaining wire in
        match r with
        | Raised e => Some (Raised e, wire')
        | Value sent => if sent =? 0 then Some (Value tt, wire') else transmit_body content more offset' (remaining - sent) wire'
        end
    end
  else Some (Value tt, wire).

(** ** Facts *)

(** The two halves are the offset. *)
Lemma offset_halves offset : 0 <= offset < 2 ^ 63 -> op_OffsetHigh (op_for offset) * 2 ^ 32 + op_Offset (op_for offset) = offset.
Proof.
  intros Ho. cbn [op_for op_OffsetHigh op_Offset]. unfold uwrap. rewrite (Z.mod_small offset) by lia.
  change 4294967295 with (Z.ones 32). rewrite Z.land_ones, Z.shiftr_div_pow2 by lia.
  pose proof (Z.div_mod offset (2 ^ 32)). lia.
Qed.

(** The kernel makes progress, and reports a refusal with an error. *)
Definition fair (a : answer) : Prop := (0 < an_sent a)%nat /\ an_refused a <> Some 0.

(** One call sends, from the offset on, at most what was asked for, and says and
    adds how much. *)
Lemma win32_send_file_spec content a offset count wire :
  0 <= offset < 2 ^ 63 -> 0 < count -> fair a ->
  exists k, let sent := take k (drop (Z.to_nat offset) content) in
    Z.of_nat (length sent) <= count /\
    match win32_send_file content a offset count wire with
    | (Value n, offset', wire') => n = Z.of_nat (length sent) /\ offset' = offset + n /\ wire' = wire ++ sent /\
        (n = 0 -> drop (Z.to_nat offset) content = [])
    | (Raised e, offset', wire') => e <> 0 /\ offset' = offset /\ wire' = wire ++ sent
    end.
Proof.
  intros Ho Hc [Hs Hr]. unfold win32_send_file. destruct (file_await_suspend a offset) as [[] op] eqn:E.
  - assert (op = op_for offset) as ->.
    { unfold file_await_suspend in E. destruct (negb _ || negb _); [done|]. destruct (an_refused a) as [e|]; [destruct (e =? _)|];
        by injection E. }
    unfold requested. rewrite offset_halves by done. clear E.
    assert (0 < to_write count <= count) as Hw by (unfold to_write; lia). rewrite (proj2 (Z.eqb_neq _ _)) by lia.
    exists (an_sent a `min` Z.to_nat (to_write count))%nat. cbn zeta. rewrite <-take_take.
    split; [rewrite length_take, length_take; lia|]. unfold file_await_resume, deliver. cbn [op_error op_bytes_transferred].
    destruct (Z.eqb_spec (an_error a) 0); cbn [negb]; split_and!; try done.
    intros Hn. destruct (drop (Z.to_nat offset) content) as [|b rest]; [done|]. rewrite take_take, length_take in Hn. cbn in Hn. lia.
  - exists 0%nat. cbn zeta. rewrite take_0, app_nil_r. split; [cbn; lia|].
    assert (op_error op <> 0) as He.
    { unfold file_await_suspend in E. destruct (negb _ || negb _); [by injection E as <-|].
      destruct (an_refused a) as [e|]; [|done]. destruct (e =? _); [done|]. injection E as <-. cbn. congruence. }
    unfold file_await_resume. by rewrite (proj2 (Z.eqb_neq _ _) He).
Qed.

Lemma take_split_length {A} (k n : nat) (l : list A) :
  (length (take k l) <= n)%nat ->
  take n l = take k l ++ take (n - length (take k l)) (drop (length (take k l)) l).
Proof.
  intros Hk. rewrite <-(take_drop (length (take k l)) l) at 1.
  assert (take (length (take k l)) l = take k l) as ->.
  { rewrite length_take. destruct (Nat.min_spec k (length l)) as [[? ->]|[? ->]]; [done|]. by rewrite !take_ge. }
  by rewrite take_app_ge.
Qed.

Lemma transmit_body_from content answers offset n wire :
  Z.of_nat (length content) < 2 ^ 63 -> 0 <= offset <= Z.of_nat (length content) ->
  Forall fair answers -> (Z.to_nat n <= length answers)%nat ->
  exists r wire', transmit_body content answers offset n wire = Some (r, wire') /\
    match r with
    | Value _ => wire' = wire ++ take (Z.to_nat n) (drop (Z.to_nat offset) content)
    | Raised e => e <> 0 /\ exists k, wire' = wire ++ take k (take (Z.to_nat n) (drop (Z.to_nat offset) content))
    end.
Proof.
  intros Hl. revert offset n wire. induction answers as [|a answers IH]; intros offset n wire Ho Hf Hn; cbn [transmit_body];
    destruct (Z.ltb_spec 0 n) as [Hp|Hp]; try (cbn in Hn; lia).
  1, 3: exists (Value tt), wire; split; [done|]; rewrite (Z2Nat.nonpos n) by lia; by rewrite take_0, app_nil_r.
  apply Forall_cons in Hf as [Ha Hf].
  destruct (win32_send_file_spec content a offset n wire ltac:(lia) Hp Ha) as (k & Hlen & Hs). cbn zeta in *.
  set (rest := drop (Z.to_nat offset) content) in *. assert (length rest = length content - Z.to_nat offset)%nat as Hr by apply length_drop.
  destruct (win32_send_file content a offset n wire) as [[[v|e] offset'] wire'].
  - destruct Hs as (-> & -> & -> & Hz). set (m := length (take k rest)) in *.
    destruct (Z.eqb_spec (Z.of_nat m) 0) as [E|E].
    { exists (Value tt), (wire ++ take k rest). split; [done|]. by rewrite (Hz E), !take_nil. }
    assert (m <= length rest)%nat as Hm by (subst m; rewrite length_take; lia).
    destruct (IH (offset + Z.of_nat m) (n - Z.of_nat m) (wire ++ take k rest)) as (r & w & -> & Hw); [lia|done|cbn in Hn; lia|].
    exists r, w. split; [done|].
    assert (drop (Z.to_nat (offset + Z.of_nat m)) content = drop m rest) as Ed.
    { subst rest. rewrite drop_drop. f_equal. lia. }
    rewrite Ed in Hw. replace (Z.to_nat (n - Z.of_nat m)) with (Z.to_nat n - m)%nat in Hw by lia.
    pose proof (take_split_length k (Z.to_nat n) rest ltac:(fold m; lia)) as Et. fold m in Et.
    destruct r as [u|e]; [by rewrite Hw, Et, <-app_assoc|]. destruct Hw as [He (j & ->)]. split; [done|].
    exists (m + j)%nat. rewrite Et. subst m. rewrite <-app_assoc. f_equal.
    rewrite take_app_ge by lia. do 2 f_equal. lia.
  - destruct Hs as (He & _ & ->). exists (Raised e), (wire ++ take k rest). split; [done|]. split; [done|].
    exists (length (take k rest)). rewrite (take_split_length k (Z.to_nat n) rest) by lia. f_equal. by rewrite take_app_length.
Qed.

(** The Windows file path sends what the buffered one does: for a kernel that makes progress, the
    response body is the first n bytes of the file (all of it when it is shorter), with every
    64-bit offset and however the transfers are cut; when one fails, what went out is a prefix
    of them and the failure is thrown. *)
Lemma transmit_body_exact content answers n wire :
  Z.of_nat (length content) < 2 ^ 63 -> Forall fair answers -> (Z.to_nat n <= length answers)%nat ->
  exists r wire', transmit_body content answers 0 n wire = Some (r, wire') /\
    match r with
    | Value _ => wire' = wire ++ take (Z.to_nat n) content
    | Raised e => e <> 0 /\ exists k, wire' = wire ++ take k (take (Z.to_nat n) content)
    end.
Proof. intros Hl. apply (transmit_body_from content answers 0); [done|lia]. Qed.

(** The completion reaches the operation: the reactor's next wait that does not
    fill up hands it over, to be resumed. *)
Lemma completion_resumed s op n e max_events :
  rtc (iocp_step true) iocp_new s ->
  exists evs ops s', iocp_wait max_events (op_done op n e s) = Some (evs, ops, s') /\
    ((length evs < max_events)%nat -> (op, n, e) ∈ ops).
Proof.
  intros Hr. assert (iocp_inv (op_done op n e s)) as [_ _ H3].
  { apply reach_inv. eapply rtc_r; [done|]. apply is_done. }
  destruct (drain_sound _ max_events _ H3) as (evs & ops & h & rest & pre & Hd & Hq & _ & _ & -> & _ & Hre).
  unfold iocp_wait. rewrite Hd. eexists evs, (dones pre), _. split; [done|]. intros Hm. specialize (Hre Hm). subst rest.
  rewrite app_nil_r in Hq. subst pre. apply list_elem_of_omap. exists (PDone op n e). split; [|done].
  cbn. apply elem_of_app. right. by left.
Qed.

(** ** A run *)

(** The first transfer is cut after 4 bytes, the second completes. *)
Lemma transmit_body_exact_witness :
  transmit_body (str "hello world") [mk_answer true true (Some WSA_IO_PENDING) 4 0; mk_answer true true None 100 0;
    mk_answer true true None 100 0; mk_answer true true None 100 0; mk_answer true true None 100 0] 0 5 (str "H:") =
    Some (Value tt, str "H:hello").
Proof.
  destruct (transmit_body_exact (str "hello world") [mk_answer true true (Some WSA_IO_PENDING) 4 0; mk_answer true true None 100 0;
    mk_answer true true None 100 0; mk_answer true true None 100 0; mk_answer true true None 100 0] 5 (str "H:")) as (r & w & E & Hr).
  - reflexivity.
  - repeat constructor; cbn; try lia; done.
  - cbn. lia.
  - rewrite E. vm_compute in E. injection E as <- <-. reflexivity.
Defined.

(** A system without the extension: nothing is sent and the call throws. *)
Example transmit_unsupported :
  transmit_body (str "hello") [mk_answer false true None 100 0] 0 5 [] = Some (Raised WSAEOPNOTSUPP, []).
Proof. reflexivity. Qed.
