(* ===== verification/IoPool.v ===== *)
(** * IoPool: src/async/io_context_pool.cpp

    [worker_count] event loops, each on a thread of its own.  A context is the
    [threads] of [IoContext]: its loop, the threads that post to it and the
    [stop()] called on it.  [io_context_pool::stop] is a thread of its own here:
    it stops the contexts one after the other, then joins their threads. *)

From S2P Require Import Prelude IoContext.

#[local] Open Scope Z_scope.

(** Where [stop()] is: not running, about to stop or to join context [i]. *)
Inductive stopper := StopOff | StopHalt (i : nat) | StopJoin (i : nat).

Record io_pool := mk_io_pool {
  ip_contexts : list threads;
  ip_started : bool;           (** [threads_] is not empty *)
  ip_running : bool;
  ip_next_index : Z;
  ip_stop : stopper;
}.

(** The constructor; [posts i] are the coroutines that will be posted to context
    [i]. *)
Definition io_pool_new (worker_count : nat) (posts : nat -> list nat) : io_pool :=
  let worker_count := if (worker_count =? 0)%nat then 1%nat else worker_count in
  mk_io_pool (threads_new ∘ posts <$> seq 0 worker_count) false false 0 StopOff.

(** A new thread calls [run()]; a new [stop()] may be called. *)
Definition run_again (t : threads) : threads :=
  mk_threads (th_posted t) (th_signalled t) (th_stopping t) LTest (th_posters t) HaltStore (th_resumed t).

(** [start]. *)
Definition io_pool_start (p : io_pool) : io_pool :=
  if ip_running p then p
  else mk_io_pool (run_again <$> ip_contexts p) true true (ip_next_index p) (ip_stop p).

(** The call of [stop]. *)
Definition io_pool_stop (p : io_pool) : io_pool :=
  if negb (ip_running p) then p
  else mk_io_pool (ip_contexts p) (ip_started p) (ip_running p) (ip_next_index p) (StopHalt 0).

(** Its steps: [ctx->stop()] on each (a store and a wake), then [t.join()] on
    each, which blocks until the loop has returned. *)
Definition stopper_step (p : io_pool) : option io_pool :=
  match ip_stop p with
  | StopOff => None
  | StopHalt i =>
      match ip_contexts p !! i with
      | None => Some (mk_io_pool (ip_contexts p) (ip_started p) (ip_running p) (ip_next_index p) (StopJoin 0))
      | Some t =>
          match halt_step t with
          | Some t' => Some (mk_io_pool (<[i := t']> (ip_contexts p)) (ip_started p) (ip_running p) (ip_next_index p) (StopHalt i))
          | None => Some (mk_io_pool (ip_contexts p) (ip_started p) (ip_running p) (ip_next_index p) (StopHalt (S i)))
          end
      end
  | StopJoin i =>
      match ip_contexts p !! i with
      | None => Some (mk_io_pool (ip_contexts p) false false (ip_next_index p) StopOff)
      | Some t =>
          match th_loop t with
          | LReturned => Some (mk_io_pool (ip_contexts p) (ip_started p) (ip_running p) (ip_next_index p) (StopJoin (S i)))
          | _ => None
          end
      end
  end.

(** The loop of context [i], and a thread that posts to it. *)
Definition worker_loop_step (i : nat) (seen other : bool) (p : io_pool) : option io_pool :=
  if ip_started p then
    t ← ip_contexts p !! i;
    t' ← loop_step seen other t;
    Some (mk_io_pool (<[i := t']> (ip_contexts p)) (ip_started p) (ip_running p) (ip_next_index p) (ip_stop p))
  else None.

Definition poster_step (i j : nat) (p : io_pool) : option io_pool :=
  t ← ip_contexts p !! i;
  t' ← post_step j t;
  Some (mk_io_pool (<[i := t']> (ip_contexts p)) (ip_started p) (ip_running p) (ip_next_index p) (ip_stop p)).

(** [next]: [fetch_add] on a [size_t]. *)
Definition next (p : io_pool) : nat * io_pool :=
  (Z.to_nat (ip_next_index p mod Z.of_nat (length (ip_contexts p))),
   mk_io_pool (ip_contexts p) (ip_started p) (ip_running p) (uwrap 64 (ip_next_index p + 1)) (ip_stop p)).

(** [start] and [stop] are called by one thread, one after the other. *)
Inductive ip_step : io_pool -> io_pool -> Prop :=
| ips_start p : ip_stop p = StopOff -> ip_step p (io_pool_start p)
| ips_stop p : ip_stop p = StopOff -> ip_step p (io_pool_stop p)
| ips_stopper p p' : stopper_step p = Some p' -> ip_step p p'
| ips_loop i seen other p p' : worker_loop_step i seen other p = Some p' -> ip_step p p'
| ips_post i j p p' : poster_step i j p = Some p' -> ip_step p p'
| ips_next p : ip_step p (snd (next p)).

(** ** Stopping *)

(** A context that has been told to stop does not sleep through it. *)
Record told_ok (t : threads) : Prop := mk_told {
  to_wake : th_halt t = HaltWake -> th_stopping t = true;
  to_done : th_halt t = HaltReturned -> th_stopping t = true /\ (th_loop t = LWait -> th_signalled t = true);
}.

(** What the stopper has done to context [i]. *)
Definition stopped_ok (st : stopper) (i : nat) (t : threads) : Prop :=
  match st with
  | StopOff => True
  | StopHalt j => (i < j)%nat -> th_halt t = HaltReturned
  | StopJoin j => th_halt t = HaltReturned /\ ((i < j)%nat -> th_loop t = LReturned)
  end.

Definition ctx_ok (st : stopper) (i : nat) (t : threads) : Prop := told_ok t /\ stopped_ok st i t.

Record ip_inv (p : io_pool) : Prop := mk_ip_inv {
  in_ctxs i t : ip_contexts p !! i = Some t -> ctx_ok (ip_stop p) i t;
  in_started : ip_stop p <> StopOff -> ip_started p = true;
  in_running : ip_running p = ip_started p;
}.

Lemma told_loop seen other t t' : told_ok t -> loop_step seen other t = Some t' -> told_ok t' /\ th_halt t' = th_halt t.
Proof.
  intros [H1 H2]. unfold loop_step. destruct (th_loop t) eqn:El; [| |intros [= <-]|done].
  - intros [= <-]. split; [|done]. split; cbn; [done|]. intros Hh. destruct (H2 Hh) as [-> _]. done.
  - destruct (_ || _); [|done]. intros [= <-]. split; [|done]. split; cbn; [done|]. intros Hh. by destruct (H2 Hh) as [-> _].
  - split; [|done]. split; cbn; [done|]. intros Hh. by destruct (H2 Hh) as [-> _].
Qed.

Lemma told_post j t t' :
  told_ok t -> post_step j t = Some t' -> told_ok t' /\ th_halt t' = th_halt t /\ th_loop t' = th_loop t.
Proof.
  intros [H1 H2]. unfold post_step. destruct (th_posters t !! j) as [pc|]; [|done]. cbn.
  destruct pc; [intros [= <-]|intros [= <-]|done]; (split; [|done]); split; cbn; try done.
  intros Hh. by destruct (H2 Hh) as [-> _].
Qed.

Lemma told_halt t t' : told_ok t -> halt_step t = Some t' -> told_ok t' /\ th_loop t' = th_loop t.
Proof.
  intros [H1 H2]. unfold halt_step. destruct (th_halt t) eqn:Eh; [intros [= <-]|intros [= <-]|done]; (split; [|done]); split; cbn; try done.
  intros _. by rewrite H1.
Qed.

Lemma halt_done t : halt_step t = None -> th_halt t = HaltReturned.
Proof. unfold halt_step. by destruct (th_halt t). Qed.

Lemma returned_stays seen other t t' : th_loop t = LReturned -> loop_step seen other t = Some t' -> False.
Proof. unfold loop_step. by intros ->. Qed.

Lemma worker_loop_inv i seen other p p' :
  worker_loop_step i seen other p = Some p' ->
  exists t t', ip_contexts p !! i = Some t /\ loop_step seen other t = Some t' /\
    p' = mk_io_pool (<[i := t']> (ip_contexts p)) (ip_started p) (ip_running p) (ip_next_index p) (ip_stop p).
Proof.
  unfold worker_loop_step. intros Hs. destruct (ip_contexts p !! i) as [t|] eqn:Ht; [|by destruct (ip_started p)].
  cbn in Hs. destruct (loop_step seen other t) as [t'|] eqn:Hl; [|by destruct (ip_started p)]. exists t, t'.
  split_and!; [done..|]. cbn in Hs. destruct (ip_started p); [by injection Hs as <-|done].
Qed.

(** Context [i] moves. *)
Lemma inv_context i t t' p st :
  ip_inv p -> ip_contexts p !! i = Some t -> ctx_ok st i t' ->
  (forall j u, ip_contexts p !! j = Some u -> ctx_ok (ip_stop p) j u -> j <> i -> ctx_ok st j u) ->
  (st <> StopOff -> ip_stop p <> StopOff) ->
  ip_inv (mk_io_pool (<[i := t']> (ip_contexts p)) (ip_started p) (ip_running p) (ip_next_index p) st).
Proof.
  intros [H1 H2 H3] Ht Hok Hst Hne. split; cbn; [|auto|done].
  intros j u Hj. apply list_lookup_insert_Some in Hj as [(-> & <- & _)|[Hn Hj]]; [done|]. apply Hst; auto.
Qed.

Lemma inv_stopper p p' : ip_inv p -> stopper_step p = Some p' -> ip_inv p'.
Proof.
  intros Hi Hs. pose proof Hi as [H1 H2 H3]. unfold stopper_step in Hs. destruct (ip_stop p) as [|i|i] eqn:Est; [done| |].
  - destruct (ip_contexts p !! i) as [t|] eqn:Ht.
    + destruct (H1 i t Ht) as [Hto Hso]. destruct (halt_step t) as [t'|] eqn:Eh; injection Hs as <-.
      * destruct (told_halt t t' Hto Eh). eapply inv_context; [done|done|split; [done|cbn; lia]| |by rewrite Est].
        intros j u _. by rewrite Est.
      * split; cbn; [|intros _; by apply H2|done]. intros j u Hj. destruct (H1 j u Hj) as [? Hh]. split; [done|]. cbn in *.
        intros Hlt. destruct (decide (j = i)) as [->|]; [|apply Hh; lia]. apply halt_done. congruence.
    + injection Hs as <-. split; cbn; [|intros _; by apply H2|done]. intros j u Hj. destruct (H1 j u Hj) as [? Hh].
      split; [done|]. split; [|lia]. apply Hh. apply lookup_lt_Some in Hj. apply lookup_ge_None in Ht. lia.
  - destruct (ip_contexts p !! i) as [t|] eqn:Ht; [destruct (th_loop t) eqn:El; try done|]; injection Hs as <-.
    + split; cbn; [|intros _; by apply H2|done]. intros j u Hj. destruct (H1 j u Hj) as [? [? Hr]]. split; [done|]. split; [done|].
      intros Hlt. destruct (decide (j = i)) as [->|]; [congruence|apply Hr; lia].
    + split; cbn; [|done|done]. intros j u Hj. by destruct (H1 j u Hj).
Qed.

Lemma inv_ip_step p p' : ip_inv p -> ip_step p p' -> ip_inv p'.
Proof.
  intros Hi. pose proof Hi as [H1 H2 H3]. destruct 1 as [p Hoff|p Hoff|p p' Hs|i seen other p p' Hs|i j p p' Hs|p].
  - unfold io_pool_start. destruct (ip_running p) eqn:Er; [done|]. split; cbn; [|by rewrite Hoff|done].
    intros i t (u & -> & _)%list_lookup_fmap_Some. rewrite Hoff. by split.
  - unfold io_pool_stop. destruct (ip_running p) eqn:Er; [|done]. split; cbn; [|by rewrite <-H3|done].
    intros i t Ht. destruct (H1 i t Ht). split; [done|cbn; lia].
  - by eapply inv_stopper.
  - apply worker_loop_inv in Hs as (t & t' & Ht & Hl & ->). destruct (H1 i t Ht) as [Hto Hso].
    destruct (told_loop _ _ _ _ Hto Hl) as [Hto' Hh]. eapply inv_context; [done|done| |done|done]. split; [done|].
    destruct (ip_stop p) as [|k|k]; cbn in *; rewrite ?Hh; [done|done|]. destruct Hso as [? Hr]. split; [done|].
    intros Hk. destruct (returned_stays _ _ _ _ (Hr Hk) Hl).
  - unfold poster_step in Hs. destruct (ip_contexts p !! i) as [t|] eqn:Ht; [cbn in Hs|done].
    destruct (post_step j t) as [t'|] eqn:Hl; [|done]. injection Hs as <-. destruct (H1 i t Ht) as [Hto Hso].
    destruct (told_post _ _ _ Hto Hl) as (Hto' & Hh & Hlp). eapply inv_context; [done|done| |done|done]. split; [done|].
    destruct (ip_stop p); cbn in *; by rewrite ?Hh, ?Hlp.
  - by split.
Qed.

Lemma ip_reach_inv n posts p : rtc ip_step (io_pool_new n posts) p -> ip_inv p.
Proof.
  intros Hr. remember (io_pool_new n posts) as p0 eqn:E. assert (ip_inv p0) as Hi.
  { subst. split; cbn; [|done|done]. intros i t (u & -> & _)%list_lookup_fmap_Some. by split. }
  clear E. induction Hr as [|x y z Hs _ IH]; [done|]. by eapply IH, inv_ip_step.
Qed.

(** What is left of [run()] once its context is told to stop, and of the joins. *)
Definition loop_left (t : threads) : nat :=
  match th_loop t with LWait => 3 | LDrain => 2 | LTest => 1 | LReturned => 0 end.

Definition left_of (p : io_pool) : nat :=
  sum_list (loop_left <$> ip_contexts p) +
  match ip_stop p with
  | StopOff => 0
  | StopJoin i => S (length (ip_contexts p) - i)
  | StopHalt _ => S (S (length (ip_contexts p)))
  end.

Lemma sum_list_insert (l : list nat) i x y : l !! i = Some x -> (sum_list (<[i := y]> l) + x = sum_list l + y)%nat.
Proof.
  revert i. induction l as [|z l IH]; intros [|i]; cbn; try done; [intros [= ->]; lia|].
  intros H%IH. change (z + sum_list (<[i := y]> l) + x = z + sum_list l + y)%nat. lia.
Qed.

Lemma stopping_loop_ends seen other t t' :
  th_stopping t = true -> loop_step seen other t = Some t' -> (loop_left t' < loop_left t)%nat.
Proof.
  unfold loop_step, loop_left. intros Hs. destruct (th_loop t) eqn:El; [| |intros [= <-]; cbn; lia|done].
  - intros [= <-]. cbn. rewrite Hs. cbn. lia.
  - destruct (_ || _); [|done]. intros [= <-]. cbn. lia.
Qed.

(** C35: stop() of the pool of event loops returns: as long as it is in progress it, or a loop it
    waits for, can go on without help from outside; once every context has been told, each of
    their steps brings the end nearer, whatever events arrive; and when it returns, every loop
    has returned. *)
Theorem io_pool_stops n posts p :
  rtc ip_step (io_pool_new n posts) p -> ip_stop p <> StopOff ->
  ((exists p', stopper_step p = Some p') \/ exists i p', worker_loop_step i true false p = Some p') /\
  (forall i, ip_stop p = StopJoin i ->
     (forall p', stopper_step p = Some p' -> (left_of p' < left_of p)%nat) /\
     (forall k seen other p', worker_loop_step k seen other p = Some p' -> (left_of p' < left_of p)%nat)) /\
  (forall p', stopper_step p = Some p' -> ip_stop p' = StopOff -> Forall (fun t => th_loop t = LReturned) (ip_contexts p')).
Proof.
  intros Hr Hne. destruct (ip_reach_inv _ _ _ Hr) as [H1 H2 H3]. specialize (H2 Hne). split_and!.
  - destruct (ip_stop p) as [|i|i] eqn:Est; [done| |]; unfold stopper_step; rewrite Est.
    { left. destruct (ip_contexts p !! i) as [t|]; [destruct (halt_step t)|]; by eexists. }
    destruct (ip_contexts p !! i) as [t|] eqn:Ht; [|left; by eexists].
    destruct (H1 i t Ht) as [[_ Hd] [Hh _]]. destruct (Hd Hh) as [Hs Hw].
    destruct (th_loop t) eqn:El; [right|right|right|left; by eexists]; exists i; unfold worker_loop_step, loop_step; rewrite H2, Ht; cbn;
      rewrite El; try (by eexists). rewrite Hw by done. by eexists.
  - intros i Est. split.
    + intros p' Hs. unfold stopper_step in Hs. rewrite Est in Hs. unfold left_of. rewrite Est.
      destruct (ip_contexts p !! i) as [t|] eqn:Ht; [destruct (th_loop t); try done|]; injection Hs as <-; cbn [ip_contexts ip_stop];
        [apply lookup_lt_Some in Ht; lia|lia].
    + intros k seen other p' (t & t' & Ht & Hl & ->)%worker_loop_inv. unfold left_of. cbn [ip_contexts ip_stop]. rewrite Est, length_insert, list_fmap_insert.
      destruct (H1 k t Ht) as [[_ Hd] Hso]. rewrite Est in Hso. destruct Hso as [Hh _].
      pose proof (stopping_loop_ends _ _ _ _ (proj1 (Hd Hh)) Hl).
      pose proof (sum_list_insert (loop_left <$> ip_contexts p) k (loop_left t) (loop_left t')) as Hsum.
      rewrite list_lookup_fmap, Ht in Hsum. specialize (Hsum eq_refl). lia.
  - intros p' Hs Hoff. unfold stopper_step in Hs. destruct (ip_stop p) as [|i|i] eqn:Est; [done| |].
    { destruct (ip_contexts p !! i) as [t|]; [destruct (halt_step t)|]; injection Hs as <-; done. }
    destruct (ip_contexts p !! i) as [t|] eqn:Ht; [destruct (th_loop t); try done; by injection Hs as <-|]. injection Hs as <-. cbn.
    apply Forall_lookup. intros j t Hj. destruct (H1 j t Hj) as [_ [_ Hl]]. apply Hl.
    apply lookup_lt_Some in Hj. apply lookup_ge_None in Ht. lia.
Qed.

(** ** Starting again *)

(** A context that was stopped: [run()] returns at once, for ever. *)
Definition dead (resumed : list nat) (t : threads) : Prop :=
  th_stopping t = true /\ (th_loop t = LTest \/ th_loop t = LReturned) /\ th_resumed t = resumed.

Lemma dead_loop resumed seen other t t' : dead resumed t -> loop_step seen other t = Some t' -> dead resumed t'.
Proof.
  intros (Hs & [Hl|Hl] & Hr); unfold loop_step; rewrite Hl; [|done]. intros [= <-]. split_and!; [done| |done]. cbn. rewrite Hs. by right.
Qed.

Lemma dead_post resumed j t t' : dead resumed t -> post_step j t = Some t' -> dead resumed t'.
Proof.
  intros Hd. unfold post_step. destruct (th_posters t !! j) as [pc|]; [|done]. cbn. destruct pc; [intros [= <-]|intros [= <-]|done]; exact Hd.
Qed.

Lemma dead_halt resumed t t' : dead resumed t -> halt_step t = Some t' -> dead resumed t'.
Proof. intros (Hs & Hd). unfold halt_step. destruct (th_halt t); [intros [= <-]|intros [= <-]|done]; done. Qed.

Lemma insert_keeps (P : threads -> Prop) (l : list threads) i j t t' u :
  l !! i = Some t -> P t -> l !! j = Some u -> (P u -> P t') -> exists t0, <[j := t']> l !! i = Some t0 /\ P t0.
Proof.
  intros Hi Hp Hj Hpu. destruct (decide (i = j)) as [->|Hn].
  - exists t'. rewrite list_lookup_insert_eq by (by eapply lookup_lt_Some). split; [done|]. apply Hpu. congruence.
  - exists t. by rewrite list_lookup_insert_ne.
Qed.

(** [start()] after [stop()]: nothing clears [stopping_], so no coroutine posted
    to the pool from then on is ever resumed. *)
Lemma restart_resumes_nothing resumed p p' i t :
  ip_contexts p !! i = Some t -> dead resumed t -> rtc ip_step p p' ->
  exists t', ip_contexts p' !! i = Some t' /\ dead resumed t'.
Proof.
  intros Ht Hd Hr. revert t Ht Hd. induction Hr as [|x y z Hs _ IH]; intros t Ht Hd; [by exists t|].
  enough (exists t0, ip_contexts y !! i = Some t0 /\ dead resumed t0) as (t0 & H1 & H2) by (by eapply IH). clear IH.
  destruct Hs as [p Hoff|p Hoff|p p' Hs|k seen other p p' Hs|k j p p' Hs|p].
  - unfold io_pool_start. destruct (ip_running p); [by exists t|]. cbn. rewrite list_lookup_fmap, Ht. eexists. split; [done|].
    destruct Hd as (? & _ & ?). split_and!; auto.
  - unfold io_pool_stop. destruct (negb (ip_running p)); by exists t.
  - unfold stopper_step in Hs. destruct (ip_stop p) as [|k|k]; [done| |]; destruct (ip_contexts p !! k) as [u|] eqn:Hk.
    + destruct (halt_step u) as [u'|] eqn:Eh; injection Hs as <-; [|by exists t]. cbn.
      eapply insert_keeps; [done..|]. intros ?. by eapply dead_halt.
    + injection Hs as <-. by exists t.
    + destruct (th_loop u); try done; injection Hs as <-; by exists t.
    + injection Hs as <-. by exists t.
  - apply worker_loop_inv in Hs as (u & u' & Hk & Hl & ->). cbn. eapply insert_keeps; [done..|]. intros ?. by eapply dead_loop.
  - unfold poster_step in Hs. destruct (ip_contexts p !! k) as [u|] eqn:Hk; [cbn in Hs|done].
    destruct (post_step j u) as [u'|] eqn:Hl; [|done]. injection Hs as <-. cbn. eapply insert_keeps; [done..|].
    intros ?. by eapply dead_post.
  - by exists t.
Qed.

(** ** Round robin *)

Fixpoint next_many (k : nat) (p : io_pool) : list nat :=
  match k with O => [] | S m => let '(i, p') := next p in i :: next_many m p' end.

Lemma next_many_eq k p :
  0 <= ip_next_index p -> ip_next_index p + Z.of_nat k < 2 ^ 64 ->
  next_many k p = (fun j : nat => Z.to_nat ((ip_next_index p + Z.of_nat j) mod Z.of_nat (length (ip_contexts p)))) <$> seq 0 k.
Proof.
  revert p. induction k as [|k IH]; intros p H0 Hk; [done|]. cbn [next_many next]. rewrite IH; cbn [ip_next_index ip_contexts]; unfold uwrap.
  - rewrite (Z.mod_small (ip_next_index p + 1)) by lia. cbn. rewrite Z.add_0_r, <-fmap_S_seq, <-list_fmap_compose. f_equal.
    apply list_fmap_ext. intros j x _. cbn. do 2 f_equal. lia.
  - rewrite Z.mod_small; lia.
  - rewrite Z.mod_small; lia.
Qed.

(** Any as many calls of [next] in a row as there are contexts give each context
    once (until the counter wraps around). *)
Lemma next_round_robin p :
  0 <= ip_next_index p -> ip_next_index p + Z.of_nat (length (ip_contexts p)) < 2 ^ 64 ->
  next_many (length (ip_contexts p)) p ≡ₚ seq 0 (length (ip_contexts p)).
Proof.
  intros H0 Hk. rewrite next_many_eq by done. set (n := length (ip_contexts p)). set (x := ip_next_index p).
  destruct (decide (n = 0%nat)) as [->|Hn]; [done|]. symmetry.
  apply submseteq_length_Permutation; [|by rewrite length_fmap, !length_seq].
  apply NoDup_submseteq; [apply NoDup_seq|]. intros i Hi%elem_of_seq. apply list_elem_of_fmap.
  exists (Z.to_nat ((Z.of_nat i - x) mod Z.of_nat n)). split.
  - rewrite Z2Nat.id by (apply Z.mod_pos; lia). rewrite Z.add_mod_idemp_r by lia.
    replace (x + (Z.of_nat i - x)) with (Z.of_nat i) by lia. rewrite Z.mod_small by lia. lia.
  - apply elem_of_seq. pose proof (Z.mod_pos_bound (Z.of_nat i - x) (Z.of_nat n)). lia.
Qed.

(** ** A run *)

Inductive ip_move := MStart | MStop | MStopper | MLoop (i : nat) | MPost (i j : nat).

Definition ip_do (m : ip_move) (p : io_pool) : option io_pool :=
  match m with
  | MStart => match ip_stop p with StopOff => Some (io_pool_start p) | _ => None end
  | MStop => match ip_stop p with StopOff => Some (io_pool_stop p) | _ => None end
  | MStopper => stopper_step p
  | MLoop i => worker_loop_step i true false p
  | MPost i j => poster_step i j p
  end.

Fixpoint ip_run (ms : list ip_move) (p : io_pool) : option io_pool :=
  match ms with [] => Some p | m :: r => p1 ← ip_do m p; ip_run r p1 end.

Lemma ip_do_step m p p' : ip_do m p = Some p' -> ip_step p p'.
Proof.
  destruct m; cbn.
  - destruct (ip_stop p) eqn:E; [|done..]. intros [= <-]. by apply ips_start.
  - destruct (ip_stop p) eqn:E; [|done..]. intros [= <-]. by apply ips_stop.
  - apply ips_stopper.
  - apply ips_loop.
  - apply ips_post.
Qed.

Lemma ip_run_reach ms p p' : ip_run ms p = Some p' -> rtc ip_step p p'.
Proof.
  revert p. induction ms as [|m ms IH]; intros p; cbn; [by intros [= <-]|].
  destruct (ip_do m p) as [p1|] eqn:E; [cbn|done]. intros H. eapply rtc_l; [by eapply ip_do_step|by apply IH].
Qed.

Definition demo_pool : io_pool := io_pool_new 1 (fun _ => [7%nat]).

(** The loop is asleep; [stop] has woken it and is about to join. *)
Definition joining : io_pool :=
  default demo_pool (ip_run [MStart; MLoop 0; MStop; MStopper; MStopper; MStopper; MStopper] demo_pool).

Lemma io_pool_stops_witness : exists i p', worker_loop_step i true false joining = Some p' /\ (left_of p' < left_of joining)%nat.
Proof.
  destruct (io_pool_stops 1 (fun _ => [7%nat]) joining) as (Hgo & Hdec & _).
  - apply (ip_run_reach [MStart; MLoop 0; MStop; MStopper; MStopper; MStopper; MStopper]). reflexivity.
  - done.
  - destruct Hgo as [[p' Hp]|(i & p' & Hp)]; [vm_compute in Hp; discriminate Hp|]. exists i, p'. split; [exact Hp|].
    eapply (proj2 (Hdec 0%nat ltac:(reflexivity))). exact Hp.
Defined.

(** Stopped and started again, the pool is running; the coroutine posted to it
    is not resumed, whatever follows. *)
Definition restarted : io_pool :=
  default demo_pool (ip_run ([MStart; MLoop 0; MStop; MStopper; MStopper; MStopper; MStopper; MLoop 0; MLoop 0; MLoop 0;
    MStopper; MStopper; MStart; MPost 0 0; MPost 0 0]) demo_pool).

Example restart_is_dead p' :
  rtc ip_step restarted p' ->
  ip_running restarted = true /\ exists t, ip_contexts p' !! 0%nat = Some t /\ th_resumed t = [].
Proof.
  intros Hr. split; [reflexivity|]. destruct (restart_resumes_nothing [] restarted p' 0 (mk_threads [7%nat] true true LTest [PostReturned] HaltStore []))
    as (t & Ht & _ & _ & Hd); [reflexivity|by split_and!; [..|left|]|done|]. by exists t.
Qed.
