(* ===== verification/FileInfo.v ===== *)
(** * FileInfo: src/platform/{posix,win32}/file_info.cpp

    [stat_file] on both platforms, over what [stat] and [GetFileAttributesEx]
    report.  The extensions take it as an argument ([FileExtensions]). *)

From S2P Require Import Prelude Bytes Server.

#[local] Open Scope Z_scope.

Definition file_info_none : file_info := mk_file_info fk_not_found 0 0.

(** ** POSIX *)

Definition S_IFMT : Z := 61440.      (** 0170000 *)
Definition S_IFREG : Z := 32768.     (** 0100000 *)
Definition S_IFDIR : Z := 16384.     (** 0040000 *)

Record posix_stat := mk_stat { st_mode : Z; st_size : Z; st_mtime : Z }.

Definition S_ISREG (mode : Z) : bool := Z.land mode S_IFMT =? S_IFREG.
Definition S_ISDIR (mode : Z) : bool := Z.land mode S_IFMT =? S_IFDIR.

Definition posix_stat_file (stat : bytes -> option posix_stat) (path : bytes) : file_info :=
  match stat path with
  | None => file_info_none
  | Some st =>
      if S_ISREG (st_mode st) then mk_file_info fk_regular_file (st_size st) (st_mtime st)
      else if S_ISDIR (st_mode st) then mk_file_info fk_directory 0 0
      else mk_file_info fk_other 0 0
  end.

(** ** Windows *)

Definition FILE_ATTRIBUTE_DIRECTORY : Z := 16.
Definition epoch_diff_100ns : Z := 116444736000000000.

(** The halves of a FILETIME and of a size are DWORDs. *)
Record win32_attributes := mk_attributes {
  fa_attributes : Z;
  fa_size_high : Z; fa_size_low : Z;
  fa_time_high : Z; fa_time_low : Z;
}.

Definition filetime_to_time_t (high low : Z) : Z :=
  let quad := Z.lor (Z.shiftl high 32) low in
  let ticks := if epoch_diff_100ns <? quad then quad - epoch_diff_100ns else 0 in
  ticks / 10000000.

Definition win32_stat_file (attributes : bytes -> option win32_attributes) (path : bytes) : file_info :=
  match attributes path with
  | None => file_info_none
  | Some d =>
      if negb (Z.land (fa_attributes d) FILE_ATTRIBUTE_DIRECTORY =? 0) then mk_file_info fk_directory 0 0
      else mk_file_info fk_regular_file (Z.lor (Z.shiftl (fa_size_high d) 32) (fa_size_low d))
             (filetime_to_time_t (fa_time_high d) (fa_time_low d))
  end.

(** ** Facts *)

(** A 64-bit number from its halves. *)
Lemma of_halves v : 0 <= v -> Z.lor (Z.shiftl (v / 2 ^ 32) 32) (v mod 2 ^ 32) = v.
Proof.
  intros Hv. rewrite <-Z.shiftr_div_pow2, <-Z.land_ones by lia. apply Z.bits_inj'. intros i Hi.
  rewrite Z.lor_spec, Z.land_spec, Z.shiftl_spec by done. destruct (Z.ltb_spec i 32) as [Hl|Hl].
  - by rewrite Z.testbit_neg_r, Z.ones_spec_low, andb_true_r by lia.
  - rewrite Z.ones_spec_high, andb_false_r, orb_false_r, Z.shiftr_spec by lia. f_equal. lia.
Qed.

(** The FILETIME of a time from 1970 on, with any part of a second, converts back
    to that second. *)
Lemma filetime_roundtrip t ticks :
  0 <= t -> 0 <= ticks < 10000000 ->
  let quad := t * 10000000 + ticks + epoch_diff_100ns in
  filetime_to_time_t (quad / 2 ^ 32) (quad mod 2 ^ 32) = t.
Proof.
  cbn zeta. intros Ht Hk. unfold filetime_to_time_t, epoch_diff_100ns. rewrite of_halves by lia.
  destruct (Z.ltb_spec 116444736000000000 (t * 10000000 + ticks + 116444736000000000)) as [Hl|Hl].
  - replace (t * 10000000 + ticks + 116444736000000000 - 116444736000000000) with (ticks + t * 10000000) by lia.
    rewrite Z.div_add, Z.div_small by lia. lia.
  - replace t with 0 by lia. reflexivity.
Qed.

(** What a system says of a file: a directory, or its size and the time of its
    last change. *)
Inductive file_facts := FDirectory | FRegular (size mtime : Z).

Definition posix_describes (st : posix_stat) (f : file_facts) : Prop :=
  match f with
  | FDirectory => Z.land (st_mode st) S_IFMT = S_IFDIR
  | FRegular size mtime => Z.land (st_mode st) S_IFMT = S_IFREG /\ st_size st = size /\ st_mtime st = mtime
  end.

Definition win32_describes (d : win32_attributes) (f : file_facts) : Prop :=
  match f with
  | FDirectory => Z.testbit (fa_attributes d) 4 = true
  | FRegular size mtime =>
      Z.testbit (fa_attributes d) 4 = false /\
      fa_size_high d = size / 2 ^ 32 /\ fa_size_low d = size mod 2 ^ 32 /\
      exists ticks, 0 <= ticks < 10000000 /\
        let quad := mtime * 10000000 + ticks + epoch_diff_100ns in
        fa_time_high d = quad / 2 ^ 32 /\ fa_time_low d = quad mod 2 ^ 32
  end.

Lemma land_16 a : (Z.land a 16 =? 0) = negb (Z.testbit a 4).
Proof.
  destruct (Z.testbit a 4) eqn:E.
  - apply Z.eqb_neq. intros H. apply (f_equal (fun z => Z.testbit z 4)) in H. rewrite Z.land_spec, E in H. done.
  - apply Z.eqb_eq, Z.bits_inj'. intros i Hi. rewrite Z.land_spec, Z.bits_0. change 16 with (2 ^ 4). rewrite Z.pow2_bits_eqb by lia.
    destruct (Z.eqb_spec 4 i) as [<-|]; [by rewrite E|by rewrite andb_false_r].
Qed.

(** Both platforms give the same answer about the same file, and both report a
    missing one alike. *)
Lemma stat_file_platforms_agree stat attributes path :
  (forall st, stat path = Some st -> exists d f, attributes path = Some d /\ posix_describes st f /\ win32_describes d f /\
     match f with FRegular size mtime => 0 <= size /\ 0 <= mtime | FDirectory => True end) ->
  (stat path = None -> attributes path = None) ->
  posix_stat_file stat path = win32_stat_file attributes path.
Proof.
  intros Hsome Hnone. unfold posix_stat_file, win32_stat_file. destruct (stat path) as [st|]; [|by rewrite Hnone].
  destruct (Hsome st eq_refl) as (d & [|size mtime] & -> & Hp & Hw & Hb); change FILE_ATTRIBUTE_DIRECTORY with 16; rewrite land_16;
    unfold S_ISREG, S_ISDIR.
  - unfold posix_describes in Hp. unfold win32_describes in Hw. by rewrite Hp, Hw.
  - destruct Hp as (-> & -> & ->), Hw as (-> & -> & -> & ticks & Ht & -> & ->). cbn [negb]. rewrite of_halves by lia.
    by rewrite (filetime_roundtrip mtime ticks) by lia.
Qed.

(** Windows answers for everything that is not a directory as for a file: a
    device or a pipe that POSIX calls other. *)
Example devices_differ :
  fi_kind (posix_stat_file (fun _ => Some (mk_stat 8630 0 0)) (str "tty")) = fk_other /\
  fi_kind (win32_stat_file (fun _ => Some (mk_attributes 64 0 0 0 0)) (str "tty")) = fk_regular_file.
Proof. by vm_compute. Qed.

Lemma stat_file_platforms_agree_witness :
  posix_stat_file (fun _ => Some (mk_stat 33188 4294967301 1700000000)) (str "f") =
  win32_stat_file (fun _ => Some (mk_attributes 32 1 5
    ((17000000000000000 + 116444736000000000) / 2 ^ 32) ((17000000000000000 + 116444736000000000) mod 2 ^ 32))) (str "f").
Proof.
  apply stat_file_platforms_agree; [|done]. intros st [= <-]. eexists _, (FRegular 4294967301 1700000000). split; [done|].
  split; [by vm_compute|]. split; [|lia]. split; [reflexivity|]. split; [reflexivity|]. split; [reflexivity|].
  exists 0. split; [lia|]. cbn zeta. split; reflexivity.
Defined.
