(* ===== verification/NhttpdEcho.v ===== *)
(** * NhttpdEcho: examples/nhttpd/main.cpp, echo_websocket

    The coroutine the demo server runs on every upgraded connection. *)

From S2P Require Import Prelude Bytes Stream Feeder WsConnection.

#[local] Open Scope Z_scope.

(** ** The WebSocket echo *)
Section Echo.
Context {W : Type} `{Stream W}.

(** [echo_websocket]: the loop of one connection; [rf] is the fuel of the
    connection's own operations. *)
Fixpoint echo_websocket (fuel rf : nat) (ws : ws_connection W) : option (ws_connection W) :=
  match fuel with
  | O => None
  | S f =>
      '(msg, ws) ← receive rf ws;
      match msg with
      | None => Some ws
      | Some m =>
          ws ← (match msg_type m with
                | mt_text => send_text rf (msg_data m) ws
                | mt_binary => send_binary rf (msg_data m) ws
                end);
          echo_websocket f rf ws
      end
  end.
(** What a connection is left with when the loop ends. *)
Definition echo_on_connect (fuel rf : nat) (ws : ws_connection W) : W :=
  fd_source (ws_feed (default ws (echo_websocket fuel rf ws))).
End Echo.

(** ** What the echo writes *)

(** Frames that [receive] turns into one message, with what it writes
    meanwhile (the pongs). *)
Definition one_message (frames : list (option bytes * raw_frame)) (m : message) (replies : bytes) : Prop :=
  Forall (fun kf => key_wf kf.1 /\ frame_wf kf.2) frames /\
  receive_spec frames [] None = Some (Some m, false, replies, []).

Definition message_opcode (m : message) : Z :=
  match msg_type m with mt_text => opcode_text | mt_binary => opcode_binary end.

(** The end of the session: a close frame and whatever follows it, or the end
    of the stream. *)
Inductive session_end : bytes -> bytes -> Prop :=
| EndClose key reason rest : key_wf key -> frame_wf (mk_frame true opcode_close reason) ->
    session_end (encode_frames [(key, mk_frame true opcode_close reason)] ++ rest) (server_frame opcode_close reason)
| EndOfStream : session_end [] [].

Lemma receive_spec_app frames todo acc mop r closed replies left :
  receive_spec frames acc mop = Some (r, closed, replies, left) ->
  receive_spec (frames ++ todo) acc mop = Some (r, closed, replies, left ++ todo).
Proof.
  revert acc mop r closed replies left. induction frames as [|[k fr] frames IH]; [done|].
  intros acc mop r closed replies left. cbn [app receive_spec].
  repeat (case_match; try done); intros; simplify_eq; try done;
    try (by apply IH); try (by erewrite IH in * by eassumption; simplify_eq).
Qed.

Lemma encode_frames_app a b : encode_frames (a ++ b) = encode_frames a ++ encode_frames b.
Proof. unfold encode_frames. by rewrite map_app, concat_app. Qed.

Section EchoSpec.
Context {W : Type} `{StreamDuplex W}.


Lemma receive_spec_data frames acc mop m closed replies left :
  receive_spec frames acc mop = Some (Some m, closed, replies, left) ->
  (length (msg_data m) <= length acc + length (encode_frames frames))%nat.
Proof.
  revert acc mop closed replies left. induction frames as [|[k fr] frames IH]; [done|].
  intros acc mop closed replies left. cbn [receive_spec].
  pose proof (encode_frame_length k fr) as Hl.
  assert (length (encode_frames ((k, fr) :: frames)) = length (encode_frame k fr) + length (encode_frames frames))%nat
    as -> by (unfold encode_frames; cbn [map concat fst snd]; by rewrite length_app).
  repeat (case_match; try done); intros; simplify_eq; cbn [msg_data]; rewrite ?length_app; try lia;
    repeat match goal with E : receive_spec _ _ _ = Some _ |- _ => apply IH in E; rewrite ?length_app in E end; lia.
Qed.

(** At the end of the stream [receive] closes and reports no message. *)
Lemma receive_end rf (d : feeder W) :
  fd_ok d -> fd_raw d = [] -> (2 < rf)%nat ->
  exists d', receive rf (mk_ws d false) = Some (None, mk_ws d' true) /\ fd_written d' = fd_written d.
Proof.
  intros Hok Hraw Hf. destruct rf as [|f]; [lia|]. pose proof (fd_steps_raw d) as Hs. rewrite Hraw in Hs. cbn in Hs.
  destruct (read_frame_refines f d Hok ltac:(lia)) as (d' & _ & _ & Hw & E). rewrite Hraw in E.
  change (parse_frame []) with (@None (raw_frame * bytes)) in E. cbn in E.
  exists d'. unfold receive. cbn [receive_loop ws_closed ws_feed]. by rewrite E.
Qed.

Lemma echo_end rf (d : feeder W) tail reply :
  fd_ok d -> session_end tail reply -> fd_raw d = tail -> (length tail + 64 <= rf)%nat ->
  exists d', receive rf (mk_ws d false) = Some (None, mk_ws d' true) /\ fd_written d' = fd_written d ++ reply.
Proof.
  intros Hok He Hraw Hf. destruct He as [key reason rest Hk Hw|].
  - destruct (receive_loop_refines [(key, mk_frame true opcode_close reason)] rf [] None d rest
      (None, true, server_frame opcode_close reason, [])) as (d' & E & _ & _ & Hwr); try done.
    + by constructor.
    + by rewrite Hraw.
    + by exists d'.
  - destruct (receive_end rf d Hok Hraw ltac:(lia)) as (d' & E & Hw). exists d'. by rewrite Hw, app_nil_r.
Qed.

(** One turn of the loop: a message in, the same message out. *)
Lemma echo_turn rf (d : feeder W) frames m replies rest :
  fd_ok d -> one_message frames m replies -> fd_raw d = encode_frames frames ++ rest ->
  (length (fd_raw d) + 64 <= rf)%nat ->
  exists d1 d2, receive rf (mk_ws d false) = Some (Some m, mk_ws d1 false) /\
    (match msg_type m with
     | mt_text => send_text rf (msg_data m) (mk_ws d1 false)
     | mt_binary => send_binary rf (msg_data m) (mk_ws d1 false)
     end) = Some (mk_ws d2 false) /\
    fd_ok d2 /\ fd_raw d2 = rest /\
    fd_written d2 = fd_written d ++ replies ++ server_frame (message_opcode m) (msg_data m).
Proof.
  intros Hok [Hwf Hs] Hraw Hf.
  destruct (receive_loop_refines frames rf [] None d rest (Some m, false, replies, [])) as (d1 & E & Hok1 & Hr1 & Hw1);
    try done.
  pose proof (receive_spec_data _ _ _ _ _ _ _ Hs) as Hd. cbn [length] in Hd.
  rewrite Hraw, length_app in Hf.
  destruct (write_frame_spec rf (message_opcode m) (msg_data m) d1 Hok1) as (d2 & E2 & Hok2 & Hr2 & Hw2); [lia|].
  exists d1, d2. split; [exact E|]. split.
  - unfold send_text, send_binary. unfold message_opcode in E2. cbn [ws_feed ws_closed].
    destruct (msg_type m); by rewrite E2.
  - split_and!; [done|by rewrite Hr2, Hr1|by rewrite Hw2, Hw1, <-app_assoc].
Qed.

(** C19: The WebSocket echo endpoint sends every message it receives back, with its type and
    payload, in the order received and with the pongs the peer's pings ask for, however the
    messages are fragmented and masked, until the peer closes (the close frame is answered) or
    the stream ends; then it returns with the connection closed. *)
Theorem echo_relays (msgs : list (list (option bytes * raw_frame) * message * bytes)) tail reply (d : feeder W) fuel rf :
  fd_ok d -> Forall (fun '(frames, m, replies) => one_message frames m replies) msgs -> session_end tail reply ->
  fd_raw d = concat (map (fun '(frames, _, _) => encode_frames frames) msgs) ++ tail ->
  (length msgs < fuel)%nat -> (length (fd_raw d) + 64 <= rf)%nat ->
  exists d', echo_websocket fuel rf (mk_ws d false) = Some (mk_ws d' true) /\
    fd_written d' = fd_written d ++
      concat (map (fun '(_, m, replies) => replies ++ server_frame (message_opcode m) (msg_data m)) msgs) ++ reply.
Proof.
  intros Hok Hm He. revert d fuel Hok. induction Hm as [|[[frames m] replies] msgs Hone _ IH];
    intros d fuel Hok Hraw Hfuel Hrf; (destruct fuel as [|f]; [cbn in Hfuel; lia|]); cbn [echo_websocket].
  - destruct (echo_end rf d tail reply Hok He Hraw) as (d' & -> & Hw); [by rewrite Hraw in Hrf|]. by exists d'.
  - cbn [map concat] in Hraw. rewrite <-app_assoc in Hraw.
    destruct (echo_turn rf d frames m replies _ Hok Hone Hraw Hrf) as (d1 & d2 & -> & E2 & Hok2 & Hr2 & Hw2).
    cbn [mbind option_bind]. rewrite E2. cbn [mbind option_bind].
    destruct (IH d2 f Hok2 Hr2) as (d' & -> & Hw'); [cbn in Hfuel; lia| |].
    { rewrite Hr2. rewrite Hraw, length_app in Hrf. lia. }
    exists d'. split; [done|]. rewrite Hw', Hw2. cbn [map concat]. by rewrite <-!app_assoc.
Qed.
End EchoSpec.

(** A text message in two fragments around a ping, a binary one, a close. *)
Lemma echo_relays_witness :
  let bin := [(Some [x01; x02; x03; x04], mk_frame true opcode_binary (str "raw"))] in
  let bye := [(Some [x09; x02; x03; x04], mk_frame true opcode_close (close_payload 1000 []))] in
  exists d', echo_websocket 9 400
      (mk_ws (mk_feeder (mk_wire [encode_frames demo_frames; encode_frames bin; encode_frames bye] [] []) [] false) false) =
    Some (mk_ws d' true) /\
    w_out (fd_source d') = server_frame opcode_pong (str "p") ++ server_frame opcode_text (str "Hello") ++
      server_frame opcode_binary (str "raw") ++ server_frame opcode_close (close_payload 1000 []).
Proof.
  intros bin bye.
  destruct (echo_relays [(demo_frames, mk_message mt_text (str "Hello"), server_frame opcode_pong (str "p"));
      (bin, mk_message mt_binary (str "raw"), [])] (encode_frames bye ++ []) (server_frame opcode_close (close_payload 1000 []))
    (mk_feeder (mk_wire [encode_frames demo_frames; encode_frames bin; encode_frames bye] [] []) [] false) 9 400)
    as (d' & E & Hw).
  - by split.
  - repeat constructor; vm_compute; done.
  - apply EndClose; [done|]. split; vm_compute; [by split|done].
  - vm_compute. reflexivity.
  - apply Nat.ltb_lt. vm_compute. reflexivity.
  - apply Nat.leb_le. vm_compute. reflexivity.
  - exists d'. split; [exact E|]. exact Hw.
Defined.
