(* ===== verification/Nhttpd.v ===== *)
(** * Nhttpd: examples/nhttpd/main.cpp

    The demo server: the extensions it registers on one listener, the routes
    of its REST router with their handlers, its WebSocket echo, its plugin and
    the order in which [main] starts and stops them.

    The handlers capture program state by reference (the plugin's counter, the
    listener they stop).  That state and the tag the plugin attaches to a
    request travel with the request's body, [app_body]; a handler that would
    throw ([captures.at] of a missing name), dereference a missing tag, or
    whose body does not end within the fuel raises [ab_fault], and its response
    then means nothing.  [nhttpd_api_answers] shows that the flag never goes
    up. *)

From S2P Require Import Prelude Bytes Stream Feeder Method Header Resource Mime Route RouteFacts Group Server.
From S2P Require Import VPath Router StaticContent FileExtensions WsConnection WebsocketEndpoint Plugin Connection Listener Address NhttpdEcho.

#[local] Open Scope Z_scope.

(** ** The handlers *)

Record app_body (S : Type) := mk_app {
  ab_body : S;              (** [req.body] *)
  ab_tag : option Z;        (** the request's [hit_count_tag] *)
  ab_hits : Z;              (** [counter_plugin::hits_], a [std::size_t] *)
  ab_stop : bool;           (** [srv.stop()] has been called *)
  ab_fault : bool;
}.
Arguments mk_app {S}.
Arguments ab_body {S}.
Arguments ab_tag {S}.
Arguments ab_hits {S}.
Arguments ab_stop {S}.
Arguments ab_fault {S}.

Section App.
Context {S W F : Type} `{StreamReads S} `{Stream W} `{StreamReads F}.

Abbreviation req_t := (request (app_body S)).
Abbreviation handled := (response W * req_t)%type.
Abbreviation rtarget := (@target req_t handled).
Abbreviation rmiddleware := (@middleware req_t handled).
Abbreviation arena := (list (route_node rtarget rmiddleware)).

Definition with_app (f : app_body S -> app_body S) (req : req_t) : req_t := req_with_body (f (req_body req)) req.

Definition app_fault (b : app_body S) : app_body S := mk_app (ab_body b) (ab_tag b) (ab_hits b) (ab_stop b) true.
Definition app_stopped (b : app_body S) : app_body S := mk_app (ab_body b) (ab_tag b) (ab_hits b) true (ab_fault b).
Definition app_consumed (s : S) (b : app_body S) : app_body S :=
  mk_app s (ab_tag b) (ab_hits b) (ab_stop b) (ab_fault b).

(** [make_response(std::string)]: its mime type is text/html by default. *)
Definition text (t : bytes) : response W := make_response_text t TEXT_HTML.

Definition faulted (req : req_t) : handled := (response_default, with_app app_fault req).

Definition whoami : rtarget := fun req => (text (str "I'm jay."), req).
Definition always_501 : rtarget := fun req => (make_response 501, req).
Definition exit_target : rtarget := fun req => (text (str "server exiting..."), with_app app_stopped req).

Definition counted : rtarget := fun req =>
  match ab_tag (req_body req) with
  | Some v => (text (str "hit #" ++ to_string v), req)
  | None => faulted req
  end.

(** [make_response(route_of(req).captures.at(":user") + suffix)]. *)
Definition user_text (suffix : bytes) : rtarget := fun req =>
  match cm_at (str ":user") (rst_captures (route_of req)) with
  | Some user => (text (user ++ suffix), req)
  | None => faulted req
  end.

Definition profile : rtarget := user_text (str " is ...").
Definition greetings : rtarget := user_text (str " says hi!").
Definition deleted : rtarget := user_text (str " deleted!").

(** The lambdas that read the whole body; [k] answers it. *)
Definition with_whole_body (rf : nat) (k : bytes -> response W) : rtarget := fun req =>
  match read_all rf (ab_body (req_body req)) [] with
  | Some (body, s) => (k body, with_app (app_consumed s) req)
  | None => faulted req
  end.

Definition post_set (rf : nat) : rtarget :=
  with_whole_body rf (fun body => match body with [] => make_response 400 | _ => text body end).
Definition put_set (rf : nat) : rtarget := with_whole_body rf text.

Definition user_allowed (name : bytes) : bool := bytes_eqb name (str "jay") || bytes_eqb name (str "kay").

(** ** counter_plugin *)

Definition size_max : Z := 18446744073709551616.

(** [req.tags.ensure<hit_count_tag>().value = ++hits_]. *)
Definition count_hit (b : app_body S) : app_body S :=
  let hits := (ab_hits b + 1) mod size_max in mk_app (ab_body b) (Some hits) hits (ab_stop b) (ab_fault b).

Definition counter_plugin : plugin req_t Empty_set :=
  mk_plugin (fun req => (None, req)) (fun req => (None, req)) (fun req => (None, with_app count_hit req))
    (fun req => (None, req)).

(** [plugin_scope(counter)] as a middleware of the router: neither the plugin
    nor a target throws, so that every outcome is a response. *)
Definition counter_scope : rmiddleware := fun req next =>
  let '(o, req) := plugin_scope_handle counter_plugin req (fun r => let '(resp, r) := next r in (Returned resp, r)) in
  match o with
  | Returned resp => (resp, req)
  | Threw e => match e : Empty_set return handled with end
  end.

(** ** The routes *)

(** The calls on [api] before its first group. *)
Definition api_plain : arena :=
  let a := router_method_at router_new GET (str "whoami") whoami in
  let a := router_any_at a (str "always-501") always_501 in
  router_method_at a POST (str "exit") exit_target.

(** The bodies of its two groups, run against the group's proxy. *)
Definition counted_group (h : heap rtarget rmiddleware) (inner : facade_ref) : option (heap rtarget rmiddleware) :=
  facade_method_at 1 h inner GET (str "counted") counted.

Definition user_group (rf : nat) (h : heap rtarget rmiddleware) (inner : facade_ref)
  : option (heap rtarget rmiddleware) :=
  h ← facade_method_at 1 h inner GET (str ":user/profile") profile;
  h ← facade_method_at 1 h inner GET (str ":user/greetings") greetings;
  h ← facade_method_at 1 h inner POST (str ":user/set") (post_set rf);
  h ← facade_method_at 1 h inner PUT (str ":user/set") (put_set rf);
  h ← facade_method_at 1 h inner DELETE (str ":user") deleted;
  facade_param 1 h inner (str ":user") user_allowed.

Definition nhttpd_routes (rf : nat) : option (heap rtarget rmiddleware) :=
  '(h, g) ← router_group (mk_heap api_plain []) counted_group;
  h ← facade_prepend 1 h g counter_scope;
  '(h, _) ← router_group h (user_group rf);
  Some h.

(** The trie these calls build ([nhttpd_routes_trie]). *)
Definition entry (m : http_method) (t : rtarget) : method_target_entry rtarget := mk_mte (hm_id m) (hm_name m) t.

Definition leaf (name : bytes) (targets : list (method_target_entry rtarget)) (ms : list rmiddleware)
  : route_node rtarget rmiddleware :=
  mk_node rk_static name None [] [] None targets ms.

Definition nhttpd_trie (rf : nat) : arena :=
  [ mk_node rk_root [] None [2; 4; 3; 1]%nat [5%nat] None [] [];
    leaf (str "whoami") [entry GET whoami] [];
    leaf (str "always-501") (map (fun m => entry m always_501) all_methods) [];
    leaf (str "exit") [entry POST exit_target] [];
    leaf (str "counted") [entry GET counted] [counter_scope];
    mk_node rk_param (str ":user") (Some user_allowed) [7; 6; 8]%nat [] None [entry DELETE deleted] [];
    leaf (str "profile") [entry GET profile] [];
    leaf (str "greetings") [entry GET greetings] [];
    leaf (str "set") [entry POST (post_set rf); entry PUT (put_set rf)] [] ].

(** ** The registry *)
Context (open_file : bytes -> Z -> option F) (stat_file : bytes -> file_info) (overlay_address : nat).

(** [None] of the overlay is the undefined arithmetic of an oversized range. *)
Definition static_files (serve_dir : bytes) : extension (app_body S) W :=
  let base := overlay_base serve_dir in
  mk_extension 268435456
    (overlay_wants overlay_address base (str "index.html") stat_file)
    (fun req =>
       let '(r, req) := overlay_handle open_file overlay_address base (str "index.html") stat_file req in
       match r with Some resp => (resp, req) | None => faulted req end).

(** [on_connect] is [echo_websocket] run to its end on the upgraded wire. *)
Context (on_connect : ws_connection W -> W).

Definition echo_endpoint : extension (app_body S) W := websocket_endpoint (str "/ws") on_connect 2147483648.

Definition api_router (rf : nat) : extension (app_body S) W :=
  router (str "/") 2147483648 [] (match nhttpd_routes rf with Some h => hp_arena h | None => [] end).

(** The three calls of [srv.extends], in their order. *)
Definition nhttpd_extensions (serve_dir : bytes) (rf : nat) : list (extension (app_body S) W) :=
  [static_files serve_dir; echo_endpoint; api_router rf].

Definition nhttpd_registry (serve_dir : bytes) (rf : nat) : list (extension (app_body S) W) :=
  registry_of (nhttpd_extensions serve_dir rf).

(** No [set_handler]. *)
Definition nhttpd_dispatch (serve_dir : bytes) (rf : nat) (req : req_t) : option handled :=
  listener_dispatch (nhttpd_registry serve_dir rf) None req.
End App.

(** ** Specification of the REST API *)

(** The segments of a path as the router consumes them: one slash is dropped
    before each, none after the last. *)
Fixpoint path_segments (fuel : nat) (path : bytes) : list bytes :=
  match fuel with
  | O => []
  | S f =>
      match strip_slash path with
      | [] => []
      | p => let '(seg, rest) := first_segment p in seg :: path_segments f rest
      end
  end.

Definition segments (path : bytes) : list bytes := path_segments (S (length path)) path.

Inductive api_answer := AText (t : bytes) | ACode (code : Z) | ACount | AExit | ASet (empty_allowed : bool).

Definition on (want : http_method_id) (a : api_answer) (m : http_method_id) : api_answer :=
  if bool_decide (m = want) then a else ACode 405.

(** The resources below a user's name. *)
Definition user_spec (user seg : bytes) (m : http_method_id) : api_answer :=
  if bytes_eqb seg (str "profile") then on id_get (AText (user ++ str " is ...")) m
  else if bytes_eqb seg (str "greetings") then on id_get (AText (user ++ str " says hi!")) m
  else if bytes_eqb seg (str "set") then
    match m with id_post => ASet false | id_put => ASet true | _ => ACode 405 end
  else ACode 404.

Definition api_spec (m : http_method_id) (segs : list bytes) : api_answer :=
  match segs with
  | [seg] =>
      if bytes_eqb seg (str "whoami") then on id_get (AText (str "I'm jay.")) m
      else if bytes_eqb seg (str "always-501") then
        match m with id_custom | id_trace | id_connect => ACode 405 | _ => ACode 501 end
      else if bytes_eqb seg (str "exit") then on id_post AExit m
      else if bytes_eqb seg (str "counted") then on id_get ACount m
      else if user_allowed seg then on id_del (AText (seg ++ str " deleted!")) m
      else ACode 404
  | [user; seg] => if user_allowed user then user_spec user seg m else ACode 404
  | _ => ACode 404
  end.

(** What an answer is, as a response and a change of the program's state. *)
Definition answers {S W} `{StreamReads S} (rf : nat) (a : api_answer) (b : app_body S) (resp : response W) (b' : app_body S)
  : Prop :=
  match a with
  | AText t => resp = text t /\ b' = b
  | ACode c => resp = make_response c /\ b' = b
  | ACount => resp = text (str "hit #" ++ to_string ((ab_hits b + 1) mod size_max)) /\ b' = count_hit b
  | AExit => resp = text (str "server exiting...") /\ b' = app_stopped b
  | ASet empty_allowed =>
      resp = (if bytes_eqb (st_data (ab_body b)) [] && negb empty_allowed then make_response 400
              else text (st_data (ab_body b))) /\
      exists s, read_all rf (ab_body b) [] = Some (st_data (ab_body b), s) /\ b' = app_consumed s b /\ st_data s = []
  end.

(** ** Matching a path against the trie *)
Section Trie.
Context {target middleware : Type}.
Implicit Types (a : list (route_node target middleware)).

Lemma find_static_child_find a n seg :
  StronglySorted (name_lt a) (rn_statics (node a n)) ->
  find_static_child a n seg = find (fun c => bytes_eqb (name_of a c) seg) (rn_statics (node a n)).
Proof.
  intros Hs. destruct (find _ _) as [c|] eqn:E.
  - apply find_some in E as [Hin Hn%bytes_eqb_true]. apply find_static_child_spec; [done|].
    split; [by apply list_elem_of_In|done].
  - destruct (find_static_child a n seg) as [c|] eqn:Ef; [|done].
    apply find_static_child_spec in Ef as [Hin%list_elem_of_In Hn]; [|done].
    pose proof (find_none _ _ E _ Hin) as Hf. cbn in Hf. rewrite Hn, bytes_eqb_refl in Hf. done.
Qed.

(** A node without children matches the end of the path only. *)
Lemma match_leaf f a n st path :
  (0 < f)%nat -> rn_statics (node a n) = [] -> rn_params (node a n) = [] -> rn_wildcard (node a n) = None ->
  route_match f a n st path =
  Some (if bytes_eqb (strip_slash path) [] then (Some n, st) else (None, descend st)).
Proof.
  intros Hf Hs Hp Hw. destruct f as [|f]; [lia|]. rewrite route_match_eq. cbv zeta. case_if; [done|].
  destruct (first_segment _) as [seg rest]. unfold find_static_child. by rewrite Hs, Hp, Hw.
Qed.
End Trie.

Lemma path_segments_eq f path :
  path_segments (S f) path =
  if bytes_eqb (strip_slash path) [] then []
  else (first_segment (strip_slash path)).1 :: path_segments f (first_segment (strip_slash path)).2.
Proof. cbn [path_segments]. destruct (strip_slash path); [done|]. by destruct (first_segment _). Qed.

Lemma path_segments_nil f path : (0 < f)%nat -> path_segments f path = [] <-> bytes_eqb (strip_slash path) [] = true.
Proof. destruct f; [lia|]. intros _. rewrite path_segments_eq. by case_if. Qed.

Lemma rest_shorter path f :
  (length path < S f)%nat -> bytes_eqb (strip_slash path) [] = false ->
  (length (first_segment (strip_slash path)).2 < f)%nat.
Proof.
  intros Hf Hp. apply bytes_eqb_false in Hp. pose proof (first_segment_shorter _ Hp).
  pose proof (strip_slash_length path). lia.
Qed.

(** ** The router *)
Section Api.
Context {S W : Type} `{StreamReads S} `{Stream W} (rf : nat).

Abbreviation trie := (nhttpd_trie (S := S) (W := W) rf).

(** The registration calls of [main] build exactly [nhttpd_trie]. *)
Lemma nhttpd_routes_trie :
  hp_arena <$> nhttpd_routes (S := S) (W := W) rf = Some trie.
Proof. reflexivity. Qed.

Definition root_statics : list nat := [2; 4; 3; 1]%nat.
Definition user_statics : list nat := [7; 6; 8]%nat.

Definition among (ids : list nat) (seg : bytes) : option nat :=
  find (fun c => bytes_eqb (name_of trie c) seg) ids.

Lemma trie_static n seg :
  n = 0%nat \/ n = 5%nat -> find_static_child trie n seg = among (rn_statics (node trie n)) seg.
Proof.
  intros [-> | ->]; apply find_static_child_find; repeat constructor.
Qed.

(** The node a list of segments leads to. *)
Definition trie_node (segs : list bytes) : option nat :=
  match segs with
  | [] => Some 0%nat
  | [seg] => match among root_statics seg with
             | Some c => Some c
             | None => if user_allowed seg then Some 5%nat else None
             end
  | [user; seg] => if user_allowed user then among user_statics seg else None
  | _ => None
  end.

Lemma among_root_user seg : user_allowed seg = true -> among root_statics seg = None.
Proof.
  unfold user_allowed. rewrite orb_true_iff, !bytes_eqb_true. by intros [-> | ->].
Qed.

Lemma among_root_leaf seg c : among root_statics seg = Some c ->
  rn_statics (node trie c) = [] /\ rn_params (node trie c) = [] /\ rn_wildcard (node trie c) = None.
Proof.
  intros [Hin _]%find_some. cbn in Hin. by repeat destruct Hin as [<-|Hin].
Qed.

Lemma among_user_leaf seg c : among user_statics seg = Some c ->
  rn_statics (node trie c) = [] /\ rn_params (node trie c) = [] /\ rn_wildcard (node trie c) = None.
Proof.
  intros [Hin _]%find_some. cbn in Hin. by repeat destruct Hin as [<-|Hin].
Qed.

(** Below the parameter: its own end, or one of its three children. *)
Lemma match_user f path st :
  (length path < f)%nat ->
  exists st', route_match f trie 5 st path =
    Some (match path_segments f path with
          | [] => Some 5%nat | [seg] => among user_statics seg | _ => None end, st') /\
    rst_captures st' = rst_captures st.
Proof.
  intros Hf. destruct f as [|f]; [lia|]. rewrite route_match_eq, path_segments_eq. cbv zeta.
  destruct (bytes_eqb (strip_slash path) []) eqn:Ep; [by exists st|].
  pose proof (rest_shorter path f Hf Ep) as Hr.
  destruct (first_segment (strip_slash path)) as [seg rest]. cbn [fst snd] in *.
  rewrite trie_static by auto. change (rn_statics (node trie 5)) with user_statics.
  change (rn_params (node trie 5)) with (@nil nat). change (rn_wildcard (node trie 5)) with (@None nat).
  cbn [best_param].
  destruct (among user_statics seg) as [c|] eqn:Ec; [|exists (descend st); by destruct (path_segments f rest)].
  destruct (among_user_leaf _ _ Ec) as (Ls & Lp & Lw). rewrite match_leaf by (done || lia).
  pose proof (path_segments_nil f rest ltac:(lia)) as Hn.
  destruct (bytes_eqb (strip_slash rest) []).
  - rewrite (proj2 Hn) by done. by exists (descend st).
  - exists (descend st). destruct (path_segments f rest) as [|x r] eqn:E; [by discriminate (proj1 Hn eq_refl)|done].
Qed.

Lemma match_trie f path :
  (length path < f)%nat ->
  exists st', route_match f trie 0 route_state_init path = Some (trie_node (path_segments f path), st') /\
    forall n, trie_node (path_segments f path) = Some n -> (5 <= n)%nat ->
      cm_at (str ":user") (rst_captures st') = head (path_segments f path).
Proof.
  intros Hf. destruct f as [|f]; [lia|]. rewrite route_match_eq, path_segments_eq. cbv zeta.
  destruct (bytes_eqb (strip_slash path) []) eqn:Ep.
  { exists route_state_init. split; [done|]. intros n [= <-]. lia. }
  pose proof (rest_shorter path f Hf Ep) as Hr.
  destruct (first_segment (strip_slash path)) as [seg rest]. cbn [fst snd] in *.
  rewrite trie_static by auto. change (rn_statics (node trie 0)) with root_statics.
  change (rn_params (node trie 0)) with [5%nat]. change (rn_wildcard (node trie 0)) with (@None nat).
  cbn [best_param]. change (accepts trie 5 seg) with (user_allowed seg).
  destruct (user_allowed seg) eqn:Eu.
  - rewrite among_root_user by done. change (name_of trie 5) with (str ":user").
    destruct (match_user f rest (capture (str ":user") seg (descend route_state_init)) Hr) as (st' & E & Hc).
    unfold capture in E. rewrite E. cbn [trie_node head]. rewrite ?Eu.
    assert (among root_statics seg = None) as Hnone by (by apply among_root_user).
    destruct (path_segments f rest) as [|x [|y r]]; cbn [deeper trie_node]; rewrite ?Hnone, ?Eu.
    + exists st'. split; [done|]. intros _ _ _. by rewrite Hc.
    + destruct (among user_statics x); eexists; (split; [done|]); [|done]. intros _ _ _. by rewrite Hc.
    + by eexists.
  - destruct (among root_statics seg) as [c|] eqn:Ec.
    2:{ exists (descend route_state_init). destruct (path_segments f rest) as [|x [|y r]]; cbn [trie_node]; rewrite ?Ec, ?Eu; done. }
    destruct (among_root_leaf _ _ Ec) as (Ls & Lp & Lw). rewrite match_leaf by (done || lia).
    pose proof (path_segments_nil f rest ltac:(lia)) as Hn. exists (descend route_state_init).
    destruct (path_segments f rest) as [|x r] eqn:E.
    + rewrite (proj1 Hn) by done. cbn [trie_node]. rewrite Ec. split; [done|].
      intros n [= <-] Hge. apply find_some in Ec as [Hin _]. cbn in Hin. lia.
    + destruct (bytes_eqb (strip_slash rest) []); [by discriminate (proj2 Hn eq_refl)|].
      destruct r; cbn [trie_node]; by rewrite ?Eu.
Qed.

(** ** Running the matched target *)

(** What the router does with a matched node. *)
Definition at_node (n : nat) (req : request (app_body S)) : option (response W) * request (app_body S) :=
  match get_target trie n (req_method req) with
  | None => if has_any_target trie n then (Some (make_response 405), req) else (None, req)
  | Some t => let '(resp, req) := compose (rn_middlewares (node trie n)) t req in (Some resp, req)
  end.

(** What handlers leave of a request. *)
Definition kept {B} (req req' : request B) : Prop :=
  req_resource req' = req_resource req /\ req_headers req' = req_headers req /\ req_tags req' = req_tags req.

(** [at_node] carries out an answer on a request and keeps its mounts. *)
Definition serves (n : nat) (a : api_answer) (req : request (app_body S)) : Prop :=
  exists resp req', at_node n req = (Some resp, req') /\ answers rf a (req_body req) resp (req_body req') /\
    kept req req'.

Context (req : request (app_body S)).
Hypothesis (Hok : st_ok (ab_body (req_body req))) (Hlen : (length (st_data (ab_body (req_body req))) < rf)%nat).

#[local] Ltac one_method := unfold serves, at_node, on, get_target;
  destruct (hm_id (req_method req)); eexists _, _; (split; [reflexivity|by repeat split]).

Lemma serves_whoami : serves 1 (on id_get (AText (str "I'm jay.")) (hm_id (req_method req))) req.
Proof. one_method. Qed.

Lemma serves_501 :
  serves 2 (match hm_id (req_method req) with id_custom | id_trace | id_connect => ACode 405 | _ => ACode 501 end) req.
Proof. one_method. Qed.

Lemma serves_exit : serves 3 (on id_post AExit (hm_id (req_method req))) req.
Proof. one_method. Qed.

Lemma serves_counted : serves 4 (on id_get ACount (hm_id (req_method req))) req.
Proof. one_method. Qed.

(** One registered target without middlewares. *)
Lemma serves_by n t a resp req' :
  get_target trie n (req_method req) = Some t -> rn_middlewares (node trie n) = [] -> t req = (resp, req') ->
  answers rf a (req_body req) resp (req_body req') /\ kept req req' -> serves n a req.
Proof. intros Ht Hm E Ha. exists resp, req'. unfold at_node. rewrite Ht, Hm. cbn [compose foldr]. by rewrite E. Qed.

Lemma user_text_answers suffix (r : request (app_body S)) user :
  cm_at (str ":user") (rst_captures (route_of r)) = Some user ->
  user_text (W := W) suffix r = (text (user ++ suffix), r).
Proof. unfold user_text. by intros ->. Qed.

Section User.
Context (user : bytes) (Hu : cm_at (str ":user") (rst_captures (route_of req)) = Some user).

#[local] Ltac user_method := unfold on; destruct (hm_id (req_method req)) eqn:Em;
  first [ by (unfold serves, at_node, get_target; rewrite Em; eexists _, _; (split; [reflexivity|by repeat split]))
        | eapply serves_by; [unfold get_target; rewrite Em; reflexivity|reflexivity| |];
          [apply (user_text_answers _ _ _ Hu)|by repeat split] ].

Lemma serves_deleted : serves 5 (on id_del (AText (user ++ str " deleted!")) (hm_id (req_method req))) req.
Proof. user_method. Qed.

Lemma serves_profile : serves 6 (on id_get (AText (user ++ str " is ...")) (hm_id (req_method req))) req.
Proof. user_method. Qed.

Lemma serves_greetings : serves 7 (on id_get (AText (user ++ str " says hi!")) (hm_id (req_method req))) req.
Proof. user_method. Qed.
End User.

Lemma whole_body_answers (k : bytes -> response W) :
  exists s, with_whole_body rf k req = (k (st_data (ab_body (req_body req))), with_app (app_consumed s) req) /\
    read_all rf (ab_body (req_body req)) [] = Some (st_data (ab_body (req_body req)), s) /\ st_data s = [].
Proof.
  destruct (read_all_spec rf _ [] Hok Hlen) as (s & E & _ & Hs). unfold with_whole_body. rewrite E.
  by exists s.
Qed.

Lemma serves_set :
  serves 8 (match hm_id (req_method req) with id_post => ASet false | id_put => ASet true | _ => ACode 405 end) req.
Proof.
  destruct (hm_id (req_method req)) eqn:Em;
    try (unfold serves, at_node, get_target; rewrite Em; eexists _, _; (split; [reflexivity|by repeat split])).
  - destruct (whole_body_answers (fun body => match body with [] => make_response 400 | _ => text body end))
      as (s & E & Hr & Hs).
    eapply serves_by; [unfold get_target; rewrite Em; reflexivity|reflexivity|apply E|].
    split; [|done]. split; [|by exists s]. by destruct (st_data (ab_body (req_body req))).
  - destruct (whole_body_answers text) as (s & E & Hr & Hs).
    eapply serves_by; [unfold get_target; rewrite Em; reflexivity|reflexivity|apply E|].
    split; [|done]. split; [|by exists s]. by rewrite andb_false_r.
Qed.

(** The whole dispatch of the router. *)
#[local] Ltac one_name seg name :=
  destruct (bytes_eqb seg (str name)) eqn:?; [by rewrite (proj1 (bytes_eqb_true seg _) ltac:(eassumption))|].

#[local] Ltac no_name seg :=
  destruct (among _ seg) as [c|] eqn:Ec; [|done]; exfalso; unfold among in Ec;
  apply find_some in Ec as [Hin Hn%bytes_eqb_true]; subst seg;
  repeat destruct Hin as [<-|Hin]; done.

Lemma among_root seg :
  among root_statics seg =
  if bytes_eqb seg (str "whoami") then Some 1%nat else if bytes_eqb seg (str "always-501") then Some 2%nat
  else if bytes_eqb seg (str "exit") then Some 3%nat else if bytes_eqb seg (str "counted") then Some 4%nat else None.
Proof.
  one_name seg "whoami"%string. one_name seg "always-501"%string. one_name seg "exit"%string.
  one_name seg "counted"%string. no_name seg.
Qed.

Lemma among_user seg :
  among user_statics seg =
  if bytes_eqb seg (str "profile") then Some 6%nat else if bytes_eqb seg (str "greetings") then Some 7%nat
  else if bytes_eqb seg (str "set") then Some 8%nat else None.
Proof.
  one_name seg "profile"%string. one_name seg "greetings"%string. one_name seg "set"%string. no_name seg.
Qed.

(** A matched node other than the root answers as specified. *)
Lemma node_serves segs n :
  trie_node segs = Some n -> segs <> [] ->
  ((5 <= n)%nat -> cm_at (str ":user") (rst_captures (route_of req)) = head segs) ->
  serves n (api_spec (hm_id (req_method req)) segs) req.
Proof.
  intros Hn Hne Hu. destruct segs as [|seg [|x [|y r]]]; [done|..|done]; cbn [trie_node head api_spec] in *.
  - rewrite among_root in Hn.
    destruct (bytes_eqb seg (str "whoami")); [injection Hn as <-; apply serves_whoami|].
    destruct (bytes_eqb seg (str "always-501")); [injection Hn as <-; apply serves_501|].
    destruct (bytes_eqb seg (str "exit")); [injection Hn as <-; apply serves_exit|].
    destruct (bytes_eqb seg (str "counted")); [injection Hn as <-; apply serves_counted|].
    destruct (user_allowed seg); [|done]. injection Hn as <-. apply serves_deleted. by apply Hu.
  - destruct (user_allowed seg); [|done]. rewrite among_user in Hn. unfold user_spec.
    destruct (bytes_eqb x (str "profile")); [injection Hn as <-; apply serves_profile, Hu; lia|].
    destruct (bytes_eqb x (str "greetings")); [injection Hn as <-; apply serves_greetings, Hu; lia|].
    destruct (bytes_eqb x (str "set")); [injection Hn as <-; apply serves_set|done].
Qed.

(** Paths without a node, and the root, are not found. *)
Lemma trie_node_none m segs : trie_node segs = None -> api_spec m segs = ACode 404.
Proof.
  destruct segs as [|seg [|x [|y r]]]; cbn [trie_node api_spec]; [done|..|done].
  - rewrite among_root. repeat (case_match; try done).
  - destruct (user_allowed seg); [|done]. rewrite among_user. unfold user_spec. by repeat (case_match; try done).
Qed.
End Api.

Lemma router_answers {S W} `{StreamReads S} `{Stream W} rf (req : request (app_body S)) :
  st_ok (ab_body (req_body req)) -> (length (st_data (ab_body (req_body req))) < rf)%nat ->
  exists r req', router_on_handle (W := W) (nhttpd_trie rf) req = (r, req') /\
    answers rf (api_spec (hm_id (req_method req)) (segments (subpath_of req))) (req_body req)
      (default (make_response 404) r) (req_body req') /\
    subpaths req' = subpaths req /\ req_resource req' = req_resource req /\ req_headers req' = req_headers req.
Proof.
  intros Hok Hlen. unfold router_on_handle. change root with 0%nat.
  destruct (match_trie (S := S) (W := W) rf _ (subpath_of req) (Nat.lt_succ_diag_r _)) as (st & E & Hu).
  rewrite E. fold (segments (subpath_of req)) in *. set (segs := segments (subpath_of req)) in *.
  destruct (trie_node rf segs) as [n|] eqn:En.
  2:{ rewrite (trie_node_none _ _ _ En). by exists None, req. }
  destruct segs as [|seg segs'] eqn:Es.
  { injection En as <-. exists None, (with_route st req). split; [reflexivity|by split]. }
  destruct (node_serves rf (with_route st req) Hok Hlen _ n En) as (resp & req' & Eh & Ha & Ht);
    [done|intros; by apply (Hu n)|].
  exists (Some resp), req'. destruct Ht as (Hr1 & Hh1 & Ht).
  split_and!; [|exact Ha|unfold subpaths; by rewrite Ht|exact Hr1|exact Hh1].
  rewrite <-Eh. unfold at_node. destruct (get_target _ n _); [|done]. by rewrite stack_handle_compose.
Qed.

(** ** The server's answers *)
Section Dispatch.
Context {S W F : Type} `{StreamReads S} `{Stream W} `{StreamReads F}.
Context (open_file : bytes -> Z -> option F) (stat_file : bytes -> file_info) (overlay_address : nat).
Context (on_connect : ws_connection W -> W) (serve_dir : bytes) (rf : nat).
Implicit Types (req : request (app_body S)).

Abbreviation files := (static_files (S := S) (W := W) open_file stat_file overlay_address serve_dir).
Abbreviation dispatch_to := (nhttpd_dispatch (S := S) open_file stat_file overlay_address on_connect serve_dir rf).

(** The endpoint and the router share one priority: the endpoint comes first
    because it is registered first. *)
Lemma nhttpd_registry_order :
  nhttpd_registry (S := S) open_file stat_file overlay_address on_connect serve_dir rf =
  [files; echo_endpoint on_connect; api_router rf].
Proof. reflexivity. Qed.

(** Registered the other way round, the endpoint would never be asked. *)
Lemma late_endpoint_unreachable req :
  dispatch (registry_of [api_router rf; echo_endpoint on_connect]) req =
  (Some (ext_handle (api_router (W := W) rf) req).1, (ext_handle (api_router (W := W) rf) req).2).
Proof.
  change (registry_of [api_router rf; echo_endpoint on_connect]) with [api_router (S := S) rf; echo_endpoint on_connect].
  cbn [dispatch]. change (ext_wants (api_router rf) req) with (true, req). cbv iota beta.
  by destruct (ext_handle (api_router rf) req).
Qed.

Lemma api_handle req :
  st_ok (ab_body (req_body req)) -> (length (st_data (ab_body (req_body req))) < rf)%nat ->
  exists resp req', ext_handle (api_router (W := W) rf) req = (resp, req') /\
    answers rf (api_spec (hm_id (req_method req)) (segments (vpath_remainder (str "/") (subpath_of req))))
      (req_body req) resp (req_body req') /\
    subpaths req' = subpaths req /\ req_resource req' = req_resource req /\ req_headers req' = req_headers req.
Proof.
  intros Hok Hlen.
  destruct (router_answers (W := W) rf (vpath_enter (str "/") req) Hok Hlen) as (r & req' & E & Ha & Hs & Hr & Hh).
  rewrite subpath_enter in Ha.
  assert (ext_handle (api_router rf) req = (default (make_response 404) r, vpath_leave req')) as ->.
  { change (ext_handle (api_router rf) req) with
      (let '(result, q) := router_on_handle (W := W) (nhttpd_trie rf) (vpath_enter (str "/") req) in
       (match result with Some x => x | None => make_response 404 end, vpath_leave q)).
    rewrite E. by destruct r. }
  eexists _, _. split; [reflexivity|]. split; [exact Ha|].
  split; [|exact (conj Hr Hh)].
  unfold vpath_leave. rewrite subpaths_with, Hs. unfold vpath_enter. rewrite subpaths_with. apply removelast_snoc.
Qed.

(** Asking the overlay leaves the request alone but for its cache. *)
Lemma files_wants_keeps req on_disk req1 :
  req_tags req = tags_empty -> ext_wants files req = (on_disk, req1) ->
  req_resource req1 = req_resource req /\ req_headers req1 = req_headers req /\
  req_body req1 = req_body req /\ subpaths req1 = [].
Proof.
  intros Htags. cbn [static_files ext_wants]. unfold overlay_wants, overlay_resolve. rewrite Htags. cbn.
  repeat (case_match; simplify_eq; try done); intros [= _ <-]; unfold subpaths; cbn; by rewrite ?Htags.
Qed.

(** The three extensions are asked in this order, and the router takes the rest. *)
Lemma dispatch_cases req on_disk req1 :
  req_tags req = tags_empty -> ext_wants files req = (on_disk, req1) ->
  dispatch_to req =
  Some (if on_disk then ext_handle files req1
        else if (websocket_wants (str "/ws") req).1 then websocket_handle (W := W) on_connect req1
        else ext_handle (api_router rf) req1).
Proof.
  intros Htags Ew. destruct (files_wants_keeps _ _ _ Htags Ew) as (Hr & Hh & _).
  unfold nhttpd_dispatch, listener_dispatch.
  change (nhttpd_registry open_file stat_file overlay_address on_connect serve_dir rf)
    with [files; echo_endpoint on_connect; api_router rf]. cbn [dispatch]. rewrite Ew.
  destruct on_disk; [by destruct (ext_handle files req1)|].
  assert (ext_wants (echo_endpoint on_connect) req1 = ((websocket_wants (str "/ws") req).1, req1)) as ->.
  { cbn. unfold websocket_wants, req_method, req_path. by rewrite Hr, Hh. }
  destruct (websocket_wants (str "/ws") req).1.
  { change (ext_handle (echo_endpoint on_connect) req1) with (websocket_handle on_connect req1).
    by destruct (websocket_handle on_connect req1). }
  change (ext_wants (api_router rf) req1) with (true, req1). cbv iota beta.
  by destruct (ext_handle (api_router rf) req1).
Qed.

(** A request the overlay and the endpoint leave to the router. *)
Lemma api_dispatch req :
  req_tags req = tags_empty -> st_ok (ab_body (req_body req)) ->
  (length (st_data (ab_body (req_body req))) < rf)%nat ->
  (ext_wants files req).1 = false -> (websocket_wants (str "/ws") req).1 = false ->
  exists resp req', dispatch_to req = Some (resp, req') /\
    answers rf (api_spec (hm_id (req_method req)) (segments (vpath_remainder (str "/") (req_path req))))
      (req_body req) resp (req_body req') /\
    ab_fault (req_body req') = ab_fault (req_body req) /\ subpaths req' = [] /\
    req_resource req' = req_resource req /\ req_headers req' = req_headers req.
Proof.
  intros Htags Hok Hlen Hf Hw. destruct (ext_wants files req) as [on_disk req1] eqn:Ew. cbn in Hf. subst on_disk.
  destruct (files_wants_keeps _ _ _ Htags Ew) as (Hr & Hh & Hb & Hs).
  rewrite (dispatch_cases _ _ _ Htags Ew), Hw.
  destruct (api_handle req1) as (resp & req' & -> & Ha & Hs' & Hr' & Hh'); [by rewrite Hb..|].
  assert (subpath_of req1 = req_path req) as Hp by (unfold subpath_of, req_path; by rewrite Hs, Hr).
  rewrite Hp, Hb in Ha. unfold req_method in Ha. rewrite Hr in Ha.
  exists resp, req'. split_and!; [done|done| |congruence..].
  revert Ha. unfold req_method. destruct (api_spec _ _); cbn; [by intros [_ ->]..|]. by intros [_ (s & _ & -> & _)].
Qed.

(** C10: The demo server end to end: every request is answered, a GET or HEAD whose path names a
    served file by the file overlay, a WebSocket upgrade of /ws by the echo endpoint, and any
    other request by the REST API exactly as its table says (routes, methods, the :user
    predicate, the counter's middleware, 404 and 405), with the state the handlers share
    changed accordingly, no handler failing, and the virtual-path stack restored. *)
Theorem nhttpd_api_answers req :
  req_tags req = tags_empty -> st_ok (ab_body (req_body req)) ->
  (length (st_data (ab_body (req_body req))) < rf)%nat ->
  let '(on_disk, req1) := ext_wants files req in
  if on_disk then dispatch_to req = Some (ext_handle files req1)
  else if (websocket_wants (str "/ws") req).1 then
    dispatch_to req = Some (websocket_handle (W := W) on_connect req1)
  else
    exists resp req', dispatch_to req = Some (resp, req') /\
      answers rf (api_spec (hm_id (req_method req)) (segments (vpath_remainder (str "/") (req_path req))))
        (req_body req) resp (req_body req') /\
      ab_fault (req_body req') = ab_fault (req_body req) /\ subpaths req' = [] /\
      req_resource req' = req_resource req /\ req_headers req' = req_headers req.
Proof.
  intros Htags Hok Hlen. destruct (ext_wants files req) as [on_disk req1] eqn:Ew.
  destruct on_disk; [by rewrite (dispatch_cases _ _ _ Htags Ew)|].
  destruct (websocket_wants (str "/ws") req).1 eqn:Hw; [by rewrite (dispatch_cases _ _ _ Htags Ew), Hw|].
  apply api_dispatch; [done..| |done]. by rewrite Ew.
Qed.
End Dispatch.

(** ** main *)
Section Main.

(** [std::atoi]: blanks, a sign, digits up to the first other character; a
    number outside [int] is undefined. *)
Definition is_blank (c : byte) : bool := (b2z c =? 32) || (9 <=? b2z c) && (b2z c <=? 13).

Fixpoint leading_digits (s : bytes) : bytes :=
  match s with c :: r => if is_digit c then c :: leading_digits r else [] | [] => [] end.

Definition atoi (s : bytes) : option Z :=
  let s := trim_front is_blank s in
  let '(negative, s) :=
    match s with
    | c :: r => if Byte.eqb c "-" then (true, r) else if Byte.eqb c "+" then (false, r) else (false, s)
    | [] => (false, s)
    end in
  match parse_i64 0 (leading_digits s) with
  | Num v =>
      let v := if (negative : bool) then - v else v in
      if (-2147483648 <=? v) && (v <=? 2147483647) then Some v else None
  | _ => None
  end.

Definition to_u16 (v : Z) : Z := v mod 65536.

(** [argv], the program's name included. *)
Definition serve_dir_of (argv : list bytes) : bytes := default (str ".") (argv !! 1%nat).

Definition port_of (argv : list bytes) : option Z :=
  match argv !! 2%nat with Some s => to_u16 <$> atoi s | None => Some 8080 end.

(** What the platform answers: the sockets of the k-th call that binds, the
    number of workers, whether a certificate and its key load. *)
Record platform_outcomes := mk_outcomes {
  po_binder : nat -> binder;
  po_workers : nat;
  po_certificate : bytes -> bytes -> bool;
}.

(** What a run of the program does, in order. *)
Inductive main_event :=
| Bound (tls : bool) (ep : endpoint)
| PluginInit
| Served                                (** [srv.run()], until it is stopped *)
| PluginDeinit.

(** The life-cycle hooks of [counter_plugin], which only report themselves. *)
Definition counter_life : plugin (list main_event) Empty_set :=
  mk_plugin (fun log => (None, log ++ [PluginInit])) (fun log => (None, log ++ [PluginDeinit]))
    (fun log => (None, log)) (fun log => (None, log)).

Definition plugins : list (plugin (list main_event) Empty_set) := attach counter_life [].

Definition bound (o : platform_outcomes) (k : nat) (port : Z) : bool :=
  (listen (po_binder o k) (po_workers o) port).1.1.

(** The HTTPS listener of [argc > 4]; [None] is the failed listen. *)
Definition main_tls (o : platform_outcomes) (argv : list bytes) (port : Z) : option (list main_event) :=
  match argv !! 3%nat, argv !! 4%nat with
  | Some cert, Some key =>
      let tls_port := to_u16 (port + 1) in
      if (listen_tls (po_binder o 2) (po_certificate o cert key) (po_workers o) tls_port).1.1
      then Some [Bound true (mk_ep loopback_v4 tls_port)] else None
  | _, _ => Some []
  end.

(** The exit code and the events; the outer [None] is [atoi]'s undefined
    case, the inner one a plugin that ended the process. *)
Definition main (o : platform_outcomes) (argv : list bytes) : option (option Z * list main_event) :=
  port ← port_of argv;
  let v4 := mk_ep loopback_v4 port in
  let v6 := mk_ep loopback_v6 port in
  if negb (bound o 0 port) then Some (Some 1, [])
  else if negb (bound o 1 port) then Some (Some 1, [Bound false v4])
  else
    let log := [Bound false v4; Bound false v6] in
    match main_tls o argv port with
    | None => Some (Some 1, log)
    | Some tls =>
        match init_all plugins (log ++ tls) with
        | Terminated => Some (None, log ++ tls)
        | Completed log =>
            let log := log ++ [Served] in
            match deinit_all plugins log with
            | Terminated => Some (None, log)
            | Completed log => Some (Some 0, log)
            end
        end
    end.
End Main.

(** The program exits with 1 before it serves anything when a socket cannot be
    bound, and otherwise serves between the plugin's two hooks. *)
Lemma main_order o argv port :
  port_of argv = Some port ->
  let ready := [Bound false (mk_ep loopback_v4 port); Bound false (mk_ep loopback_v6 port)] in
  match main_tls o argv port with
  | Some tls =>
      if bound o 0 port && bound o 1 port
      then main o argv = Some (Some 0, ready ++ tls ++ [PluginInit; Served; PluginDeinit])
      else exists log, main o argv = Some (Some 1, log) /\ Served ∉ log
  | None => exists log, main o argv = Some (Some 1, log) /\ Served ∉ log
  end.
Proof.
  intros Hp ready. unfold main. rewrite Hp. cbn [mbind option_bind].
  destruct (bound o 0 port), (bound o 1 port), (main_tls o argv port) as [tls|]; cbn [negb andb];
    try (eexists; split; [reflexivity|set_solver]).
  cbn. do 2 f_equal. unfold ready. by rewrite <-!app_assoc.
Qed.

(** A port is taken modulo 2^16: TLS on top of port 65535 asks for port 0,
    that is, for any free port. *)
Lemma tls_port_wraps o cert key :
  main_tls o [str "nhttpd"; str "."; str "65535"; cert; key] 65535 =
  if (listen_tls (po_binder o 2) (po_certificate o cert key) (po_workers o) 0).1.1
  then Some [Bound true (mk_ep loopback_v4 0)] else None.
Proof. reflexivity. Qed.

Lemma port_examples :
  port_of [] = Some 8080 /\ port_of [str "nhttpd"; str "www"; str " +443x"] = Some 443 /\
  port_of [str "nhttpd"; str "www"; str "-1"] = Some 65535 /\ port_of [str "nhttpd"; str "www"; str "99999999999"] = None.
Proof. by vm_compute. Qed.

(** ** The counter over several requests *)
Section Session.
Context {S W F : Type} `{StreamReads S} `{Stream W} `{StreamReads F}.
Context (open_file : bytes -> Z -> option F) (stat_file : bytes -> file_info) (overlay_address : nat).
Context (on_connect : ws_connection W -> W) (serve_dir : bytes) (rf : nat).

Abbreviation serve := (nhttpd_dispatch (S := S) open_file stat_file overlay_address on_connect serve_dir rf).

(** A request as a connection makes it, in the program's present state: the
    counter and whether the server was stopped. *)
Definition fresh_request (hits : Z) (stopped : bool) (r : http_resource) (hs : http_headers) (s : S)
  : request (app_body S) :=
  mk_request r hs (mk_app s None hits stopped false) (str "localhost") tags_empty.

(** The answers to successive requests. *)
Fixpoint session (hits : Z) (stopped : bool) (reqs : list (http_resource * http_headers * S))
  : list (response W) * Z * bool :=
  match reqs with
  | [] => ([], hits, stopped)
  | (r, hs, s) :: todo =>
      match serve (fresh_request hits stopped r hs s) with
      | Some (resp, req) =>
          let '(resps, hits, stopped) := session (ab_hits (req_body req)) (ab_stop (req_body req)) todo in
          (resp :: resps, hits, stopped)
      | None => ([], hits, stopped)
      end
  end.

Definition counted_request (q : http_resource * http_headers * S) : Prop :=
  let '(r, hs, s) := q in
  hm_id (hr_method r) = id_get /\ segments (vpath_remainder (str "/") (hr_path r)) = [str "counted"] /\
  st_ok s /\ (length (st_data s) < rf)%nat.

(** Successive requests for /counted get successive numbers, provided no file
    of that name is served. *)
Lemma counted_numbers (reqs : list (http_resource * http_headers * S)) hits stopped :
  Forall counted_request reqs ->
  Forall (fun '(r, hs, s) => forall h b,
    (ext_wants (static_files (W := W) open_file stat_file overlay_address serve_dir) (fresh_request h b r hs s)).1 = false /\
    (websocket_wants (str "/ws") (fresh_request h b r hs s)).1 = false) reqs ->
  0 <= hits -> hits + Z.of_nat (length reqs) < size_max ->
  session hits stopped reqs =
  (imap (fun i _ => text (str "hit #" ++ to_string (hits + Z.of_nat i + 1))) reqs,
   hits + Z.of_nat (length reqs), stopped).
Proof.
  intros Hc Hno. revert hits stopped Hno.
  induction Hc as [|[[r hs] s] reqs (Hm & Hp & Hok & Hl) _ IH]; intros hits stopped Hno Hh Hlt; cbn [session imap length].
  { f_equal. f_equal. lia. }
  inversion Hno as [|? ? Hq Hno']; subst. destruct (Hq hits stopped) as [Hd Hw].
  destruct (api_dispatch open_file stat_file overlay_address on_connect serve_dir rf
    (fresh_request hits stopped r hs s) eq_refl Hok Hl Hd Hw) as (resp & req' & -> & Ha & _).
  change (req_path (fresh_request hits stopped r hs s)) with (hr_path r) in Ha.
  unfold req_method in Ha. cbn [fresh_request req_resource] in Ha. rewrite Hm, Hp in Ha.
  change (api_spec id_get [str "counted"]) with ACount in Ha. destruct Ha as [-> Hb].
  cbn [length] in Hlt. rewrite Hb. unfold count_hit. cbn [ab_hits ab_stop req_body fresh_request].
  rewrite Z.mod_small by (unfold size_max in *; lia). rewrite IH by (done || lia).
  f_equal. f_equal; [|lia].
  f_equal; [by replace (hits + Z.of_nat 0 + 1) with (hits + 1) by lia|].
  apply imap_ext. intros i x _. cbn beta.
  by replace (hits + 1 + Z.of_nat i + 1) with (hits + Z.of_nat (Datatypes.S i) + 1) by lia.
Qed.
End Session.

(** A POST of a name's value, and a name nobody has. *)
Lemma nhttpd_api_answers_witness :
  let req m path := mk_request (mk_resource m path path [] 1 1) []
    (mk_app (memory_stream_new (str "hello")) None 41 false false) (str "h") tags_empty in
  let serve r := from_option fst response_default
    (nhttpd_dispatch (W := wire) example_open example_stat 1 (fun c => fd_source (ws_feed c)) (str "www") 64 r) in
  serve (req POST (str "/jay/set")) = text (str "hello") /\
  serve (req GET (str "/counted")) = text (str "hit #42") /\
  serve (req GET (str "/mallory/profile")) = make_response 404 /\
  resp_status (serve (req GET (str "/a.txt"))) = 200.
Proof.
  intros req serve.
  assert (forall m path, st_ok (ab_body (req_body (req m path)))) as Hok by (intros m path; cbn; unfold ms_wf; cbn; lia).
  assert (forall m path, (length (st_data (ab_body (req_body (req m path)))) < 64)%nat) as Hl
    by (intros; apply Nat.ltb_lt; reflexivity).
  pose proof (fun m path => nhttpd_api_answers (W := wire) example_open example_stat 1
    (fun c => fd_source (ws_feed c)) (str "www") 64 (req m path) eq_refl (Hok m path) (Hl m path)) as H.
  clear Hok Hl. unfold serve. split_and!.
  - specialize (H POST (str "/jay/set")). destruct (ext_wants _ _) as [b r1] eqn:E.
    apply (f_equal fst) in E. vm_compute in E. subst b. destruct H as (resp & req' & -> & Ha & _). apply Ha.
  - specialize (H GET (str "/counted")). destruct (ext_wants _ _) as [b r1] eqn:E.
    apply (f_equal fst) in E. vm_compute in E. subst b. destruct H as (resp & req' & -> & Ha & _). apply Ha.
  - specialize (H GET (str "/mallory/profile")). destruct (ext_wants _ _) as [b r1] eqn:E.
    apply (f_equal fst) in E. vm_compute in E. subst b. destruct H as (resp & req' & -> & Ha & _). apply Ha.
  - vm_compute. reflexivity.
Defined.
