(* ===== verification/NhttpdWire.v ===== *)
(** * NhttpdWire: the demo server from the bytes of a connection to the bytes of its answers

    [Nhttpd] says what the program answers to a request; here its registry sits
    behind the listener: a connection's bytes are cut into requests, each goes
    through the overlay, the endpoint, the router, its groups, predicates and
    middlewares, and the answers are written in order.  The hit counter lives
    across the requests of the connection. *)

From S2P Require Import Prelude Bytes Stream Feeder Method Header Resource Status Mime Chunked Http1Io Server.
From S2P Require Import VPath Router StaticContent FileExtensions WsConnection WebsocketEndpoint Connection ConnectionFacts ConnectionH2 Listener ListenerFacts Nhttpd.

#[local] Open Scope Z_scope.

(** ** A request's body as a stream *)
Section Body.
Context {W : Type} `{StreamReads W} (fuel : nat).

(** Dynamic dispatch over the three body streams. *)
#[local] Instance body_Stream : Stream (body_stream W) := {
  st_get_length b := match b with BodyChunked _ => -1 | BodyLength r => st_get_length r | BodyNone m => st_get_length m end;
  st_can_seek b := match b with BodyChunked _ => false | BodyLength r => st_can_seek r | BodyNone m => st_can_seek m end;
  st_seek off o b :=
    match b with
    | BodyChunked _ => (-1, b)
    | BodyLength r => let '(pos, r) := st_seek off o r in (pos, BodyLength r)
    | BodyNone m => let '(pos, m) := st_seek off o m in (pos, BodyNone m)
    end;
  st_read := body_read fuel;
  st_write bs b :=
    match b with
    | BodyChunked _ => (0%nat, b)
    | BodyLength r => let '(k, r) := st_write bs r in (k, BodyLength r)
    | BodyNone m => let '(k, m) := st_write bs m in (k, BodyNone m)
    end;
}.

Definition body_fits (b : body_stream W) : Prop :=
  match b with BodyChunked c => ck_fits fuel c | BodyLength r => st_ok r | BodyNone m => st_ok m end.

#[local, refine] Instance body_StreamReads : StreamReads (body_stream W) := {
  st_data := body_data;
  st_ok := body_fits;
}.
Proof.
  intros n b out b' Hn Hok. destruct b as [c|r|m]; cbn [st_read body_Stream body_read body_fits body_data] in *.
  - destruct (@st_read _ (chunked_Stream fuel) n c) as [o c'] eqn:Hr. intros [= <- <-].
    apply (@st_read_spec _ _ (chunked_StreamReads fuel) n c o c' Hn Hok Hr).
  - destruct (st_read n r) as [o r'] eqn:Hr. intros [= <- <-]. apply (st_read_spec n r o r' Hn Hok Hr).
  - destruct (st_read n m) as [o m'] eqn:Hr. intros [= <- <-]. apply (st_read_spec n m o m' Hn Hok Hr).
Defined.
End Body.

(** ** The program behind a connection *)

(** What the handlers share: the counter, and whether the server was stopped. *)
Record shared := mk_shared { sh_hits : Z; sh_stop : bool }.

Section Server.
Context {W F : Type} `{StreamDuplex W} `{StreamReads F}.
Context (open_file : bytes -> Z -> option F) (stat_file : bytes -> file_info) (overlay_address : nat).
Context (on_connect : ws_connection W -> W) (serve_dir : bytes) (bf rf : nat).

#[local] Instance request_Stream : Stream (body_stream W) := body_Stream bf.
#[local] Instance request_StreamReads : StreamReads (body_stream W) := body_StreamReads bf.

Definition app_enter (x : shared) (b : body_stream W) : app_body (body_stream W) :=
  mk_app b None (sh_hits x) (sh_stop x) false.

Definition app_leave (a : app_body (body_stream W)) : body_stream W * shared :=
  (ab_body a, mk_shared (ab_hits a) (ab_stop a)).

Definition program : list (extension (app_body (body_stream W)) W) :=
  nhttpd_registry open_file stat_file overlay_address on_connect serve_dir rf.
Abbreviation files := (static_files (S := body_stream W) (W := W) open_file stat_file overlay_address serve_dir).

(** The request the extensions see of a message. *)
Definition api_request (m : http_message) (x : shared) (b : body_stream W) : request (app_body (body_stream W)) :=
  mk_request (msg_resource m) (msg_headers m) (app_enter x b) (extract_hostname (msg_headers m)) tags_empty.

(** The table's entry for a message. *)
Definition api_entry (m : http_resource) : api_answer :=
  api_spec (hm_id (hr_method m)) (segments (vpath_remainder (str "/") (hr_path m))).

(** A message for the REST API: no served file, no upgrade, and not the one
    that stops the server. *)
Definition api_message (m : http_message) : Prop :=
  (forall x b, (ext_wants files (api_request m x b)).1 = false /\
               (websocket_wants (str "/ws") (api_request m x b)).1 = false) /\
  api_entry (msg_resource m) <> AExit /\ (length (msg_body m) < rf)%nat.

Definition html (t : bytes) : answer :=
  mk_answer 200 (headers_set CONTENT_TYPE TEXT_HTML []) (Some t) (Z.of_nat (length t)).
Definition bare (code : Z) : answer := mk_answer code [] None 0.

(** What goes over the wire, and what the counter becomes. *)
Definition wire_spec (x : shared) (r : http_resource) (_ : http_headers) (body : bytes) : option (answer * shared) :=
  let hits := (sh_hits x + 1) mod size_max in
  match api_entry r with
  | AText t => Some (html t, x)
  | ACode c => Some (bare c, x)
  | ACount => Some (html (str "hit #" ++ to_string hits), mk_shared hits (sh_stop x))
  | AExit => Some (html (str "server exiting..."), mk_shared (sh_hits x) true)
  | ASet empty_allowed =>
      Some (if bytes_eqb body [] && negb empty_allowed then bare 400 else html body, x)
  end.

Lemma text_answers t : ConnectionFacts.answers (text (W := W) t) (html t).
Proof. split_and!; try done. split; [apply Nat.le_0_l|done]. Qed.

Lemma code_answers c : ConnectionFacts.answers (make_response (W := W) c) (bare c).
Proof. by split_and!. Qed.

(** Reading a whole body advances it and nothing else. *)
Lemma read_all_advances k (b : body_stream W) acc out b' :
  plain_body b -> body_ok b -> read_all k b acc = Some (out, b') -> advances b b'.
Proof.
  revert b acc. induction k as [|k IH]; intros b acc Hp Hok; [done|]. cbn [read_all st_read request_Stream body_Stream].
  destruct (body_read bf chunk_size b) as [o b1] eqn:E.
  destruct (body_read_advances _ _ _ _ _ chunk_size_pos Hp Hok E) as (Ha & Hp1 & _).
  destruct o as [|y o]; [by intros [= _ <-]|]. intros Hr. eapply advances_trans; [exact Ha|].
  apply (IH b1 (acc ++ y :: o)); [done|apply Ha|done].
Qed.

(** The connection's handler answers a message of the API as the table says. *)
Lemma api_serves m : api_message m -> ConnectionFacts.serves (connection_dispatch app_enter app_leave program None) wire_spec m.
Proof.
  intros (Hno & Hex & Hl) x [r hs b host tags] (Hr & Hh & Ht & Hn & Hp & Hok & Hd). cbn in Hr, Hh, Ht, Hn, Hp, Hok, Hd. subst r hs host tags.
  destruct (Hno x b) as [Hf Hw].
  assert (st_ok b) as Hfit by by destruct b.
  destruct (api_dispatch open_file stat_file overlay_address on_connect serve_dir rf (api_request m x b) eq_refl Hfit)
    as (resp & req' & E & Ha & _ & _ & Hr' & Hh'); [by cbn; rewrite Hd|done|done|].
  unfold nhttpd_dispatch in E. fold program in E. unfold msg_answer, wire_spec. fold (api_entry (msg_resource m)).
  change (api_spec _ _) with (api_entry (msg_resource m)) in Ha.
  cbn [api_request req_body app_enter ab_body ab_hits ab_stop ab_tag] in Ha.
  assert (forall a x', ab_hits (req_body req') = sh_hits x' -> ab_stop (req_body req') = sh_stop x' ->
    ConnectionFacts.answers resp a -> advances b (ab_body (req_body req')) ->
    exists r q, connection_dispatch app_enter app_leave program None x
        (mk_request (msg_resource m) (msg_headers m) b (extract_hostname (msg_headers m)) tags_empty) = Some (r, q, x') /\
      ConnectionFacts.answers r a /\ req_resource q = msg_resource m /\ req_headers q = msg_headers m /\
      advances b (req_body q)) as Hend.
  { intros a [h s] Eh Es Hans Hadv. cbn in Eh, Es. unfold connection_dispatch. cbn [req_resource req_headers req_body req_hostname req_tags].
    fold (api_request m x b). rewrite E. cbn [mbind option_bind app_leave]. rewrite Eh, Es.
    eexists _, _. split; [reflexivity|]. cbn. by split_and!. }
  cbn [req_resource req_headers req_body].
  pose proof (advances_refl b Hok) as Hrefl.
  destruct (api_entry (msg_resource m)) as [t|c| | |e]; cbn [Nhttpd.answers] in Ha; [| | |done|].
  - destruct Ha as [-> Hb]. apply Hend; rewrite ?Hb; first [done|apply text_answers].
  - destruct Ha as [-> Hb]. apply Hend; rewrite ?Hb; first [done|apply code_answers].
  - destruct Ha as [-> Hb]. apply Hend; rewrite ?Hb; first [done|apply text_answers].
  - change (ab_body (app_enter x b)) with b in Ha. change (st_data b) with (body_data b) in Ha. rewrite Hd in Ha.
    destruct Ha as (-> & s & Er & Hb & _). apply Hend; rewrite ?Hb; try done; [destruct (bytes_eqb _ _ && _); [apply code_answers|apply text_answers]|].
    by eapply read_all_advances.
Qed.

(** The API never throws; it counts the requests for /counted modulo 2^64. *)
Definition is_count (ma : http_message * answer) : bool :=
  match api_entry (msg_resource ma.1) with ACount => true | _ => false end.

Lemma exchange_api x ms :
  Forall api_message ms -> 0 <= sh_hits x < size_max ->
  let '(l, x', thrown) := exchange wire_spec x ms in
  thrown = false /\ sh_stop x' = sh_stop x /\
  sh_hits x' = (sh_hits x + Z.of_nat (length (List.filter is_count l))) mod size_max.
Proof.
  intros Hms. revert x. induction Hms as [|m ms (_ & Hex & _) _ IH]; intros x Hx; cbn [exchange].
  { cbn. rewrite Z.add_0_r, Z.mod_small by done. done. }
  assert (exists a x1, msg_answer wire_spec x m = Some (a, x1) /\ sh_stop x1 = sh_stop x /\
    sh_hits x1 = (sh_hits x + if is_count (m, a) then 1 else 0) mod size_max) as (a & x1 & E & Es & Eh).
  { unfold msg_answer, wire_spec, is_count. cbn [fst].
    destruct (api_entry (msg_resource m)); try done; eexists _, _; split_and!; try done;
      by rewrite Z.add_0_r, Z.mod_small. }
  rewrite E. assert (0 <= sh_hits x1 < size_max) as Hx1 by (rewrite Eh; by apply Z.mod_pos_bound).
  destruct (msg_keep_alive m).
  - specialize (IH x1 Hx1). destruct (exchange wire_spec x1 ms) as [[l x'] thrown]. destruct IH as (-> & -> & Eh').
    split_and!; [done|done|]. rewrite Eh', Eh. cbn [List.filter]. rewrite Zplus_mod_idemp_l.
    f_equal. destruct (is_count (m, a)); cbn [length]; lia.
  - split_and!; [done|done|]. rewrite Eh. cbn [List.filter]. by destruct (is_count (m, a)).
Qed.

Context (p : params) (clock : nat -> Z).

(** C2: The demo server from bytes to bytes: a connection on which well-formed length-framed API
    requests arrive back to back, cut into segments in any way, is answered request by request
    with exactly the responses the program's table of routes names (through the listener's
    peek, the HTTP/1.1 loop, the registry, the mounts, the router with its groups, predicates
    and middlewares), the body of a POST or PUT echoed in full, and the hit counter numbered
    on across the requests; nothing throws and nothing else is written. *)
Theorem nhttpd_serves_wire ms fuel hits (w : W) :
  Forall api_message ms -> Forall (msg_wf p) ms -> 0 <= hits < size_max ->
  st_ok w -> st_data w = concat (map msg_text ms) -> take 4 (st_data w) <> str "PRI " ->
  (2 * length (st_data w) + 5 + length ms < fuel)%nat ->
  let '(replies, x', _) := exchange wire_spec (mk_shared hits false) ms in
  (forall m a k, (m, a) ∈ replies -> (answer_cost (W := W) p (clock k) a (msg_keep_alive m) + length ms < fuel)%nat) ->
  exists c' text,
    handle_connection p clock app_enter app_leave fuel program None (mk_shared hits false) w =
      Some (DrivenH1 (RunDone c'), x') /\
    st_written (cn_wire c') = st_written w ++ text /\ responses_text (W := W) p clock 0 replies text /\
    x' = mk_shared ((hits + Z.of_nat (length (List.filter is_count replies))) mod size_max) false.
Proof.
  intros Hapi Hwf Hh Hok Hraw Hpri Hf.
  assert (Forall (ConnectionFacts.serves (connection_dispatch app_enter app_leave program None) wire_spec) ms) as Hs
    by (eapply Forall_impl; [exact Hapi|apply api_serves]).
  destruct (listener_tells_protocols p clock app_enter app_leave program None fuel (mk_shared hits false) w Hok ltac:(lia))
    as (w' & peeked & Hd & Hok' & Hw' & Eh). rewrite decide_False in Eh by done.
  pose proof (run_pipelined p clock _ wire_spec ms (mk_shared hits false) (connection_new w' peeked) fuel Hs Hwf Hok' eq_refl) as HR.
  pose proof (exchange_api (mk_shared hits false) ms Hapi Hh) as Hx.
  destruct (exchange wire_spec (mk_shared hits false) ms) as [[l [hits' stop']] thrown].
  intros Hcost. destruct Hx as (-> & Es & Ehits). cbn in Es, Ehits.
  destruct HR as (c' & text & Hr & Ht & Htx); [by rewrite <-Hraw|by unfold conn_raw; cbn; rewrite Hd; lia|exact Hcost|].
  exists c', text. rewrite Eh, Hr. split; [done|]. cbn [cn_wire connection_new] in Ht. rewrite Hw' in Ht.
  split_and!; [done|done|]. by rewrite Es, Ehits.
Qed.

(** The HTTPS listener of [main_tls] has the same registry: over an established
    session, whatever stream carries it, the answers are the same. *)
Lemma nhttpd_serves_session ms fuel hits (w : W) :
  Forall api_message ms -> Forall (msg_wf p) ms -> 0 <= hits < size_max ->
  st_ok w -> st_data w = concat (map msg_text ms) -> (2 * length (st_data w) + 3 + length ms < fuel)%nat ->
  let '(replies, x', _) := exchange wire_spec (mk_shared hits false) ms in
  (forall m a k, (m, a) ∈ replies -> (answer_cost (W := W) p (clock k) a (msg_keep_alive m) + length ms < fuel)%nat) ->
  exists c' text,
    handle_connection_tls p clock app_enter app_leave fuel program None (mk_shared hits false) (Some w) =
      Some (Some (RunDone c'), x') /\
    st_written (cn_wire c') = st_written w ++ text /\ responses_text (W := W) p clock 0 replies text.
Proof.
  intros Hapi Hwf Hh Hok Hraw Hf.
  assert (Forall (ConnectionFacts.serves (connection_dispatch app_enter app_leave program None) wire_spec) ms) as Hs
    by (eapply Forall_impl; [exact Hapi|apply api_serves]).
  pose proof (listener_tls_serves_pipelined p clock app_enter app_leave program None wire_spec ms fuel
    (mk_shared hits false) w Hs Hwf Hok Hraw Hf) as HR.
  pose proof (exchange_api (mk_shared hits false) ms Hapi Hh) as Hx.
  destruct (exchange wire_spec (mk_shared hits false) ms) as [[l x'] thrown].
  intros Hcost. destruct Hx as (-> & _). exact (HR Hcost).
Qed.
End Server.

(** ** A session: a profile, a body, and two hits, cut into odd segments *)

Definition demo_session : list http_message :=
  [ mk_msg (str "GET") (str "/jay/profile") 1 [] [];
    mk_msg (str "POST") (str "/kay/set") 1 [mk_header (str "Content-Length") (str "5")] (str "hello");
    mk_msg (str "GET") (str "/counted") 1 [] [];
    mk_msg (str "GET") (str "/counted") 1 [] [] ].

Definition demo_session_wire : wire :=
  let text := concat (map msg_text demo_session) in mk_wire [take 2 text; take 50 (drop 2 text); drop 52 text] [] [3%nat].

Definition no_file (path : bytes) (size : Z) : option memory_stream := None.

Lemma demo_session_wf : Forall (msg_wf params_default) demo_session.
Proof.
  assert (forall a b, (a <=? b)%Z = true -> (Z.to_nat a <= Z.to_nat b)%nat) as Hle.
  { intros a b Hab. apply Z.leb_le in Hab. lia. }
  repeat (apply Forall_cons; split); [..|constructor].
  all: split_and!; try (by apply (bool_decide_unpack _)); try lia; try reflexivity.
  all: try (apply (Hle (Z.of_nat _)); reflexivity).
  all: try (cbn; lia).
Qed.

Lemma demo_session_api :
  Forall (api_message (W := wire) no_file example_stat 1 (str "www") 64) demo_session.
Proof.
  repeat (apply Forall_cons; split); [..|constructor].
  all: split; [intros x b; split; reflexivity|split; [by vm_compute|apply Nat.ltb_lt; reflexivity]].
Qed.

(** The four answers, and the cost of each. *)
Definition demo_replies : list (http_message * answer) :=
  combine demo_session [html (str "jay is ..."); html (str "hello"); html (str "hit #42"); html (str "hit #43")].

Lemma demo_exchange : exchange wire_spec (mk_shared 41 false) demo_session = (demo_replies, mk_shared 43 false, false).
Proof. vm_compute. reflexivity. Qed.

Lemma demo_cost m a :
  (m, a) ∈ demo_replies ->
  (answer_cost (W := wire) params_default 0 a (msg_keep_alive m) + length demo_session < Z.to_nat 9000)%nat.
Proof.
  intros Hm. unfold answer_cost. rewrite chunk_size_eq.
  assert (length (answer_head (W := wire) params_default 0 a (msg_keep_alive m)) <= 160 /\
          length (default [] (an_body a)) <= 10)%nat as [H1 H2].
  { split; apply Nat.leb_le; repeat (apply elem_of_cons in Hm as [[= -> ->]|Hm]; [vm_compute; reflexivity|]);
      by apply elem_of_nil in Hm. }
  change (length demo_session) with 4%nat. lia.
Qed.

Lemma nhttpd_serves_wire_witness :
  exists c' text,
    handle_connection params_default (fun _ => 0) app_enter app_leave (Z.to_nat 9000)
      (program no_file example_stat 1 (fun c => fd_source (ws_feed c)) (str "www") 64 64)
      None (mk_shared 41 false) demo_session_wire = Some (DrivenH1 (RunDone c'), mk_shared 43 false) /\
    w_out (cn_wire c') = text /\ responses_text (W := wire) params_default (fun _ => 0) 0 demo_replies text.
Proof.
  pose proof (nhttpd_serves_wire no_file example_stat 1 (fun c => fd_source (ws_feed c)) (str "www") 64 64
    params_default (fun _ => 0) demo_session (Z.to_nat 9000) 41 demo_session_wire demo_session_api demo_session_wf) as H.
  rewrite demo_exchange in H. cbv iota beta in H. destruct H as (c' & text & Hr & Hw & Ht & _).
  - by split.
  - done.
  - vm_compute. reflexivity.
  - discriminate.
  - replace (length (st_data demo_session_wire)) with 129%nat by (vm_compute; reflexivity). cbn [length demo_session]. lia.
  - intros m a k. apply demo_cost.
  - exists c', text. split; [exact Hr|]. split; [exact Hw|exact Ht].
Defined.
