(* ===== verification/BenchCounter.v ===== *)
(** * The counter benchmark: src/benchmark/docker/nhttp/bench_counter_main.cpp

    Every request reads a number out of a file, adds one and writes it back, on
    the blocking pool's threads and under one mutex.  The steps of the jobs
    interleave; the file is what stdio's calls leave on disk. *)

From S2P Require Import Prelude Bytes Server Mime Address Nhttpd.

#[local] Open Scope Z_scope.

(** ** read_increment_write *)

(** [std::atol]: blanks, a sign, digits up to the first other character;
    [None] where the number is no [long]. *)
Definition atol (s : bytes) : option Z :=
  let s := trim_front is_blank s in
  let '(negative, s) :=
    match s with
    | c :: r => if Byte.eqb c "-" then (true, r) else if Byte.eqb c "+" then (false, r) else (false, s)
    | [] => (false, s)
    end in
  let v := eval_digits 10 0 (map digit_value (leading_digits s)) in
  i64_checked (if (negative : bool) then - v else v).

(** [rewind] and [fwrite] over what the file held; it is not truncated. *)
Definition rewrite_front (out content : bytes) : bytes := out ++ drop (length out) content.

(** Where a job is suspended, [n] its [n]. *)
Inductive counter_job :=
| CLock                  (** before [lock(counter_file_mutex)] *)
| COpen
| CRead
| CWrite (n : Z)
| CUnlock (n : Z)        (** before the guard's destructor *)
| CReturned (n : Z).

Record counter := mk_counter {
  ct_file : option bytes;      (** the file's content, [None] when it does not exist *)
  ct_mutex : option nat;       (** the job that holds it *)
  ct_jobs : list counter_job;
}.

(** One step of job [t]; [opens] says whether "r+" and "w+" succeed.  [None] is
    a job that waits or is done, and [atol]'s or the increment's overflow. *)
Definition counter_step (t : nat) (opens : bool * bool) (s : counter) : option counter :=
  job ← ct_jobs s !! t;
  let to job' file := Some (mk_counter file (ct_mutex s) (<[t := job']> (ct_jobs s))) in
  match job with
  | CLock =>
      match ct_mutex s with
      | None => Some (mk_counter (ct_file s) (Some t) (<[t := COpen]> (ct_jobs s)))
      | Some _ => None
      end
  | COpen =>
      match ct_file s, opens with
      | Some _, (true, _) => to CRead (ct_file s)
      | _, (_, true) => to CRead (Some [])
      | _, _ => to (CUnlock (-1)) (ct_file s)
      end
  | CRead =>
      content ← ct_file s;
      v ← atol (take 63 content);
      n ← i64_checked (v + 1);
      to (CWrite n) (ct_file s)
  | CWrite n =>
      content ← ct_file s;
      to (CUnlock n) (Some (rewrite_front (to_string n) content))
  | CUnlock n => Some (mk_counter (ct_file s) None (<[t := CReturned n]> (ct_jobs s)))
  | CReturned _ => None
  end.

(** The handler answers what its job returned. *)
Definition counter_answer {W} (n : Z) : response W := make_response_text (to_string n) TEXT_HTML.

(** ** main *)

(** [argv[1]] is the port; a failed listen exits with 1. *)
Definition counter_main (o : platform_outcomes) (argv : list bytes) : option (Z * list main_event) :=
  port ← match argv !! 1%nat with Some s => to_u16 <$> atoi s | None => Some 8080 end;
  Some (if bound o 0 port then (0, [Bound false (mk_ep any_v4 port); Served]) else (1, [])).

Definition counter_path (argv : list bytes) : bytes := default (str "/tmp/nhttp_counter.txt") (argv !! 2%nat).

(** ** Every request counts *)

Definition start (file : option bytes) (k : nat) : counter := mk_counter file None (replicate k CLock).

(** The file is opened when it exists and created when it does not. *)
Inductive counter_reach (s0 : counter) : counter -> Prop :=
| cr_refl : counter_reach s0 s0
| cr_step s t s' : counter_reach s0 s -> counter_step t (true, true) s = Some s' -> counter_reach s0 s'.

(** What a counter file that says [n] holds. *)
Definition says (n : Z) (file : option bytes) : Prop :=
  file = Some (to_string n) \/ n = 0 /\ (file = None \/ file = Some []).

Definition result (j : counter_job) : option Z :=
  match j with CUnlock n | CReturned n => Some n | _ => None end.
Definition results (s : counter) : list Z := omap result (ct_jobs s).

Definition inside (j : counter_job) : bool :=
  match j with CLock | CReturned _ => false | _ => true end.

Definition job_ok (n : Z) (file : option bytes) (j : counter_job) : Prop :=
  match j with CRead => file <> None | CWrite m => file <> None /\ m = n + 1 | _ => True end.

Section Count.
Context (n0 : Z) (k : nat).
Hypothesis Hn0 : 0 <= n0.
Hypothesis Hmax : n0 + Z.of_nat k <= i64_max.

Definition counted_to (s : counter) : Z := n0 + Z.of_nat (length (results s)).

Record counting (s : counter) : Prop := mk_counting {
  co_jobs : length (ct_jobs s) = k;
  co_file : says (counted_to s) (ct_file s);
  co_results : results s ≡ₚ map (fun i => n0 + Z.of_nat i) (seq 1 (length (results s)));
  co_inside : forall t j, ct_jobs s !! t = Some j -> inside j = true -> ct_mutex s = Some t;
  co_owner : forall t, ct_mutex s = Some t -> exists j, ct_jobs s !! t = Some j /\ inside j = true;
  co_ok : forall t j, ct_jobs s !! t = Some j -> job_ok (counted_to s) (ct_file s) j;
}.

Lemma digits_values ds : Forall (fun d => 0 <= d < 10) ds -> map digit_value (leading_digits (map dec_digit ds)) = ds.
Proof.
  induction 1 as [|d ds Hd _ IH]; [done|]. cbn [map leading_digits].
  destruct (dec_digit_spec d Hd) as [-> E]. cbn [map]. by rewrite E, IH.
Qed.

Lemma atol_to_string v : 0 <= v <= i64_max -> atol (take 63 (to_string v)) = Some v.
Proof.
  intros Hv. destruct (to_string_digits v ltac:(lia)) as (ds & E & Hne & Hr & He).
  rewrite take_ge.
  2:{ unfold to_string. destruct (Z.ltb_spec v 0); [lia|]. rewrite length_map. apply digits_length; [lia..|].
      split; [lia|]. eapply Z.le_lt_trans; [apply Hv|]. by vm_compute. }
  rewrite E. destruct ds as [|d ds]; [done|]. unfold atol. cbn [map].
  inversion Hr as [|? ? Hd Hds]; subst. destruct (dec_digit_spec d Hd) as [Hdig _].
  assert (is_blank (dec_digit d) = false /\ Byte.eqb (dec_digit d) "-" = false /\ Byte.eqb (dec_digit d) "+" = false)
    as (Hb & Hm & Hp).
  { unfold is_digit in Hdig. bool_to_prop. unfold is_blank. split_and!.
    - apply orb_false_iff. split; [apply Z.eqb_neq; lia|]. apply andb_false_iff. right. apply Z.leb_gt. lia.
    - destruct (Byte.eqb _ _) eqn:Eq; [|done]. apply Byte.byte_dec_bl in Eq. rewrite Eq in *. cbn in *. lia.
    - destruct (Byte.eqb _ _) eqn:Eq; [|done]. apply Byte.byte_dec_bl in Eq. rewrite Eq in *. cbn in *. lia. }
  cbn [trim_front]. rewrite Hb, Hm, Hp. change (dec_digit d :: map dec_digit ds) with (map dec_digit (d :: ds)).
  rewrite digits_values by done. rewrite i64_checked_in; [done|]. unfold i64_max in *. lia.
Qed.

Lemma eval_digits_below ds acc :
  Forall (fun d => 0 <= d < 10) ds -> eval_digits 10 acc ds < (acc + 1) * 10 ^ Z.of_nat (length ds).
Proof.
  intros H. revert acc. induction H as [|d ds Hd _ IH]; intros acc; [cbn; lia|].
  cbn [eval_digits fold_left length]. fold (eval_digits 10 (acc * 10 + d) ds).
  rewrite Nat2Z.inj_succ, Z.pow_succ_r by lia. specialize (IH (acc * 10 + d)).
  assert (0 < 10 ^ Z.of_nat (length ds)) by lia. nia.
Qed.

(** The text of the next number is no shorter. *)
Lemma to_string_longer v : 0 <= v -> (length (to_string v) <= length (to_string (v + 1)))%nat.
Proof.
  intros Hv. destruct (to_string_digits (v + 1) ltac:(lia)) as (ds & -> & Hne & Hr & He).
  pose proof (eval_digits_below ds 0 Hr) as Hb. rewrite He in Hb.
  unfold to_string. destruct (Z.ltb_spec v 0); [lia|]. rewrite !length_map.
  apply digits_length; [lia|destruct ds; [done|cbn; lia]|lia].
Qed.

Lemma rewrite_next v : 0 <= v -> rewrite_front (to_string (v + 1)) (to_string v) = to_string (v + 1).
Proof. intros. unfold rewrite_front. rewrite drop_ge, app_nil_r; [done|]. by apply to_string_longer. Qed.

Lemma results_keep t j j' (jobs : list counter_job) :
  jobs !! t = Some j -> result j' = result j -> omap result (<[t := j']> jobs) = omap result jobs.
Proof.
  intros Ht E. revert t Ht. induction jobs as [|x jobs IH]; intros [|t] Ht; cbn in *; [done..| |].
  - injection Ht as ->. by rewrite E.
  - by rewrite IH.
Qed.

Lemma results_more t j j' n (jobs : list counter_job) :
  jobs !! t = Some j -> result j = None -> result j' = Some n ->
  omap result (<[t := j']> jobs) ≡ₚ n :: omap result jobs.
Proof.
  intros Ht E E'. revert t Ht. induction jobs as [|x jobs IH]; intros [|t] Ht; cbn in *; [done..| |].
  - injection Ht as ->. by rewrite E, E'.
  - specialize (IH t Ht). destruct (result x); [|exact IH]. by rewrite IH, Permutation_swap.
Qed.

Lemma results_length (jobs : list counter_job) : (length (omap result jobs) <= length jobs)%nat.
Proof. induction jobs as [|x jobs IH]; cbn; [done|]. destruct (result x); cbn; lia. Qed.

Lemma results_fewer t j (jobs : list counter_job) :
  jobs !! t = Some j -> result j = None -> (length (omap result jobs) < length jobs)%nat.
Proof.
  intros Ht E. revert t Ht. induction jobs as [|x jobs IH]; intros [|t] Ht; [done..| |].
  - injection Ht as ->. cbn. rewrite E. pose proof (results_length jobs). lia.
  - specialize (IH t Ht). cbn. destruct (result x); cbn; lia.
Qed.

Lemma results_start file : results (start file k) = [].
Proof. unfold results, start. cbn [ct_jobs]. generalize k. intros m. by induction m. Qed.

Lemma counting_start file : says n0 file -> counting (start file k).
Proof.
  intros Hs. split; unfold counted_to; rewrite ?results_start; cbn [ct_jobs start].
  - apply length_replicate.
  - by rewrite Z.add_0_r.
  - done.
  - by intros t j [-> _]%lookup_replicate_1.
  - done.
  - by intros t j [-> _]%lookup_replicate_1.
Qed.

(** One job goes on while no other is inside. *)
Lemma counting_at s t j j' file' (s' := mk_counter file' (if inside j' then Some t else None) (<[t := j']> (ct_jobs s))) :
  counting s -> ct_jobs s !! t = Some j -> ct_mutex s = None \/ ct_mutex s = Some t ->
  says (counted_to s') file' -> results s' ≡ₚ map (fun i => n0 + Z.of_nat i) (seq 1 (length (results s'))) ->
  job_ok (counted_to s') file' j' -> counting s'.
Proof.
  intros Hc Ht Hm Hs Hr Hok. pose proof (lookup_lt_Some _ _ _ Ht) as Hlt.
  assert (forall t' x, t <> t' -> ct_jobs s !! t' = Some x -> inside x = false) as Hout.
  { intros t' x Hne Hx. destruct (inside x) eqn:Ei; [|done]. pose proof (co_inside s Hc t' x Hx Ei).
    destruct Hm; congruence. }
  split; [by rewrite <-(co_jobs s Hc); apply length_insert|done|done| | |]; cbn [s' ct_jobs ct_mutex ct_file].
  - intros t' x. destruct (decide (t = t')) as [<-|Hne].
    + rewrite list_lookup_insert_eq by done. by intros [= <-] ->.
    + rewrite list_lookup_insert_ne by done. intros Hx E. by rewrite (Hout _ _ Hne Hx) in E.
  - intros t' E'. destruct (inside j') eqn:Ei; [|done]. injection E' as <-. exists j'. by rewrite list_lookup_insert_eq.
  - intros t' x. destruct (decide (t = t')) as [<-|Hne].
    + rewrite list_lookup_insert_eq by done. by intros [= <-].
    + rewrite list_lookup_insert_ne by done. intros Hx%(Hout _ _ Hne). by destruct x.
Qed.

Lemma counting_keep s t j j' file' :
  counting s -> ct_jobs s !! t = Some j -> ct_mutex s = None \/ ct_mutex s = Some t -> result j' = result j ->
  says (counted_to s) file' -> job_ok (counted_to s) file' j' ->
  counting (mk_counter file' (if inside j' then Some t else None) (<[t := j']> (ct_jobs s))).
Proof.
  intros Hc Ht Hm Hr Hs Hok.
  assert (results (mk_counter file' (if inside j' then Some t else None) (<[t := j']> (ct_jobs s))) = results s) as E
    by (unfold results; by eapply results_keep).
  apply (counting_at s t j); try done; unfold counted_to in *; rewrite E; [done|apply Hc|done].
Qed.

Lemma counting_count s t j file' n :
  counting s -> ct_jobs s !! t = Some j -> ct_mutex s = Some t -> result j = None ->
  n = counted_to s + 1 -> file' = Some (to_string n) ->
  counting (mk_counter file' (Some t) (<[t := CUnlock n]> (ct_jobs s))).
Proof.
  intros Hc Ht Hm Hr En ->.
  assert (results (mk_counter (Some (to_string n)) (Some t) (<[t := CUnlock n]> (ct_jobs s))) ≡ₚ n :: results s) as E
    by (unfold results; by eapply results_more).
  assert (counted_to (mk_counter (Some (to_string n)) (Some t) (<[t := CUnlock n]> (ct_jobs s))) = n) as Ec.
  { unfold counted_to in *. rewrite E. cbn [length]. lia. }
  apply (counting_at s t j (CUnlock n) (Some (to_string n)) Hc Ht); cbn [inside]; [by right|rewrite Ec; by left| |done].
  rewrite E. cbn [length]. rewrite seq_S, map_app. cbn [map]. rewrite <-(co_results s Hc).
  unfold counted_to in En. rewrite En, Permutation_app_comm. cbn [app].
  by replace (n0 + Z.of_nat (length (results s)) + 1) with (n0 + Z.of_nat (1 + length (results s))) by lia.
Qed.

(** What a job reads in the file. *)
Lemma says_read n content : 0 <= n <= i64_max -> says n (Some content) -> atol (take 63 content) = Some n.
Proof. intros Hn [[= ->]|[-> [?|[= ->]]]]; [by apply atol_to_string|done|done]. Qed.

Lemma says_next n content : 0 <= n -> says n (Some content) -> rewrite_front (to_string (n + 1)) content = to_string (n + 1).
Proof.
  intros Hn [[= ->]|[-> [?|[= ->]]]]; [by apply rewrite_next|done|].
  unfold rewrite_front. by rewrite drop_nil, app_nil_r.
Qed.

Lemma counting_step s t s' : counting s -> counter_step t (true, true) s = Some s' -> counting s'.
Proof.
  intros Hc Hst. pose proof Hc as [Hlen Hf Hres Hin Hown Hok]. unfold counter_step in Hst.
  destruct (ct_jobs s !! t) as [j|] eqn:Ht; [|done]. cbn [mbind option_bind] in Hst.
  pose proof (lookup_lt_Some _ _ _ Ht) as Hlt.
  assert (0 <= counted_to s <= i64_max) as Hn.
  { unfold counted_to. assert (length (results s) <= k)%nat; [|lia]. rewrite <-Hlen. apply results_length. }
  destruct j as [| | |n|n|n]; cbv zeta in Hst.
  - destruct (ct_mutex s) eqn:Em; [done|]. injection Hst as <-.
    apply (counting_keep s t CLock COpen); cbn; auto.
  - assert (exists file', says (counted_to s) file' /\ file' <> None /\
      s' = mk_counter file' (ct_mutex s) (<[t := CRead]> (ct_jobs s))) as (f' & ? & ? & ->).
    { destruct (ct_file s) as [c|] eqn:Ef; injection Hst as <-; [by exists (Some c)|exists (Some [])].
      split_and!; [|done..]. destruct Hf as [?|[E0 _]]; [done|]. right. split; [exact E0|by right]. }
    pose proof (Hin t COpen) as Hm. specialize (Hm Ht eq_refl). rewrite Hm. apply (counting_keep s t COpen CRead); cbn; auto.
  - destruct (ct_file s) as [c|] eqn:Ef; [|done]. cbn [mbind option_bind] in Hst.
    rewrite (says_read _ _ Hn Hf) in Hst. cbn [mbind option_bind] in Hst.
    destruct (i64_checked (counted_to s + 1)) as [n|] eqn:En; [|done]. apply i64_checked_Some in En as [-> _].
    injection Hst as <-. pose proof (Hin t CRead) as Hm. specialize (Hm Ht eq_refl). rewrite Hm.
    apply (counting_keep s t CRead (CWrite (counted_to s + 1))); cbn; auto.
  - pose proof (Hok t _ Ht) as [Hne ->]. destruct (ct_file s) as [c|] eqn:Ef; [|done].
    cbn [mbind option_bind] in Hst. rewrite says_next in Hst by (done || lia). injection Hst as <-.
    pose proof (Hin t _ Ht) as Hm. specialize (Hm eq_refl). rewrite Hm. apply (counting_count s t _ _ _ Hc Ht); auto.
  - injection Hst as <-. pose proof (Hin t _ Ht eq_refl). apply (counting_keep s t (CUnlock n) (CReturned n)); cbn; auto.
  - done.
Qed.

(** Some job can go on until all have returned. *)
Lemma counting_progress s :
  counting s -> (forall t j, ct_jobs s !! t = Some j -> exists n, j = CReturned n) \/
    exists t s', counter_step t (true, true) s = Some s'.
Proof.
  intros Hc. destruct (ct_mutex s) as [t|] eqn:Em.
  - right. exists t. destruct (co_owner s Hc t Em) as (j & Ht & Hj).
    pose proof (co_ok s Hc t j Ht) as Hok. pose proof (co_file s Hc) as Hf.
    unfold counter_step. rewrite Ht. cbn [mbind option_bind].
    destruct j as [| | |n|n|n]; try done; cbv zeta; [destruct (ct_file s); by eexists| | |by eexists].
    + destruct (ct_file s) as [c|]; [|done]. cbn [mbind option_bind].
      assert (length (results s) < k)%nat.
      { rewrite <-(co_jobs s Hc). unfold results. by eapply results_fewer. }
      assert (0 <= counted_to s <= i64_max /\ counted_to s + 1 <= i64_max) as [? ?] by (unfold counted_to; lia).
      rewrite (says_read (counted_to s)) by done. cbn [mbind option_bind].
      rewrite i64_checked_in by lia. by eexists.
    + destruct Hok as [Hne _]. destruct (ct_file s); [by eexists|done].
  - destruct (existsb (fun j => match j with CLock => true | _ => false end) (ct_jobs s)) eqn:Ex.
    + right. apply existsb_exists in Ex as (j & Hj & Hl). apply list_elem_of_In, list_elem_of_lookup in Hj as [t Ht].
      exists t. unfold counter_step. rewrite Ht. cbn. destruct j; try done. rewrite Em. by eexists.
    + left. intros t j Ht. assert (inside j = false) as Hi.
      { destruct (inside j) eqn:Ei; [|done]. pose proof (co_inside s Hc t j Ht Ei). congruence. }
      destruct j as [| | | | |n]; try done; [|by exists n]. exfalso.
      assert (existsb (fun j => match j with CLock => true | _ => false end) (ct_jobs s) = true) as Ex'; [|congruence].
      apply existsb_exists. exists CLock. split; [|done]. by eapply list_elem_of_In, list_elem_of_lookup_2.
Qed.
End Count.

(** What is left of a job, in steps. *)
Definition job_left (j : counter_job) : nat :=
  match j with CLock => 5 | COpen => 4 | CRead => 3 | CWrite _ => 2 | CUnlock _ => 1 | CReturned _ => 0 end.

Definition counter_left (s : counter) : nat := sum_list_with job_left (ct_jobs s).

Lemma counter_step_left t opens s s' : counter_step t opens s = Some s' -> (counter_left s' < counter_left s)%nat.
Proof.
  unfold counter_step. destruct (ct_jobs s !! t) as [j|] eqn:Ht; [|done]. cbn [mbind option_bind].
  assert (forall j', (job_left j' < job_left j)%nat -> (sum_list_with job_left (<[t := j']> (ct_jobs s)) < counter_left s)%nat) as Hdec.
  { intros j' Hj. unfold counter_left. revert t Ht. induction (ct_jobs s) as [|x l IH]; intros [|t] Ht; [done..| |].
    - injection Ht as ->. change (job_left j' + sum_list_with job_left l < job_left j + sum_list_with job_left l)%nat. lia.
    - specialize (IH t Ht).
      change (job_left x + sum_list_with job_left (<[t := j']> l) < job_left x + sum_list_with job_left l)%nat. lia. }
  intros E. destruct j; cbv zeta in E; repeat first [apply bind_Some in E as (? & _ & E) | case_match];
    try done; injection E as <-; apply Hdec; cbn; lia.
Qed.

(** However the requests interleave, [k] of them over a file that says [n0]
    get the next [k] numbers, each once, and leave the last one in the file;
    and they all finish, in five steps each. *)
Lemma every_request_counts file n0 k s :
  says n0 file -> 0 <= n0 -> n0 + Z.of_nat k <= i64_max -> counter_reach (start file k) s ->
  results s ≡ₚ map (fun i => n0 + Z.of_nat i) (seq 1 (length (results s))) /\
  says (n0 + Z.of_nat (length (results s))) (ct_file s) /\
  ((forall t j, ct_jobs s !! t = Some j -> exists n, j = CReturned n) /\ length (results s) = k \/
   exists t s', counter_step t (true, true) s = Some s' /\ (counter_left s' < counter_left s)%nat).
Proof.
  intros Hf Hn Hmax Hr. assert (counting n0 k s) as Hc.
  { induction Hr as [|s t s' _ IH Hst]; [by apply counting_start|by eapply counting_step]. }
  split; [apply Hc|]. split; [apply Hc|].
  destruct (counting_progress n0 k Hn Hmax s Hc) as [Hall|(t & s' & Hst)].
  - left. split; [done|]. rewrite <-(co_jobs _ _ _ Hc). unfold results.
    clear -Hall. induction (ct_jobs s) as [|j l IH]; [done|].
    destruct (Hall 0%nat j eq_refl) as [n ->]. cbn. f_equal. apply IH. intros t j'. apply (Hall (S t)).
  - right. exists t, s'. split; [done|]. by eapply counter_step_left.
Qed.

(** Two requests that overlap: the second waits for the lock. *)
Example two_requests :
  let run := fold_left (fun s t => s ≫= counter_step t (true, true)) [0; 0; 0; 0; 0; 1; 1; 1; 1; 1]%nat in
  run (Some (start (Some (str "9")) 2)) = Some (mk_counter (Some (str "11")) None [CReturned 10; CReturned 11]) /\
  (counter_step 0 (true, true) (start (Some (str "9")) 2) ≫= counter_step 1 (true, true)) = None.
Proof. split; vm_compute; reflexivity. Qed.

(** A file that is not the bare number: its tail is not overwritten, and the
    next request reads digits that nobody wrote. *)
Example stale_tail_is_read :
  let run := fold_left (fun s t => s ≫= counter_step t (true, true)) [0; 0; 0; 0; 0; 1; 1; 1; 1; 1]%nat in
  run (Some (start (Some (str " 42")) 2)) = Some (mk_counter (Some (str "433")) None [CReturned 43; CReturned 433]).
Proof. vm_compute. reflexivity. Qed.

(** "r+" that fails on an existing file: "w+" empties it and the count begins again. *)
Example failed_open_resets :
  (fold_left (fun s t => s ≫= counter_step t (false, true)) [0; 0; 0; 0; 0]%nat (Some (start (Some (str "41")) 1))) =
  Some (mk_counter (Some (str "1")) None [CReturned 1]).
Proof. vm_compute. reflexivity. Qed.

